(* ===== verification/_CoqProject ===== *)
-Q . S2P
Prelude.v
ApiTypes.v
Goroutines.v
NodePoolUtils.v
Assigner.v
AssignerFacts.v
Mutators.v
MutatorFacts.v
Hierarchy.v
ProjectCommon.v
Validation.v
ValidationFacts.v
Queues.v
QueueFacts.v
ProjectHandlers.v
RoleBindings.v
ProjectDeletion.v
ProjectReconciler.v
ProjectFacts.v
LifecycleFacts.v
NodePoolCommon.v
ControllerRuntime.v
Shards.v
ShardConfig.v
Nodes.v
ManagedNodes.v
NodePoolWebhooks.v
TopologyController.v
NodePools.v
NodePoolMetrics.v
NodeFacts.v
ManagedNodesFacts.v
NodePoolWebhookFacts.v
TopologyFacts.v
NodePoolMetricFacts.v
CachedClient.v
ShardFacts.v
NodePoolFacts.v
Dependencies.v
GoFlags.v
MigrateShards.v
HelmHooks.v
MigrateFacts.v
HelmHookFacts.v
OperatorConfig.v
Operands.v
OperandResources.v
Deployable.v
CommandLine.v
CommandLineFacts.v
DeployFacts.v
OperatorFacts.v
Watches.v
WatchFacts.v
WatchExamples.v
Mains.v
ProcessFacts.v
ProcessExamples.v
Concurrency.v
ConcurrencyFacts.v
StatusFacts.v
CompositionFacts.v
