(* ===== verification/Prelude.v ===== *)
(** * Verification of kai-resource-management

    The repository holds the controllers that put a tenancy layer (projects,
    departments, node pools) over a Kubernetes scheduler.  This library models
    their core logic as executable definitions and proves the properties that
    make them correct.

    ** The program's parts

    - [pkg/common/node-pool-utils]: label selectors of node pools, the index of
      node pools, and the converter that resolves which node pools an object
      asks for (annotation, node affinity, label, project, default).
    - [pkg/pod-group-assigner]: a reconciler that assigns pod groups to the next
      available node pool (round robin over the requested list), and two
      mutating webhooks (pods, pod groups).
    - [pkg/project-controller]: reconcilers that turn a Project into a
      namespace, queues (one per node pool), a limit range and role bindings, a
      Department into queues, and take them down again; validating webhooks for
      departments, projects and queues.
    - [pkg/nodepool-controller]: a reconciler that labels the nodes of a node
      pool (draining them before they move), keeps one scheduling shard per node
      pool, reports its status and finalizes it; besides, the managed nodes
      configuration, a topology controller and webhooks.
    - [pkg/operator]: a reconciler that fills the defaults of the KRMConfig,
      builds the objects of the three services above, deploys them (creating,
      updating and pruning) and reports conditions.
    - [pkg/helmhooks], [cmd/helm-hooks]: the jobs that install the definitions,
      check the version of the scheduler, migrate existing scheduling shards to
      node pools and clean up on uninstall.
    - [cmd], [pkg/*/config]: the command lines of the binaries and the start of
      their processes (indexes, watches, webhooks).

    They interact only through API objects: the namespace annotation that the
    project controller writes is what the pod webhook reads (see
    [enforcement_round_trip]), the node affinity that the pod webhook writes is
    what the assigner's converter reads (see [default_node_pools_round_trip]),
    the queues that projects and departments own are what the queue webhook
    protects and what the assigner looks up (see
    [project_queues_serve_the_assigner]), the node pool that the migration
    writes is what the node pool controller turns back into the shard (see
    [migrated_shard_keeps_settings]).  The operator reaches the services through
    their command lines: what it writes is what they read (see
    [project_controller_reads_its_config] and its two companions, and
    [services_agree] for the settings they share).

    ** How the code is modelled

    Code that talks to the API server is a program of the free monad [prog]
    below over the calls [KubeCall] of [ApiTypes] (one constructor per method of
    [client.Client] the code uses).  A call answers a [result], so every error
    path of the source is a branch of the program.  The server is not modelled:
    theorems quantify over all replies, either through [wp]/[issues] (what a
    program may ask for, whatever it is answered) or through [exec] (a
    trace of calls with their replies and the final value).  [run] executes a
    program against a function from calls to replies; witnesses run programs
    against the small store [memServer] of [ApiTypes].

    Data: a Go struct is a record with the fields the code uses, a pointer an
    [option], a string map a [gmap string], a set of names a [gset string]; a
    nil map or slice is the empty one, as for the code that reads them.  [int]
    values here are list indices and lengths, far from their width, and are
    [Z]; quantities are [Z] (the sums of [resource.Quantity] are exact).  An
    object passed by pointer and mutated is passed and returned.  A Go panic
    (index out of range, division by zero) is the error [RuntimePanic], so that
    its absence is a theorem.  A raw merge patch is a [Patch] call with the
    object before and after.  [multierror] values are lists of errors.  In the
    operator a pointer that is followed without a check is [deref], whose failure
    is the error [nilDereference]; parts of foreign API types that the code only
    copies (resource lists, security contexts, other fields) are opaque texts; the
    objects an operand remembers are overwritten in place by later reads, as in
    the code, and whether a read fills the kind of an object is a parameter.

    Concurrency: goroutines that share a variable under a lock are programs over
    [SharedCall] next to the API calls ([Goroutines]), stepped one action at a
    time; a watch is a record of what wakes a controller and how an event becomes
    requests ([ControllerRuntime], [Watches]); a process is the sequence of its
    set-up steps, each of which may fail ([Mains]).

    What the sources only call is a parameter: the Kubernetes label library
    ([LabelsLib] with its documented laws [LabelsLaws]), YAML decoders, quantity
    parsing, owner references ([MetaLib]: [metav1.GetControllerOf] and the like),
    constants and methods of the API packages ([NodePoolAPI], [SchedulerAPI]),
    the rendered text of an error, and the iteration order of Go maps
    ([rangeOrder], any order); for the operator and the hooks also the defaults of
    the scheduler's API module ([KaiCommon] with the laws [KaiCommonLaws]), semantic
    versions ([VersionLib]), encoders and decoders ([YamlLib], [HookLib],
    [MigrationLib]), float formatting ([FloatLib]), the parser of durations (with the
    laws [DurationLaws]) and the flags of the logging library ([FlagLib]).  The names of the conditions of the KRMConfig are
    parameters ([ConditionNames]).

    ** The files

    - [Prelude]: errors, [result], [prog] with its reasoning rules, tactics, the
      hint database [krm], lemmas on lists.
    - [ApiTypes]: the API objects and calls.
    - [NodePoolUtils]: [pkg/common/node-pool-utils] and its properties.
    - [Assigner] / [AssignerFacts]: [pkg/pod-group-assigner/controllers].
    - [Mutators] / [MutatorFacts]: [pkg/pod-group-assigner/mutators].
    - [Hierarchy]: [pkg/project-controller/hierarchy/tree.go], with the
      specification of trees (loop free, closed, depth).
    - [ProjectCommon]: configuration and shared helpers of the project
      controller.
    - [Validation] / [ValidationFacts]: [webhooks/validation].
    - [Queues] / [QueueFacts]: queue handling of projects and departments.
    - [ProjectHandlers], [RoleBindings], [ProjectDeletion]: namespace, limit
      range, role bindings, status and the deletion handlers of a project.
    - [ProjectReconciler]: the project and department reconcilers and their
      event filters.
    - [ProjectFacts]: properties of the handlers of a project.
    - [LifecycleFacts]: properties of finalization.
    - [NodePoolCommon]: configuration and helpers of the node pool controller,
      create-or-update of its resources, unmanaged shards.
    - [Shards] / [ShardFacts]: [pkg/nodepool-controller/operands], the scheduling
      shard and the service monitor of a node pool.
    - [Nodes] / [NodeFacts]: the nodes of a node pool ([node_handler.go],
      [node_status_handler.go], [node_lister.go], [nrt_health_handler.go]).
    - [NodePools] / [NodePoolFacts]: the node pool reconciler, its status, its
      finalizer and its event mapping ([nodepool_*.go], [finalizer.go],
      [project_reference_handler.go]).
    - [NodePoolMetrics] / [NodePoolMetricFacts]: [metrics_handler.go].
    - [CachedClient]: [pkg/nodepool-controller/cachedclient].
    - [ManagedNodes] / [ManagedNodesFacts]: [managed-nodes-config].
    - [NodePoolWebhooks] / [NodePoolWebhookFacts]: [nodepool-controller/webhook].
    - [TopologyController] / [TopologyFacts]: [topology-controller].
    - [ShardConfig]: the settings of a shard as the configuration of a node pool.
    - [Dependencies]: [pkg/operator/dependencies], definitions and the version and
      readiness of the scheduler.
    - [GoFlags]: the part of Go's [flag] and [strconv] that the binaries use.
    - [MigrateShards] / [MigrateFacts]: [pkg/helmhooks/migrate_shards.go].
    - [HelmHooks] / [HelmHookFacts]: the other hooks and [cmd/helm-hooks/app].
    - [OperatorConfig]: [pkg/operator/config].
    - [Operands], [OperandResources]: [pkg/operator/operands/common] and the
      resources of the three services, one Module each.
    - [Deployable]: [operands/known-types], [operands/deployable],
      [controller/status-reconciler] and [controller/krmconfig_controller.go].
    - [CommandLine] / [CommandLineFacts]: the flags and options of the binaries.
    - [DeployFacts]: properties of the deployment of the services.
    - [OperatorFacts]: properties of the defaults and of the conditions.
    - [StatusFacts]: the conditions of the KRMConfig across reconciles.
    - [ControllerRuntime]: predicates, event sources and builders of controllers.
    - [Watches] / [WatchFacts] / [WatchExamples]: what wakes each controller, and
      the indexes it needs.
    - [Mains] / [ProcessFacts] / [ProcessExamples]: the start of the processes.
    - [Goroutines]: interleavings, rely and guarantee, schedules.
    - [Concurrency] / [ConcurrencyFacts]: the cache of the pod group assigner with
      its ticker, and the goroutines of [DeleteResources].
    - [CompositionFacts]: the services together.

    ** What the theorems show

    - Choice of a node pool: the pool chosen is the first available one of the
      requested list read cyclically from the initial candidate
      ([GetNodePoolAssignmentParams_first_available]); without duplicates every
      requested pool is eventually tried ([round_robin]), with duplicates not
      ([duplicate_starves_round_robin]); no reconcile panics; an assignment is
      idempotent, keeps a topology of the user, and is only written for eligible
      pod groups.
    - Webhooks: the meaning of the affinity that is added; the department
      webhook accepts exactly the parents that keep the tree loop free and at
      most [MaxDepth] deep; outages are answered as internal errors.
    - Queues: reconciling keeps the queue forest acyclic, deletes only owned
      queues, only after all queues of the spec were reconciled, and never the
      queue that it created or found for an entry of the spec
      ([handleProjectQueues_deletes]).
    - Lifecycle: finalizers are removed only when nothing refers to a department
      and when the queues of a project are gone; a project with blocking deletion
      is torn down only when every blocker was asked and nothing remains
      ([blocked_project_is_kept]).
    - Namespaces, limit ranges, role bindings, status: functional behaviour and
      convergence.

    - Node pools: the pool label of a node changes only after a check found no
      running pod of the pool the node was in when it was read
      ([reconcile_moves_drained_nodes], with what the check establishes in
      [drain_check_meaning]); a node pool is let go only when it is vacated; nodes
      of the excluded pool, of unmanaged partitions and of available pools are
      left alone ([protected_nodes_untouched]); only the own shard is
      written, its arguments are tracked and the desired shard is stable; the
      phase, the status comparison and the health condition are exact.
    - Managed nodes, webhooks, metrics, topologies: exclusion drains first; the
      names in the status are bounded; admitted changes keep the node pools well
      formed and the partitions of shards unique in every reachable cluster; when
      the events of a history of nodes are handled, however far the cache is
      ahead, the gauges are exactly the placement of the nodes
      ([metrics_refine_placement]); annotations are synced.
    - Migration and cleanup: nothing is written before every check of every shard
      has passed; a migrated shard keeps its settings, with the exceptions that
      [migrated_shard_keeps_settings] states; releasing undoes adopting; node pools
      are only written when the deployments of the controllers were deleted in the
      foreground and are gone; and the two version checks agree.
    - Operator: a successful deployment makes the owned objects the wanted ones
      ([deploy_reaches_desired], a refinement of the set of wanted objects by the
      writes), what is pruned is owned and unwanted and the wanted objects are
      there by then ([deploy_prunes_safely]), defaults leave no pointer nil
      ([defaulted_config_always_builds]), the command lines mean to the services
      what the configuration says, Ready after a deployment that succeeded means
      running ([ready_means_running]), and the status settles ([status_settles]).
    - Watches and processes: every event that matters wakes its controller
      ([node_events_wake_its_pools], [queue_events_wake_owners_and_children],
      [drift_wakes_the_operator]: every object that a deployment writes), and a process that has started lists only by
      indexed fields ([project_process_reads_what_it_prepared],
      [collected_kinds_are_indexed]).
    - Concurrency: interleaved reconciles of the assigner behave as sequential ones
      ([concurrent_reconciles_are_sequential]); the deletion of operands reports
      exactly the errors of its goroutines ([deletion_reports_every_error]).
    - Composition: the queues of a project are found by the assigner, proved
      against the interface [SharedKeys], which [services_agree] derives from the
      configuration.
    - Some theorems pin down behaviour that departs from what the comments say:
      [waited_node_not_mapped], [deletion_error_status_stale],
      [pod_group_name_collision], [project_department_collision],
      [quota_patch_exact], [openshift_placeholder_removed],
      [duplicate_starves_round_robin], [deleted_node_is_retried],
      [deleted_node_gauge_stays], [tombstone_panics], [worker_label_overwritten],
      [admitted_pool_refused_by_controller], [certificate_volume_outlives_webhook],
      [stripped_kind_not_checked], [nrt_updates_wake_no_pool],
      [project_changes_unnoticed], [retained_resource_is_deleted],
      [fresh_operator_reports_deployed], [failed_deployment_reported_ready].

    ** Bounds and fuel

    The walks over the department tree are bounded by the source's own limit
    ([MaxDepth], 7), which is their structural argument.  The walk of the queue
    loop check is unbounded in the source; its model takes fuel, and
    [wouldCloseQueueLoop_exact] shows that any fuel above the number of queues
    gives the answer.  The wait for a deleted object polls until its context
    ends; the model takes the number of polls that fit ([ticks]).  All other loops
    range over lists.

    ** Not modelled

    Logging and printing, the registration of metrics and schemes, profiling, rate
    limiting, leader election and JSON encoding (effects outside the state above);
    the version strings of the binaries; constructors that only fill a struct; test
    support and the end-to-end modules under [test].
    Within modelled components: helpers that nothing calls (a queue by its name,
    label selectors of single requirements, labels parsed as numbers).  Not proved:
    fairness of the work queues and the delays of retries, which belong to
    controller-runtime, and the service monitors of node pools across renames. *)

From stdpp Require Import base list gmap strings.

(** ** Notations of the development *)

Declare Scope krm_scope.
Delimit Scope krm_scope with krm.
Open Scope krm_scope.
Open Scope string_scope.
Open Scope list_scope.

(** Go's [==] on comparable values, as a boolean. *)
Notation "a ==? b" := (bool_decide (a = b)) (at level 70, no associativity) : krm_scope.
Notation "a !=? b" := (negb (bool_decide (a = b))) (at level 70, no associativity) : krm_scope.

(** ** Errors

    A Go [error] is a value.  Format strings are kept symbolic (the format and
    its arguments) because no decision of the code depends on the rendered
    text, except where a component renders it through a parameter. *)

(** The machine readable reason of a Kubernetes API status error. *)
Inductive StatusReason :=
| ReasonNotFound
| ReasonAlreadyExists
| ReasonConflict
| ReasonForbidden
| ReasonInvalid
| ReasonNoKindMatch
| ReasonOther.

#[export] Instance StatusReason_eq_dec : EqDecision StatusReason.
Proof. solve_decision. Defined.

Inductive error :=
(** an error answered by the API server *)
| APIError (reason : StatusReason) (message : string)
(** [fmt.Errorf(format, args...)] or [errors.New] *)
| Errorf (format : string) (args : list string)
(** [fmt.Errorf] with one [%w], or [errors.Wrapf] *)
| Wrapf (format : string) (args : list string) (cause : error)
(** [fmt.Errorf] with the text of an error ([%s], [err.Error()]): not unwrapped *)
| Textf (format : string) (args : list string) (cause : error)
(** a Go run-time panic (index out of range, division by zero): it aborts the
    reconcile the way an error returned by every caller does *)
| RuntimePanic (what : string)
(** a named struct type that embeds an error (no [Unwrap] method) *)
| Typed (tyname : string) (cause : error)
(** the validating webhook's [internalError], which has an [Unwrap] method *)
| InternalError (cause : error)
(** a [*multierror.Error] *)
| Joined (causes : list error).

(** [apierrors.ReasonForError] through [errors.As]: wrapped and joined errors
    are searched, embedded ones are not. *)
Fixpoint hasReason (r : StatusReason) (e : error) : bool :=
  match e with
  | APIError r' _ => r ==? r'
  | Errorf _ _ => false
  | Wrapf _ _ c => hasReason r c
  | Textf _ _ _ => false
  | RuntimePanic _ => false
  | Typed _ _ => false
  | InternalError c => hasReason r c
  | Joined cs => existsb (hasReason r) cs
  end.

(** [multierror.Append(errs, e)] on the list of collected errors: an argument
    that is itself a multierror is flattened. *)
Definition appendErr (errs : list error) (e : error) : list error :=
  errs ++ match e with Joined ((_ :: _) as cs) => cs | _ => [e] end.

Lemma appendErr_nonempty errs e : appendErr errs e <> [].
Proof. unfold appendErr. intros [_ H]%app_nil. by destruct e as [| | | | | | |[]]. Qed.

(** The collected errors as the returned [error]. *)
Definition errorOf (errs : list error) : error + unit :=
  match errs with [] => inr tt | _ => inl (Joined errs) end.

(** [errors.Join]: the errors that are not nil, as they are. *)
Definition errorOfResult {A} (r : error + A) : option error := match r with inl e => Some e | inr _ => None end.
Definition joinErrors (errs : list (error + unit)) : error + unit := errorOf (omap errorOfResult errs).

Definition IsNotFound := hasReason ReasonNotFound.
Definition IsAlreadyExists := hasReason ReasonAlreadyExists.
Definition IsNoMatchError := hasReason ReasonNoKindMatch.
Definition IsForbidden := hasReason ReasonForbidden.

(** [(T, error)] where the value is only used when the error is nil. *)
Notation result A := (error + A)%type.
Notation Ok := (@inr error _) (only parsing).
Notation Err e := (@inl error _ e) (only parsing).

(** [client.IgnoreNotFound]. *)
Definition IgnoreNotFound (r : result unit) : result unit :=
  match r with
  | inl e => if IsNotFound e then inr tt else inl e
  | inr _ => inr tt
  end.

Definition isOk {A} (r : result A) : bool :=
  match r with inr _ => true | inl _ => false end.

#[export] Instance result_ret : MRet (sum error) := fun A a => inr a.
#[export] Instance result_bind : MBind (sum error) := fun A B f m =>
  match m with inl e => inl e | inr a => f a end.

(** ** Text *)

(** [fmt.Sprintf] for the verbs the code uses ([%s], [%d], [%v], [%q]), with the
    arguments already rendered; [%q] of the names in question is the quoted
    name. *)
Fixpoint sprintf (format : string) (args : list string) : string :=
  match format with
  | String c rest =>
      if decide (c = Ascii.ascii_of_nat 37) then
        match rest, args with
        | String verb rest', arg :: args' =>
            (if decide (verb = Ascii.ascii_of_nat 113)
             then String (Ascii.ascii_of_nat 34) (arg +:+ String (Ascii.ascii_of_nat 34) EmptyString)
             else arg)
            +:+ sprintf rest' args'
        | _, _ => String c rest
        end
      else String c (sprintf rest args)
  | EmptyString => EmptyString
  end.

Lemma length_append s1 s2 : String.length (s1 +:+ s2) = (String.length s1 + String.length s2)%nat.
Proof. induction s1 as [|c s1 IH]; simpl; [done|]. by rewrite IH. Qed.

Lemma append_empty s : s +:+ EmptyString = s.
Proof. induction s as [|c s IH]; [done|]. change (String c (s +:+ EmptyString) = String c s). by rewrite IH. Qed.

Lemma append_assoc_string s1 s2 s3 : (s1 +:+ s2) +:+ s3 = s1 +:+ s2 +:+ s3.
Proof. induction s1 as [|c s1 IH]; [done|]. change (String c ((s1 +:+ s2) +:+ s3) = String c (s1 +:+ s2 +:+ s3)). by rewrite IH. Qed.

Lemma concat_empty_cons s ss : String.concat "" (s :: ss) = s +:+ String.concat "" ss.
Proof. destruct ss; [by rewrite append_empty|done]. Qed.

(** Joining with a separator is joining the parts that start with it. *)
Lemma concat_separator sep s ss :
  String.concat sep (s :: ss) = s +:+ String.concat "" ((fun t => sep +:+ t) <$> ss).
Proof.
  revert s. induction ss as [|t ss IH]; intros s; [by rewrite append_empty|].
  change (String.concat sep (s :: t :: ss)) with (s +:+ sep +:+ String.concat sep (t :: ss)).
  rewrite IH, fmap_cons, concat_empty_cons. by rewrite append_assoc_string.
Qed.

(** [strings.ToLower] on ASCII text. *)
Fixpoint toLower (s : string) : string :=
  match s with
  | EmptyString => EmptyString
  | String c rest =>
      let n := Ascii.nat_of_ascii c in
      String (if decide (65 <= n /\ n <= 90) then Ascii.ascii_of_nat (n + 32) else c) (toLower rest)
  end.

(** ** Programs that call the Kubernetes API

    A reconciler is a finite program that issues API calls and continues with
    whatever the server answers.  [C X] is the type of the calls whose answer
    is an [X].  Nothing is assumed about the answers: a theorem about every
    execution covers stale caches, conflicts and failures. *)

Inductive prog (C : Type -> Type) (A : Type) : Type :=
| Ret (a : A)
| Do (X : Type) (c : C X) (k : X -> prog C A).
Arguments Ret {C A} a.
Arguments Do {C A X} c k.

#[export] Instance prog_ret C : MRet (prog C) := fun A a => Ret a.

Fixpoint prog_bind_ {C A B} (f : A -> prog C B) (p : prog C A) : prog C B :=
  match p with
  | Ret a => f a
  | Do c k => Do c (fun x => prog_bind_ f (k x))
  end.
#[export] Instance prog_bind C : MBind (prog C) := fun A B => prog_bind_.

(** One call, answering its reply. *)
Definition call {C X} (c : C X) : prog C X := Do c Ret.

(** [x, err := p; if err != nil { return err }]. *)
Definition try_bind {C A B} (p : prog C (result A)) (f : A -> prog C (result B)) : prog C (result B) :=
  prog_bind_ (fun r => match r with inl e => Ret (inl e) | inr a => f a end) p.

Notation "x <- p ;; q" := (prog_bind_ (fun x => q) p)
  (at level 100, p at next level, q at level 200, right associativity) : krm_scope.
Notation "x <-? p ;; q" := (try_bind p (fun x => q))
  (at level 100, p at next level, q at level 200, right associativity) : krm_scope.

(** An answered call. *)
Record event (C : Type -> Type) := Event { ev_ty : Type; ev_call : C ev_ty; ev_reply : ev_ty }.
Arguments Event {C ev_ty} ev_call ev_reply.
Arguments ev_ty {C} _.
Arguments ev_call {C} _.
Arguments ev_reply {C} _.

(** [exec p tr a]: with the answers recorded in [tr], the program [p] issues
    the calls of [tr], in this order, and returns [a]. *)
Fixpoint exec {C A} (p : prog C A) (tr : list (event C)) (a : A) : Prop :=
  match p with
  | Ret a' => tr = [] /\ a = a'
  | Do c k => exists x tr', tr = Event c x :: tr' /\ exec (k x) tr' a
  end.

(** A server: how a state answers a call. *)
Definition handler (C : Type -> Type) (S : Type) := forall X, C X -> S -> X * S.

Fixpoint run {C A S} (h : handler C S) (p : prog C A) (s : S) : A * S :=
  match p with
  | Ret a => (a, s)
  | Do c k => let '(x, s') := h _ c s in run h (k x) s'
  end.

(** The calls a run issues against a server. *)
Fixpoint run_trace {C A S} (h : handler C S) (p : prog C A) (s : S) : list (event C) :=
  match p with
  | Ret _ => []
  | Do c k => let '(x, s') := h _ c s in Event c x :: run_trace h (k x) s'
  end.

(** [wp pre post p Q]: every call [c] that [p] issues satisfies [pre c],
    provided the earlier answers satisfy [post], and its result satisfies
    [Q]. *)
Fixpoint wp {C A} (pre : forall X, C X -> Prop) (post : forall X, C X -> X -> Prop)
    (p : prog C A) (Q : A -> Prop) : Prop :=
  match p with
  | Ret a => Q a
  | Do c k => pre _ c /\ forall x, post _ c x -> wp pre post (k x) Q
  end.

(** No assumption on the answers. *)
Definition any_reply {C : Type -> Type} : forall X, C X -> X -> Prop := fun _ _ _ => True.

Section prog_lemmas.
Context {C : Type -> Type}.
Implicit Types pre : forall X, C X -> Prop.
Implicit Types post : forall X, C X -> X -> Prop.

Lemma exec_bind {A B} (p : prog C A) (f : A -> prog C B) tr1 tr2 a b :
  exec p tr1 a -> exec (f a) tr2 b -> exec (x <- p ;; f x) (tr1 ++ tr2) b.
Proof.
  revert tr1. induction p as [a'|X c k IH]; simpl.
  - by intros tr1 [-> ->].
  - intros tr1 (x & tr & -> & Hk) Hf. eexists x, (tr ++ tr2). eauto.
Qed.

Lemma exec_bind_inv {A B} (p : prog C A) (f : A -> prog C B) tr b :
  exec (x <- p ;; f x) tr b ->
  exists tr1 tr2 a, tr = tr1 ++ tr2 /\ exec p tr1 a /\ exec (f a) tr2 b.
Proof.
  revert tr. induction p as [a|X c k IH]; simpl; intros tr H.
  - by exists [], tr, a.
  - destruct H as (x & tr' & -> & (tr1 & tr2 & a & -> & ? & ?)%IH).
    exists (Event c x :: tr1), tr2, a. naive_solver.
Qed.

Lemma wp_ret {A} pre post (a : A) (Q : A -> Prop) : Q a -> wp pre post (Ret a) Q.
Proof. done. Qed.

Lemma wp_call {A} pre post (c : C A) (Q : A -> Prop) :
  pre _ c -> (forall x, post _ c x -> Q x) -> wp pre post (call c) Q.
Proof. by split. Qed.

Lemma wp_bind {A B} pre post (p : prog C A) (f : A -> prog C B) (Q : B -> Prop) :
  wp pre post p (fun a => wp pre post (f a) Q) -> wp pre post (x <- p ;; f x) Q.
Proof. induction p as [a|X c k IH]; simpl; [done|]. intros [Hc Hk]. split; auto. Qed.

Lemma wp_try {A B} pre post (p : prog C (result A)) (f : A -> prog C (result B)) (Q : result B -> Prop) :
  wp pre post p (fun r => match r with inl e => Q (inl e) | inr a => wp pre post (f a) Q end) ->
  wp pre post (x <-? p ;; f x) Q.
Proof.
  unfold try_bind. intros H. apply wp_bind.
  induction p as [[e|a]|X c k IH]; simpl in *; [done..|]. destruct H; split; auto.
Qed.

Lemma wp_mono {A} pre post (p : prog C A) (Q R : A -> Prop) :
  (forall a, Q a -> R a) -> wp pre post p Q -> wp pre post p R.
Proof. intros HQR. induction p as [a|X c k IH]; simpl; [auto|]. intros [? ?]; split; auto. Qed.

Lemma wp_pre_mono {A} pre pre' post (p : prog C A) (Q : A -> Prop) :
  (forall X (c : C X), pre X c -> pre' X c) -> wp pre post p Q -> wp pre' post p Q.
Proof. intros Hpre. induction p as [a|X c k IH]; simpl; [auto|]. intros [? ?]; split; auto. Qed.

Lemma wp_conj {A} pre post (p : prog C A) (Q R : A -> Prop) :
  wp pre post p Q -> wp pre post p R -> wp pre post p (fun a => Q a /\ R a).
Proof. induction p as [a|X c k IH]; simpl; [auto|]. intros [? ?] [? ?]; split; auto. Qed.

(** Adequacy: what [wp] says of a program holds of each of its executions. *)
Lemma wp_exec {A} pre post (p : prog C A) (Q : A -> Prop) tr a :
  wp pre post p Q -> exec p tr a ->
  Forall (fun e => post _ (ev_call e) (ev_reply e)) tr ->
  Forall (fun e => pre _ (ev_call e)) tr /\ Q a.
Proof.
  revert tr. induction p as [a'|X c k IH]; simpl; intros tr Hwp Hex Hpost.
  - by destruct Hex as [-> ->].
  - destruct Hwp as [Hc Hk], Hex as (x & tr' & -> & Hex).
    apply Forall_cons in Hpost as [Hx Hpost]. simpl in Hx.
    destruct (IH x tr' (Hk x Hx) Hex Hpost) as [? ?]. auto.
Qed.

Lemma wp_exec_any {A} pre (p : prog C A) (Q : A -> Prop) tr a :
  wp pre any_reply p Q -> exec p tr a ->
  Forall (fun e => pre _ (ev_call e)) tr /\ Q a.
Proof. intros. eapply wp_exec; eauto. by apply Forall_true. Qed.

(** Completeness: a program of which every execution is safe satisfies [wp]. *)
Lemma exec_wp {A} post (p : prog C A) (Q : A -> Prop) :
  (forall tr a, exec p tr a -> Forall (fun e => post _ (ev_call e) (ev_reply e)) tr -> Q a) ->
  wp (fun _ _ => True) post p Q.
Proof.
  induction p as [a|X c k IH]; simpl; intros H.
  - apply (H []); auto.
  - split; [done|]. intros x Hx. apply IH. intros tr a Hex Hp.
    apply (H (Event c x :: tr)); [eauto|by constructor].
Qed.

(** A run against a server is one of the executions. *)
Lemma run_exec {A S} (h : handler C S) (p : prog C A) s :
  exec p (run_trace h p s) (run h p s).1.
Proof.
  revert s. induction p as [a|X c k IH]; simpl; intros s; [done|].
  destruct (h X c s) as [x s']. eauto.
Qed.

Lemma run_bind {A B S} (h : handler C S) (p : prog C A) (f : A -> prog C B) s :
  run h (x <- p ;; f x) s = let '(a, s') := run h p s in run h (f a) s'.
Proof.
  revert s. induction p as [a|X c k IH]; simpl; intros s; [done|].
  destruct (h X c s) as [x s']. apply IH.
Qed.

Lemma run_try {A B S} (h : handler C S) (p : prog C (result A)) (f : A -> prog C (result B)) s :
  run h (x <-? p ;; f x) s =
  let '(r, s') := run h p s in
  match r with inl e => (inl e, s') | inr a => run h (f a) s' end.
Proof. unfold try_bind. rewrite run_bind. by destruct (run h p s) as [[e|a] s']. Qed.

End prog_lemmas.

(** [for _, x := range xs { if err := f(x); err != nil { return err } }]. *)
Fixpoint forEach {C A} (xs : list A) (f : A -> prog C (result unit)) : prog C (result unit) :=
  match xs with
  | [] => Ret (inr tt)
  | x :: xs => _ <-? f x ;; forEach xs f
  end.

Lemma wp_forEach {C A} pre post (xs : list A) (f : A -> prog C (result unit)) (Q : result unit -> Prop) :
  (forall x, x ∈ xs -> wp pre post (f x) (fun r => match r with inl e => Q (inl e) | inr _ => True end)) ->
  Q (inr tt) -> wp pre post (forEach xs f) Q.
Proof.
  intros Hf HQ. induction xs as [|x xs IH]; [done|]. simpl. apply wp_try.
  eapply wp_mono; [|apply Hf; left]. intros [e|[]]; [done|].
  intros _. apply IH. intros y Hy. apply Hf. by right.
Qed.

(** The executions that succeed: every step did. *)
Lemma exec_try_inv {C A B} (p : prog C (result A)) (f : A -> prog C (result B)) tr r :
  exec (x <-? p ;; f x) tr r ->
  (exists e, exec p tr (inl e) /\ r = inl e) \/
  exists tr1 tr2 a, tr = tr1 ++ tr2 /\ exec p tr1 (inr a) /\ exec (f a) tr2 r.
Proof.
  unfold try_bind. intros (tr1 & tr2 & [e|a] & -> & Hp & Hf)%exec_bind_inv.
  - left. destruct Hf as [-> ->]. rewrite app_nil_r. eauto.
  - right. eauto 10.
Qed.

Lemma exec_try_ok {C A B} (p : prog C (result A)) (f : A -> prog C (result B)) tr b :
  exec (x <-? p ;; f x) tr (inr b) ->
  exists tr1 tr2 a, tr = tr1 ++ tr2 /\ exec p tr1 (inr a) /\ exec (f a) tr2 (inr b).
Proof. intros [(e & _ & [=])|H]%exec_try_inv. exact H. Qed.

Lemma exec_forEach_ok {C A} (xs : list A) (f : A -> prog C (result unit)) tr :
  exec (forEach xs f) tr (inr tt) ->
  exists trs, tr = concat trs /\ Forall2 (fun x t => exec (f x) t (inr tt)) xs trs.
Proof.
  revert tr. induction xs as [|x xs IH]; intros tr Hex.
  - destruct Hex as [-> _]. by exists [].
  - apply exec_try_ok in Hex as (tr1 & tr2 & [] & -> & Hx & (trs & -> & Hall)%IH).
    exists (tr1 :: trs). split; [done|by constructor].
Qed.

Lemma joinErrors_ok (rs : list (error + unit)) : joinErrors rs = inr tt <-> Forall (fun r => r = inr tt) rs.
Proof.
  unfold joinErrors. induction rs as [|[e|[]] rs IH]; [done| |].
  - split; [done|]. intros [[=] _]%Forall_cons.
  - rewrite Forall_cons, <- IH. naive_solver.
Qed.

(** The first element that fails a condition is not in a part that meets it. *)
Lemma split_after {A} (P : A -> Prop) (l1 l2 pre post : list A) x :
  l1 ++ l2 = pre ++ x :: post -> Forall P l1 -> ~ P x -> exists pre', pre = l1 ++ pre' /\ l2 = pre' ++ x :: post.
Proof.
  revert pre. induction l1 as [|y l1 IH]; intros pre Heq Hall Hx; [by exists pre|].
  apply Forall_cons in Hall as [Hy Hall]. destruct pre as [|z pre]; injection Heq as -> Heq; [done|].
  destruct (IH _ Heq Hall Hx) as (pre' & -> & ->). by exists pre'.
Qed.

Lemma split_in {A} (l1 l2 pre post : list A) x :
  l1 ++ l2 = pre ++ x :: post -> (exists post', l1 = pre ++ x :: post') \/ x ∈ l2.
Proof.
  revert pre. induction l1 as [|y l1 IH]; intros pre Heq.
  - right. cbn in Heq. rewrite Heq. apply elem_of_app. right. left.
  - destruct pre as [|z pre]; injection Heq as -> Heq; [left; by exists l1|].
    destruct (IH _ Heq) as [[post' ->]|]; [|by right]. left. by exists post'.
Qed.

(** ** Tactics *)

(** Case analysis on the tests of the code. *)
Ltac case_guard :=
  match goal with
  | |- context [bool_decide ?P] => case_bool_decide
  | |- context [decide ?P] => case_decide
  | |- context [if ?b then _ else _] => destruct b eqn:?
  | H : context [bool_decide ?P] |- _ => case_bool_decide
  | H : context [decide ?P] |- _ => case_decide
  | H : context [if ?b then _ else _] |- _ => destruct b eqn:?
  end.
Ltac case_guards := repeat (case_guard; simpl in *; simplify_eq).

(** One symbolic step of a [wp] goal. *)
Ltac wp_step :=
  match goal with
  | |- wp _ _ (try_bind _ _) _ => apply wp_try
  | |- wp _ _ (prog_bind_ _ _) _ => apply wp_bind
  | |- wp _ _ (call _) _ => apply wp_call
  | |- wp _ _ (Ret _) _ => apply wp_ret
  | |- wp _ _ (match ?x with _ => _ end) _ => destruct x eqn:?
  | |- match ?x with inl _ => _ | inr _ => _ end => destruct x eqn:?
  | |- any_reply _ _ _ -> _ => intros _
  end.
Ltac wp_steps := repeat (wp_step; simpl; intros; simplify_eq).

Create HintDb krm discriminated.
#[export] Hint Resolve wp_ret : krm.
