(* ===== verification/ApiTypes.v ===== *)
(** * Kubernetes objects and the API client

    The objects the controllers read and write, as records with the fields the
    code uses, and the calls of [client.Client] as constructors of [KubeCall].
    A nil map and an empty map are the same value [∅]; a pointer is an
    [option].  The API server itself is not modelled: a program issues calls
    and continues with the replies (see [prog] in the prelude). *)

From stdpp Require Import base list gmap strings.
From S2P Require Import Prelude.

(** ** Object metadata *)

Record OwnerReference := {
  OwnerAPIVersion : string;
  OwnerKind : string;
  OwnerName : string;
  OwnerUID : string;
  OwnerController : option bool;
  OwnerBlockOwnerDeletion : option bool;
}.
#[export] Instance OwnerReference_eq_dec : EqDecision OwnerReference.
Proof. solve_decision. Defined.

Record ObjectMeta := {
  Name : string;
  Namespace : string;
  UID : string;
  Labels : gmap string string;
  Annotations : gmap string string;
  OwnerReferences : list OwnerReference;
  Finalizers : list string;
  DeletionTimestamp : option Z;
  ResourceVersion : string;
  Generation : Z;
}.
#[export] Instance ObjectMeta_eq_dec : EqDecision ObjectMeta.
Proof. solve_decision. Defined.

(** [metav1.ObjectMeta{Name: name}]. *)
Definition named (name : string) : ObjectMeta :=
  {| Name := name; Namespace := ""; UID := ""; Labels := ∅; Annotations := ∅;
     OwnerReferences := []; Finalizers := []; DeletionTimestamp := None;
     ResourceVersion := ""; Generation := 0 |}.

Definition meta_with_labels (f : gmap string string -> gmap string string) (m : ObjectMeta) : ObjectMeta :=
  {| Name := Name m; Namespace := Namespace m; UID := UID m; Labels := f (Labels m);
     Annotations := Annotations m; OwnerReferences := OwnerReferences m;
     Finalizers := Finalizers m; DeletionTimestamp := DeletionTimestamp m;
     ResourceVersion := ResourceVersion m; Generation := Generation m |}.

Definition meta_with_annotations (f : gmap string string -> gmap string string) (m : ObjectMeta) : ObjectMeta :=
  {| Name := Name m; Namespace := Namespace m; UID := UID m; Labels := Labels m;
     Annotations := f (Annotations m); OwnerReferences := OwnerReferences m;
     Finalizers := Finalizers m; DeletionTimestamp := DeletionTimestamp m;
     ResourceVersion := ResourceVersion m; Generation := Generation m |}.

Definition meta_with_owners (f : list OwnerReference -> list OwnerReference) (m : ObjectMeta) : ObjectMeta :=
  {| Name := Name m; Namespace := Namespace m; UID := UID m; Labels := Labels m;
     Annotations := Annotations m; OwnerReferences := f (OwnerReferences m);
     Finalizers := Finalizers m; DeletionTimestamp := DeletionTimestamp m;
     ResourceVersion := ResourceVersion m; Generation := Generation m |}.

Definition meta_with_finalizers (f : list string -> list string) (m : ObjectMeta) : ObjectMeta :=
  {| Name := Name m; Namespace := Namespace m; UID := UID m; Labels := Labels m;
     Annotations := Annotations m; OwnerReferences := OwnerReferences m;
     Finalizers := f (Finalizers m); DeletionTimestamp := DeletionTimestamp m;
     ResourceVersion := ResourceVersion m; Generation := Generation m |}.

(** Go's [m[k]] on a string map: the zero value when the key is missing. *)
Definition mapGet (m : gmap string string) (k : string) : string := default "" (m !! k).

(** ** Node affinity (corev1) *)

Inductive NodeSelectorOperator :=
| NodeSelectorOpIn | NodeSelectorOpNotIn | NodeSelectorOpExists
| NodeSelectorOpDoesNotExist | NodeSelectorOpGt | NodeSelectorOpLt.
#[export] Instance NodeSelectorOperator_eq_dec : EqDecision NodeSelectorOperator.
Proof. solve_decision. Defined.

Record NodeSelectorRequirement := {
  nsrKey : string;
  nsrOperator : NodeSelectorOperator;
  nsrValues : list string;
}.
#[export] Instance NodeSelectorRequirement_eq_dec : EqDecision NodeSelectorRequirement.
Proof. solve_decision. Defined.

Record NodeSelectorTerm := {
  MatchExpressions : list NodeSelectorRequirement;
  MatchFields : list NodeSelectorRequirement;
}.
#[export] Instance NodeSelectorTerm_eq_dec : EqDecision NodeSelectorTerm.
Proof. solve_decision. Defined.

Record NodeSelector := { NodeSelectorTerms : list NodeSelectorTerm }.
#[export] Instance NodeSelector_eq_dec : EqDecision NodeSelector.
Proof. solve_decision. Defined.

(** The preferred terms are carried as opaque text. *)
Record NodeAffinity := {
  RequiredDuringSchedulingIgnoredDuringExecution : option NodeSelector;
  PreferredDuringSchedulingIgnoredDuringExecution : string;
}.
#[export] Instance NodeAffinity_eq_dec : EqDecision NodeAffinity.
Proof. solve_decision. Defined.

(** Pod affinity and anti-affinity are carried as opaque text. *)
Record Affinity := {
  AffinityNodeAffinity : option NodeAffinity;
  AffinityPodAffinity : string;
}.
#[export] Instance Affinity_eq_dec : EqDecision Affinity.
Proof. solve_decision. Defined.

(** ** Pods *)

Inductive PodPhase := PodPending | PodRunning | PodSucceeded | PodFailed | PodUnknown | PodPhaseUnset.
#[export] Instance PodPhase_eq_dec : EqDecision PodPhase.
Proof. solve_decision. Defined.

Record Pod := {
  podMeta : ObjectMeta;
  podNodeName : string;
  podSchedulerName : string;
  podAffinity : option Affinity;
  podPhase : PodPhase;
}.
#[export] Instance Pod_eq_dec : EqDecision Pod.
Proof. solve_decision. Defined.

(** ** Pod groups (scheduling/v2alpha2) *)

Record TopologyConstraint := {
  tcTopology : string;
  PreferredTopologyLevel : string;
  RequiredTopologyLevel : string;
}.
#[export] Instance TopologyConstraint_eq_dec : EqDecision TopologyConstraint.
Proof. solve_decision. Defined.

Definition emptyTopologyConstraint : TopologyConstraint :=
  {| tcTopology := ""; PreferredTopologyLevel := ""; RequiredTopologyLevel := "" |}.

Inductive SchedulingConditionType := UnschedulableOnNodePool | OtherSchedulingCondition (t : string).
#[export] Instance SchedulingConditionType_eq_dec : EqDecision SchedulingConditionType.
Proof. solve_decision. Defined.

Record SchedulingCondition := {
  scType : SchedulingConditionType;
  scNodePool : string;
}.
#[export] Instance SchedulingCondition_eq_dec : EqDecision SchedulingCondition.
Proof. solve_decision. Defined.

Record PodGroup := {
  pgMeta : ObjectMeta;
  pgMarkUnschedulable : option bool;
  pgSchedulingBackoff : option Z;
  pgQueue : string;
  pgTopologyConstraint : TopologyConstraint;
  pgSchedulingConditions : list SchedulingCondition;
}.
#[export] Instance PodGroup_eq_dec : EqDecision PodGroup.
Proof. solve_decision. Defined.

(** ** Namespaces and topologies *)

(** [nsKind] and [nsAPIVersion] are the object's [TypeMeta]. *)
Record NamespaceObj := { nsKind : string; nsAPIVersion : string; nsMeta : ObjectMeta }.
#[export] Instance NamespaceObj_eq_dec : EqDecision NamespaceObj.
Proof. solve_decision. Defined.

(** The levels of a topology, highest first, by node label. *)
Record Topology := { topoMeta : ObjectMeta; Levels : list string }.
#[export] Instance Topology_eq_dec : EqDecision Topology.
Proof. solve_decision. Defined.

(** ** Node pools (kai/v1alpha1) *)

(** A [float64] quantity: only copied and compared by the code. *)
Notation float64 := Z (only parsing).

Inductive NodePoolPhase :=
| NodePoolEmpty | NodePoolReady | NodePoolUnschedulable | NodePoolMissingPrerequisites | NodePoolDeleting
| NodePoolPhaseUnset | NodePoolOtherPhase (s : string).
#[export] Instance NodePoolPhase_eq_dec : EqDecision NodePoolPhase.
Proof. solve_decision. Defined.

Inductive NodeInNodePoolStatus := NodeReady | NodeUnschedulable | NodeMissingNrtHealthyPrerequisite.
#[export] Instance NodeInNodePoolStatus_eq_dec : EqDecision NodeInNodePoolStatus.
Proof. solve_decision. Defined.

Record NodeInNodePool := { nipName : string; nipStatus : NodeInNodePoolStatus; TopologyMismatch : bool }.
#[export] Instance NodeInNodePool_eq_dec : EqDecision NodeInNodePool.
Proof. solve_decision. Defined.

(** The transition time is set and read by the API package only. *)
Record NodePoolCondition := {
  npcType : string;
  npcStatus : string;
  npcReason : string;
  npcMessage : string;
}.
#[export] Instance NodePoolCondition_eq_dec : EqDecision NodePoolCondition.
Proof. solve_decision. Defined.

Record NodePoolStatus := {
  npsPhase : NodePoolPhase;
  npsMessage : string;
  npsNodes : list NodeInNodePool;
  npsConditions : list NodePoolCondition;
}.
#[export] Instance NodePoolStatus_eq_dec : EqDecision NodePoolStatus.
Proof. solve_decision. Defined.

(** The arguments and the priority of a plugin are carried as opaque text. *)
Record PluginConfig := { pluginEnabled : option bool; pluginRest : string }.
#[export] Instance PluginConfig_eq_dec : EqDecision PluginConfig.
Proof. solve_decision. Defined.

(** [wTumblingStartTime] is an instant. *)
Record FairShareWindow := {
  wSize : option string;
  wType : option string;
  wTumblingStartTime : option Z;
  wCronString : option string;
}.
#[export] Instance FairShareWindow_eq_dec : EqDecision FairShareWindow.
Proof. solve_decision. Defined.

Record FairShareSampling := {
  sFetchInterval : option string;
  sStalenessPeriod : option string;
  sWaitTimeout : option string;
}.
#[export] Instance FairShareSampling_eq_dec : EqDecision FairShareSampling.
Proof. solve_decision. Defined.

Record TimeBasedFairShare := {
  tbfsEnabled : option bool;
  HistoricalUsageWeight : option float64;
  tbfsConnectionString : option string;
  tbfsHalfLifePeriod : option string;
  tbfsWindow : option FairShareWindow;
  tbfsSampling : option FairShareSampling;
  tbfsExtraParams : gmap string string;
}.
#[export] Instance TimeBasedFairShare_eq_dec : EqDecision TimeBasedFairShare.
Proof. solve_decision. Defined.

(** The placement strategy, the minimal runtime and the actions are copied as
    they are and carried as opaque text. *)
Record SchedulingShardConfig := {
  cfgArgs : gmap string string;
  cfgPlacementStrategy : option string;
  cfgQueueDepthPerAction : gmap string Z;
  cfgMinRuntime : option string;
  cfgPlugins : gmap string PluginConfig;
  cfgActions : gmap string string;
  cfgTimeBasedFairShare : option TimeBasedFairShare;
}.
#[export] Instance SchedulingShardConfig_eq_dec : EqDecision SchedulingShardConfig.
Proof. solve_decision. Defined.

Record NodePool := {
  npMeta : ObjectMeta;
  LabelKey : string;
  LabelValue : string;
  PreferredNetworkTopologyName : string;
  npSchedulingShardConfig : option SchedulingShardConfig;
  npStatus : NodePoolStatus;
}.
#[export] Instance NodePool_eq_dec : EqDecision NodePool.
Proof. solve_decision. Defined.

Definition npPhase (nodePool : NodePool) : NodePoolPhase := npsPhase (npStatus nodePool).
Definition npMessage (nodePool : NodePool) : string := npsMessage (npStatus nodePool).

(** ** Nodes and their resource topology *)

Record NodeCondition := {
  ncType : string;
  ncStatus : string;
  ncReason : string;
  ncMessage : string;
  ncLastHeartbeatTime : Z;
  ncLastTransitionTime : Z;
}.
#[export] Instance NodeCondition_eq_dec : EqDecision NodeCondition.
Proof. solve_decision. Defined.

Record Node := {
  nodeMeta : ObjectMeta;
  Unschedulable : bool;
  nodePhase : string;
  nodeConditions : list NodeCondition;
}.
#[export] Instance Node_eq_dec : EqDecision Node.
Proof. solve_decision. Defined.

(** [NodeResourceTopology]: the attributes (name and value) and the types of
    the zones. *)
Record NodeResourceTopology := {
  nrtMeta : ObjectMeta;
  nrtAttributes : list (string * string);
  nrtZoneTypes : list string;
}.
#[export] Instance NodeResourceTopology_eq_dec : EqDecision NodeResourceTopology.
Proof. solve_decision. Defined.

(** ** Scheduling shards and service monitors *)

Record Condition := {
  condType : string;
  condStatus : string;
  condReason : string;
  condMessage : string;
  LastProbeTime : Z;
  LastTransitionTime : Z;
}.
#[export] Instance Condition_eq_dec : EqDecision Condition.
Proof. solve_decision. Defined.

(** Durations are in nanoseconds, the window size is text ([monitoringv1.Duration]). *)
Record UsageParams := {
  upHalfLifePeriod : option Z;
  upWindowSize : option string;
  upWindowType : option string;
  upTumblingWindowStartTime : option Z;
  upCronString : string;
  upFetchInterval : option Z;
  upStalenessPeriod : option Z;
  upWaitTimeout : option Z;
  upExtraParams : gmap string string;
}.
#[export] Instance UsageParams_eq_dec : EqDecision UsageParams.
Proof. solve_decision. Defined.

Record UsageDBConfig := {
  ClientType : string;
  udbConnectionString : string;
  udbUsageParams : option UsageParams;
}.
#[export] Instance UsageDBConfig_eq_dec : EqDecision UsageDBConfig.
Proof. solve_decision. Defined.

(** [ssOther] are the fields of the spec that this code never sets. *)
Record SchedulingShardSpec := {
  ssArgs : gmap string string;
  ssPlacementStrategy : option string;
  PartitionLabelValue : string;
  ssQueueDepthPerAction : gmap string Z;
  ssMinRuntime : option string;
  ssKValue : option float64;
  ssUsageDBConfig : option UsageDBConfig;
  ssPlugins : gmap string PluginConfig;
  ssActions : gmap string string;
  ssOther : string;
}.
#[export] Instance SchedulingShardSpec_eq_dec : EqDecision SchedulingShardSpec.
Proof. solve_decision. Defined.

Record SchedulingShard := {
  shardMeta : ObjectMeta;
  shardSpec : SchedulingShardSpec;
  shardConditions : list Condition;
}.
#[export] Instance SchedulingShard_eq_dec : EqDecision SchedulingShard.
Proof. solve_decision. Defined.

(** A relabeling is its action, target label and replacement. *)
Record Endpoint := {
  epPort : string;
  epBearerTokenFile : string;
  epMetricRelabelings : list (string * string * string);
}.
#[export] Instance Endpoint_eq_dec : EqDecision Endpoint.
Proof. solve_decision. Defined.

(** [smOther] are the fields of the spec that this code never sets. *)
Record ServiceMonitorSpec := {
  JobLabel : string;
  smMatchNames : list string;
  smMatchLabels : gmap string string;
  Endpoints : list Endpoint;
  smOther : string;
}.
#[export] Instance ServiceMonitorSpec_eq_dec : EqDecision ServiceMonitorSpec.
Proof. solve_decision. Defined.

Record ServiceMonitor := { smMeta : ObjectMeta; smSpec : ServiceMonitorSpec }.
#[export] Instance ServiceMonitor_eq_dec : EqDecision ServiceMonitor.
Proof. solve_decision. Defined.

(** ** Projects and departments (kai/v1alpha1) *)

Record ResourceConfig := { Deserved : float64; rcOverQuotaWeight : float64; rcLimit : float64 }.
#[export] Instance ResourceConfig_eq_dec : EqDecision ResourceConfig.
Proof. solve_decision. Defined.

Record QueueResourcesConfig := { cfgGPU : ResourceConfig; cfgCPU : ResourceConfig; cfgMemory : ResourceConfig }.
#[export] Instance QueueResourcesConfig_eq_dec : EqDecision QueueResourcesConfig.
Proof. solve_decision. Defined.

Record QueueConfig := {
  qcName : string;
  qcNodepool : string;
  qcResources : option QueueResourcesConfig;
  qcPriority : option Z;
}.
#[export] Instance QueueConfig_eq_dec : EqDecision QueueConfig.
Proof. solve_decision. Defined.

(** [corev1.ResourceList]: quantities by resource name. *)
Notation ResourceList := (gmap string Z) (only parsing).

(** The status of a queue (scheduling/v2). *)
Record QueueStatus := {
  Allocated : ResourceList;
  AllocatedNonPreemptible : ResourceList;
  Requested : ResourceList;
}.
#[export] Instance QueueStatus_eq_dec : EqDecision QueueStatus.
Proof. solve_decision. Defined.

Record QuotaStatus := { NodePoolName : string; quotaQueueStatus : QueueStatus }.
#[export] Instance QuotaStatus_eq_dec : EqDecision QuotaStatus.
Proof. solve_decision. Defined.

Record ProjectStatus := {
  stNamespace : string;
  stPhase : string;
  stMessage : string;
  stConditions : list Condition;
  NodePoolsQuotaStatuses : list QuotaStatus;
  stQuotaStatus : QueueStatus;
}.
#[export] Instance ProjectStatus_eq_dec : EqDecision ProjectStatus.
Proof. solve_decision. Defined.

Inductive DeletionType := Blocking | OtherDeletionType (s : string).
#[export] Instance DeletionType_eq_dec : EqDecision DeletionType.
Proof. solve_decision. Defined.

Record Project := {
  prjMeta : ObjectMeta;
  prjParent : string;
  prjNamespace : string;
  prjQueues : list QueueConfig;
  DefaultNodePools : list string;
  EnforceKaiScheduler : bool;
  prjDeletionType : option DeletionType;
  prjStatus : ProjectStatus;
}.
#[export] Instance Project_eq_dec : EqDecision Project.
Proof. solve_decision. Defined.

Record Department := {
  depMeta : ObjectMeta;
  depParent : string;
  depQueues : list QueueConfig;
  depConditions : list Condition;
}.
#[export] Instance Department_eq_dec : EqDecision Department.
Proof. solve_decision. Defined.

(** ** Queues (scheduling/v2) *)

Record QueueResource := { Quota : float64; OverQuotaWeight : float64; Limit : float64 }.
#[export] Instance QueueResource_eq_dec : EqDecision QueueResource.
Proof. solve_decision. Defined.

Record QueueResources := { GPU : QueueResource; CPU : QueueResource; Memory : QueueResource }.
#[export] Instance QueueResources_eq_dec : EqDecision QueueResources.
Proof. solve_decision. Defined.

Record QueueSpec := {
  DisplayName : string;
  ParentQueue : string;
  qResources : option QueueResources;
  qPriority : option Z;
}.
#[export] Instance QueueSpec_eq_dec : EqDecision QueueSpec.
Proof. solve_decision. Defined.

Record Queue := { qMeta : ObjectMeta; qSpec : QueueSpec; qStatus : QueueStatus }.
#[export] Instance Queue_eq_dec : EqDecision Queue.
Proof. solve_decision. Defined.

Definition emptyQueueStatus : QueueStatus := {| Allocated := ∅; AllocatedNonPreemptible := ∅; Requested := ∅ |}.

(** ** Config maps, limit ranges and role bindings *)

Record ConfigMap := { cmMeta : ObjectMeta; cmData : gmap string string }.
#[export] Instance ConfigMap_eq_dec : EqDecision ConfigMap.
Proof. solve_decision. Defined.

Record LimitRangeItem := {
  lriType : string;
  lriMax : ResourceList;
  lriDefault : ResourceList;
  lriDefaultRequest : ResourceList;
}.
#[export] Instance LimitRangeItem_eq_dec : EqDecision LimitRangeItem.
Proof. solve_decision. Defined.

Record LimitRange := { lrMeta : ObjectMeta; Limits : list LimitRangeItem }.
#[export] Instance LimitRange_eq_dec : EqDecision LimitRange.
Proof. solve_decision. Defined.

Record RoleRef := { roleAPIGroup : string; roleKind : string; roleName : string }.
#[export] Instance RoleRef_eq_dec : EqDecision RoleRef.
Proof. solve_decision. Defined.

Record Subject := {
  subjectKind : string;
  subjectAPIGroup : string;
  subjectName : string;
  subjectNamespace : string;
}.
#[export] Instance Subject_eq_dec : EqDecision Subject.
Proof. solve_decision. Defined.

Record RoleBinding := { rbMeta : ObjectMeta; rbRoleRef : RoleRef; rbSubjects : list Subject }.
#[export] Instance RoleBinding_eq_dec : EqDecision RoleBinding.
Proof. solve_decision. Defined.

(** ** Managed nodes and Grove topologies *)

(** [metav1.Condition] *)
Record MetaCondition := {
  mcType : string;
  mcStatus : string;
  mcReason : string;
  mcMessage : string;
  mcObservedGeneration : Z;
  mcLastTransitionTime : Z;
}.
#[export] Instance MetaCondition_eq_dec : EqDecision MetaCondition.
Proof. solve_decision. Defined.

Record ManagedNodesConfig := {
  mncMeta : ObjectMeta;
  InclusionCriteria : NodeSelector;
  mncConditions : list MetaCondition;
  mncObservedGeneration : Z;
}.
#[export] Instance ManagedNodesConfig_eq_dec : EqDecision ManagedNodesConfig.
Proof. solve_decision. Defined.

(** A status of a binding: the scheduler and the topology it refers to. *)
Record ClusterTopologyBinding := {
  ctbMeta : ObjectMeta;
  SchedulerTopologyStatuses : list (string * string);
}.
#[export] Instance ClusterTopologyBinding_eq_dec : EqDecision ClusterTopologyBinding.
Proof. solve_decision. Defined.

(** ** What the operator installs

    Fields that the operator never sets are carried as opaque text.  A nil map
    or list and an empty one are the same value. *)

Record EnvVar := { envName : string; envValue : string }.
#[export] Instance EnvVar_eq_dec : EqDecision EnvVar.
Proof. solve_decision. Defined.

Record ContainerPort := { cpName : string; cpContainerPort : Z }.
#[export] Instance ContainerPort_eq_dec : EqDecision ContainerPort.
Proof. solve_decision. Defined.

Record VolumeMount := { vmName : string; vmMountPath : string; vmReadOnly : bool }.
#[export] Instance VolumeMount_eq_dec : EqDecision VolumeMount.
Proof. solve_decision. Defined.

(** A volume from a secret, or of another source. *)
Record Volume := { volName : string; volSecretName : option string; volOther : string }.
#[export] Instance Volume_eq_dec : EqDecision Volume.
Proof. solve_decision. Defined.

Record Container := {
  cName : string;
  cImage : string;
  cImagePullPolicy : string;
  cResources : string;
  cSecurityContext : option string;
  cEnv : list EnvVar;
  cArgs : list string;
  cPorts : list ContainerPort;
  cVolumeMounts : list VolumeMount;
  cOther : string;
}.
#[export] Instance Container_eq_dec : EqDecision Container.
Proof. solve_decision. Defined.

Record PodAffinityTerm := { patMatchLabels : gmap string string; patTopologyKey : string; patOther : string }.
#[export] Instance PodAffinityTerm_eq_dec : EqDecision PodAffinityTerm.
Proof. solve_decision. Defined.

(** Preferred terms carry their weight. *)
Record PodAntiAffinity := { paaPreferred : list (Z * PodAffinityTerm); paaRequired : list PodAffinityTerm }.
#[export] Instance PodAntiAffinity_eq_dec : EqDecision PodAntiAffinity.
Proof. solve_decision. Defined.

(** [corev1.Affinity] with its pod anti-affinity; pod affinity is opaque text. *)
Record FullAffinity := {
  faNodeAffinity : option NodeAffinity;
  faPodAffinity : option string;
  faPodAntiAffinity : option PodAntiAffinity;
}.
#[export] Instance FullAffinity_eq_dec : EqDecision FullAffinity.
Proof. solve_decision. Defined.

Record PodTemplate := {
  ptLabels : gmap string string;
  ptServiceAccountName : string;
  ptNodeSelector : gmap string string;
  ptTolerations : list string;
  ptPriorityClassName : string;
  ptAffinity : option FullAffinity;
  ptContainers : list Container;
  ptImagePullSecrets : list string;
  ptVolumes : list Volume;
  ptTerminationGracePeriodSeconds : option Z;
  ptOther : string;
}.
#[export] Instance PodTemplate_eq_dec : EqDecision PodTemplate.
Proof. solve_decision. Defined.

(** The status: updated replicas and the conditions by type and status. *)
Record Deployment := {
  deplMeta : ObjectMeta;
  deplReplicas : option Z;
  deplSelector : option (gmap string string);
  deplTemplate : PodTemplate;
  deplOther : string;
  UpdatedReplicas : Z;
  deplConditions : list (string * string);
}.
#[export] Instance Deployment_eq_dec : EqDecision Deployment.
Proof. solve_decision. Defined.

Record ServiceAccount := { saMeta : ObjectMeta; saOther : string }.
#[export] Instance ServiceAccount_eq_dec : EqDecision ServiceAccount.
Proof. solve_decision. Defined.

Record ServicePort := { spName : string; spProtocol : string; spPort : Z; spTargetPort : Z }.
#[export] Instance ServicePort_eq_dec : EqDecision ServicePort.
Proof. solve_decision. Defined.

Record ServiceObj := {
  svcMeta : ObjectMeta;
  svcSelector : gmap string string;
  svcPorts : list ServicePort;
  svcType : string;
  svcOther : string;
}.
#[export] Instance ServiceObj_eq_dec : EqDecision ServiceObj.
Proof. solve_decision. Defined.

(** [vpaTargetRef]: API version, kind and name. *)
Record VerticalPodAutoscaler := {
  vpaMeta : ObjectMeta;
  vpaTargetRef : option (string * string * string);
  vpaUpdatePolicy : option string;
  vpaResourcePolicy : option string;
  vpaOther : string;
  vpaStatus : string;
}.
#[export] Instance VerticalPodAutoscaler_eq_dec : EqDecision VerticalPodAutoscaler.
Proof. solve_decision. Defined.

(** The versions of a CRD and whether they are served; the conditions by type
    and status. *)
Record CustomResourceDefinition := {
  crdMeta : ObjectMeta;
  crdVersions : list (string * bool);
  crdConditions : list (string * string);
}.
#[export] Instance CustomResourceDefinition_eq_dec : EqDecision CustomResourceDefinition.
Proof. solve_decision. Defined.

(** The scheduler's own configuration: its namespace, the node pool label key of
    its global section, and its conditions. *)
Record KaiConfig := {
  kcMeta : ObjectMeta;
  kcNamespace : string;
  kcGlobal : option (option string);
  kcConditions : list MetaCondition;
}.
#[export] Instance KaiConfig_eq_dec : EqDecision KaiConfig.
Proof. solve_decision. Defined.

(** ** The configuration of the installation (kai/v1alpha1) *)

Record PortMapping := { pmName : option string; pmPort : option Z; pmTargetPort : option Z }.
#[export] Instance PortMapping_eq_dec : EqDecision PortMapping.
Proof. solve_decision. Defined.

Record K8sClientConfig := { QPS : option Z; Burst : option Z }.
#[export] Instance K8sClientConfig_eq_dec : EqDecision K8sClientConfig.
Proof. solve_decision. Defined.

Record ImageSpec := {
  imgName : option string;
  imgRepository : option string;
  imgTag : option string;
  PullPolicy : option string;
}.
#[export] Instance ImageSpec_eq_dec : EqDecision ImageSpec.
Proof. solve_decision. Defined.

Record ServiceConfig := {
  svEnabled : option bool;
  svImage : option ImageSpec;
  svResources : option string;
  svK8sClientConfig : option K8sClientConfig;
  svAffinity : option FullAffinity;
}.
#[export] Instance ServiceConfig_eq_dec : EqDecision ServiceConfig.
Proof. solve_decision. Defined.

Record VPASpec := { vsEnabled : option bool; vsUpdatePolicy : option string; vsResourcePolicy : option string }.
#[export] Instance VPASpec_eq_dec : EqDecision VPASpec.
Proof. solve_decision. Defined.

Record ServiceMonitorToggles := { stEnabled : option bool; stAccounting : option bool }.
#[export] Instance ServiceMonitorToggles_eq_dec : EqDecision ServiceMonitorToggles.
Proof. solve_decision. Defined.

Record GlobalConfig := {
  gReplicaCount : option Z;
  gOpenshift : option bool;
  gFipsMode : option string;
  gRequireDefaultPodAntiAffinityTerm : option bool;
  gSecurityContext : option string;
  gLeaderElection : option bool;
  gDefaultNodePoolName : option string;
  gVPA : option VPASpec;
  gServiceMonitor : option ServiceMonitorToggles;
  gNodeSelector : gmap string string;
  gTolerations : list string;
  gPriorityClassName : option string;
  gAffinity : option FullAffinity;
  gImagePullSecrets : list string;
  gNodePoolLabelKey : option string;
  gSchedulerName : option string;
  gFinalizerDomain : option string;
  gQueueLabelKey : option string;
  gEnforceSchedulerAnnotationKey : option string;
  gNamespaceProjectLabelKey : option string;
  gProjectLabelKey : option string;
  gAllowExternalQueues : option bool;
}.
#[export] Instance GlobalConfig_eq_dec : EqDecision GlobalConfig.
Proof. solve_decision. Defined.

(** The ports of a service of the controllers; the node pool metrics and the
    metrics port are absent where the service has none. *)
Record ControllerServiceConfig := {
  csMetrics : option PortMapping;
  csNodePoolMetrics : option PortMapping;
  csWebhook : option PortMapping;
}.
#[export] Instance ControllerServiceConfig_eq_dec : EqDecision ControllerServiceConfig.
Proof. solve_decision. Defined.

Record NodePoolControllerArgs := {
  naMetricsNamespace : option string;
  naDcgmExporterNamespace : option string;
  naSchedulingShardArgs : option string;
  naExcludedNodepoolName : option string;
  naManagedNodesConfigName : option string;
  naToExcludeLabel : option string;
  naUnschedulableLabel : option string;
  naGroveTopologyAnnotation : option string;
  naGroveTopologyResourceVersionAnnotation : option string;
  naSchedulerNamespace : option string;
  naDebug : option bool;
  naLeaderElect : option bool;
}.
#[export] Instance NodePoolControllerArgs_eq_dec : EqDecision NodePoolControllerArgs.
Proof. solve_decision. Defined.

Record NodePoolControllerWebhooks := { nwEnableNodePoolValidation : option bool; nwCertSecretName : option string }.
#[export] Instance NodePoolControllerWebhooks_eq_dec : EqDecision NodePoolControllerWebhooks.
Proof. solve_decision. Defined.

Record NodePoolControllerSpec := {
  ncService : option ServiceConfig;
  ncReplicas : option Z;
  ncVPA : option VPASpec;
  ncControllerService : option ControllerServiceConfig;
  ncWebhooks : option NodePoolControllerWebhooks;
  ncArgs : option NodePoolControllerArgs;
  ncExtraArgs : list string;
}.
#[export] Instance NodePoolControllerSpec_eq_dec : EqDecision NodePoolControllerSpec.
Proof. solve_decision. Defined.

Record ProjectControllerArgs := {
  paProjectNamePrefix : option string;
  paProjectIDLabelKey : option string;
  paQueueDepartmentNameLabelKey : option string;
  paNamespaceVersionLabelKey : option string;
  paResourceManualOverrideLabelKey : option string;
  paLimitRangeName : option string;
  paDebug : option bool;
  paLeaderElect : option bool;
}.
#[export] Instance ProjectControllerArgs_eq_dec : EqDecision ProjectControllerArgs.
Proof. solve_decision. Defined.

Record ProjectControllerWebhooks := {
  pwEnableProjectValidation : option bool;
  pwEnableDepartmentValidation : option bool;
  pwCertSecretName : option string;
}.
#[export] Instance ProjectControllerWebhooks_eq_dec : EqDecision ProjectControllerWebhooks.
Proof. solve_decision. Defined.

Record ProjectControllerFeatures := {
  CreateNamespaces : option bool;
  CreateRoleBindings : option bool;
  featLimitRange : option bool;
}.
#[export] Instance ProjectControllerFeatures_eq_dec : EqDecision ProjectControllerFeatures.
Proof. solve_decision. Defined.

Record Profiling := { profEnabled : option bool; profAPIPort : option Z }.
#[export] Instance Profiling_eq_dec : EqDecision Profiling.
Proof. solve_decision. Defined.

Record ProjectRoleBinding := {
  prbName : string;
  prbClusterRoleName : string;
  prbServiceAccountName : string;
  BindProjectServiceAccount : option bool;
}.
#[export] Instance ProjectRoleBinding_eq_dec : EqDecision ProjectRoleBinding.
Proof. solve_decision. Defined.

Record DeleteBlockerSpec := { dbsGroup : string; dbsVersion : string; dbsKind : string; dbsOther : string }.
#[export] Instance DeleteBlockerSpec_eq_dec : EqDecision DeleteBlockerSpec.
Proof. solve_decision. Defined.

Record ProjectControllerSpec := {
  pcService : option ServiceConfig;
  pcReplicas : option Z;
  pcVPA : option VPASpec;
  pcControllerService : option ControllerServiceConfig;
  pcWebhooks : option ProjectControllerWebhooks;
  pcFeatures : option ProjectControllerFeatures;
  pcProfiling : option Profiling;
  pcArgs : option ProjectControllerArgs;
  pcRoleBindingsConfigMapName : option string;
  pcExtraProjectRoleBindings : list ProjectRoleBinding;
  pcDeleteBlockers : list DeleteBlockerSpec;
  pcExtraArgs : list string;
}.
#[export] Instance ProjectControllerSpec_eq_dec : EqDecision ProjectControllerSpec.
Proof. solve_decision. Defined.

Record PodGroupAssignerArgs := {
  gaUnexistingNodepoolSentinel : option string;
  gaAnnotationNodepoolsKey : option string;
  gaDebug : option bool;
  gaLeaderElect : option bool;
}.
#[export] Instance PodGroupAssignerArgs_eq_dec : EqDecision PodGroupAssignerArgs.
Proof. solve_decision. Defined.

Record PodGroupAssignerWebhooks := { gwEnablePodWebhook : option bool; gwCertSecretName : option string }.
#[export] Instance PodGroupAssignerWebhooks_eq_dec : EqDecision PodGroupAssignerWebhooks.
Proof. solve_decision. Defined.

Record PodGroupAssignerSpec := {
  gaService : option ServiceConfig;
  gaReplicas : option Z;
  gaVPA : option VPASpec;
  gaControllerService : option ControllerServiceConfig;
  gaWebhooks : option PodGroupAssignerWebhooks;
  gaArgs : option PodGroupAssignerArgs;
  gaExtraArgs : list string;
}.
#[export] Instance PodGroupAssignerSpec_eq_dec : EqDecision PodGroupAssignerSpec.
Proof. solve_decision. Defined.

Record KRMConfigSpec := {
  krmNamespace : string;
  krmGlobal : option GlobalConfig;
  krmNodePoolController : option NodePoolControllerSpec;
  krmProjectController : option ProjectControllerSpec;
  krmPodGroupAssigner : option PodGroupAssignerSpec;
}.
#[export] Instance KRMConfigSpec_eq_dec : EqDecision KRMConfigSpec.
Proof. solve_decision. Defined.

Record KRMConfig := { krmMeta : ObjectMeta; krmSpec : KRMConfigSpec; krmConditions : list MetaCondition }.
#[export] Instance KRMConfig_eq_dec : EqDecision KRMConfig.
Proof. solve_decision. Defined.

(** ** The API client *)

Inductive Kind :=
| KPod | KPodGroup | KNamespace | KTopology | KNodePool | KProject | KDepartment | KQueue
| KConfigMap | KLimitRange | KRoleBinding
| KNode | KSchedulingShard | KServiceMonitor | KNodeResourceTopology
| KManagedNodesConfig | KClusterTopologyBinding
| KDeployment | KServiceAccount | KService | KVerticalPodAutoscaler
| KCustomResourceDefinition | KKaiConfig | KKRMConfig.
#[export] Instance Kind_eq_dec : EqDecision Kind.
Proof. solve_decision. Defined.

Definition obj (K : Kind) : Type :=
  match K with
  | KPod => Pod | KPodGroup => PodGroup | KNamespace => NamespaceObj | KTopology => Topology
  | KNodePool => NodePool | KProject => Project | KDepartment => Department | KQueue => Queue
  | KConfigMap => ConfigMap | KLimitRange => LimitRange | KRoleBinding => RoleBinding
  | KNode => Node | KSchedulingShard => SchedulingShard | KServiceMonitor => ServiceMonitor
  | KNodeResourceTopology => NodeResourceTopology
  | KManagedNodesConfig => ManagedNodesConfig | KClusterTopologyBinding => ClusterTopologyBinding
  | KDeployment => Deployment | KServiceAccount => ServiceAccount | KService => ServiceObj
  | KVerticalPodAutoscaler => VerticalPodAutoscaler | KCustomResourceDefinition => CustomResourceDefinition
  | KKaiConfig => KaiConfig | KKRMConfig => KRMConfig
  end.

Definition objMeta (K : Kind) : obj K -> ObjectMeta :=
  match K with
  | KPod => podMeta | KPodGroup => pgMeta | KNamespace => nsMeta | KTopology => topoMeta
  | KNodePool => npMeta | KProject => prjMeta | KDepartment => depMeta | KQueue => qMeta
  | KConfigMap => cmMeta | KLimitRange => lrMeta | KRoleBinding => rbMeta
  | KNode => nodeMeta | KSchedulingShard => shardMeta | KServiceMonitor => smMeta
  | KNodeResourceTopology => nrtMeta
  | KManagedNodesConfig => mncMeta | KClusterTopologyBinding => ctbMeta
  | KDeployment => deplMeta | KServiceAccount => saMeta | KService => svcMeta
  | KVerticalPodAutoscaler => vpaMeta | KCustomResourceDefinition => crdMeta
  | KKaiConfig => kcMeta | KKRMConfig => krmMeta
  end.

#[export] Instance obj_eq_dec (K : Kind) : EqDecision (obj K).
Proof. destruct K; simpl; apply _. Defined.

(** Label selectors (apimachinery's [labels] and [selection]). *)
Inductive Operator := DoubleEquals | OpEquals | NotEquals | OpIn | NotIn | Exists | DoesNotExist.
#[export] Instance Operator_eq_dec : EqDecision Operator.
Proof. solve_decision. Defined.

Record Requirement := { reqKey : string; reqOperator : Operator; reqValues : list string }.
#[export] Instance Requirement_eq_dec : EqDecision Requirement.
Proof. solve_decision. Defined.

Record ListOptions := {
  loNamespace : string;
  loLabelSelector : list Requirement;
  (** [client.MatchingLabels] *)
  loMatchingLabels : gmap string string;
  (** a one-term field selector: indexer name and value *)
  loFieldSelector : option (string * string);
}.

Definition listAll : ListOptions :=
  {| loNamespace := ""; loLabelSelector := []; loMatchingLabels := ∅; loFieldSelector := None |}.

Definition NamespacedName := (string * string)%type.

(** The calls of [client.Client] and of the standard library that answer with
    something the program does not determine.  A write replies with the object
    as the server stored it, which is what [client.Client] writes back into
    its argument. *)
Inductive KubeCall : Type -> Type :=
| Get (K : Kind) (key : NamespacedName) : KubeCall (result (obj K))
(** a read by [mgr.GetAPIReader()], which bypasses the cache *)
| GetLive (K : Kind) (key : NamespacedName) : KubeCall (result (obj K))
| List (K : Kind) (opts : ListOptions) : KubeCall (result (list (obj K)))
(** a list of [unstructured] objects of a group, version and kind: the kind and
    name of each item *)
| ListUnstructured (group version kind : string) (opts : ListOptions) : KubeCall (result (list (string * string)))
(** a read of an [unstructured] object: its deletion timestamp *)
| GetUnstructured (group version kind : string) (key : NamespacedName) : KubeCall (result (option Z))
| Create (K : Kind) (o : obj K) : KubeCall (result (obj K))
| Update (K : Kind) (o : obj K) : KubeCall (result (obj K))
| UpdateStatus (K : Kind) (o : obj K) : KubeCall (result (obj K))
| Patch (K : Kind) (original modified : obj K) : KubeCall (result (obj K))
| PatchStatus (K : Kind) (original modified : obj K) : KubeCall (result (obj K))
| Delete (K : Kind) (o : obj K) : KubeCall (result unit)
(** [rand.String(n)] *)
| RandString (n : nat) : KubeCall string
(** [metav1.Now()] *)
| Now : KubeCall Z
(** [recorder.Eventf]: an Event about an object, by its reason *)
| RecordEvent (about : string) (reason : string) : KubeCall unit.

Notation kube A := (prog KubeCall A).

(** [ctrl.Result]; the delay is in seconds, zero for none. *)
Record Result := { Requeue : bool; RequeueAfter : Z }.

(** The calls that change an object of the cluster (Events aside). *)
Definition is_write {X} (c : KubeCall X) : bool :=
  match c with
  | Get _ _ | GetLive _ _ | List _ _ | ListUnstructured _ _ _ _ | GetUnstructured _ _ _ _ | RandString _ | Now | RecordEvent _ _ => false
  | _ => true
  end.

Definition reads_only {A} (p : kube A) : Prop :=
  wp (C := KubeCall) (fun _ c => is_write c = false) any_reply p (fun _ => True).

(** The writes of an execution, in order. *)
Definition writes (tr : list (event KubeCall)) : list (event KubeCall) :=
  filter (fun e => is_write (ev_call e) = true) tr.

Lemma writes_nil tr : Forall (fun e : event KubeCall => is_write (ev_call e) = false) tr -> writes tr = [].
Proof.
  unfold writes. induction 1 as [|e tr' He Hall IH]; [done|].
  rewrite filter_cons. rewrite decide_False; [exact IH|]. simpl in *. congruence.
Qed.

Lemma reads_only_writes {A} (p : kube A) tr a :
  reads_only p -> exec p tr a -> writes tr = [].
Proof. intros Hro Hex. destruct (wp_exec_any _ _ _ _ _ Hro Hex) as [Hall _]. by apply writes_nil. Qed.

Lemma reads_ret {A} (a : A) : reads_only (Ret a).
Proof. done. Qed.

Lemma reads_call {X} (c : KubeCall X) : is_write c = false -> reads_only (call c).
Proof. by split. Qed.

Lemma reads_bind {A B} (p : kube A) (f : A -> kube B) :
  reads_only p -> (forall a, reads_only (f a)) -> reads_only (x <- p ;; f x).
Proof. intros Hp Hf. apply wp_bind. eapply wp_mono; [|exact Hp]. intros a _. apply Hf. Qed.

Lemma reads_try {A B} (p : kube (result A)) (f : A -> kube (result B)) :
  reads_only p -> (forall a, reads_only (f a)) -> reads_only (x <-? p ;; f x).
Proof. intros Hp Hf. apply reads_bind; [done|]. intros [e|a]; [done|apply Hf]. Qed.

(** A program that only reads satisfies every safety condition on writes. *)
Lemma reads_only_wp {A} (pre : forall X, KubeCall X -> Prop) (p : kube A) :
  (forall X (c : KubeCall X), is_write c = false -> pre X c) ->
  reads_only p -> wp pre any_reply p (fun _ => True).
Proof. intros Hpre. by apply wp_pre_mono. Qed.

(** Every call of the program satisfies [pre], whatever the replies. *)
Definition issues {A} (pre : forall X, KubeCall X -> Prop) (p : kube A) : Prop :=
  wp pre any_reply p (fun _ => True).

Lemma issues_ret {A} (pre : forall X, KubeCall X -> Prop) (a : A) : issues pre (Ret a).
Proof. done. Qed.

Lemma issues_call {X} (pre : forall X, KubeCall X -> Prop) (c : KubeCall X) : pre X c -> issues pre (call c).
Proof. by split. Qed.

Lemma issues_bind {A B} (pre : forall X, KubeCall X -> Prop) (p : kube A) (f : A -> kube B) :
  issues pre p -> (forall a, issues pre (f a)) -> issues pre (x <- p ;; f x).
Proof. intros Hp Hf. apply wp_bind. eapply wp_mono; [|exact Hp]. intros a _. apply Hf. Qed.

Lemma issues_try {A B} (pre : forall X, KubeCall X -> Prop) (p : kube (result A)) (f : A -> kube (result B)) :
  issues pre p -> (forall a, issues pre (f a)) -> issues pre (x <-? p ;; f x).
Proof. intros Hp Hf. apply issues_bind; [done|]. intros [e|a]; [done|apply Hf]. Qed.

Lemma issues_exec {A} (pre : forall X, KubeCall X -> Prop) (p : kube A) tr a :
  issues pre p -> exec p tr a -> Forall (fun e => pre _ (ev_call e)) tr.
Proof. intros Hp Hex. by destruct (wp_exec_any _ _ _ _ _ Hp Hex). Qed.

Lemma issues_reads {A} (pre : forall X, KubeCall X -> Prop) (p : kube A) :
  (forall X (c : KubeCall X), is_write c = false -> pre X c) -> reads_only p -> issues pre p.
Proof. apply reads_only_wp. Qed.

(** Structural proof that a program only reads. *)
Ltac reads_step :=
  match goal with
  | |- reads_only (prog_bind_ _ _) => apply reads_bind; [|intros ?]
  | |- reads_only (try_bind _ _) => apply reads_try; [|intros ?]
  | |- reads_only (call _) => apply reads_call; reflexivity
  | |- reads_only (Ret _) => apply reads_ret
  | |- reads_only (match ?x with _ => _ end) => destruct x
  | |- reads_only _ => solve [eauto with krm]
  end.
Ltac reads_tac := repeat (cbv beta zeta; reads_step).

#[export] Hint Resolve reads_ret reads_call reads_bind reads_try : krm.

(** Two parts of an execution. *)
Lemma writes_app tr1 tr2 : writes (tr1 ++ tr2) = writes tr1 ++ writes tr2.
Proof. apply filter_app. Qed.

(** ** An in-memory API server

    The simplest server: a finite map per kind.  It is only used to evaluate
    programs on concrete clusters. *)

Definition store := forall K : Kind, gmap NamespacedName (obj K).
Definition emptyStore : store := fun _ => ∅.

Definition store_update (s : store) (K : Kind) (f : gmap NamespacedName (obj K) -> gmap NamespacedName (obj K)) : store :=
  fun K' => match decide (K = K') with
            | left e => match e in _ = K'' return gmap NamespacedName (obj K'') with eq_refl => f (s K) end
            | right _ => s K'
            end.

Definition objKey {K} (o : obj K) : NamespacedName := (Namespace (objMeta K o), Name (objMeta K o)).

Definition store_add {K} (o : obj K) (s : store) : store := store_update s K <[objKey o := o]>.

Definition notFound {A} : result A := inl (APIError ReasonNotFound "").

(** How the test server evaluates one requirement. *)
Definition requirementHolds (r : Requirement) (ls : gmap string string) : bool :=
  match reqOperator r with
  | DoubleEquals | OpEquals | OpIn => match ls !! reqKey r with Some v => bool_decide (v ∈ reqValues r) | None => false end
  | NotEquals | NotIn => match ls !! reqKey r with Some v => bool_decide (v ∉ reqValues r) | None => true end
  | Exists => match ls !! reqKey r with Some _ => true | None => false end
  | DoesNotExist => match ls !! reqKey r with Some _ => false | None => true end
  end.

Definition selected (opts : ListOptions) (m : ObjectMeta) : bool :=
  (bool_decide (loNamespace opts = "") || bool_decide (loNamespace opts = Namespace m))
  && forallb (fun r => requirementHolds r (Labels m)) (loLabelSelector opts)
  && forallb (fun kv => bool_decide (Labels m !! kv.1 = Some kv.2)) (map_to_list (loMatchingLabels opts)).

Definition memServer : handler KubeCall store := fun X c =>
  match c in KubeCall X return store -> X * store with
  | Get K key | GetLive K key => fun s => (match s K !! key with Some o => inr o | None => notFound end, s)
  | List K opts => fun s =>
      (inr (filter (fun o => selected opts (objMeta K o) = true) (snd <$> map_to_list (s K))), s)
  | ListUnstructured _ _ _ _ => fun s => (inr [], s)
  | GetUnstructured _ _ _ _ => fun s => (notFound, s)
  | Create K o => fun s =>
      match s K !! objKey o with
      | Some _ => (inl (APIError ReasonAlreadyExists ""), s)
      | None => (inr o, store_add o s)
      end
  | Update K o | UpdateStatus K o | Patch K _ o | PatchStatus K _ o => fun s =>
      match s K !! objKey o with
      | Some _ => (inr o, store_add o s)
      | None => (notFound, s)
      end
  | Delete K o => fun s =>
      match s K !! objKey o with
      | Some _ => (inr tt, store_update s K (delete (objKey o)))
      | None => (notFound, s)
      end
  | RandString n => fun s => (String.concat "" (repeat "x" n), s)
  | Now => fun s => (0%Z, s)
  | RecordEvent _ _ => fun s => (tt, s)
  end.
