(* ===== verification/Goroutines.v ===== *)
(** * Goroutines that share memory

    The code runs a few goroutines beside each other: reconciles and a ticker
    that share the cache of the pod group assigner, and the deletion of
    resources.  What they share is guarded by a mutex, so a goroutine is a
    program whose steps are calls to the API and critical sections, and the
    goroutines of a process interleave step by step. *)

From stdpp Require Import base list relations well_founded.
From S2P Require Import Prelude.

(** A step of a goroutine: a critical section on the shared memory [S], or a
    call outside of the lock. *)
Inductive SharedCall (C : Type -> Type) (S : Type) : Type -> Type :=
| Locked {X : Type} (section : S -> X * S) : SharedCall C S X
| Outside {X : Type} (c : C X) : SharedCall C S X.
Arguments Locked {C S X} section.
Arguments Outside {C S X} c.

Notation shared C S A := (prog (SharedCall C S) A).

(** A program that does not touch the shared memory. *)
Fixpoint outside {C S A} (p : prog C A) : shared C S A :=
  match p with
  | Ret a => Ret a
  | Do c k => Do (Outside c) (fun x => outside (k x))
  end.

(** A goroutine: what it was started for, the calls it has made, and the rest of
    its program. *)
Record goroutine (C : Type -> Type) (S L A : Type) :=
  { gFor : L; gCalls : list (event C); gRest : shared C S A }.
Arguments gFor {C S L A} _.
Arguments gCalls {C S L A} _.
Arguments gRest {C S L A} _.

Record process (C : Type -> Type) (S L A : Type) :=
  { memory : S; goroutines : list (goroutine C S L A) }.
Arguments memory {C S L A} _.
Arguments goroutines {C S L A} _.

Section Interleaving.
Context {C : Type -> Type} {S L A : Type}.
Implicit Types (g : goroutine C S L A) (s : S).

(** The replies the server may give, the steps of the background on the memory,
    and the goroutines that may be started at any time. *)
Context (reply : forall X, C X -> X -> Prop).
Context (background : S -> S -> Prop).
Context (body : L -> shared C S A) (startable : L -> Prop).

(** A step of one goroutine, which may change the memory. *)
Inductive gstep : S -> goroutine C S L A -> S -> goroutine C S L A -> Prop :=
| gstep_outside s l tr X (c : C X) (k : X -> shared C S A) x :
    reply X c x ->
    gstep s {| gFor := l; gCalls := tr; gRest := Do (Outside c) k |}
          s {| gFor := l; gCalls := tr ++ [Event c x]; gRest := k x |}
| gstep_locked s l tr X (f : S -> X * S) (k : X -> shared C S A) :
    gstep s {| gFor := l; gCalls := tr; gRest := Do (Locked f) k |}
          (f s).2 {| gFor := l; gCalls := tr; gRest := k (f s).1 |}.

Lemma gstep_inv s g s' g' : gstep s g s' g' ->
  match gRest g with
  | Ret _ => False
  | @Do _ _ X c k =>
      match c in SharedCall _ _ X return (X -> shared C S A) -> Prop with
      | Locked f => fun k => s' = (f s).2 /\ g' = {| gFor := gFor g; gCalls := gCalls g; gRest := k (f s).1 |}
      | Outside c => fun k => exists x, reply _ c x /\ s' = s /\
          g' = {| gFor := gFor g; gCalls := gCalls g ++ [Event c x]; gRest := k x |}
      end k
  end.
Proof. destruct 1 as [s l tr X c k x Hx|]; [by exists x|done]. Qed.

Definition started (l : L) : goroutine C S L A := {| gFor := l; gCalls := []; gRest := body l |}.

Inductive step : process C S L A -> process C S L A -> Prop :=
| step_goroutine s s' gs i g g' :
    gs !! i = Some g -> gstep s g s' g' ->
    step {| memory := s; goroutines := gs |} {| memory := s'; goroutines := <[i := g']> gs |}
| step_background s s' gs :
    background s s' -> step {| memory := s; goroutines := gs |} {| memory := s'; goroutines := gs |}
| step_go s gs l :
    startable l -> step {| memory := s; goroutines := gs |} {| memory := s; goroutines := gs ++ [started l] |}.

Definition finished (g : goroutine C S L A) (a : A) : Prop := gRest g = Ret a.

(** ** Rely and guarantee

    [safe Inv p tr Q]: a goroutine that has made the calls [tr] and has [p] left
    keeps the invariant of the memory and ends with calls and a value that satisfy
    [Q], if the others keep the invariant too. *)
Fixpoint safe (Inv : S -> Prop) (p : shared C S A) (tr : list (event C)) (Q : list (event C) -> A -> Prop) : Prop :=
  match p with
  | Ret a => Q tr a
  | @Do _ _ X c k =>
      match c in SharedCall _ _ X return (X -> shared C S A) -> Prop with
      | Locked f => fun k => forall s, Inv s -> Inv (f s).2 /\ safe Inv (k (f s).1) tr Q
      | Outside c => fun k => forall x, reply _ c x -> safe Inv (k x) (tr ++ [Event c x]) Q
      end k
  end.

Definition processOk (Inv : S -> Prop) (Q : L -> list (event C) -> A -> Prop) (P : process C S L A) : Prop :=
  Inv (memory P) /\ Forall (fun g => safe Inv (gRest g) (gCalls g) (Q (gFor g))) (goroutines P).

(** Goroutines that are safe alone are safe together, however they interleave. *)
Lemma safe_together (Inv : S -> Prop) (Q : L -> list (event C) -> A -> Prop) P P' :
  (forall s s', background s s' -> Inv s -> Inv s') ->
  (forall l, startable l -> safe Inv (body l) [] (Q l)) ->
  rtc step P P' -> processOk Inv Q P -> processOk Inv Q P'.
Proof.
  intros Hback Hbody. induction 1 as [|P1 P2 P3 Hstep _ IH]; [done|]. intros [Hinv Hall]. apply IH. clear IH.
  destruct Hstep as [s s' gs i g g' Hi Hg|s s' gs Hb|s gs l Hl]; simpl in *; split; simpl.
  - pose proof (Forall_lookup_1 _ _ _ _ Hall Hi) as Hsafe.
    destruct Hg as [|s l tr X f k]; [done|]. simpl in Hsafe. by apply Hsafe.
  - pose proof (Forall_lookup_1 _ _ _ _ Hall Hi) as Hsafe. apply Forall_insert; [done|].
    destruct Hg as [s l tr X c k x Hx|s l tr X f k]; simpl in *; [by apply Hsafe|]. by apply Hsafe.
  - by eapply Hback.
  - done.
  - done.
  - apply Forall_app; split; [done|]. apply Forall_singleton. by apply Hbody.
Qed.

Lemma safe_finished Inv Q P g a :
  processOk Inv Q P -> g ∈ goroutines P -> finished g a -> Q (gFor g) (gCalls g) a.
Proof.
  intros [_ Hall] Hg Hf. rewrite Forall_forall in Hall. pose proof (Hall g Hg) as Hsafe.
  unfold finished in Hf. by rewrite Hf in Hsafe.
Qed.

(** ** Termination *)

(** The goroutines alone, without background and new ones. *)
Definition joining (P' P : process C S L A) : Prop :=
  exists i g g', goroutines P !! i = Some g /\ gstep (memory P) g (memory P') g' /\
    goroutines P' = <[i := g']> (goroutines P).

Definition continues (p' p : shared C S A) : Prop :=
  match p with Ret _ => False | @Do _ _ X c k => exists x : X, p' = k x end.

Definition oneContinues (ps' ps : list (shared C S A)) : Prop :=
  exists i p p', ps !! i = Some p /\ continues p' p /\ ps' = <[i := p']> ps.

Lemma oneContinues_cons p ps : Acc oneContinues ps -> Acc oneContinues (p :: ps).
Proof.
  revert ps. induction p as [a|X c k IHk]; intros ps Hacc; induction Hacc as [ps Hps IHps]; constructor;
    intros ps' ([|i] & q & q' & Hi & Hq & ->); simpl in *.
  - by injection Hi as <-.
  - apply IHps. by exists i, q, q'.
  - injection Hi as <-. destruct Hq as [x ->]. apply IHk. by constructor.
  - apply IHps. by exists i, q, q'.
Qed.

Lemma oneContinues_wf : well_founded oneContinues.
Proof.
  intros ps. induction ps as [|p ps IH]; [|by apply oneContinues_cons].
  constructor. intros ps' (i & p & p' & Hi & _). by rewrite lookup_nil in Hi.
Qed.

(** However they interleave, goroutines come to an end. *)
Lemma joining_wf : well_founded joining.
Proof.
  apply (wf_projected oneContinues (fun P => gRest <$> goroutines P)); [|apply oneContinues_wf].
  intros [s' gs'] [s gs] (i & g & g' & Hi & Hstep & Heq). simpl in *. subst gs'.
  exists i, (gRest g), (gRest g'). rewrite list_lookup_fmap, Hi, list_fmap_insert. split_and!; [done| |done].
  destruct Hstep; by eexists.
Qed.

(** A server that answers every call keeps them going. *)
Lemma joining_progress P :
  (forall X (c : C X), exists x, reply X c x) ->
  (forall P', ~ joining P' P) -> Forall (fun g => exists a, finished g a) (goroutines P).
Proof.
  intros Hreply Hend. apply Forall_lookup. intros i [l tr p] Hi. unfold finished. simpl.
  destruct p as [a|X c k]; [by exists a|]. exfalso. destruct c as [X f|X c].
  - apply (Hend {| memory := (f (memory P)).2;
                   goroutines := <[i := {| gFor := l; gCalls := tr; gRest := k (f (memory P)).1 |}]> (goroutines P) |}).
    eexists i, _, _. split; [exact Hi|]. split; [constructor|done].
  - destruct (Hreply X c) as [x Hx].
    apply (Hend {| memory := memory P;
                   goroutines := <[i := {| gFor := l; gCalls := tr ++ [Event c x]; gRest := k x |}]> (goroutines P) |}).
    eexists i, _, _. split; [exact Hi|]. split; [by constructor|done].
Qed.

Lemma joining_step P P' : joining P' P -> step P P'.
Proof.
  destruct P as [s gs], P' as [s' gs']. intros (i & g & g' & Hi & Hstep & Heq). simpl in *. subst gs'. by econstructor.
Qed.

End Interleaving.

Arguments started {C S L A} body l.
Arguments finished {C S L A} g a.

(** ** Reasoning about one goroutine *)

Section Safe.
Context {C : Type -> Type} {S : Type} (reply : forall X, C X -> X -> Prop) (Inv : S -> Prop).

Lemma safe_mono {A} (p : shared C S A) tr (Q R : list (event C) -> A -> Prop) :
  (forall tr a, Q tr a -> R tr a) -> safe reply Inv p tr Q -> safe reply Inv p tr R.
Proof.
  intros HQR. revert tr. induction p as [a|X c k IHk]; intros tr; simpl; [apply HQR|].
  destruct c as [X f|X c]; intros H; [intros s Hs|intros x Hx].
  - destruct (H s Hs). split; [done|]. by apply IHk.
  - apply IHk. by apply H.
Qed.

Lemma safe_bind {A B} (p : shared C S A) (f : A -> shared C S B) tr Q :
  safe reply Inv p tr (fun tr a => safe reply Inv (f a) tr Q) -> safe reply Inv (x <- p ;; f x) tr Q.
Proof.
  revert tr. induction p as [a|X c k IHk]; intros tr; simpl; [done|].
  destruct c as [X g|X c]; intros H; [intros s Hs|intros x Hx].
  - destruct (H s Hs). split; [done|]. by apply IHk.
  - apply IHk. by apply H.
Qed.

(** What a program without shared memory does is what it does alone. *)
Definition replied (tr : list (event C)) : Prop := Forall (fun e => reply _ (ev_call e) (ev_reply e)) tr.

Lemma safe_outside {A} (p : prog C A) tr (Q : list (event C) -> A -> Prop) :
  (forall tr' a, exec p tr' a -> replied tr' -> Q (tr ++ tr') a) ->
  safe reply Inv (outside p) tr Q.
Proof.
  revert tr. induction p as [a|X c k IHk]; intros tr H; simpl.
  { rewrite <- (app_nil_r tr). apply H; [done|by apply Forall_nil]. }
  intros x Hx. apply IHk. intros tr' a Hexec Hrep. rewrite <- app_assoc. apply H; [by exists x, tr'|].
  by apply Forall_cons.
Qed.

Lemma safe_locked {X} (f : S -> X * S) tr (Q : list (event C) -> X -> Prop) :
  (forall s, Inv s -> Inv (f s).2 /\ Q tr (f s).1) -> safe reply Inv (call (Locked f)) tr Q.
Proof. done. Qed.

End Safe.

(** ** Schedules

    A schedule says whose turn it is; with a server that answers the calls it
    gives one interleaving. *)

Inductive action (L : Type) := Turn (i : nat) | Tick | Go (l : L).
Arguments Turn {L} i.
Arguments Tick {L}.
Arguments Go {L} l.

Section Schedules.
Context {C : Type -> Type} {S L A T : Type} (h : handler C T) (tick : S -> S) (body : L -> shared C S A).

Definition turn (t : T) (s : S) (g : goroutine C S L A) : T * (S * goroutine C S L A) :=
  match gRest g with
  | Ret _ => (t, (s, g))
  | @Do _ _ X c k =>
      match c in SharedCall _ _ X return (X -> shared C S A) -> T * (S * goroutine C S L A) with
      | Locked f => fun k => (t, ((f s).2, {| gFor := gFor g; gCalls := gCalls g; gRest := k (f s).1 |}))
      | Outside c => fun k =>
          let xt := h _ c t in
          (xt.2, (s, {| gFor := gFor g; gCalls := gCalls g ++ [Event c xt.1]; gRest := k xt.1 |}))
      end k
  end.

Definition act (tP : T * process C S L A) (a : action L) : T * process C S L A :=
  let P := tP.2 in
  match a with
  | Turn i =>
      match goroutines P !! i with
      | None => tP
      | Some g =>
          let r := turn tP.1 (memory P) g in
          (r.1, {| memory := r.2.1; goroutines := <[i := r.2.2]> (goroutines P) |})
      end
  | Tick => (tP.1, {| memory := tick (memory P); goroutines := goroutines P |})
  | Go l => (tP.1, {| memory := memory P; goroutines := goroutines P ++ [started body l] |})
  end.

Definition schedule (tP : T * process C S L A) (actions : list (action L)) : T * process C S L A :=
  fold_left act actions tP.

Context (background : S -> S -> Prop) (startable : L -> Prop).

Definition allowed (a : action L) : Prop :=
  match a with Turn _ => True | Tick => forall s, background s (tick s) | Go l => startable l end.

Lemma act_steps tP a : allowed a -> rtc (step any_reply background body startable) tP.2 (act tP a).2.
Proof.
  destruct tP as [t [s gs]]. destruct a as [i| |l]; simpl; intros Ha; [|by apply rtc_once; constructor..].
  destruct (gs !! i) as [[l tr p]|] eqn:Hi; [|done]. simpl. unfold turn. simpl.
  destruct p as [a|X c k]; simpl; [by rewrite list_insert_id|].
  apply rtc_once. eapply step_goroutine; [exact Hi|]. destruct c; by constructor.
Qed.

(** A schedule is an interleaving. *)
Lemma schedule_steps tP actions :
  Forall allowed actions -> rtc (step any_reply background body startable) tP.2 (schedule tP actions).2.
Proof.
  intros Hall. revert tP. induction Hall as [|a actions Ha _ IH]; intros tP; [done|].
  etrans; [by apply act_steps|]. apply IH.
Qed.

End Schedules.
