(* ===== verification/NodePoolUtils.v ===== *)
(** * Node pool utilities and the requested-node-pools converter

    [pkg/common/node-pool-utils]: the label selectors of a node pool
    ([utils/label_selector_utils.go]), the pool index ([utils/utils.go]) and
    the resolution of the node pools an object asks for
    ([converter/converter.go]). *)

From stdpp Require Import base list gmap strings.
From S2P Require Import Prelude ApiTypes.

(** ** The labels library

    [labels.NewRequirement] and [Requirement.Matches] are apimachinery code:
    an interface with the documented meaning of the operators the code uses. *)

Class LabelsLib := {
  NewRequirement : string -> Operator -> list string -> result Requirement;
  Matches : Requirement -> gmap string string -> bool;
}.

Class LabelsLaws (L : LabelsLib) : Prop := {
  matches_double_equals k v r ls :
    NewRequirement k DoubleEquals [v] = inr r -> Matches r ls = (ls !! k ==? Some v);
  matches_not_in k v r ls :
    NewRequirement k NotIn [v] = inr r -> Matches r ls = (ls !! k !=? Some v);
  matches_exists k r ls :
    NewRequirement k Exists [] = inr r -> Matches r ls = bool_decide (is_Some (ls !! k));
  matches_does_not_exist k r ls :
    NewRequirement k DoesNotExist [] = inr r -> Matches r ls = (ls !! k ==? None);
}.

(** ** Label selectors *)

Module LabelSelectors.
Section LabelSelectors.
Context {L : LabelsLib}.

Definition newRequirement (key : string) (op : Operator) (vals : list string) : result Requirement :=
  NewRequirement key op vals.

Definition requirementNodePoolName (nodePoolName nodePoolAssignmentLabelKey : string)
    (matching exists_ : bool) : result Requirement :=
  let vals := [nodePoolName] in
  let op := DoubleEquals in
  let op := if negb matching then NotEquals else op in
  let '(op, vals) := if negb exists_ then (DoesNotExist, []) else (op, vals) in
  newRequirement nodePoolAssignmentLabelKey op vals.

Definition requirementNodePoolNameDoesNotExist (nodePoolAssignmentLabelKey : string) : result Requirement :=
  requirementNodePoolName "" nodePoolAssignmentLabelKey false false.

Definition RequirementNodePoolNameMatching (nodePoolName nodePoolAssignmentLabelKey : string) : result Requirement :=
  requirementNodePoolName nodePoolName nodePoolAssignmentLabelKey true true.

Definition GetNodePoolLabelSelector
    (nodePoolName nodePoolAssignmentLabelKey defaultNodepoolName : string) : result Requirement :=
  if nodePoolName ==? defaultNodepoolName
  then requirementNodePoolNameDoesNotExist nodePoolAssignmentLabelKey
  else RequirementNodePoolNameMatching nodePoolName nodePoolAssignmentLabelKey.

Definition GetNotNodePoolLabelSelector
    (nodePoolName nodePoolAssignmentLabelKey defaultNodepoolName : string) : result Requirement :=
  if nodePoolName ==? defaultNodepoolName
  then newRequirement nodePoolAssignmentLabelKey Exists []
  else newRequirement nodePoolAssignmentLabelKey NotIn [nodePoolName].

Definition requirementNodePoolLabel (labelKey labelValue : string) (matching : bool) : result Requirement :=
  let op := DoubleEquals in
  let op := if negb matching then NotEquals else op in
  newRequirement labelKey op [labelValue].

Definition RequirementNodePoolLabelMatching (labelKey labelValue : string) : result Requirement :=
  requirementNodePoolLabel labelKey labelValue true.

Definition RequirementNodePoolLabelNotMatching (labelKey labelValue : string) : result Requirement :=
  requirementNodePoolLabel labelKey labelValue false.

End LabelSelectors.
End LabelSelectors.
Export LabelSelectors.

(** ** Utilities *)

Definition GetNodePoolNameFromLabels (labels : gmap string string)
    (nodePoolAssignmentLabelKey defaultNodepoolName : string) : string :=
  match labels !! nodePoolAssignmentLabelKey with
  | None => defaultNodepoolName
  | Some nodePoolName => if nodePoolName ==? "" then defaultNodepoolName else nodePoolName
  end.

Definition GetAllNodePools : kube (result (list NodePool)) :=
  nodePoolList <-? call (List KNodePool listAll) ;;
  if length nodePoolList ==? 0
  then Ret (inl (Errorf "didn't find any node pools in the cluster" []))
  else Ret (inr nodePoolList).

(** One iteration of the loop of [GetNodePoolsMap]. *)
Definition indexNodePool (maps : gmap string (gmap string string) * gmap string NodePoolPhase)
    (nodePool : NodePool) : gmap string (gmap string string) * gmap string NodePoolPhase :=
  let '(nodePoolKeyToValueToName, deletingNodePools) := maps in
  let key := LabelKey nodePool in
  let inner := default ∅ (nodePoolKeyToValueToName !! key) in
  (<[key := <[LabelValue nodePool := Name (npMeta nodePool)]> inner]> nodePoolKeyToValueToName,
   if npPhase nodePool ==? NodePoolDeleting
   then <[Name (npMeta nodePool) := npPhase nodePool]> deletingNodePools
   else deletingNodePools).

Definition GetNodePoolsMap (allNodePools : list NodePool)
    : gmap string (gmap string string) * gmap string NodePoolPhase :=
  foldl indexNodePool (∅, ∅) allNodePools.

(** The loop of [RemoveDuplicates]: [allKeys] are the items already kept. *)
Fixpoint removeDuplicatesFrom (allKeys : gset string) (items : list string) : list string :=
  match items with
  | [] => []
  | item :: rest =>
      if decide (item ∈ allKeys) then removeDuplicatesFrom allKeys rest
      else item :: removeDuplicatesFrom ({[item]} ∪ allKeys) rest
  end.

Definition RemoveDuplicates (items : list string) : list string := removeDuplicatesFrom ∅ items.

(** [strings.Split(s, sep)] for a one-character separator. *)
Fixpoint splitOn (sep : Ascii.ascii) (s : string) : list string :=
  match s with
  | EmptyString => [""]
  | String c rest =>
      if decide (c = sep) then "" :: splitOn sep rest
      else match splitOn sep rest with
           | [] => [String c ""]
           | w :: ws => String c w :: ws
           end
  end.

Definition splitSpace (s : string) : list string := splitOn (Ascii.ascii_of_nat 32) s.

(** ** The converter *)

Record NodePoolIdentifiers := {
  NodePoolAssignmentLabelKey : string;
  idDefaultNodepoolName : string;
  idUnexistingNodepoolSentinel : string;
  idAnnotationNodepoolsKey : string;
}.

(** [ReaderClient != nil] is [affHasReader]; the reader itself is the API. *)
Record AffinitySource := {
  asAffinity : option Affinity;
  affHasReader : bool;
  IgnoreConversionErrors : bool;
}.

Record NodePoolsSources := {
  PodAnnotations : gmap string string;
  nsAffinitySource : AffinitySource;
  nsProject : option Project;
}.

Definition NewNodePoolsSources (affinity : option Affinity) (hasReader : bool)
    (affinityConversionErrorsHandling : bool) (podAnnotations : gmap string string)
    (project : option Project) : NodePoolsSources :=
  {| PodAnnotations := podAnnotations;
     nsAffinitySource :=
       {| asAffinity := affinity; affHasReader := hasReader;
          IgnoreConversionErrors := affinityConversionErrorsHandling |};
     nsProject := project |}.

Definition HasValue (s : AffinitySource) : bool :=
  match asAffinity s with Some _ => affHasReader s | None => false end.

Definition NewNodeAffinityConversionError (e : error) : error :=
  Typed "NodeAffinityConversionError" e.

Section Converter.
Context (identifiers : NodePoolIdentifiers).

(** The loop over the values of an [In] expression. *)
Fixpoint nodePoolsOfValues (nodePoolsWithKeyMap : gmap string string)
    (deletingNodePools : gmap string NodePoolPhase) (values : list string)
    (result : list string) (foundNodePools : bool) : list string * bool :=
  match values with
  | [] => (result, foundNodePools)
  | v :: rest =>
      match nodePoolsWithKeyMap !! v with
      | None => nodePoolsOfValues nodePoolsWithKeyMap deletingNodePools rest result foundNodePools
      | Some nodePoolName =>
          match deletingNodePools !! nodePoolName with
          | Some _ => nodePoolsOfValues nodePoolsWithKeyMap deletingNodePools rest result foundNodePools
          | None => nodePoolsOfValues nodePoolsWithKeyMap deletingNodePools rest (result ++ [nodePoolName]) true
          end
      end
  end.

Definition getNodePoolsForMatchExpression (matchExpression : NodeSelectorRequirement)
    (nodePoolKeyToValueToName : gmap string (gmap string string))
    (deletingNodePools : gmap string NodePoolPhase) (result : list string) : list string * bool :=
  if nsrOperator matchExpression !=? NodeSelectorOpIn then
    if nsrOperator matchExpression ==? NodeSelectorOpDoesNotExist then
      if nsrKey matchExpression ==? NodePoolAssignmentLabelKey identifiers
      then (result ++ [idDefaultNodepoolName identifiers], true)
      else (result, false)
    else (result, false)
  else
    match nodePoolKeyToValueToName !! nsrKey matchExpression with
    | None => (result, false)
    | Some nodePoolsWithKeyMap =>
        nodePoolsOfValues nodePoolsWithKeyMap deletingNodePools (nsrValues matchExpression) result false
    end.

(** The inner loop: stops at the first expression that names a node pool. *)
Fixpoint nodePoolsOfTerm (keyMap : gmap string (gmap string string))
    (deletingNodePools : gmap string NodePoolPhase) (exprs : list NodeSelectorRequirement)
    (result : list string) (found : bool) : list string :=
  match exprs with
  | [] => result
  | e :: rest =>
      if found then result
      else let '(result', found') := getNodePoolsForMatchExpression e keyMap deletingNodePools result in
           nodePoolsOfTerm keyMap deletingNodePools rest result' found'
  end.

Fixpoint nodePoolsOfTerms (keyMap : gmap string (gmap string string))
    (deletingNodePools : gmap string NodePoolPhase) (terms : list NodeSelectorTerm)
    (result : list string) : list string :=
  match terms with
  | [] => result
  | t :: rest =>
      nodePoolsOfTerms keyMap deletingNodePools rest
        (nodePoolsOfTerm keyMap deletingNodePools (MatchExpressions t) result false)
  end.

(** The required node selector terms of an affinity; [] where a pointer on the
    way is nil. *)
Definition requiredTerms (affinity : option Affinity) : list NodeSelectorTerm :=
  match affinity with
  | None => []
  | Some a =>
      match AffinityNodeAffinity a with
      | None => []
      | Some na =>
          match RequiredDuringSchedulingIgnoredDuringExecution na with
          | None => []
          | Some ns => NodeSelectorTerms ns
          end
      end
  end.

Definition convertNodeAffinityToNodePoolNames (affinity : option Affinity) : kube (result (list string)) :=
  match requiredTerms affinity with
  | [] => Ret (inr [])
  | nodeSelectorTerms =>
      allNodePools <-? GetAllNodePools ;;
      let '(nodePoolKeyToValueToName, deletingNodePools) := GetNodePoolsMap allNodePools in
      Ret (inr (RemoveDuplicates
                  (nodePoolsOfTerms nodePoolKeyToValueToName deletingNodePools nodeSelectorTerms [])))
  end.

(** Sources 3 and 4 and the default. *)
Definition nodePoolsFromLabelsOrProject (objectMeta : ObjectMeta) (project : option Project) : list string :=
  let fromProject :=
    match project with
    | Some p => match DefaultNodePools p with
                | [] => [idDefaultNodepoolName identifiers]
                | pools => pools
                end
    | None => [idDefaultNodepoolName identifiers]
    end in
  match Labels objectMeta !! NodePoolAssignmentLabelKey identifiers with
  | Some nodePoolName =>
      if nodePoolName !=? idUnexistingNodepoolSentinel identifiers then [nodePoolName] else fromProject
  | None => fromProject
  end.

Definition GetRequestedNodePools (objectMeta : ObjectMeta) (sources : NodePoolsSources)
    : kube (result (list string)) :=
  let rest := Ret (inr (nodePoolsFromLabelsOrProject objectMeta (nsProject sources))) in
  let fromAffinity :=
    if HasValue (nsAffinitySource sources) then
      r <- convertNodeAffinityToNodePoolNames (asAffinity (nsAffinitySource sources)) ;;
      match r with
      | inl err =>
          if negb (IgnoreConversionErrors (nsAffinitySource sources))
          then Ret (inl (NewNodeAffinityConversionError err))
          else rest
      | inr [] => rest
      | inr pools => Ret (inr pools)
      end
    else rest in
  match PodAnnotations sources !! idAnnotationNodepoolsKey identifiers with
  | Some nodePoolsAnnotation =>
      if nodePoolsAnnotation !=? "" then Ret (inr (splitSpace nodePoolsAnnotation)) else fromAffinity
  | None => fromAffinity
  end.

End Converter.

(** ** Lemmas on the pool index *)

Section IndexLemmas.
Implicit Types nps : list NodePool.

(** [np] is what the index holds for its key and value: no later pool of the
    list has the same pair. *)
Definition indexedAt (nps : list NodePool) (key value name : string) : Prop :=
  exists before np after, nps = before ++ np :: after /\
    LabelKey np = key /\ LabelValue np = value /\ Name (npMeta np) = name /\
    Forall (fun np' => ~ (LabelKey np' = key /\ LabelValue np' = value)) after.

Lemma indexedAt_elem nps key value name :
  indexedAt nps key value name ->
  exists np, np ∈ nps /\ LabelKey np = key /\ LabelValue np = value /\ Name (npMeta np) = name.
Proof. intros (b & np & a & -> & ? & ? & ? & _). exists np. set_solver. Qed.

Lemma indexedAt_snoc nps np key value name :
  indexedAt (nps ++ [np]) key value name <->
  (LabelKey np = key /\ LabelValue np = value /\ Name (npMeta np) = name) \/
  (~ (LabelKey np = key /\ LabelValue np = value) /\ indexedAt nps key value name).
Proof.
  split.
  - intros (b & np' & a & Heq & Hk & Hv & Hn & Ha).
    destruct a as [|z a _] using rev_ind.
    + apply app_inj_tail in Heq as [_ ->]. auto.
    + rewrite app_comm_cons, app_assoc in Heq. apply app_inj_tail in Heq as [-> ->].
      apply Forall_app in Ha as [Ha [Hz _]%Forall_cons]. right. split; [done|].
      exists b, np', a. auto.
  - intros [(?&?&?)|(Hne & b & np' & a & -> & ? & ? & ? & ?)].
    + exists nps, np, []. auto.
    + exists b, np', (a ++ [np]). rewrite <- app_assoc. repeat split; auto.
      apply Forall_app; auto.
Qed.

Lemma GetNodePoolsMap_snoc nps np :
  GetNodePoolsMap (nps ++ [np]) = indexNodePool (GetNodePoolsMap nps) np.
Proof. unfold GetNodePoolsMap. by rewrite foldl_app. Qed.

Lemma GetNodePoolsMap_key nps key value name :
  ((GetNodePoolsMap nps).1 !! key ≫= (.!! value)) = Some name <-> indexedAt nps key value name.
Proof.
  induction nps as [|np nps IH] using rev_ind.
  - split; [done|]. intros (b & np & a & Hb & _). by destruct b.
  - rewrite indexedAt_snoc, GetNodePoolsMap_snoc, <- IH. clear IH.
    destruct (GetNodePoolsMap nps) as [m d]; simpl.
    destruct (decide (LabelKey np = key)) as [<-|Hk]; simpl.
    + rewrite lookup_insert_eq; simpl.
      destruct (decide (LabelValue np = value)) as [<-|Hv].
      * rewrite lookup_insert_eq. naive_solver.
      * rewrite lookup_insert_ne by done. destruct (m !! LabelKey np); naive_solver.
    + rewrite lookup_insert_ne by done. naive_solver.
Qed.

Lemma GetNodePoolsMap_deleting nps name :
  is_Some ((GetNodePoolsMap nps).2 !! name) <->
  exists np, np ∈ nps /\ Name (npMeta np) = name /\ npPhase np = NodePoolDeleting.
Proof.
  induction nps as [|np nps IH] using rev_ind.
  - split; [by intros [? ?]|]. intros (? & ?%elem_of_nil & _). done.
  - rewrite GetNodePoolsMap_snoc. setoid_rewrite elem_of_app. setoid_rewrite list_elem_of_singleton.
    destruct (GetNodePoolsMap nps) as [m d]; simpl in *.
    case_bool_decide as Hp; [destruct (decide (Name (npMeta np) = name)) as [<-|Hn]|].
    + rewrite lookup_insert_eq. naive_solver.
    + rewrite lookup_insert_ne by done. rewrite IH. naive_solver.
    + rewrite IH. naive_solver.
Qed.

End IndexLemmas.

(** ** Lemmas on duplicates and splitting *)

Lemma elem_of_removeDuplicatesFrom seen items x :
  x ∈ removeDuplicatesFrom seen items <-> x ∈ items /\ x ∉ seen.
Proof.
  revert seen. induction items as [|y items IH]; intros seen; simpl.
  - set_solver.
  - case_decide; rewrite ?elem_of_cons, IH.
    + split; [set_solver|]. intros [[->|?] ?]; [done|auto].
    + destruct (decide (x = y)) as [->|]; set_solver.
Qed.

Lemma NoDup_removeDuplicatesFrom seen items : NoDup (removeDuplicatesFrom seen items).
Proof.
  revert seen. induction items as [|y items IH]; intros seen; simpl; [constructor|].
  case_decide; [apply IH|]. constructor; [|apply IH].
  rewrite elem_of_removeDuplicatesFrom. set_solver.
Qed.

Lemma removeDuplicatesFrom_NoDup seen items :
  NoDup items -> (forall x, x ∈ items -> x ∉ seen) -> removeDuplicatesFrom seen items = items.
Proof.
  revert seen. induction items as [|y items IH]; intros seen Hnd Hs; simpl; [done|].
  apply NoDup_cons in Hnd as [Hy Hnd].
  rewrite decide_False by (apply Hs; left). f_equal. apply IH; [done|].
  intros x Hx. assert (x ∉ seen) by (apply Hs; by right). set_solver.
Qed.

Lemma removeDuplicatesFrom_sublist seen items : removeDuplicatesFrom seen items `sublist_of` items.
Proof.
  revert seen. induction items as [|y items IH]; intros seen; simpl; [constructor|].
  case_decide; constructor; apply IH.
Qed.

Lemma elem_of_RemoveDuplicates items x : x ∈ RemoveDuplicates items <-> x ∈ items.
Proof. unfold RemoveDuplicates. rewrite elem_of_removeDuplicatesFrom. set_solver. Qed.

Lemma splitOn_nonempty sep s : splitOn sep s <> [].
Proof. destruct s; simpl; [done|]. case_decide; [done|]. by destruct (splitOn sep s). Qed.

(** ** Lemmas on the converter *)

Section ConverterLemmas.
Context (identifiers : NodePoolIdentifiers).
Implicit Types (nps : list NodePool) (e : NodeSelectorRequirement).

(** [name] is a pool that the expression [e] selects: the default pool through
    the absence of the assignment label, or an existing pool whose label the
    expression admits and of which no object of that name is being deleted. *)
Definition selectedBy (nps : list NodePool) (e : NodeSelectorRequirement) (name : string) : Prop :=
  (nsrOperator e = NodeSelectorOpDoesNotExist /\
   nsrKey e = NodePoolAssignmentLabelKey identifiers /\
   name = idDefaultNodepoolName identifiers) \/
  (nsrOperator e = NodeSelectorOpIn /\
   exists np, np ∈ nps /\ Name (npMeta np) = name /\
     LabelKey np = nsrKey e /\ LabelValue np ∈ nsrValues e /\
     forall np', np' ∈ nps -> Name (npMeta np') = name -> npPhase np' <> NodePoolDeleting).

Lemma nodePoolsOfValues_result km dm values res found :
  exists new, (nodePoolsOfValues km dm values res found).1 = res ++ new /\
    ((nodePoolsOfValues km dm values res found).2 = true <-> found = true \/ new <> []) /\
    forall x, x ∈ new <-> exists v, v ∈ values /\ km !! v = Some x /\ dm !! x = None.
Proof.
  revert res found. induction values as [|v values IH]; intros res found; simpl.
  - exists []. rewrite app_nil_r. set_solver.
  - destruct (km !! v) as [n|] eqn:Hv; [destruct (dm !! n) eqn:Hd|].
    + destruct (IH res found) as (new & -> & ? & Hnew). exists new. split_and!; [done..|].
      intros x. rewrite Hnew. setoid_rewrite elem_of_cons. naive_solver.
    + destruct (IH (res ++ [n]) true) as (new & -> & Hf & Hnew).
      exists (n :: new). rewrite <- app_assoc. split_and!; [done| |].
      { split; [by right|]. intros _. apply Hf. by left. }
      intros x. rewrite elem_of_cons, Hnew. setoid_rewrite elem_of_cons. naive_solver.
    + destruct (IH res found) as (new & -> & ? & Hnew). exists new. split_and!; [done..|].
      intros x. rewrite Hnew. setoid_rewrite elem_of_cons. naive_solver.
Qed.

Lemma getNodePoolsForMatchExpression_result nps e res :
  let r := getNodePoolsForMatchExpression identifiers e (GetNodePoolsMap nps).1 (GetNodePoolsMap nps).2 res in
  exists new, r.1 = res ++ new /\ (r.2 = true <-> new <> []) /\
    Forall (selectedBy nps e) new.
Proof.
  unfold getNodePoolsForMatchExpression.
  case_bool_decide as Hin; simpl.
  - destruct ((GetNodePoolsMap nps).1 !! nsrKey e) as [km|] eqn:Hk; simpl.
    + destruct (nodePoolsOfValues_result km (GetNodePoolsMap nps).2 (nsrValues e) res false)
        as (new & -> & Hf & Hnew).
      exists new. split_and!; [done|naive_solver|]. apply Forall_forall. intros x Hx.
      apply Hnew in Hx as (v & Hv & Hkm & Hdm). right. split; [done|].
      assert (indexedAt nps (nsrKey e) v x) as (np & ? & ? & ? & ?)%indexedAt_elem.
      { apply GetNodePoolsMap_key. by rewrite Hk. }
      exists np. split_and!; [done..|by simplify_eq|]. intros np' ? ? ?.
      assert (is_Some ((GetNodePoolsMap nps).2 !! x)) as [? ?]; [|congruence].
      apply GetNodePoolsMap_deleting. eauto.
    + exists []. rewrite app_nil_r. naive_solver.
  - case_bool_decide as Hdne; [case_bool_decide as Hkey|]; simpl.
    + exists [idDefaultNodepoolName identifiers]. split_and!; [done|done|].
      apply Forall_singleton. by left.
    + exists []. rewrite app_nil_r. naive_solver.
    + exists []. rewrite app_nil_r. naive_solver.
Qed.

Lemma nodePoolsOfTerm_result nps exprs res found :
  exists new, nodePoolsOfTerm identifiers (GetNodePoolsMap nps).1 (GetNodePoolsMap nps).2 exprs res found
    = res ++ new /\ Forall (fun x => exists e, e ∈ exprs /\ selectedBy nps e x) new.
Proof.
  revert res found. induction exprs as [|e exprs IH]; intros res found; simpl.
  - exists []. rewrite app_nil_r. auto.
  - destruct found; [exists []; rewrite app_nil_r; auto|].
    pose proof (getNodePoolsForMatchExpression_result nps e res) as (new1 & H1 & _ & Hall1).
    destruct (getNodePoolsForMatchExpression _ _ _ _ _) as [res' found'] eqn:Heq; simpl in *. subst res'.
    destruct (IH (res ++ new1) found') as (new2 & -> & Hall2).
    exists (new1 ++ new2). rewrite app_assoc. split; [done|].
    apply Forall_app; split; eapply Forall_impl; eauto; set_solver.
Qed.

Lemma nodePoolsOfTerms_result nps terms res x :
  x ∈ nodePoolsOfTerms identifiers (GetNodePoolsMap nps).1 (GetNodePoolsMap nps).2 terms res ->
  x ∈ res \/ exists t e, t ∈ terms /\ e ∈ MatchExpressions t /\ selectedBy nps e x.
Proof.
  revert res. induction terms as [|t terms IH]; intros res; simpl; [auto|].
  intros [Hx|(t' & e & ? & ? & ?)]%IH; [|right; exists t', e; set_solver].
  destruct (nodePoolsOfTerm_result nps (MatchExpressions t) res false) as (new & Heq & Hall).
  rewrite Heq, elem_of_app in Hx. destruct Hx as [?|Hx]; [auto|].
  rewrite Forall_forall in Hall. destruct (Hall x Hx) as (e & ? & ?).
  right. exists t, e. set_solver.
Qed.

Lemma exec_convert affinity tr r :
  exec (convertNodeAffinityToNodePoolNames identifiers affinity) tr r ->
  (requiredTerms affinity = [] /\ tr = [] /\ r = inr []) \/
  (requiredTerms affinity <> [] /\ exists reply, tr = [Event (List KNodePool listAll) reply] /\
     match reply with
     | inl e => r = inl e
     | inr [] => r = inl (Errorf "didn't find any node pools in the cluster" [])
     | inr nps => r = inr (RemoveDuplicates
         (nodePoolsOfTerms identifiers (GetNodePoolsMap nps).1 (GetNodePoolsMap nps).2 (requiredTerms affinity) []))
     end).
Proof.
  unfold convertNodeAffinityToNodePoolNames.
  destruct (requiredTerms affinity) as [|t terms]; [intros [-> ->]; auto|].
  intros (reply & tr' & -> & H). right. split; [done|]. exists reply.
  destruct reply as [e|[|np nps]]; cbn -[GetNodePoolsMap] in H.
  - by destruct H as [-> ->].
  - by destruct H as [-> ->].
  - case_bool_decide; [lia|]. cbn -[GetNodePoolsMap] in H.
    change (obj KNodePool) with NodePool in *.
    destruct (GetNodePoolsMap (np :: nps)) as [km dm]. by destruct H as [-> ->].
Qed.

End ConverterLemmas.

(** ** Properties *)

Section SelectorProperties.
Context {L : LabelsLib} {Laws : LabelsLaws L}.

Lemma GetNodePoolLabelSelector_matches n k d r ls :
  GetNodePoolLabelSelector n k d = inr r ->
  Matches r ls = if n ==? d then ls !! k ==? None else ls !! k ==? Some n.
Proof.
  unfold GetNodePoolLabelSelector. case_bool_decide; intros Hr.
  - by apply matches_does_not_exist.
  - by apply matches_double_equals.
Qed.

(** The selector of the objects outside a node pool selects exactly the
    objects the selector of the pool does not select. *)
Theorem GetNotNodePoolLabelSelector_complement n k d r r' ls :
  GetNodePoolLabelSelector n k d = inr r ->
  GetNotNodePoolLabelSelector n k d = inr r' ->
  Matches r' ls = negb (Matches r ls).
Proof.
  intros Hr Hr'. rewrite (GetNodePoolLabelSelector_matches _ _ _ _ ls Hr).
  unfold GetNotNodePoolLabelSelector in Hr'. case_bool_decide.
  - rewrite (matches_exists _ _ ls Hr'). by destruct (ls !! k).
  - by apply matches_not_in.
Qed.

(** A node pool's selector selects an object exactly when the pool read
    from its labels is that pool, for objects whose assignment label is neither
    empty nor the literal default name (the default pool is the absence of the
    label). *)
Theorem GetNodePoolLabelSelector_agrees n k d r ls :
  GetNodePoolLabelSelector n k d = inr r ->
  ls !! k <> Some "" -> ls !! k <> Some d ->
  Matches r ls = (GetNodePoolNameFromLabels ls k d ==? n).
Proof.
  intros Hr He Hd. rewrite (GetNodePoolLabelSelector_matches _ _ _ _ ls Hr).
  unfold GetNodePoolNameFromLabels. destruct (ls !! k) as [v|]; repeat case_bool_decide; naive_solver.
Qed.

(** On an object whose assignment label is present but empty the two
    readings differ: the name read from the labels is the default pool, and the
    default pool's selector does not select the object. *)
Theorem empty_label_not_selected k d r ls :
  GetNodePoolLabelSelector d k d = inr r -> ls !! k = Some "" ->
  GetNodePoolNameFromLabels ls k d = d /\ Matches r ls = false.
Proof.
  intros Hr Hk. rewrite (GetNodePoolLabelSelector_matches _ _ _ _ ls Hr).
  unfold GetNodePoolNameFromLabels. rewrite Hk. repeat case_bool_decide; naive_solver.
Qed.

End SelectorProperties.

(** The operators with their documented meaning, and no validation: an
    instance of the interface to evaluate the theorems on. *)
#[export] Instance plainLabels : LabelsLib := {|
  NewRequirement k op vals := inr {| reqKey := k; reqOperator := op; reqValues := vals |};
  Matches := requirementHolds;
|}.

#[export] Instance plainLabels_laws : LabelsLaws plainLabels.
Proof.
  split; intros; simplify_eq/=; unfold requirementHolds; simpl;
    destruct (ls !! k) as [w|]; try done; repeat case_bool_decide; set_solver.
Qed.

Definition gpuLabels : gmap string string := {["pool" := "gpu"]}.

Lemma GetNotNodePoolLabelSelector_complement_witness :
  Matches {| reqKey := "pool"; reqOperator := NotIn; reqValues := ["gpu"] |} gpuLabels =
  negb (Matches {| reqKey := "pool"; reqOperator := DoubleEquals; reqValues := ["gpu"] |} gpuLabels).
Proof. apply (GetNotNodePoolLabelSelector_complement "gpu" "pool" "default"); reflexivity. Defined.

Lemma GetNodePoolLabelSelector_agrees_witness :
  Matches {| reqKey := "pool"; reqOperator := DoubleEquals; reqValues := ["gpu"] |} gpuLabels =
  (GetNodePoolNameFromLabels gpuLabels "pool" "default" ==? "gpu").
Proof. apply GetNodePoolLabelSelector_agrees; [reflexivity|discriminate|discriminate]. Defined.

Lemma empty_label_not_selected_witness :
  GetNodePoolNameFromLabels {["pool" := ""]} "pool" "default" = "default" /\
  Matches {| reqKey := "pool"; reqOperator := DoesNotExist; reqValues := [] |} {["pool" := ""]} = false.
Proof. apply empty_label_not_selected; reflexivity. Defined.

(** [RemoveDuplicates] keeps the first occurrence of every item and nothing
    else: the result has no duplicates, the same members, in the order of the
    input, and a list without duplicates is unchanged. *)
Theorem RemoveDuplicates_spec items :
  NoDup (RemoveDuplicates items) /\
  (forall x, x ∈ RemoveDuplicates items <-> x ∈ items) /\
  RemoveDuplicates items `sublist_of` items /\
  (NoDup items -> RemoveDuplicates items = items).
Proof.
  unfold RemoveDuplicates. split_and!.
  - apply NoDup_removeDuplicatesFrom.
  - intros x. apply elem_of_RemoveDuplicates.
  - apply removeDuplicatesFrom_sublist.
  - intros. apply removeDuplicatesFrom_NoDup; set_solver.
Qed.

(** The pool index: a key and value map to the name of the last listed pool
    with that label, and a name is flagged exactly when a listed pool of that
    name is being deleted. *)
Theorem GetNodePoolsMap_spec nps :
  (forall key value name,
     ((GetNodePoolsMap nps).1 !! key ≫= (.!! value)) = Some name <-> indexedAt nps key value name) /\
  (forall name, is_Some ((GetNodePoolsMap nps).2 !! name) <->
     exists np, np ∈ nps /\ Name (npMeta np) = name /\ npPhase np = NodePoolDeleting).
Proof. split; intros; [apply GetNodePoolsMap_key|apply GetNodePoolsMap_deleting]. Qed.

Section ConverterProperties.
Context (identifiers : NodePoolIdentifiers).

(** Whatever the API answers, the names converted from a node affinity have
    no duplicates, and each is selected by an expression of one of the required
    terms against the listed pools: the default pool through [DoesNotExist] on
    the assignment label, or an existing pool that is not being deleted. *)
Theorem convertNodeAffinityToNodePoolNames_sound affinity tr names :
  exec (convertNodeAffinityToNodePoolNames identifiers affinity) tr (inr names) ->
  NoDup names /\
  forall name, name ∈ names ->
    exists nps t e, tr = [Event (List KNodePool listAll) (inr nps)] /\
      t ∈ requiredTerms affinity /\ e ∈ MatchExpressions t /\ selectedBy identifiers nps e name.
Proof.
  intros [(_ & _ & [= ->])|(_ & reply & -> & Hr)]%exec_convert.
  - split; [constructor|set_solver].
  - destruct reply as [e|[|np nps]]; [done..|]. simplify_eq.
    split; [apply NoDup_removeDuplicatesFrom|]. intros name.
    rewrite elem_of_RemoveDuplicates. intros [?|(t & e & ? & ? & ?)]%nodePoolsOfTerms_result; [set_solver|].
    eauto 10.
Qed.

Lemma nodePoolsFromLabelsOrProject_nonempty m p :
  nodePoolsFromLabelsOrProject identifiers m p <> [].
Proof.
  unfold nodePoolsFromLabelsOrProject.
  destruct (Labels m !! _); [case_bool_decide; simpl; [|done]|]; destruct p as [p|]; try done;
    by destruct (DefaultNodePools p).
Qed.

(** The list of requested node pools is never empty, whatever the sources
    and whatever the API answers, so taking its first item or a remainder by its
    length is always defined. *)
Theorem GetRequestedNodePools_nonempty meta sources tr pools :
  exec (GetRequestedNodePools identifiers meta sources) tr (inr pools) -> pools <> [].
Proof.
  unfold GetRequestedNodePools.
  set (rest := nodePoolsFromLabelsOrProject identifiers meta (nsProject sources)).
  assert (rest <> []) as Hrest by apply nodePoolsFromLabelsOrProject_nonempty.
  intros H. destruct (PodAnnotations sources !! _) as [ann|];
    [case_bool_decide; simpl in H; [|destruct H as [_ [= ->]]; apply splitOn_nonempty]|];
    (destruct (HasValue _); [|by destruct H as [_ [= ->]]];
     apply exec_bind_inv in H as (tr1 & tr2 & [e|[|x xs]] & _ & _ & H);
     [destruct (IgnoreConversionErrors _)|..]; by destruct H as [_ [= ->]]).
Qed.

(** The order of the sources: a non-empty annotation wins over everything
    and nothing is read; without one, the pools of the affinity win when there
    are any; the object's own label (unless it is the sentinel) wins over the
    project's defaults, and the default pool is the last resort. *)
Theorem GetRequestedNodePools_precedence meta sources tr r :
  exec (GetRequestedNodePools identifiers meta sources) tr r ->
  match PodAnnotations sources !! idAnnotationNodepoolsKey identifiers with
  | Some ann => if ann ==? "" then True else tr = [] /\ r = inr (splitSpace ann)
  | None => True
  end /\
  (mapGet (PodAnnotations sources) (idAnnotationNodepoolsKey identifiers) = "" ->
   (HasValue (nsAffinitySource sources) = false /\ tr = [] /\
    r = inr (nodePoolsFromLabelsOrProject identifiers meta (nsProject sources))) \/
   (HasValue (nsAffinitySource sources) = true /\ exists r',
     exec (convertNodeAffinityToNodePoolNames identifiers (asAffinity (nsAffinitySource sources))) tr r' /\
     r = match r' with
         | inl e => if IgnoreConversionErrors (nsAffinitySource sources)
                    then inr (nodePoolsFromLabelsOrProject identifiers meta (nsProject sources))
                    else inl (NewNodeAffinityConversionError e)
         | inr [] => inr (nodePoolsFromLabelsOrProject identifiers meta (nsProject sources))
         | inr pools => inr pools
         end)).
Proof.
  unfold GetRequestedNodePools, mapGet. intros H. split.
  - destruct (PodAnnotations sources !! _) as [ann|]; [|done].
    case_bool_decide; [done|]. simpl in H. tauto.
  - destruct (PodAnnotations sources !! _) as [ann|]; simpl; [intros ->; simpl in H|intros _];
    (destruct (HasValue _); [right|left; by destruct H as [-> ->]]; split; [done|];
     apply exec_bind_inv in H as (tr1 & tr2 & r' & -> & H1 & H); exists r';
     destruct r' as [e|[|x xs]]; [destruct (IgnoreConversionErrors _)|..];
     destruct H as [-> ->]; rewrite app_nil_r; auto).
Qed.

End ConverterProperties.

(** ** Witnesses *)

Definition demoIdentifiers : NodePoolIdentifiers :=
  {| NodePoolAssignmentLabelKey := "kai.scheduler/node-pool"; idDefaultNodepoolName := "default";
     idUnexistingNodepoolSentinel := "kai-unexisting-node-pool";
     idAnnotationNodepoolsKey := "kai.scheduler/node-pools" |}.

Definition demoPool (name : string) (phase : NodePoolPhase) : NodePool :=
  {| npMeta := named name; LabelKey := "gpu"; LabelValue := name; PreferredNetworkTopologyName := "";
     npSchedulingShardConfig := None;
     npStatus := {| npsPhase := phase; npsMessage := ""; npsNodes := []; npsConditions := [] |} |}.

Definition demoTerm (v : string) : NodeSelectorTerm :=
  {| MatchExpressions := [{| nsrKey := "gpu"; nsrOperator := NodeSelectorOpIn; nsrValues := [v] |}];
     MatchFields := [] |}.

Definition demoAffinity : Affinity :=
  {| AffinityNodeAffinity := Some
       {| RequiredDuringSchedulingIgnoredDuringExecution := Some {| NodeSelectorTerms := [demoTerm "a"; demoTerm "b"] |};
          PreferredDuringSchedulingIgnoredDuringExecution := "" |};
     AffinityPodAffinity := "" |}.


(** Pool "a" is being deleted, pool "b" is ready; the affinity names both. *)
Definition demoPools : list NodePool := [demoPool "a" NodePoolDeleting; demoPool "b" NodePoolReady].

Definition demoSources : NodePoolsSources := NewNodePoolsSources (Some demoAffinity) true false ∅ None.

Definition demoTrace : list (event KubeCall) := [Event (List KNodePool listAll) (inr demoPools)].

Lemma convertNodeAffinityToNodePoolNames_sound_witness :
  NoDup ["b"] /\
  forall name, name ∈ ["b"] ->
    exists nps t e, demoTrace = [Event (List KNodePool listAll) (inr nps)] /\
      t ∈ requiredTerms (Some demoAffinity) /\ e ∈ MatchExpressions t /\
      selectedBy demoIdentifiers nps e name.
Proof.
  apply (convertNodeAffinityToNodePoolNames_sound demoIdentifiers (Some demoAffinity) demoTrace ["b"]).
  exists (inr demoPools), []. split; [reflexivity|]. split; [reflexivity|vm_compute; reflexivity].
Defined.

Lemma GetRequestedNodePools_nonempty_witness : ["b"] <> [].
Proof.
  apply (GetRequestedNodePools_nonempty demoIdentifiers (named "pg") demoSources demoTrace).
  exists (inr demoPools), []. split; [reflexivity|]. split; [reflexivity|vm_compute; reflexivity].
Defined.

Lemma GetRequestedNodePools_precedence_witness :
  (True) /\
  (mapGet (PodAnnotations demoSources) "kai.scheduler/node-pools" = "" ->
   (HasValue (nsAffinitySource demoSources) = false /\ demoTrace = [] /\
    @inr error _ ["b"] = inr (nodePoolsFromLabelsOrProject demoIdentifiers (named "pg") None)) \/
   (HasValue (nsAffinitySource demoSources) = true /\ exists r',
     exec (convertNodeAffinityToNodePoolNames demoIdentifiers (Some demoAffinity)) demoTrace r' /\
     inr ["b"] = match r' with
         | inl e => inl (NewNodeAffinityConversionError e)
         | inr [] => inr (nodePoolsFromLabelsOrProject demoIdentifiers (named "pg") None)
         | inr pools => inr pools
         end)).
Proof.
  apply (GetRequestedNodePools_precedence demoIdentifiers (named "pg") demoSources demoTrace (inr ["b"])).
  exists (inr demoPools), []. split; [reflexivity|]. split; [reflexivity|vm_compute; reflexivity].
Defined.
