(* ===== verification/Assigner.v ===== *)
(** * The pod-group assigner

    [pkg/pod-group-assigner/controllers]: which node pool and queue a pod group
    is assigned to.  [common/common.go], [utils/*.go],
    [podgroup/assignment_params], [podgroup/requested_nodepools_converter],
    [podgroup/assigner] and the reconciler [podgroup/pod_group_controller.go]
    with its event filter. *)

From stdpp Require Import base list gmap strings.
From S2P Require Import Prelude ApiTypes NodePoolUtils.

Open Scope Z_scope.

(** ** Configuration ([config/config.go]) *)

Record PodGroupAssignerConfig := {
  NodePoolLabelKey : string;
  QueueLabelKey : string;
  NamespaceProjectLabelKey : string;
  ProjectLabelKey : string;
  UnexistingNodepoolSentinel : string;
  DefaultNodepoolName : string;
  AnnotationNodepoolsKey : string;
  EnforceSchedulerAnnotationKey : string;
  SchedulerName : string;
  AllowExternalQueues : bool;
}.

(** ** Lists ([utils/utils.go]) *)

Fixpoint indexOfFrom (i : Z) (items : list string) (item : string) : Z :=
  match items with
  | [] => -1
  | element :: rest => if element ==? item then i else indexOfFrom (i + 1) rest item
  end.

Definition IndexOfItemInList (items : list string) (item : string) : Z := indexOfFrom 0 items item.

(** [items[i]]: [None] is the run-time panic. *)
Definition sliceAt (items : list string) (i : Z) : option string :=
  if bool_decide (i < 0) then None else items !! Z.to_nat i.

(** [len(items)]. *)
Definition len (items : list string) : Z := Z.of_nat (length items).

(** ** Pod group helpers ([common/common.go]) *)

Definition NoSchedulingBackoff : Z := -1.
Definition SingleSchedulingBackoff : Z := 1.
Definition DefaultMarkUnschedulable : bool := true.
Definition DefaultSchedulingBackoff : Z := NoSchedulingBackoff.

Definition GetMarkUnschedulableValue (markUnschedulable : option bool) : bool :=
  default DefaultMarkUnschedulable markUnschedulable.

Definition GetSchedulingBackoffValue (schedulingBackoff : option Z) : Z :=
  default DefaultSchedulingBackoff schedulingBackoff.

Definition IsSingleNodePool (schedulingBackoff : option Z) : bool :=
  GetSchedulingBackoffValue schedulingBackoff ==? NoSchedulingBackoff.

Definition GetLastSchedulingCondition (podGroup : PodGroup) : option SchedulingCondition :=
  last (pgSchedulingConditions podGroup).

Section Assigner.
Context {L : LabelsLib} (cfg : PodGroupAssignerConfig).

Definition UpdateLabelsWithNodePoolAssignment (nodePoolName nodePoolLabelKey : string)
    (labels : gmap string string) : gmap string string :=
  if nodePoolName ==? DefaultNodepoolName cfg
  then delete nodePoolLabelKey labels
  else <[nodePoolLabelKey := nodePoolName]> labels.

Definition IsPodGroupUpForScheduler (podGroup : PodGroup) : bool :=
  if GetSchedulingBackoffValue (pgSchedulingBackoff podGroup) ==? NoSchedulingBackoff then true
  else match GetLastSchedulingCondition podGroup with
       | None => true
       | Some lastSchedulingCondition =>
           let currentNodePoolName :=
             GetNodePoolNameFromLabels (Labels (pgMeta podGroup)) (NodePoolLabelKey cfg) (DefaultNodepoolName cfg) in
           scNodePool lastSchedulingCondition !=? currentNodePoolName
       end.

(** ** Node pools and queues ([utils/nodepool_utils.go]) *)

Definition GetNodePoolFields (nodePoolName : string) : kube (result (NodePoolPhase * string * string)) :=
  nodePool <-? call (Get KNodePool ("", nodePoolName)) ;;
  Ret (inr (npPhase nodePool, LabelKey nodePool, LabelValue nodePool)).

Definition GetNodePoolPhase (nodePoolName : string) : kube (result NodePoolPhase) :=
  fields <-? GetNodePoolFields nodePoolName ;;
  Ret (inr fields.1.1).

(** A phase in which pod groups may be assigned to the pool. *)
Definition isAvailablePhase (phase : NodePoolPhase) : bool :=
  (phase !=? NodePoolPhaseUnset) && (phase !=? NodePoolDeleting) && (phase !=? NodePoolUnschedulable).

Definition IsNodePoolAvailableForScheduling (nodePoolName : string) : kube (result (bool * NodePoolPhase)) :=
  phase <-? GetNodePoolPhase nodePoolName ;;
  Ret (inr (isAvailablePhase phase, phase)).

Definition projectKind := "Project".
Definition departmentKind := "Department".

Definition ownedByProjectOrDepartment (queues : list Queue) : list Queue :=
  filter (fun queue =>
    existsb (fun owner => (OwnerKind owner ==? projectKind) || (OwnerKind owner ==? departmentKind))
      (OwnerReferences (qMeta queue)) = true) queues.

Definition createRequirementsForQueuesList (projectName nodepoolName : string) : result (list Requirement) :=
  if (projectName ==? "") || (nodepoolName ==? "") then
    inl (Errorf "wrong params for createRequirementsForQueuesList - projectName %s, nodepoolName %s"
           [projectName; nodepoolName])
  else
    projectNameRequirement ← NewRequirement (ProjectLabelKey cfg) DoubleEquals [projectName];
    nodePoolRequirement ←
      (if nodepoolName ==? DefaultNodepoolName cfg
       then NewRequirement (NodePoolLabelKey cfg) DoesNotExist []
       else NewRequirement (NodePoolLabelKey cfg) DoubleEquals [nodepoolName]);
    mret [projectNameRequirement; nodePoolRequirement].

Definition listQueuesWithLabelSelectors (opts : ListOptions) : kube (result (list Queue)) :=
  call (List KQueue opts).

Definition getExistingQueueByLabels (projectName nodePoolName : string) : kube (result Queue) :=
  match createRequirementsForQueuesList projectName nodePoolName with
  | inl err => Ret (inl err)
  | inr requirements =>
      queues <-? listQueuesWithLabelSelectors
        {| loNamespace := ""; loLabelSelector := requirements; loMatchingLabels := ∅; loFieldSelector := None |} ;;
      let queues := if AllowExternalQueues cfg then ownedByProjectOrDepartment queues else queues in
      match queues with
      | [] => Ret (inl (APIError ReasonNotFound (projectName +:+ "/" +:+ nodePoolName)))
      | queue :: _ => Ret (inr queue)
      end
  end.

Definition GetQueueNameOfNodePool (projectName nodePoolName : string) : kube (result string) :=
  queue <-? getExistingQueueByLabels projectName nodePoolName ;;
  Ret (inr (Name (qMeta queue))).

(** ** Projects of namespaces ([utils/project_utils.go]) *)

Definition IsExternalNamespace (namespace : string) : kube (result bool) :=
  if negb (AllowExternalQueues cfg) then Ret (inr false) else
  r <- call (Get KNamespace ("", namespace)) ;;
  match r with
  | inl err =>
      if IsNotFound err then Ret (inr true)
      else Ret (inl (Wrapf "failed to get namespace <%s>: %w" [namespace] err))
  | inr namespaceObj =>
      let projectName := mapGet (Labels (nsMeta namespaceObj)) (NamespaceProjectLabelKey cfg) in
      if projectName ==? "" then Ret (inr true) else
      r <- call (Get KProject ("", projectName)) ;;
      match r with
      | inl err =>
          if IsNotFound err then Ret (inr true)
          else Ret (inl (Wrapf "failed to get project <%s> of namespace <%s>: %w" [projectName; namespace] err))
      | inr _ => Ret (inr false)
      end
  end.

Definition GetProjectNameOfNamespace (namespace : string) : kube (result string) :=
  r <- call (Get KNamespace ("", namespace)) ;;
  match r with
  | inl err => Ret (inl (Textf "failed to get namespace <%s>, error: %s" [namespace] err))
  | inr namespaceObj =>
      match Labels (nsMeta namespaceObj) !! NamespaceProjectLabelKey cfg with
      | None => Ret (inl (Errorf "can't find project label for namespace <%s>" [namespace]))
      | Some projectName => Ret (inr projectName)
      end
  end.

(** ** Network topologies ([utils/network_topology_utils.go]) *)

Definition GetNodePoolPreferredNetworkTopologyName (nodePoolName : string) : kube (result string) :=
  nodePool <-? call (Get KNodePool ("", nodePoolName)) ;;
  Ret (inr (PreferredNetworkTopologyName nodePool)).

Definition GetNetworkTopologyLowestLevel (networkTopologyName : string) : kube (result string) :=
  topology <-? call (Get KTopology ("", networkTopologyName)) ;;
  match last (Levels topology) with
  | None => Ret (inl (Errorf "topology <%s> has no levels" [networkTopologyName]))
  | Some level => Ret (inr level)
  end.

(** ** Assignment parameters ([assignment_params/nodepool_assignment_params.go]) *)

Record NodePoolAssignmentParams := {
  NodePoolName : string;
  MarkUnschedulable : bool;
  SchedulingBackoff : Z;
  RemoveUnschedulableOnNodePoolSchedulingCondition : bool;
}.

#[export] Instance NodePoolAssignmentParams_eq_dec : EqDecision NodePoolAssignmentParams.
Proof. solve_decision. Defined.

Definition getSchedulingBackoff (requestedNodePools : list string) : Z :=
  if len requestedNodePools ==? 1 then NoSchedulingBackoff else SingleSchedulingBackoff.

Definition outOfRange : error := RuntimePanic "index out of range".

Definition getInitialNodePoolAssignmentParams (currentMarkUnschedulableForPodGroup : option bool)
    (lastSchedulingCondition : option SchedulingCondition) (assignedNodePool : string)
    (requestedNodePools : list string) : result NodePoolAssignmentParams :=
  let schedulingBackoff := getSchedulingBackoff requestedNodePools in
  match lastSchedulingCondition with
  | None =>
      match sliceAt requestedNodePools 0 with
      | None => inl outOfRange
      | Some first =>
          let nodePoolName :=
            if bool_decide (0 <= IndexOfItemInList requestedNodePools assignedNodePool)
            then assignedNodePool else first in
          let markUnschedulable := len requestedNodePools ==? 1 in
          let markUnschedulable :=
            if negb markUnschedulable &&
               match currentMarkUnschedulableForPodGroup with Some b => b | None => false end
            then true else markUnschedulable in
          inr {| NodePoolName := nodePoolName; MarkUnschedulable := markUnschedulable;
                 SchedulingBackoff := schedulingBackoff;
                 RemoveUnschedulableOnNodePoolSchedulingCondition := false |}
      end
  | Some condition =>
      let currentMarkUnschedulableForPodGroupVal :=
        GetMarkUnschedulableValue currentMarkUnschedulableForPodGroup in
      let previousNodePool := scNodePool condition in
      let previousNodePoolIndex := IndexOfItemInList requestedNodePools previousNodePool in
      if len requestedNodePools ==? 0 then inl (RuntimePanic "integer divide by zero") else
      let nextNodePoolIndex := Z.rem (previousNodePoolIndex + 1) (len requestedNodePools) in
      let markUnschedulable :=
        currentMarkUnschedulableForPodGroupVal || (nextNodePoolIndex ==? len requestedNodePools - 1) in
      match sliceAt requestedNodePools nextNodePoolIndex with
      | None => inl outOfRange
      | Some nodePoolName =>
          inr {| NodePoolName := nodePoolName; MarkUnschedulable := markUnschedulable;
                 SchedulingBackoff := schedulingBackoff;
                 RemoveUnschedulableOnNodePoolSchedulingCondition := false |}
      end
  end.

Definition isNodePoolAvailableForAssignment (nodePoolName : string) : kube (result bool) :=
  r <-? IsNodePoolAvailableForScheduling nodePoolName ;;
  Ret (inr r.1).

(** The loop over [index] of [findNextNodePoolAvailableForScheduling]. *)
Fixpoint tryNextNodePools (requestedNodePools : list string) (previousNodePoolIndex : Z)
    (params : NodePoolAssignmentParams) (indices : list nat) : kube (result NodePoolAssignmentParams) :=
  match indices with
  | [] =>
      Ret (inl (Errorf "failed finding node pool for assigning - all node pools from options are non available: <%v>"
                  requestedNodePools))
  | index :: rest =>
      let nextNodePoolIndex := Z.rem (previousNodePoolIndex + Z.of_nat index) (len requestedNodePools) in
      match sliceAt requestedNodePools nextNodePoolIndex with
      | None => Ret (inl outOfRange)
      | Some nextNodePoolName =>
          isNodePoolAvailable <-? isNodePoolAvailableForAssignment nextNodePoolName ;;
          if negb isNodePoolAvailable then
            tryNextNodePools requestedNodePools previousNodePoolIndex params rest
          else
            let markUnschedulable :=
              if negb (MarkUnschedulable params) &&
                 ((nextNodePoolIndex ==? len requestedNodePools - 1)
                  || bool_decide (nextNodePoolIndex < previousNodePoolIndex))
              then true else MarkUnschedulable params in
            Ret (inr {| NodePoolName := nextNodePoolName; MarkUnschedulable := markUnschedulable;
                        SchedulingBackoff := SchedulingBackoff params;
                        RemoveUnschedulableOnNodePoolSchedulingCondition :=
                          RemoveUnschedulableOnNodePoolSchedulingCondition params |})
      end
  end.

Definition findNextNodePoolAvailableForScheduling (requestedNodePools : list string)
    (params : NodePoolAssignmentParams) : kube (result NodePoolAssignmentParams) :=
  let previousNodePoolIndex := IndexOfItemInList requestedNodePools (NodePoolName params) in
  tryNextNodePools requestedNodePools previousNodePoolIndex params (seq 1 (length requestedNodePools - 1)).

Definition calculateNodePoolAssignmentParams (currentMarkUnschedulableForPodGroup : option bool)
    (lastSchedulingCondition : option SchedulingCondition) (assignedNodePool : string)
    (requestedNodePools : list string) : kube (result NodePoolAssignmentParams) :=
  match getInitialNodePoolAssignmentParams currentMarkUnschedulableForPodGroup lastSchedulingCondition
          assignedNodePool requestedNodePools with
  | inl err => Ret (inl err)
  | inr params =>
      isNodePoolAvailable <-? isNodePoolAvailableForAssignment (NodePoolName params) ;;
      if isNodePoolAvailable then Ret (inr params)
      else findNextNodePoolAvailableForScheduling requestedNodePools params
  end.

Definition GetNodePoolAssignmentParams (currentMarkUnschedulableForPodGroup : option bool)
    (lastSchedulingCondition : option SchedulingCondition) (assignedNodePool : string)
    (requestedNodePools : list string) : kube (result NodePoolAssignmentParams) :=
  params <-? calculateNodePoolAssignmentParams currentMarkUnschedulableForPodGroup lastSchedulingCondition
               assignedNodePool requestedNodePools ;;
  let resetCondition :=
    bool_decide (1 < len requestedNodePools) &&
    match lastSchedulingCondition with
    | Some condition => NodePoolName params ==? scNodePool condition
    | None => false
    end in
  Ret (inr (if resetCondition
            then {| NodePoolName := NodePoolName params; MarkUnschedulable := MarkUnschedulable params;
                    SchedulingBackoff := SchedulingBackoff params;
                    RemoveUnschedulableOnNodePoolSchedulingCondition := true |}
            else params)).

(** ** The assigner ([assigner/network_topology.go], [assigner/pod_group_assigner.go]) *)

Definition TopologySourceAnnotationKey := "topology.kai/source".
Definition TopologySourceSystem := "system".

Definition isTopologyConstraintEmpty (constraint : TopologyConstraint) : bool :=
  (tcTopology constraint ==? "") && (PreferredTopologyLevel constraint ==? "")
  && (RequiredTopologyLevel constraint ==? "").

Definition isSystemSourced (podGroup : PodGroup) : bool :=
  mapGet (Annotations (pgMeta podGroup)) TopologySourceAnnotationKey ==? TopologySourceSystem.

Definition desiredNetworkTopology (podGroup : PodGroup) (nodePoolName : string)
    : kube (result (TopologyConstraint * bool)) :=
  let previousConstraint := pgTopologyConstraint podGroup in
  let previousSystemSourced := isSystemSourced podGroup in
  if negb (isTopologyConstraintEmpty previousConstraint) && negb previousSystemSourced
  then Ret (inr (previousConstraint, false))
  else
    networkTopologyName <-? GetNodePoolPreferredNetworkTopologyName nodePoolName ;;
    if networkTopologyName !=? "" then
      lowestLevel <-? GetNetworkTopologyLowestLevel networkTopologyName ;;
      Ret (inr ({| tcTopology := networkTopologyName; PreferredTopologyLevel := lowestLevel;
                   RequiredTopologyLevel := "" |}, true))
    else if previousSystemSourced then Ret (inr (emptyTopologyConstraint, false))
    else Ret (inr (previousConstraint, false)).

Definition pg_with_meta (f : ObjectMeta -> ObjectMeta) (pg : PodGroup) : PodGroup :=
  {| pgMeta := f (pgMeta pg); pgMarkUnschedulable := pgMarkUnschedulable pg;
     pgSchedulingBackoff := pgSchedulingBackoff pg; pgQueue := pgQueue pg;
     pgTopologyConstraint := pgTopologyConstraint pg; pgSchedulingConditions := pgSchedulingConditions pg |}.

Definition applyTopologyToPodGroup (podGroup : PodGroup) (constraint : TopologyConstraint)
    (systemSourced : bool) : PodGroup :=
  let podGroup :=
    {| pgMeta := pgMeta podGroup; pgMarkUnschedulable := pgMarkUnschedulable podGroup;
       pgSchedulingBackoff := pgSchedulingBackoff podGroup; pgQueue := pgQueue podGroup;
       pgTopologyConstraint := constraint; pgSchedulingConditions := pgSchedulingConditions podGroup |} in
  pg_with_meta
    (meta_with_annotations
       (fun annotations =>
          if systemSourced then <[TopologySourceAnnotationKey := TopologySourceSystem]> annotations
          else delete TopologySourceAnnotationKey annotations)) podGroup.

Record FullNodePoolAssignmentParams := {
  fQueue : string;
  fParams : NodePoolAssignmentParams;
  NetworkTopologyConstraint : TopologyConstraint;
  NetworkTopologySystemSourced : bool;
}.

#[export] Instance FullNodePoolAssignmentParams_eq_dec : EqDecision FullNodePoolAssignmentParams.
Proof. solve_decision. Defined.

(** The state of the assigner: the node pool lists by pod group UID. *)
Definition nodePoolListCache := gmap string (list string).

Definition assignerIdentifiers : NodePoolIdentifiers :=
  {| NodePoolAssignmentLabelKey := NodePoolLabelKey cfg;
     idDefaultNodepoolName := DefaultNodepoolName cfg;
     idUnexistingNodepoolSentinel := UnexistingNodepoolSentinel cfg;
     idAnnotationNodepoolsKey := AnnotationNodepoolsKey cfg |}.

Definition getPodGroupNamespacedName (m : ObjectMeta) : string := Namespace m +:+ "/" +:+ Name m.

Definition getPodFromPodGroup (podGroupMeta : ObjectMeta) (podGroupPods : list Pod) : result Pod :=
  match podGroupPods with
  | [] => inl (Errorf "didn't find any pods for pod group <%s/%s>" [Namespace podGroupMeta; Name podGroupMeta])
  | pod :: _ => inr pod
  end.

Definition GetRequestedNodePoolsForPodGroup (podGroupMeta : ObjectMeta) (podGroupPods : list Pod)
    : kube (result (list string)) :=
  match getPodFromPodGroup podGroupMeta podGroupPods with
  | inl err => Ret (inl err)
  | inr pod =>
      GetRequestedNodePools assignerIdentifiers podGroupMeta
        (NewNodePoolsSources (podAffinity pod) true false (Annotations (podMeta pod)) None)
  end.

Definition getRequestedNodePoolsForPodGroup (cache : nodePoolListCache) (podGroup : PodGroup)
    (podGroupPods : list Pod) : kube (nodePoolListCache * result (list string)) :=
  match cache !! UID (pgMeta podGroup) with
  | Some requestedNodePools => Ret (cache, inr requestedNodePools)
  | None =>
      r <- GetRequestedNodePoolsForPodGroup (pgMeta podGroup) podGroupPods ;;
      match r with
      | inl err => Ret (cache, inl err)
      | inr requestedNodePools =>
          Ret (<[UID (pgMeta podGroup) := requestedNodePools]> cache, inr requestedNodePools)
      end
  end.

(** One tick of [ClearNodePoolListCachePeriodically]. *)
Definition clearNodePoolListCache (cache : nodePoolListCache) : nodePoolListCache := ∅.

Definition PodByPodGroupIndexerName := "podByPodGroupIndexer".

Definition getPodGroupPods (podGroupMeta : ObjectMeta) : kube (result (list Pod)) :=
  call (List KPod {| loNamespace := Namespace podGroupMeta; loLabelSelector := []; loMatchingLabels := ∅;
                     loFieldSelector := Some (PodByPodGroupIndexerName, Name podGroupMeta) |}).

Definition isNodePoolAvailableForSchedulingPodGroup (nodePoolName : string) : kube (result bool) :=
  r <-? IsNodePoolAvailableForScheduling nodePoolName ;;
  Ret (inr r.1).

Definition calculatePodGroupQueueNameOfNodePool (podGroup : PodGroup) (nodePoolName : string)
    : kube (result string) :=
  match Labels (pgMeta podGroup) !! ProjectLabelKey cfg with
  | Some projectName => GetQueueNameOfNodePool projectName nodePoolName
  | None =>
      r <- GetProjectNameOfNamespace (Namespace (pgMeta podGroup)) ;;
      match r with
      | inl err =>
          Ret (inl (Textf "%s; for podgroup <%s>" [getPodGroupNamespacedName (pgMeta podGroup)] err))
      | inr projectName => GetQueueNameOfNodePool projectName nodePoolName
      end
  end.

Definition isPodBoundToNode (pod : Pod) : bool :=
  (podNodeName pod !=? "") || (podPhase pod ==? PodRunning) || (podPhase pod ==? PodSucceeded)
  || (podPhase pod ==? PodFailed).

Definition isEligibleForAssignmentByPods (podGroupPods : list Pod) : bool :=
  existsb (fun pod => negb (isPodBoundToNode pod)) podGroupPods.

Definition isEligibleForNodePoolAssignment (podGroup : PodGroup)
    : kube (result (bool * option SchedulingCondition)) :=
  if GetSchedulingBackoffValue (pgSchedulingBackoff podGroup) ==? NoSchedulingBackoff
  then Ret (inr (false, None))
  else
    match GetLastSchedulingCondition podGroup with
    | None => Ret (inr (true, None))
    | Some lastSchedulingCondition =>
        let currentNodePoolName :=
          GetNodePoolNameFromLabels (Labels (pgMeta podGroup)) (NodePoolLabelKey cfg) (DefaultNodepoolName cfg) in
        if scNodePool lastSchedulingCondition !=? currentNodePoolName then
          isNodePoolAvailable <-? isNodePoolAvailableForSchedulingPodGroup currentNodePoolName ;;
          if negb isNodePoolAvailable then Ret (inr (true, Some lastSchedulingCondition))
          else Ret (inr (false, Some lastSchedulingCondition))
        else Ret (inr (true, Some lastSchedulingCondition))
    end.

Definition mutatePodGroupObjForAssignment (podGroup : PodGroup) (next : FullNodePoolAssignmentParams) : PodGroup :=
  let podGroup :=
    {| pgMeta := pgMeta podGroup; pgMarkUnschedulable := Some (MarkUnschedulable (fParams next));
       pgSchedulingBackoff := Some (SchedulingBackoff (fParams next)); pgQueue := fQueue next;
       pgTopologyConstraint := pgTopologyConstraint podGroup;
       pgSchedulingConditions := pgSchedulingConditions podGroup |} in
  let podGroup := pg_with_meta (meta_with_labels <[QueueLabelKey cfg := fQueue next]>) podGroup in
  let podGroup := pg_with_meta (meta_with_labels
      (UpdateLabelsWithNodePoolAssignment (NodePoolName (fParams next)) (NodePoolLabelKey cfg))) podGroup in
  applyTopologyToPodGroup podGroup (NetworkTopologyConstraint next) (NetworkTopologySystemSourced next).

Definition removeUnschedulableOnNodePoolSchedulingConditionFromStatus (podGroup : PodGroup)
    : kube (result PodGroup) :=
  let newStatus := filter (fun c => scType c <> UnschedulableOnNodePool) (pgSchedulingConditions podGroup) in
  call (PatchStatus KPodGroup podGroup
    {| pgMeta := pgMeta podGroup; pgMarkUnschedulable := pgMarkUnschedulable podGroup;
       pgSchedulingBackoff := pgSchedulingBackoff podGroup; pgQueue := pgQueue podGroup;
       pgTopologyConstraint := pgTopologyConstraint podGroup; pgSchedulingConditions := newStatus |}).

(** The assignment a pod group carries, read off the object. *)
Definition currentAssignment (podGroup : PodGroup) (removeCondition : bool) : FullNodePoolAssignmentParams :=
  {| fParams :=
       {| NodePoolName := GetNodePoolNameFromLabels (Labels (pgMeta podGroup)) (NodePoolLabelKey cfg)
                            (DefaultNodepoolName cfg);
          MarkUnschedulable := GetMarkUnschedulableValue (pgMarkUnschedulable podGroup);
          SchedulingBackoff := GetSchedulingBackoffValue (pgSchedulingBackoff podGroup);
          RemoveUnschedulableOnNodePoolSchedulingCondition := removeCondition |};
     fQueue := pgQueue podGroup;
     NetworkTopologyConstraint := pgTopologyConstraint podGroup;
     NetworkTopologySystemSourced := isSystemSourced podGroup |}.

(** [next] is given by its queue and parameters; its topology is decided here. *)
Definition updatePodGroupWithAssignment (podGroup : PodGroup) (queue : string)
    (params : NodePoolAssignmentParams) : kube (result unit) :=
  podGroup <-?
    (if RemoveUnschedulableOnNodePoolSchedulingCondition params
     then removeUnschedulableOnNodePoolSchedulingConditionFromStatus podGroup
     else Ret (inr podGroup)) ;;
  let previous := currentAssignment podGroup (RemoveUnschedulableOnNodePoolSchedulingCondition params) in
  desired <-? desiredNetworkTopology podGroup (NodePoolName params) ;;
  let next := {| fQueue := queue; fParams := params; NetworkTopologyConstraint := desired.1;
                 NetworkTopologySystemSourced := desired.2 |} in
  if previous ==? next then Ret (inr tt)
  else _ <-? call (Patch KPodGroup podGroup (mutatePodGroupObjForAssignment podGroup next)) ;; Ret (inr tt).

Definition assignToNodePool (podGroup : PodGroup) (params : NodePoolAssignmentParams) : kube (result unit) :=
  podGroupQueue <-? calculatePodGroupQueueNameOfNodePool podGroup (NodePoolName params) ;;
  updatePodGroupWithAssignment podGroup podGroupQueue params.

Definition getAssignedNodePool (podGroup : PodGroup) : string :=
  GetNodePoolNameFromLabels (Labels (pgMeta podGroup)) (NodePoolLabelKey cfg) (DefaultNodepoolName cfg).

Definition handleNodePoolAssignment (cache : nodePoolListCache) (podGroup : PodGroup)
    (lastSchedulingCondition : option SchedulingCondition) (podGroupPods : list Pod)
    : kube (nodePoolListCache * result unit) :=
  cr <- getRequestedNodePoolsForPodGroup cache podGroup podGroupPods ;;
  match cr with
  | (cache, inl err) => Ret (cache, inl err)
  | (cache, inr requestedNodePools) =>
      r <- (params <-? GetNodePoolAssignmentParams (pgMarkUnschedulable podGroup) lastSchedulingCondition
                         (getAssignedNodePool podGroup) requestedNodePools ;;
            assignToNodePool podGroup params) ;;
      Ret (cache, r)
  end.

(** A step that does not touch the cache. *)
Definition keepCache {A} (cache : nodePoolListCache) (p : kube (result A))
    (f : A -> kube (nodePoolListCache * result unit)) : kube (nodePoolListCache * result unit) :=
  r <- p ;; match r with inl err => Ret (cache, inl err) | inr a => f a end.

Definition Run (cache : nodePoolListCache) (podGroup : PodGroup) : kube (nodePoolListCache * result unit) :=
  keepCache cache (IsExternalNamespace (Namespace (pgMeta podGroup))) (fun external =>
  if external then Ret (cache, inr tt) else
  keepCache cache (isEligibleForNodePoolAssignment podGroup) (fun '(isUpForAssignment, lastSchedulingCondition) =>
  if negb isUpForAssignment then Ret (cache, inr tt) else
  keepCache cache (getPodGroupPods (pgMeta podGroup)) (fun podGroupPods =>
  match podGroupPods with
  | [] => Ret (cache, inl (Errorf "didn't find any pods for pod group <%s>"
                             [getPodGroupNamespacedName (pgMeta podGroup)]))
  | _ =>
      if negb (isEligibleForAssignmentByPods podGroupPods) then Ret (cache, inr tt)
      else handleNodePoolAssignment cache podGroup lastSchedulingCondition podGroupPods
  end))).

(** ** The reconciler ([podgroup/pod_group_controller.go], [podgroup/pod_group_event_filter.go]) *)

Definition requeueTimeout : Z := 2.

Definition getPodGroupForRequest (req : NamespacedName) : kube (result (option PodGroup)) :=
  r <- call (Get KPodGroup req) ;;
  match r with
  | inr podGroup => Ret (inr (Some podGroup))
  | inl err => if IsNotFound err then Ret (inr None) else Ret (inl err)
  end.

Definition Reconcile (cache : nodePoolListCache) (req : NamespacedName)
    : kube (nodePoolListCache * (Result * option error)) :=
  r <- getPodGroupForRequest req ;;
  match r with
  | inl err => Ret (cache, ({| Requeue := true; RequeueAfter := 0 |}, Some err))
  | inr None => Ret (cache, ({| Requeue := false; RequeueAfter := 0 |}, None))
  | inr (Some podgroup) =>
      match DeletionTimestamp (pgMeta podgroup) with
      | Some _ => Ret (cache, ({| Requeue := false; RequeueAfter := 0 |}, None))
      | None =>
          cr <- Run cache podgroup ;;
          match cr with
          | (cache, inl err) => Ret (cache, ({| Requeue := true; RequeueAfter := requeueTimeout |}, Some err))
          | (cache, inr _) => Ret (cache, ({| Requeue := false; RequeueAfter := 0 |}, None))
          end
      end
  end.

Definition isNodePoolPhaseRelevantForController (phase : NodePoolPhase) : bool :=
  (phase ==? NodePoolDeleting) || (phase ==? NodePoolUnschedulable).

(** The objects the controller watches. *)
Definition FilterPodGroupControllerEvents (K : Kind) (o : obj K) : bool :=
  match K return obj K -> bool with
  | KNodePool => fun nodePool => isNodePoolPhaseRelevantForController (npPhase nodePool)
  | KPodGroup => fun _ => true
  | _ => fun _ => false
  end o.

Definition listPodGroupsWithSelector (labelRequirement : Requirement) : kube (result (list PodGroup)) :=
  call (List KPodGroup {| loNamespace := ""; loLabelSelector := [labelRequirement]; loMatchingLabels := ∅;
                          loFieldSelector := None |}).

Definition MapNodePoolToPodGroupEvent (nodePoolName : string) : kube (list NamespacedName) :=
  match GetNodePoolLabelSelector nodePoolName (NodePoolLabelKey cfg) (DefaultNodepoolName cfg) with
  | inl _ => Ret []
  | inr matchNodePoolRequirement =>
      r <- listPodGroupsWithSelector matchNodePoolRequirement ;;
      match r with
      | inl _ => Ret []
      | inr podGroups => Ret ((fun pg => (Namespace (pgMeta pg), Name (pgMeta pg))) <$> podGroups)
      end
  end.

(** The annotation key is a constant of the KAI scheduler's API. *)
Definition PodByPodGroupIndexer (PodGroupAnnotationForPod : string) (pod : Pod) : list string :=
  [mapGet (Annotations (podMeta pod)) PodGroupAnnotationForPod].

End Assigner.
