(* ===== verification/AssignerFacts.v ===== *)
(** * Properties of the pod-group assigner

    The choice of the next node pool against a reference (the first available
    pool of a rotation), the round robin, the conditions under which a
    reconcile writes, idempotence of the assignment, the treatment of
    topologies and the safety of the node pool list cache. *)

From stdpp Require Import base list gmap strings.
From S2P Require Import Prelude ApiTypes NodePoolUtils Assigner.

Open Scope Z_scope.

(** ** Positions in a list *)

Lemma indexOfFrom_shift i items x :
  indexOfFrom i items x = if bool_decide (x ∈ items) then i + indexOfFrom 0 items x else -1.
Proof.
  revert i. induction items as [|y items IH]; intros i; simpl.
  - done.
  - rewrite (IH (i + 1)), (IH (0 + 1)).
    repeat case_bool_decide; subst; set_solver by lia.
Qed.

Lemma IndexOfItemInList_lookup items x :
  x ∈ items -> exists n, IndexOfItemInList items x = Z.of_nat n /\ items !! n = Some x /\
                         forall m, (m < n)%nat -> items !! m <> Some x.
Proof.
  unfold IndexOfItemInList. induction items as [|y items IH]; [set_solver|]. intros Hx. simpl.
  case_bool_decide as Hy; [subst; by exists 0%nat; repeat split; intros; lia|].
  assert (x ∈ items) as Hin by set_solver. destruct (IH Hin) as (n & Hn & Hl & Hm).
  exists (S n). rewrite indexOfFrom_shift, bool_decide_true by done. split_and!; [lia|done|].
  intros [|m] Hlt; simpl; [naive_solver|]. apply Hm; lia.
Qed.

Lemma IndexOfItemInList_not_in items x : x ∉ items -> IndexOfItemInList items x = -1.
Proof. intros. unfold IndexOfItemInList. rewrite indexOfFrom_shift, bool_decide_false; done. Qed.

Lemma IndexOfItemInList_bounds items x : -1 <= IndexOfItemInList items x < len items.
Proof.
  unfold len. destruct (decide (x ∈ items)) as [Hx|Hx].
  - destruct (IndexOfItemInList_lookup items x Hx) as (n & -> & Hl & _).
    apply lookup_lt_Some in Hl. lia.
  - rewrite IndexOfItemInList_not_in by done. lia.
Qed.

Lemma IndexOfItemInList_NoDup items x n :
  NoDup items -> items !! n = Some x -> IndexOfItemInList items x = Z.of_nat n.
Proof.
  intros Hnd Hn. destruct (IndexOfItemInList_lookup items x) as (m & -> & Hm & _).
  { by eapply list_elem_of_lookup_2. }
  f_equal. by eapply NoDup_lookup.
Qed.

Lemma sliceAt_rem items i :
  items <> [] -> 0 <= i -> exists x, sliceAt items (Z.rem i (len items)) = Some x /\ x ∈ items.
Proof.
  intros Hne Hi. unfold sliceAt, len. assert (0 < Z.of_nat (length items)) by (destruct items; simpl; [done|lia]).
  pose proof (Z.rem_bound_pos i (Z.of_nat (length items)) Hi ltac:(done)).
  rewrite bool_decide_false by lia.
  destruct (lookup_lt_is_Some_2 items (Z.to_nat (Z.rem i (Z.of_nat (length items))))) as [x Hx]; [lia|].
  exists x. split; [done|]. by eapply list_elem_of_lookup_2.
Qed.

Lemma sliceAt_nat items n : sliceAt items (Z.of_nat n) = items !! n.
Proof. unfold sliceAt. rewrite bool_decide_false by lia. by rewrite Nat2Z.id. Qed.

Lemma len_nonempty items : items <> [] -> 0 < len items.
Proof. unfold len. destruct items; simpl; [done|lia]. Qed.

(** ** The reference: the first available pool of a rotation *)

(** The list read cyclically from position [i]. *)
Definition rotation (i : nat) (items : list string) : list string := drop i items ++ take i items.

Lemma rotation_elem i items x : x ∈ rotation i items <-> x ∈ items.
Proof.
  unfold rotation. rewrite elem_of_app. rewrite <- (take_drop i items) at 3. rewrite elem_of_app. tauto.
Qed.

Lemma rotation_length i items : length (rotation i items) = length items.
Proof. unfold rotation. rewrite length_app, length_drop, length_take. lia. Qed.

Lemma rotation_lookup i items k :
  (i < length items)%nat -> (k < length items)%nat ->
  rotation i items !! k = items !! ((i + k) `mod` length items)%nat.
Proof.
  intros Hi Hk. unfold rotation. destruct (decide (i + k < length items)%nat).
  - rewrite lookup_app_l by (rewrite length_drop; lia). rewrite lookup_drop.
    by rewrite Nat.mod_small by lia.
  - rewrite lookup_app_r by (rewrite length_drop; lia). rewrite length_drop, lookup_take_lt by lia.
    f_equal. replace (i + k)%nat with ((i + k - length items) + 1 * length items)%nat at 1 by lia.
    rewrite Nat.Div0.mod_add, Nat.mod_small by lia. lia.
Qed.

(** The name the first attempt of an assignment uses. *)
Definition initialPool (condition : option SchedulingCondition) (assigned : string) (requested : list string)
    : option string :=
  match condition with
  | None => if decide (assigned ∈ requested) then Some assigned else head requested
  | Some c => sliceAt requested (Z.rem (IndexOfItemInList requested (scNodePool c) + 1) (len requested))
  end.

(** The pools in the order they are tried. *)
Definition triedPools (initial : string) (requested : list string) : list string :=
  rotation (Z.to_nat (IndexOfItemInList requested initial)) requested.

(** The result an assignment must have: the first available pool of the tried
    ones, with the backoff of the list and the unschedulable mark kept; an
    error that is not a panic when none is available. *)
Definition firstAvailable (avail : string -> bool) (mark : option bool) (requested : list string)
    (initial : string) (r : result NodePoolAssignmentParams) : Prop :=
  match list_find (fun x => avail x = true) (triedPools initial requested) with
  | Some (_, x) => exists p, r = inr p /\ NodePoolName p = x /\
       SchedulingBackoff p = getSchedulingBackoff requested /\
       (mark = Some true -> MarkUnschedulable p = true)
  | None => exists e, r = inl e /\ forall w, e <> RuntimePanic w
  end.

(** ** What the API said about the pools *)

(** Every node pool read of the execution answered with a pool whose
    availability is [avail] of its name. *)
Definition readsPools (avail : string -> bool) : forall X, KubeCall X -> X -> Prop := fun X c =>
  match c in KubeCall X return X -> Prop with
  | Get K key =>
      match K return result (obj K) -> Prop with
      | KNodePool => fun reply => exists np, reply = inr np /\ isAvailablePhase (npPhase np) = avail key.2
      | _ => fun _ => True
      end
  | _ => fun _ => True
  end.

Definition only_reads_pools : forall X, KubeCall X -> Prop := fun X c =>
  match c with Get KNodePool _ => True | _ => False end.

Lemma wp_isNodePoolAvailable avail n (Q : result bool -> Prop) :
  Q (inr (avail n)) ->
  wp only_reads_pools (readsPools avail) (isNodePoolAvailableForAssignment n) Q.
Proof. intros HQ. cbn. split; [done|]. intros r (np & -> & Hav). cbn. by rewrite Hav. Qed.

Lemma wp_tryNextNodePools avail requested prev params n k :
  requested !! prev = Some n -> (1 <= k)%nat ->
  wp only_reads_pools (readsPools avail)
    (tryNextNodePools requested (Z.of_nat prev) params (seq k (length requested - k)))
    (fun r => match list_find (fun x => avail x = true) (drop k (rotation prev requested)) with
              | Some (_, x) => exists p, r = inr p /\ NodePoolName p = x /\
                   SchedulingBackoff p = SchedulingBackoff params /\
                   (MarkUnschedulable params = true -> MarkUnschedulable p = true)
              | None => exists e, r = inl e /\ forall w, e <> RuntimePanic w
              end).
Proof.
  intros Hprev Hk. pose proof (lookup_lt_Some _ _ _ Hprev) as Hlt.
  remember (length requested - k)%nat as m eqn:Hm. revert k Hk Hm.
  induction m as [|m IH]; intros k Hk Hm; simpl.
  - rewrite drop_ge by (rewrite rotation_length; lia). simpl. naive_solver.
  - assert (k < length requested)%nat by lia.
    destruct (lookup_lt_is_Some_2 (rotation prev requested) k) as [x Hx]; [rewrite rotation_length; lia|].
    rewrite (drop_S _ _ _ Hx). rewrite rotation_lookup in Hx by lia.
    assert (Z.rem (Z.of_nat prev + Z.of_nat k) (len requested)
            = Z.of_nat ((prev + k) `mod` length requested)) as ->.
    { unfold len. rewrite <- Nat2Z.inj_add. rewrite Z.rem_mod_nonneg by lia. by rewrite Nat2Z.inj_mod. }
    rewrite sliceAt_nat, Hx. apply wp_try, wp_isNodePoolAvailable. simpl.
    destruct (avail x) eqn:Hav; simpl.
    + eexists. split; [done|]. simpl. split; [done|]. split; [done|].
      intros ->. by simpl.
    + eapply wp_mono; [|apply IH; lia]. intros r.
      destruct (list_find _ (drop (S k) _)) as [[i y]|] eqn:Hf; simpl; [|done].
      by destruct (list_find (fun x0 => avail x0 = true) (drop (S k) (rotation prev requested))) as [[? ?]|]; simplify_eq.
Qed.

Lemma initialPool_elem c assigned requested n :
  initialPool c assigned requested = Some n -> n ∈ requested.
Proof.
  unfold initialPool. destruct c as [c|].
  - unfold sliceAt. case_bool_decide; [done|]. by apply list_elem_of_lookup_2.
  - case_decide; [by intros [= <-]|]. destruct requested; [done|]. intros [= <-]. by left.
Qed.

Lemma getInitial_spec mark c assigned requested :
  requested <> [] ->
  exists p, getInitialNodePoolAssignmentParams mark c assigned requested = inr p /\
    initialPool c assigned requested = Some (NodePoolName p) /\
    SchedulingBackoff p = getSchedulingBackoff requested /\
    RemoveUnschedulableOnNodePoolSchedulingCondition p = false /\
    (mark = Some true -> MarkUnschedulable p = true) /\
    (len requested = 1 -> MarkUnschedulable p = true).
Proof.
  intros Hne. unfold getInitialNodePoolAssignmentParams, initialPool.
  pose proof (len_nonempty requested Hne) as Hlen. destruct c as [c|].
  - rewrite bool_decide_false by lia.
    pose proof (IndexOfItemInList_bounds requested (scNodePool c)).
    destruct (sliceAt_rem requested (IndexOfItemInList requested (scNodePool c) + 1)) as (x & Hx & _); [done|lia|].
    rewrite Hx. eexists. split_and!; [done..| |]; simpl.
    + by intros ->.
    + intros H1. rewrite H1. rewrite Z.rem_1_r. by rewrite orb_true_r.
  - destruct requested as [|x requested]; [done|]. simpl.
    eexists. split_and!; [done| |done|done| |]; simpl.
    + destruct (decide (assigned ∈ x :: requested)) as [Hin|Hin].
      * destruct (IndexOfItemInList_lookup _ _ Hin) as (n & -> & _). by rewrite bool_decide_true by lia.
      * rewrite IndexOfItemInList_not_in by done. by rewrite bool_decide_false by lia.
    + intros ->. by destruct (len (x :: requested) ==? 1).
    + intros ->. done.
Qed.

Lemma wp_calculate avail mark c assigned requested initial :
  requested <> [] -> initialPool c assigned requested = Some initial ->
  wp only_reads_pools (readsPools avail)
    (calculateNodePoolAssignmentParams mark c assigned requested)
    (firstAvailable avail mark requested initial).
Proof.
  intros Hne Hinit. unfold calculateNodePoolAssignmentParams.
  destruct (getInitial_spec mark c assigned requested Hne) as (p & -> & Hp & Hb & _ & Hm & _).
  rewrite Hinit in Hp. simplify_eq.
  apply initialPool_elem in Hinit.
  destruct (IndexOfItemInList_lookup _ _ Hinit) as (n & Hn & Hl & _).
  apply wp_try, wp_isNodePoolAvailable. unfold firstAvailable, triedPools. rewrite Hn, Nat2Z.id.
  pose proof (lookup_lt_Some _ _ _ Hl).
  assert (rotation n requested = NodePoolName p :: drop 1 (rotation n requested)) as Hrot.
  { rewrite <- drop_S by (rewrite rotation_lookup by lia; by rewrite Nat.add_0_r, Nat.mod_small by lia). done. }
  rewrite Hrot. simpl. destruct (avail (NodePoolName p)) eqn:Hav; simpl.
  { eauto 10. }
  unfold findNextNodePoolAvailableForScheduling. rewrite Hn.
  eapply wp_mono; [|by eapply (wp_tryNextNodePools _ _ n)]. intros r.
  destruct (list_find _ (drop 1 _)) as [[i y]|] eqn:Hf; simpl; [|done].
  intros (p' & ? & ? & ? & ?). exists p'. naive_solver congruence.
Qed.

(** C1: The node pool of the next assignment is the first available pool of the
    requested list, read cyclically from the initial candidate: the pool after
    the one that reported the pod group unschedulable, or (without a scheduling
    condition) the pool already assigned, or the first of the list.  The
    assignment fails exactly when no requested pool is available, and never
    panics. *)
Theorem GetNodePoolAssignmentParams_first_available avail mark c assigned requested initial tr r :
  requested <> [] -> initialPool c assigned requested = Some initial ->
  exec (GetNodePoolAssignmentParams mark c assigned requested) tr r ->
  Forall (fun e => readsPools avail _ (ev_call e) (ev_reply e)) tr ->
  firstAvailable avail mark requested initial r.
Proof.
  intros Hne Hinit Hex Hreads.
  eapply (wp_exec only_reads_pools _ _ (firstAvailable avail mark requested initial)); [|exact Hex|exact Hreads].
  apply wp_try. eapply wp_mono; [|by apply wp_calculate]. intros r'. unfold firstAvailable.
  destruct (list_find _ _) as [[i x]|].
  - intros (p & -> & ? & ? & ?). simpl. eexists. split; [done|]. by case_match.
  - intros (e & -> & ?). simpl. eauto.
Qed.

(** The assignment of a pod group only reads node pools, and an available
    pool is found whenever one of the requested pools is available. *)
Theorem GetNodePoolAssignmentParams_complete avail mark c assigned requested tr r :
  requested <> [] ->
  exec (GetNodePoolAssignmentParams mark c assigned requested) tr r ->
  Forall (fun e => readsPools avail _ (ev_call e) (ev_reply e)) tr ->
  writes tr = [] /\
  ((exists p, r = inr p /\ NodePoolName p ∈ requested /\ avail (NodePoolName p) = true) <->
   exists x, x ∈ requested /\ avail x = true).
Proof.
  intros Hne Hex Hreads.
  destruct (getInitial_spec mark c assigned requested Hne) as (p0 & _ & Hinit & _).
  assert (wp only_reads_pools (readsPools avail) (GetNodePoolAssignmentParams mark c assigned requested)
    (fun r => (exists p, r = inr p /\ NodePoolName p ∈ requested /\ avail (NodePoolName p) = true) <->
      exists x, x ∈ requested /\ avail x = true)) as Hwp.
  { apply wp_try. eapply wp_mono; [|by apply wp_calculate]. intros r'. unfold firstAvailable.
    destruct (list_find _ _) as [[i x]|] eqn:Hf.
    - apply list_find_Some in Hf as (Hx & Hav & _).
      assert (x ∈ requested) by (apply list_elem_of_lookup_2 in Hx; by apply rotation_elem in Hx).
      intros (p & -> & <- & ? & ?). simpl. split; [eauto|]. intros _. eexists. split; [done|]. by case_match.
    - intros (e & -> & _). simpl. split; [by intros (? & ? & _)|].
      intros (x & Hx & Hav). exfalso. apply list_find_None in Hf.
      rewrite Forall_forall in Hf. apply (Hf x); [|done]. by apply rotation_elem. }
  destruct (wp_exec _ _ _ _ _ _ Hwp Hex Hreads) as [Hpre Hr]. split; [|exact Hr].
  clear -Hpre. unfold writes. induction Hpre as [|e tr He _ IH]; [done|].
  rewrite filter_cons, decide_False; [done|]. destruct e as [X call reply]; simpl in *. by destruct call.
Qed.

(** ** The round robin *)

(** The initial candidate after the pool [n] reported unschedulable. *)
Definition nextPool (requested : list string) (n : string) : string :=
  match getInitialNodePoolAssignmentParams (Some false)
          (Some {| scType := UnschedulableOnNodePool; scNodePool := n |}) "" requested with
  | inr p => NodePoolName p
  | inl _ => n
  end.

Lemma nextPool_lookup requested n i :
  NoDup requested -> requested !! i = Some n ->
  requested !! ((i + 1) `mod` length requested)%nat = Some (nextPool requested n).
Proof.
  intros Hnd Hi. pose proof (lookup_lt_Some _ _ _ Hi).
  unfold nextPool. destruct (getInitial_spec (Some false)
    (Some {| scType := UnschedulableOnNodePool; scNodePool := n |}) "" requested) as (p & -> & Hp & _).
  { by intros ->. }
  simpl in Hp. rewrite (IndexOfItemInList_NoDup _ _ i Hnd Hi) in Hp. unfold len in Hp.
  rewrite Z.rem_mod_nonneg in Hp by lia.
  replace (Z.of_nat i + 1) with (Z.of_nat (i + 1)) in Hp by lia.
  rewrite <- Nat2Z.inj_mod, sliceAt_nat in Hp. done.
Qed.

(** Round robin: on a list without duplicates, after [k] consecutive
    "unschedulable" reports that start at position [i] the candidate is the pool
    at position [(i + k) mod len]; so within [len] reports every requested pool
    becomes the candidate. *)
Theorem round_robin requested n i :
  NoDup requested -> requested !! i = Some n ->
  (forall k, requested !! ((i + k) `mod` length requested)%nat = Some (Nat.iter k (nextPool requested) n)) /\
  (forall x, x ∈ requested -> exists k, (k < length requested)%nat /\ Nat.iter k (nextPool requested) n = x).
Proof.
  intros Hnd Hi. pose proof (lookup_lt_Some _ _ _ Hi) as Hlt.
  assert (forall k, requested !! ((i + k) `mod` length requested)%nat = Some (Nat.iter k (nextPool requested) n)) as Hk.
  { induction k as [|k IH].
    - by rewrite Nat.add_0_r, Nat.mod_small by lia.
    - apply (nextPool_lookup _ _ _ Hnd) in IH. rewrite Nat.Div0.add_mod_idemp_l in IH.
      by replace (i + S k)%nat with (i + k + 1)%nat by lia. }
  split; [exact Hk|]. intros x [j Hj]%list_elem_of_lookup_1. pose proof (lookup_lt_Some _ _ _ Hj).
  exists ((j + (length requested - i)) `mod` length requested)%nat.
  split; [apply Nat.mod_upper_bound; lia|].
  apply (inj Some). rewrite <- Hk, <- Hj. f_equal.
  rewrite Nat.Div0.add_mod_idemp_r.
  replace (i + (j + (length requested - i)))%nat with (j + 1 * length requested)%nat by lia.
  rewrite Nat.Div0.mod_add. by apply Nat.mod_small.
Qed.

(** A list with a duplicate breaks the round robin: the position of a name
    is that of its first occurrence, so with the annotation "a a b" a pod group
    that is unschedulable on "a" is sent to "a" forever and "b" is never the
    candidate. *)
Theorem duplicate_starves_round_robin :
  splitSpace "a a b" = ["a"; "a"; "b"] /\
  forall k, Nat.iter k (nextPool (splitSpace "a a b")) "a" = "a".
Proof.
  split; [reflexivity|]. induction k as [|k IH]; [done|]. simpl. rewrite IH. reflexivity.
Qed.

(** The scheduling backoff that freezes an assignment is written exactly for
    single-pool lists, for which the unschedulable mark is set too; the mark is
    never cleared once set. *)
Theorem initial_params_backoff_and_mark mark c assigned requested p :
  getInitialNodePoolAssignmentParams mark c assigned requested = inr p ->
  (SchedulingBackoff p = NoSchedulingBackoff <-> len requested = 1) /\
  (len requested = 1 -> MarkUnschedulable p = true) /\
  (mark = Some true -> MarkUnschedulable p = true).
Proof.
  intros Hp. destruct (decide (requested = [])) as [->|Hne].
  { by destruct c. }
  destruct (getInitial_spec mark c assigned requested Hne) as (p' & Hp' & _ & Hb & _ & ? & ?).
  rewrite Hp in Hp'. simplify_eq. split_and!; [|done..].
  rewrite Hb. unfold getSchedulingBackoff. case_bool_decide; [done|]. by split.
Qed.

(** ** Topologies *)

(** The user owns the topology of the pod group. *)
Definition userOwnsTopology (pg : PodGroup) : bool :=
  negb (isTopologyConstraintEmpty (pgTopologyConstraint pg)) && negb (isSystemSourced pg).

(** What a patch of a pod group may do to its topology. *)
Definition patch_keeps_user_topology : forall X, KubeCall X -> Prop := fun X c =>
  match c with
  | Patch KPodGroup orig new =>
      userOwnsTopology orig = true ->
      pgTopologyConstraint new = pgTopologyConstraint orig /\ isSystemSourced new = false
  | PatchStatus KPodGroup orig new =>
      pgTopologyConstraint new = pgTopologyConstraint orig /\ pgMeta new = pgMeta orig
  | _ => is_write c = false
  end.

Lemma applyTopology_source pg c b : isSystemSourced (applyTopologyToPodGroup pg c b) = b.
Proof.
  unfold isSystemSourced, mapGet. destruct b; simpl.
  - by rewrite lookup_insert_eq.
  - by rewrite lookup_delete_eq.
Qed.

Section AssignerProps.
Context {L : LabelsLib} (cfg : PodGroupAssignerConfig).

Lemma mutate_source pg next :
  isSystemSourced (mutatePodGroupObjForAssignment cfg pg next) = NetworkTopologySystemSourced next.
Proof. apply applyTopology_source. Qed.

Lemma mutate_topology pg next :
  pgTopologyConstraint (mutatePodGroupObjForAssignment cfg pg next) = NetworkTopologyConstraint next.
Proof. done. Qed.

Lemma wp_desiredNetworkTopology pg pool :
  wp patch_keeps_user_topology any_reply (desiredNetworkTopology pg pool)
    (fun r => match r with
              | inr (c, b) => userOwnsTopology pg = true -> c = pgTopologyConstraint pg /\ b = false
              | inl _ => True
              end).
Proof.
  unfold desiredNetworkTopology. fold (userOwnsTopology pg).
  destruct (userOwnsTopology pg); simpl; [done|].
  split; [done|]. intros [e|np] _; simpl; [done|]. case_bool_decide; simpl; [by destruct (isSystemSourced pg)|].
  split; [done|]. intros [e|t] _; simpl; [done|]. by destruct (last (Levels t)).
Qed.

Lemma wp_updatePodGroupWithAssignment pg q params :
  wp patch_keeps_user_topology any_reply (updatePodGroupWithAssignment cfg pg q params) (fun _ => True).
Proof.
  unfold updatePodGroupWithAssignment. apply wp_try.
  assert (forall pg' : PodGroup, wp patch_keeps_user_topology any_reply
    (desired <-? desiredNetworkTopology pg' (NodePoolName params) ;;
     if currentAssignment cfg pg' (RemoveUnschedulableOnNodePoolSchedulingCondition params) ==?
        {| fQueue := q; fParams := params; NetworkTopologyConstraint := desired.1;
           NetworkTopologySystemSourced := desired.2 |}
     then Ret (inr tt)
     else _ <-? call (Patch KPodGroup pg' (mutatePodGroupObjForAssignment cfg pg'
        {| fQueue := q; fParams := params; NetworkTopologyConstraint := desired.1;
           NetworkTopologySystemSourced := desired.2 |})) ;; Ret (inr tt)) (fun _ => True)) as Hrest.
  { intros pg'. apply wp_try. eapply wp_mono; [|apply wp_desiredNetworkTopology].
    intros [e|[c b]] Hown; [done|]. simpl. case_bool_decide; [done|]. simpl. split.
    - intros Hu. destruct (Hown Hu) as [-> ->]. split; [done|]. apply mutate_source.
    - by intros [e|pg''] _. }
  destruct (RemoveUnschedulableOnNodePoolSchedulingCondition params); simpl.
  - split; [done|]. intros [e|pg'] _; [done|]. apply Hrest.
  - apply Hrest.
Qed.

(** ** Which parts only read *)

Lemma convert_reads ids a : reads_only (convertNodeAffinityToNodePoolNames ids a).
Proof. unfold convertNodeAffinityToNodePoolNames, GetAllNodePools. reads_tac. Qed.

Lemma GetRequestedNodePools_reads ids m src : reads_only (GetRequestedNodePools ids m src).
Proof. unfold GetRequestedNodePools. pose proof convert_reads. reads_tac. Qed.

Lemma getRequested_reads cache pg pods : reads_only (getRequestedNodePoolsForPodGroup cfg cache pg pods).
Proof.
  unfold getRequestedNodePoolsForPodGroup, GetRequestedNodePoolsForPodGroup.
  pose proof GetRequestedNodePools_reads. reads_tac.
Qed.

Lemma available_reads n : reads_only (isNodePoolAvailableForAssignment n).
Proof. unfold isNodePoolAvailableForAssignment, IsNodePoolAvailableForScheduling, GetNodePoolPhase, GetNodePoolFields. reads_tac. Qed.

Lemma tryNext_reads req prev params ix : reads_only (tryNextNodePools req prev params ix).
Proof. pose proof available_reads. induction ix as [|i ix IH]; simpl; reads_tac. Qed.

Lemma params_reads mark c a req : reads_only (GetNodePoolAssignmentParams mark c a req).
Proof.
  unfold GetNodePoolAssignmentParams, calculateNodePoolAssignmentParams, findNextNodePoolAvailableForScheduling.
  pose proof available_reads. pose proof tryNext_reads. reads_tac.
Qed.

Lemma external_reads ns : reads_only (IsExternalNamespace cfg ns).
Proof. unfold IsExternalNamespace. reads_tac. Qed.

Lemma eligible_reads pg : reads_only (isEligibleForNodePoolAssignment cfg pg).
Proof.
  unfold isEligibleForNodePoolAssignment, isNodePoolAvailableForSchedulingPodGroup,
    IsNodePoolAvailableForScheduling, GetNodePoolPhase, GetNodePoolFields. reads_tac.
Qed.

Lemma queue_reads pg pool : reads_only (calculatePodGroupQueueNameOfNodePool cfg pg pool).
Proof.
  unfold calculatePodGroupQueueNameOfNodePool, GetProjectNameOfNamespace, GetQueueNameOfNodePool,
    getExistingQueueByLabels, listQueuesWithLabelSelectors. reads_tac.
Qed.

Lemma pods_reads m : reads_only (getPodGroupPods m).
Proof. unfold getPodGroupPods. reads_tac. Qed.

(** A condition on the writes of [Run] follows from the same condition on the
    update of the pod group. *)
Lemma wp_Run (pre : forall X, KubeCall X -> Prop) cache pg :
  (forall X (c : KubeCall X), is_write c = false -> pre X c) ->
  (forall q params, wp pre any_reply (updatePodGroupWithAssignment cfg pg q params) (fun _ => True)) ->
  wp pre any_reply (Run cfg cache pg) (fun _ => True).
Proof.
  intros Hpre Hupd.
  assert (forall A B (p : kube A) (f : A -> kube B), reads_only p ->
    (forall a, wp pre any_reply (f a) (fun _ => True)) ->
    wp pre any_reply (x <- p ;; f x) (fun _ => True)) as Hbind.
  { intros A B p f Hp Hf. apply wp_bind. eapply wp_mono; [|by apply reads_only_wp]. intros a _. apply Hf. }
  unfold Run, keepCache. apply Hbind; [apply external_reads|]. intros [e|[]]; [done..|].
  apply Hbind; [apply eligible_reads|]. intros [e|[[] c]]; [done| |done].
  apply Hbind; [apply pods_reads|]. intros [e|[|pod pods]]; [done..|].
  destruct (isEligibleForAssignmentByPods (pod :: pods)); [|done]. simpl.
  unfold handleNodePoolAssignment. apply Hbind; [apply getRequested_reads|]. intros [cache' [e|req]]; [done|].
  apply wp_bind. eapply wp_mono; [done|]. unfold try_bind.
  apply Hbind; [apply params_reads|]. intros [e|params]; [done|].
  unfold assignToNodePool, try_bind. apply Hbind; [apply queue_reads|]. intros [e|q]; [done|]. apply Hupd.
Qed.

(** A reconcile never changes a topology constraint the user owns: whatever
    the API answers, the only writes are patches of pod groups, a status patch
    leaves metadata and topology alone, and a patch of a pod group with a
    user-owned constraint keeps the constraint and does not claim it. *)
Theorem Run_keeps_user_topology cache pg tr r :
  exec (Run cfg cache pg) tr r ->
  Forall (fun e => patch_keeps_user_topology _ (ev_call e)) tr.
Proof.
  intros Hex. eapply (wp_exec_any _ _ (fun _ => True)); [|exact Hex].
  apply wp_Run; [by intros X []|apply wp_updatePodGroupWithAssignment].
Qed.

(** ** When a reconcile writes *)

(** The scheduler of the current node pool still holds the pod group: its last
    report came from another pool. *)
Definition awaitingScheduler (pg : PodGroup) : bool :=
  match GetLastSchedulingCondition pg with
  | None => false
  | Some c => scNodePool c !=? getAssignedNodePool cfg pg
  end.

Lemma exec_keepCache {A} cache (p : kube (result A)) f tr (r : nodePoolListCache * result unit) :
  exec (keepCache cache p f) tr r ->
  exists tr1 tr2 r1, tr = tr1 ++ tr2 /\ exec p tr1 r1 /\
    match r1 with inl err => tr2 = [] /\ r = (cache, inl err) | inr a => exec (f a) tr2 r end.
Proof.
  unfold keepCache. intros (tr1 & tr2 & r1 & -> & H1 & H2)%exec_bind_inv.
  exists tr1, tr2, r1. split_and!; [done..|]. by destruct r1.
Qed.

Lemma exec_eligible pg tr c :
  exec (isEligibleForNodePoolAssignment cfg pg) tr (inr (true, c)) ->
  GetSchedulingBackoffValue (pgSchedulingBackoff pg) <> NoSchedulingBackoff /\
  c = GetLastSchedulingCondition pg /\
  (awaitingScheduler pg = true ->
   exists np, Event (Get KNodePool ("", getAssignedNodePool cfg pg)) (inr np) ∈ tr /\
     isAvailablePhase (npPhase np) = false).
Proof.
  unfold isEligibleForNodePoolAssignment, awaitingScheduler. fold (getAssignedNodePool cfg pg).
  case_bool_decide as Hb; [by intros [_ [=]]|].
  destruct (GetLastSchedulingCondition pg) as [lc|]; [|by intros [_ [= <-]]].
  case_bool_decide as Hn; simpl; [by intros [_ [= <-]]|].
  intros ([e|np] & tr' & -> & H); simpl in H; [by destruct H|].
  destruct (isAvailablePhase (npPhase np)) eqn:Hav; simpl in H; destruct H as [-> [= <-]].
  split_and!; [done..|]. intros _. exists np. split; [by left|done].
Qed.

Lemma exec_external ns tr :
  exec (IsExternalNamespace cfg ns) tr (inr false) ->
  AllowExternalQueues cfg = true ->
  exists nsObj project prj, Event (Get KNamespace ("", ns)) (inr nsObj) ∈ tr /\
    mapGet (Labels (nsMeta nsObj)) (NamespaceProjectLabelKey cfg) = project /\ project <> "" /\
    Event (Get KProject ("", project)) (inr prj) ∈ tr.
Proof.
  unfold IsExternalNamespace. intros H Hx. rewrite Hx in H. simpl in H.
  destruct H as ([e|nsObj] & tr' & -> & H); simpl in H; [by destruct (IsNotFound e), H|].
  case_bool_decide as Hp; [by destruct H|].
  destruct H as ([e|prj] & tr'' & -> & H); simpl in H; [by destruct (IsNotFound e), H|].
  exists nsObj, (mapGet (Labels (nsMeta nsObj)) (NamespaceProjectLabelKey cfg)), prj. set_solver.
Qed.

(** C2: A reconcile writes only for a pod group that is up for assignment:
    whatever the API answers, a write implies that the backoff is not infinite,
    that the scheduler of the current pool is done with the pod group or that
    pool was read as unavailable, that a listed pod is not bound to a node, and,
    where external queues are allowed, that the namespace names an existing
    project. *)
Theorem Run_writes_only_eligible cache pg tr r :
  exec (Run cfg cache pg) tr r -> writes tr <> [] ->
  GetSchedulingBackoffValue (pgSchedulingBackoff pg) <> NoSchedulingBackoff /\
  (awaitingScheduler pg = true ->
   exists np, Event (Get KNodePool ("", getAssignedNodePool cfg pg)) (inr np) ∈ tr /\
     isAvailablePhase (npPhase np) = false) /\
  (exists opts pods pod, Event (List KPod opts) (inr pods) ∈ tr /\ pod ∈ pods /\ isPodBoundToNode pod = false) /\
  (AllowExternalQueues cfg = true ->
   exists nsObj project prj, Event (Get KNamespace ("", Namespace (pgMeta pg))) (inr nsObj) ∈ tr /\
     mapGet (Labels (nsMeta nsObj)) (NamespaceProjectLabelKey cfg) = project /\ project <> "" /\
     Event (Get KProject ("", project)) (inr prj) ∈ tr).
Proof.
  intros (tr1 & tr' & ext & -> & Hext & H)%exec_keepCache Hw.
  rewrite writes_app, (reads_only_writes _ _ _ (external_reads _) Hext) in Hw. simpl in Hw.
  destruct ext as [e|[]]; [by destruct H as [-> ->]|by destruct H as [-> ->]|].
  apply exec_keepCache in H as (tr2 & tr3 & el & -> & Hel & H).
  rewrite writes_app, (reads_only_writes _ _ _ (eligible_reads _) Hel) in Hw. simpl in Hw.
  destruct el as [e|[[] c]]; [by destruct H as [-> ->]| |by destruct H as [-> ->]].
  apply exec_keepCache in H as (tr4 & tr5 & pods & -> & Hpods & H).
  rewrite writes_app, (reads_only_writes _ _ _ (pods_reads _) Hpods) in Hw. simpl in Hw.
  destruct Hpods as (reply & ? & -> & -> & ->).
  destruct reply as [e|[|pod pods]]; [by destruct H as [-> ->]..|].
  destruct (isEligibleForAssignmentByPods (pod :: pods)) eqn:Hpod; [|by destruct H as [-> ->]].
  apply exec_eligible in Hel as (? & _ & Hav).
  apply existsb_exists in Hpod as (p & Hp & Hb). apply list_elem_of_In in Hp.
  split_and!; [done| | |].
  - intros (np & ? & ?)%Hav. exists np. rewrite !elem_of_app. auto.
  - eexists _, (pod :: pods), p. split; [|split; [exact Hp|by destruct (isPodBoundToNode p)]].
    apply elem_of_app. right. apply elem_of_app. right. by left.
  - intros (nsObj & project & prj & ? & ? & ? & ?)%(exec_external _ _ Hext).
    exists nsObj, project, prj. rewrite !elem_of_app. auto.
Qed.

(** ** No run-time panic *)

Definition noPanic {A} (r : result A) : Prop := forall w, r <> inl (RuntimePanic w).

(** The API never answers with a panic of the client's own process. *)
Definition saneReply : forall X, KubeCall X -> X -> Prop := fun X c =>
  match c in KubeCall X return X -> Prop with
  | RandString _ | Now | RecordEvent _ _ => fun _ => True
  | Get _ _ | GetLive _ _ | List _ _ | ListUnstructured _ _ _ _ | GetUnstructured _ _ _ _ | Create _ _ | Update _ _ | UpdateStatus _ _ | Patch _ _ _ | PatchStatus _ _ _
  | Delete _ _ => noPanic
  end.

Definition panicFree {A} (p : kube (result A)) : Prop :=
  wp (C := KubeCall) (fun _ _ => True) saneReply p noPanic.

Lemma panicFree_try {A B} (p : kube (result A)) (f : A -> kube (result B)) :
  panicFree p -> (forall a, panicFree (f a)) -> panicFree (x <-? p ;; f x).
Proof.
  intros Hp Hf. apply wp_try. eapply wp_mono; [|exact Hp]. intros [e|a] Hr; [|apply Hf].
  intros w [= ->]. by apply (Hr w).
Qed.

Lemma panicFree_ok {A} (a : A) : panicFree (Ret (inr a)).
Proof. done. Qed.

Lemma panicFree_bind {A B} (p : kube A) (f : A -> kube (result B)) :
  wp (C := KubeCall) (fun _ _ => True) saneReply p (fun a => panicFree (f a)) -> panicFree (x <- p ;; f x).
Proof. apply wp_bind. Qed.

Ltac panic_step :=
  match goal with
  | |- panicFree (try_bind _ _) => apply panicFree_try; [|intros ?]
  | |- panicFree (Ret (inr _)) => apply panicFree_ok
  | |- panicFree (Ret (inl _)) => intros ? [=]
  | |- panicFree (call _) => split; [done|intros ? ?; assumption]
  | |- panicFree (prog_bind_ _ (call _)) => apply panicFree_bind, wp_call; [done|intros ? ?]
  | |- panicFree (match ?x with _ => _ end) => destruct x eqn:?
  | |- panicFree _ => solve [eauto with krm]
  end.
Ltac panic_tac := repeat (cbv beta zeta; panic_step).

Lemma available_panicFree n : panicFree (isNodePoolAvailableForAssignment n).
Proof. unfold isNodePoolAvailableForAssignment, IsNodePoolAvailableForScheduling, GetNodePoolPhase, GetNodePoolFields. panic_tac. Qed.

Lemma tryNext_panicFree req prev params ix :
  req <> [] -> -1 <= prev -> Forall (fun i => (1 <= i)%nat) ix -> panicFree (tryNextNodePools req prev params ix).
Proof.
  intros Hne Hprev. pose proof available_panicFree. induction 1 as [|i ix Hi _ IH]; simpl; [panic_tac|].
  destruct (sliceAt_rem req (prev + Z.of_nat i)) as (x & -> & _); [done|lia|]. panic_tac.
Qed.

Lemma params_panicFree mark c a req : req <> [] -> panicFree (GetNodePoolAssignmentParams mark c a req).
Proof.
  intros Hne. unfold GetNodePoolAssignmentParams, calculateNodePoolAssignmentParams.
  destruct (getInitial_spec mark c a req Hne) as (p & -> & _).
  pose proof available_panicFree. panic_tac. apply tryNext_panicFree; [done| |].
  - apply IndexOfItemInList_bounds.
  - apply Forall_forall. intros i Hi%elem_of_seq. lia.
Qed.

Lemma external_panicFree ns : panicFree (IsExternalNamespace cfg ns).
Proof. unfold IsExternalNamespace. panic_tac. Qed.

Lemma eligible_panicFree pg : panicFree (isEligibleForNodePoolAssignment cfg pg).
Proof.
  unfold isEligibleForNodePoolAssignment, isNodePoolAvailableForSchedulingPodGroup,
    IsNodePoolAvailableForScheduling, GetNodePoolPhase, GetNodePoolFields. panic_tac.
Qed.

Lemma queue_panicFree pg pool :
  (forall k op vs, noPanic (NewRequirement k op vs)) ->
  panicFree (calculatePodGroupQueueNameOfNodePool cfg pg pool).
Proof.
  intros Hreq.
  assert (forall project, panicFree (GetQueueNameOfNodePool cfg project pool)) as Hq.
  { intros project. unfold GetQueueNameOfNodePool, getExistingQueueByLabels, listQueuesWithLabelSelectors.
    apply panicFree_try; [|intros; panic_tac].
    destruct (createRequirementsForQueuesList cfg project pool) as [e|reqs] eqn:He; [|panic_tac].
    unfold createRequirementsForQueuesList, mbind, result_bind in He.
    intros w [= ->]. destruct ((project ==? "") || (pool ==? "")); [done|].
    destruct (NewRequirement (ProjectLabelKey cfg) _ _) eqn:H1; simplify_eq; [by apply (Hreq _ _ _ w) in H1|].
    case_bool_decide; destruct (NewRequirement (NodePoolLabelKey cfg) _ _) eqn:H2; simplify_eq;
      by apply (Hreq _ _ _ w) in H2. }
  unfold calculatePodGroupQueueNameOfNodePool, GetProjectNameOfNamespace. panic_tac.
  apply panicFree_bind, wp_bind, wp_call; [done|]. intros [e|o] _; [intros ? [=]|].
  destruct (Labels (nsMeta o) !! _); [apply Hq|intros ? [=]].
Qed.

Lemma update_panicFree pg q params : panicFree (updatePodGroupWithAssignment cfg pg q params).
Proof.
  unfold updatePodGroupWithAssignment, removeUnschedulableOnNodePoolSchedulingConditionFromStatus,
    desiredNetworkTopology, GetNodePoolPreferredNetworkTopologyName, GetNetworkTopologyLowestLevel. panic_tac.
Qed.

(** The lists of the cache are not empty. *)
Definition cacheOk (cache : nodePoolListCache) : Prop := map_Forall (fun _ pools => pools <> []) cache.

Lemma wp_getRequested cache pg pods :
  cacheOk cache ->
  wp (C := KubeCall) (fun _ _ => True) saneReply (getRequestedNodePoolsForPodGroup cfg cache pg pods)
    (fun cr => cacheOk cr.1 /\ noPanic cr.2 /\ forall pools, cr.2 = inr pools -> pools <> []).
Proof.
  intros Hc. unfold getRequestedNodePoolsForPodGroup.
  destruct (cache !! UID (pgMeta pg)) as [pools|] eqn:Hl.
  { split_and!; [done|by intros ? [=]|]. intros ? [= <-]. by eapply Hc. }
  apply wp_bind. apply (wp_mono _ _ _ (fun r => noPanic r /\ forall pools, r = inr pools -> pools <> [])).
  { intros [e|pools] [Hp Hne]; simpl.
    - split_and!; [done|intros w [= ->]; by apply (Hp w)|done].
    - split_and!; [apply map_Forall_insert_2; [by apply Hne|done]|done|].
      intros ? [= <-]. by apply Hne. }
  unfold GetRequestedNodePoolsForPodGroup. destruct (getPodFromPodGroup _ pods) as [e|pod] eqn:Hpod.
  { destruct pods; simplify_eq/=. split; by intros ? [=]. }
  apply wp_conj.
  - unfold GetRequestedNodePools, convertNodeAffinityToNodePoolNames, GetAllNodePools.
    repeat case_match; simplify_eq; try (by intros ? [=]); cbn; split; try done;
      intros [e|[|np nps]] Hr; cbn; try (by intros ? [=]); repeat (case_match; simpl); by intros ? [=].
  - apply exec_wp. intros tr a Hex _ pools ->. by eapply GetRequestedNodePools_nonempty.
Qed.

(** A reconcile of a pod group never panics: the lists it indexes and takes
    remainders by are never empty, an invariant of the cache that every
    reconcile and every clearing of the cache preserves. *)
Theorem Run_never_panics cache pg tr cache' r :
  (forall k op vs, noPanic (NewRequirement k op vs)) ->
  cacheOk cache -> exec (Run cfg cache pg) tr (cache', r) ->
  Forall (fun e => saneReply _ (ev_call e) (ev_reply e)) tr ->
  cacheOk cache' /\ cacheOk (clearNodePoolListCache cache') /\ noPanic r.
Proof.
  intros Hreq Hc Hex Hsane.
  pose (Q := fun cr : nodePoolListCache * result unit => cacheOk cr.1 /\ noPanic cr.2).
  assert (wp (C := KubeCall) (fun _ _ => True) saneReply (Run cfg cache pg) Q) as Hwp.
  { assert (forall A (p : kube (result A)) f, panicFree p ->
      (forall a, wp (C := KubeCall) (fun _ _ => True) saneReply (f a) Q) ->
      wp (C := KubeCall) (fun _ _ => True) saneReply (keepCache cache p f) Q) as Hkeep.
    { intros A p f Hp Hf. apply wp_bind. eapply wp_mono; [|exact Hp]. intros [e|a] Hr; [|apply Hf].
      split; [done|]. intros w [= ->]. by apply (Hr w). }
    unfold Run. apply Hkeep; [apply external_panicFree|]. intros []; [split; by intros|].
    apply Hkeep; [apply eligible_panicFree|]. intros [[] c]; [|split; by intros].
    apply Hkeep; [unfold getPodGroupPods; panic_tac|]. intros [|pod pods]; [split; by intros|].
    destruct (isEligibleForAssignmentByPods (pod :: pods)); [|split; by intros]. simpl.
    unfold handleNodePoolAssignment. apply wp_bind. eapply wp_mono; [|by apply wp_getRequested].
    intros [c' [e|req]] (Hc' & Hp & Hne); simpl in *.
    { split; [done|]. intros w [= ->]. by apply (Hp w). }
    apply wp_bind. apply (wp_mono _ _ _ noPanic); [by split|].
    apply panicFree_try; [apply params_panicFree; by apply Hne|]. intros params.
    unfold assignToNodePool. apply panicFree_try; [by apply queue_panicFree|]. intros q. apply update_panicFree. }
  destruct (wp_exec _ _ _ _ _ _ Hwp Hex Hsane) as [_ [? ?]]. split_and!; try done.
Qed.

(** ** Idempotence *)

Lemma currentAssignment_mutate pg next :
  NodePoolName (fParams next) <> "" ->
  currentAssignment cfg (mutatePodGroupObjForAssignment cfg pg next)
    (RemoveUnschedulableOnNodePoolSchedulingCondition (fParams next)) = next.
Proof.
  intros Hne. unfold currentAssignment. rewrite mutate_source.
  destruct next as [q [n m b rm] tc src]; simpl in *. repeat f_equal.
  unfold GetNodePoolNameFromLabels, UpdateLabelsWithNodePoolAssignment.
  case_bool_decide; [by rewrite lookup_delete_eq|]. rewrite lookup_insert_eq. by rewrite bool_decide_false.
Qed.

(** A fixed cluster: what node pool and topology reads answer. *)
Section FixedCluster.
Context (getNP : string -> result NodePool) (getTopology : string -> result Topology).

Definition readsCluster : forall X, KubeCall X -> X -> Prop := fun X c =>
  match c in KubeCall X return X -> Prop with
  | Get K key =>
      match K return result (obj K) -> Prop with
      | KNodePool => fun reply => reply = getNP key.2
      | KTopology => fun reply => reply = getTopology key.2
      | _ => fun _ => True
      end
  | _ => fun _ => True
  end.

(** The topology the assigner wants, as a function of the cluster. *)
Definition wantedTopology (pg : PodGroup) (pool : string) : result (TopologyConstraint * bool) :=
  if userOwnsTopology pg then inr (pgTopologyConstraint pg, false) else
  match getNP pool with
  | inl e => inl e
  | inr np =>
      if PreferredNetworkTopologyName np !=? "" then
        match getTopology (PreferredNetworkTopologyName np) with
        | inl e => inl e
        | inr t =>
            match last (Levels t) with
            | None => inl (Errorf "topology <%s> has no levels" [PreferredNetworkTopologyName np])
            | Some level => inr ({| tcTopology := PreferredNetworkTopologyName np;
                                    PreferredTopologyLevel := level; RequiredTopologyLevel := "" |}, true)
            end
        end
      else if isSystemSourced pg then inr (emptyTopologyConstraint, false)
      else inr (pgTopologyConstraint pg, false)
  end.

Lemma exec_desired pg pool tr r :
  exec (desiredNetworkTopology pg pool) tr r ->
  Forall (fun e => readsCluster _ (ev_call e) (ev_reply e)) tr ->
  r = wantedTopology pg pool /\ writes tr = [].
Proof.
  unfold desiredNetworkTopology, wantedTopology. fold (userOwnsTopology pg).
  destruct (userOwnsTopology pg); [by intros [-> ->]|].
  intros (reply & tr' & -> & H) [Hr Hall]%Forall_cons. simpl in Hr. subst reply.
  destruct (getNP pool) as [e|np]; simpl in H; [by destruct H as [-> ->]|].
  case_bool_decide; simpl in *; [by destruct (isSystemSourced pg), H as [-> ->]|].
  destruct H as (reply & tr'' & -> & H). apply Forall_cons in Hall as [Hr Hall]. simpl in Hr. subst reply.
  destruct (getTopology _) as [e|t]; simpl in H; [by destruct H as [-> ->]|].
  by destruct (last (Levels t)), H as [-> ->].
Qed.

Lemma wantedTopology_stable pg pool next :
  wantedTopology pg pool = inr (NetworkTopologyConstraint next, NetworkTopologySystemSourced next) ->
  wantedTopology (mutatePodGroupObjForAssignment cfg pg next) pool =
  inr (NetworkTopologyConstraint next, NetworkTopologySystemSourced next).
Proof.
  unfold wantedTopology, userOwnsTopology. rewrite mutate_source, mutate_topology.
  destruct (isSystemSourced pg) eqn:Hs; rewrite ?andb_false_r, ?andb_true_r.
  - destruct (getNP pool) as [e|np]; [done|]. case_bool_decide; simpl.
    + intros [= <- <-]. done.
    + destruct (getTopology _) as [e|t]; [done|]. destruct (last _); [|done].
      intros [= <- <-]. by rewrite andb_false_r.
  - destruct (isTopologyConstraintEmpty (pgTopologyConstraint pg)) eqn:He; simpl.
    + destruct (getNP pool) as [e|np]; [done|]. case_bool_decide; simpl.
      * intros [= <- <-]. by rewrite He.
      * destruct (getTopology _) as [e|t]; [done|]. destruct (last _); [|done].
        intros [= <- <-]. by rewrite andb_false_r.
    + intros [= <- <-]. by rewrite He.
Qed.

(** The pod group a call patches. *)
Definition patchedPodGroup (e : event KubeCall) : option PodGroup :=
  match ev_call e with Patch KPodGroup _ new => Some new | _ => None end.

(** Two versions of a pod group with the same metadata and specification, up to
    what the API server changes. *)
Definition sameAssignment (pg pg' : PodGroup) : Prop :=
  Labels (pgMeta pg) = Labels (pgMeta pg') /\ Annotations (pgMeta pg) = Annotations (pgMeta pg')
  /\ pgMarkUnschedulable pg = pgMarkUnschedulable pg' /\ pgSchedulingBackoff pg = pgSchedulingBackoff pg'
  /\ pgQueue pg = pgQueue pg' /\ pgTopologyConstraint pg = pgTopologyConstraint pg'.

Lemma sameAssignment_current pg pg' b :
  sameAssignment pg pg' -> currentAssignment cfg pg b = currentAssignment cfg pg' b.
Proof. intros (Hl & Ha & Hm & Hb & Hq & Ht). unfold currentAssignment, isSystemSourced. by rewrite Hl, Ha, Hm, Hb, Hq, Ht. Qed.

Lemma sameAssignment_wanted pg pg' pool : sameAssignment pg pg' -> wantedTopology pg pool = wantedTopology pg' pool.
Proof. intros (Hl & Ha & Hm & Hb & Hq & Ht). unfold wantedTopology, userOwnsTopology, isSystemSourced. by rewrite Ha, Ht. Qed.

(** A status patch changes the status only. *)
Definition statusPatchKeeps : forall X, KubeCall X -> X -> Prop := fun X c =>
  match c in KubeCall X return X -> Prop with
  | PatchStatus K _ m =>
      match K return obj K -> result (obj K) -> Prop with
      | KPodGroup => fun m reply => match reply with inr pg => sameAssignment pg m | inl _ => True end
      | _ => fun _ _ => True
      end m
  | _ => fun _ => True
  end.

(** The pod group without the condition of the scheduler. *)
Definition conditionRemoved (pg : PodGroup) : PodGroup :=
  {| pgMeta := pgMeta pg; pgMarkUnschedulable := pgMarkUnschedulable pg; pgSchedulingBackoff := pgSchedulingBackoff pg;
     pgQueue := pgQueue pg; pgTopologyConstraint := pgTopologyConstraint pg;
     pgSchedulingConditions := filter (fun c => scType c <> UnschedulableOnNodePool) (pgSchedulingConditions pg) |}.

(** What remains of an assignment after the status of the pod group is written. *)
Definition assignRest (params : NodePoolAssignmentParams) (q : string) (podGroup : PodGroup) : kube (result unit) :=
  desired <-? desiredNetworkTopology podGroup (NodePoolName params) ;;
  let next := {| fQueue := q; fParams := params; NetworkTopologyConstraint := desired.1;
                 NetworkTopologySystemSourced := desired.2 |} in
  if currentAssignment cfg podGroup (RemoveUnschedulableOnNodePoolSchedulingCondition params) ==? next then Ret (inr tt)
  else _ <-? call (Patch KPodGroup podGroup (mutatePodGroupObjForAssignment cfg podGroup next)) ;; Ret (inr tt).

(** An assignment writes the status, when it has to, and does the rest on the
    pod group the server answers. *)
Lemma exec_updatePodGroupWithAssignment pg q params tr r :
  exec (updatePodGroupWithAssignment cfg pg q params) tr r ->
  if RemoveUnschedulableOnNodePoolSchedulingCondition params
  then exists (reply : result (obj KPodGroup)) tr', tr = Event (PatchStatus KPodGroup pg (conditionRemoved pg)) reply :: tr'
       /\ match reply with
          | inl e => tr' = [] /\ r = inl e
          | inr pg' => exec (assignRest params q pg') tr' r
          end
  else exec (assignRest params q pg) tr r.
Proof.
  unfold updatePodGroupWithAssignment. destruct (RemoveUnschedulableOnNodePoolSchedulingCondition params) eqn:Hrm.
  - intros (reply & tr' & -> & H). exists reply, tr'. split; [done|]. destruct reply as [e|pg']; [exact H|].
    cbn [try_bind prog_bind_ call] in H. unfold assignRest. rewrite Hrm. exact H.
  - cbn [try_bind prog_bind_]. unfold assignRest. by rewrite Hrm.
Qed.

(** What the rest patches is the assignment on top of the pod group. *)
Lemma assignRest_patched params q pg tr orig new reply :
  exec (assignRest params q pg) tr (inr tt) ->
  Forall (fun e => readsCluster _ (ev_call e) (ev_reply e)) tr ->
  last tr = Some (Event (Patch KPodGroup orig new) reply) ->
  exists tc src, wantedTopology pg (NodePoolName params) = inr (tc, src)
    /\ new = mutatePodGroupObjForAssignment cfg pg
         {| fQueue := q; fParams := params; NetworkTopologyConstraint := tc; NetworkTopologySystemSourced := src |}.
Proof.
  intros (tr1 & tr2 & d & -> & Hd & Hex)%exec_bind_inv [Hall1 Hall2]%Forall_app Hlast.
  destruct (exec_desired _ _ _ _ Hd Hall1) as [-> Hw1].
  destruct (wantedTopology pg (NodePoolName params)) as [e|[tc src]] eqn:Hwant; [by destruct Hex|].
  exists tc, src. split; [done|]. simpl in Hex. case_bool_decide.
  - destruct Hex as [-> _]. rewrite app_nil_r in Hlast. apply last_Some_elem_of in Hlast.
    exfalso. assert (Event (Patch KPodGroup orig new) reply ∈ writes tr1) as Hin by (by apply list_elem_of_filter).
    rewrite Hw1 in Hin. by apply elem_of_nil in Hin.
  - destruct Hex as (rep & tr'' & -> & Hex). destruct rep as [e|pg']; destruct Hex as [-> ?]; [done|].
    rewrite last_snoc in Hlast. apply (f_equal (fmap patchedPodGroup)) in Hlast. by simplify_eq/=.
Qed.

(** On a pod group that has the assignment the rest writes nothing. *)
Lemma assignRest_settled params q pg again tc src tr r :
  NodePoolName params <> "" ->
  wantedTopology pg (NodePoolName params) = inr (tc, src) ->
  sameAssignment again (mutatePodGroupObjForAssignment cfg pg
    {| fQueue := q; fParams := params; NetworkTopologyConstraint := tc; NetworkTopologySystemSourced := src |}) ->
  exec (assignRest params q again) tr r ->
  Forall (fun e => readsCluster _ (ev_call e) (ev_reply e)) tr ->
  writes tr = [] /\ r = inr tt.
Proof.
  intros Hne Hwant Hsame (tr1 & tr2 & d & -> & Hd & Hex)%exec_bind_inv [Hall1 _]%Forall_app.
  destruct (exec_desired _ _ _ _ Hd Hall1) as [-> Hw]. rewrite (sameAssignment_wanted _ _ _ Hsame) in Hex.
  rewrite (wantedTopology_stable pg _ {| fQueue := q; fParams := params; NetworkTopologyConstraint := tc;
    NetworkTopologySystemSourced := src |} Hwant) in Hex. simpl in Hex.
  rewrite (sameAssignment_current _ _ _ Hsame) in Hex.
  rewrite bool_decide_true in Hex by (by apply (currentAssignment_mutate pg {| fQueue := q; fParams := params;
    NetworkTopologyConstraint := tc; NetworkTopologySystemSourced := src |})).
  destruct Hex as [-> ->]. by rewrite app_nil_r.
Qed.

(** C17: Assigning is idempotent: on a cluster whose node pools and topologies did
    not change, apply the assignment to a named node pool that has patched a pod
    group once more, to the pod group that was stored.  Then the pod group is not
    patched again.  An assignment that does not remove the condition of the
    scheduler issues no write at all and succeeds; one that does writes the
    status without the condition, as it does each time, and fails only when that
    write fails. *)
Theorem assignment_idempotent pg q params tr orig new reply again tr' r' :
  NodePoolName params <> "" ->
  exec (updatePodGroupWithAssignment cfg pg q params) tr (inr tt) ->
  Forall (fun e => readsCluster _ (ev_call e) (ev_reply e)) tr ->
  last tr = Some (Event (Patch KPodGroup orig new) reply) ->
  sameAssignment again new ->
  exec (updatePodGroupWithAssignment cfg again q params) tr' r' ->
  Forall (fun e => readsCluster _ (ev_call e) (ev_reply e)) tr' ->
  Forall (fun e => statusPatchKeeps _ (ev_call e) (ev_reply e)) tr' ->
  if RemoveUnschedulableOnNodePoolSchedulingCondition params
  then exists answer : result PodGroup,
    writes tr' = [Event (PatchStatus KPodGroup again (conditionRemoved again)) answer]
    /\ r' = match answer with inl e => inl e | inr _ => inr tt end
  else writes tr' = [] /\ r' = inr tt.
Proof.
  intros Hne Hex Hall Hlast Hsame Hex' Hall' Hkeeps.
  assert (exists pg1 tc src, wantedTopology pg1 (NodePoolName params) = inr (tc, src)
    /\ new = mutatePodGroupObjForAssignment cfg pg1 {| fQueue := q; fParams := params; NetworkTopologyConstraint := tc;
               NetworkTopologySystemSourced := src |}) as (pg1 & tc & src & Hwant & ->).
  { apply exec_updatePodGroupWithAssignment in Hex. destruct (RemoveUnschedulableOnNodePoolSchedulingCondition params).
    - destruct Hex as ([e|pg1] & tr1 & -> & Hex); [by destruct Hex|]. apply Forall_cons in Hall as [_ Hall].
      destruct tr1 as [|ev tr1]; [simpl in Hlast; injection Hlast; discriminate|].
      exists pg1. rewrite last_cons_cons in Hlast. by eapply assignRest_patched.
    - exists pg. by eapply assignRest_patched. }
  apply exec_updatePodGroupWithAssignment in Hex'. destruct (RemoveUnschedulableOnNodePoolSchedulingCondition params).
  - destruct Hex' as (answer & tr1 & -> & Hex'). exists answer. apply Forall_cons in Hall' as [_ Hall'].
    destruct answer as [e|pg2]; [destruct Hex' as [-> ->]; split; [|done]|].
    + unfold writes. by rewrite filter_cons_True.
    + apply Forall_cons in Hkeeps as [Hkeep _]. cbn in Hkeep.
      assert (sameAssignment pg2 again) as Hsame2 by exact Hkeep.
      eapply (assignRest_settled params q pg1 pg2) in Hex' as [Hw ->]; [|done|exact Hwant| |done].
      * split; [|done]. unfold writes in *. by rewrite filter_cons_True, Hw.
      * unfold sameAssignment in *. naive_solver congruence.
  - by eapply (assignRest_settled params q pg1 again).
Qed.

End FixedCluster.

(** ** The cache of node pool lists is a memo *)

Lemma GetRequestedNodePools_relabel ids m m' src tr pools :
  exec (GetRequestedNodePools ids m src) tr (inr pools) ->
  (nodePoolsFromLabelsOrProject ids m (nsProject src) = pools ->
   nodePoolsFromLabelsOrProject ids m' (nsProject src) = pools) ->
  exec (GetRequestedNodePools ids m' src) tr (inr pools).
Proof.
  unfold GetRequestedNodePools. intros Hex Hlab.
  assert (forall tr, exec (C := KubeCall) (Ret (inr (nodePoolsFromLabelsOrProject ids m (nsProject src)))) tr (@inr error _ pools) ->
    exec (C := KubeCall) (Ret (inr (nodePoolsFromLabelsOrProject ids m' (nsProject src)))) tr (@inr error _ pools)) as Hret.
  { intros tr0 [-> [= H]]. by rewrite Hlab. }
  destruct (PodAnnotations src !! _) as [ann|]; [case_bool_decide; [|done]|];
    (destruct (HasValue _); [|by apply Hret];
     apply exec_bind_inv in Hex as (tr1 & tr2 & r & -> & H1 & H2);
     apply (exec_bind _ _ _ _ _ _ H1);
     destruct r as [e|[|x xs]]; [destruct (IgnoreConversionErrors _); [by apply Hret|done]|by apply Hret|done]).
Qed.

Lemma labels_after_assignment pg next :
  let ids := assignerIdentifiers cfg in
  NodePoolName (fParams next) ∈ nodePoolsFromLabelsOrProject ids (pgMeta pg) None ->
  nodePoolsFromLabelsOrProject ids (pgMeta (mutatePodGroupObjForAssignment cfg pg next)) None =
  nodePoolsFromLabelsOrProject ids (pgMeta pg) None.
Proof.
  destruct next as [q [n mk b rm] tc src]. unfold nodePoolsFromLabelsOrProject. simpl.
  unfold UpdateLabelsWithNodePoolAssignment.
  destruct (Labels (pgMeta pg) !! NodePoolLabelKey cfg) as [l|]; [case_bool_decide; simpl|];
    intros ->%list_elem_of_singleton; case_bool_decide; simplify_eq;
    rewrite ?lookup_delete_eq, ?lookup_insert_eq, ?bool_decide_false by done; done.
Qed.

(** Dropping an entry of the node pool list cache is safe: after an
    assignment to one of the requested pools (which rewrites the label the list
    may come from), the list recomputed from the same pods and the same API
    replies is the list that was cached. *)
Theorem cached_list_is_rebuilt pg next pods tr pools :
  exec (GetRequestedNodePoolsForPodGroup cfg (pgMeta pg) pods) tr (inr pools) ->
  NodePoolName (fParams next) ∈ pools ->
  exec (GetRequestedNodePoolsForPodGroup cfg (pgMeta (mutatePodGroupObjForAssignment cfg pg next)) pods)
    tr (inr pools).
Proof.
  unfold GetRequestedNodePoolsForPodGroup. destruct pods as [|pod pods]; [by intros [_ [=]]|].
  intros Hex Hin. eapply GetRequestedNodePools_relabel; [exact Hex|].
  intros Hp. rewrite <- Hp in Hin |- *. by apply labels_after_assignment.
Qed.

End AssignerProps.

(** ** Witnesses *)

Definition demoConfig : PodGroupAssignerConfig := {|
  NodePoolLabelKey := "kai.scheduler/node-pool"; QueueLabelKey := "kai.scheduler/queue";
  NamespaceProjectLabelKey := "project"; ProjectLabelKey := "project";
  UnexistingNodepoolSentinel := "kai-unexisting-node-pool"; DefaultNodepoolName := "default";
  AnnotationNodepoolsKey := "kai.scheduler/node-pools";
  EnforceSchedulerAnnotationKey := "enforce"; SchedulerName := "kai-scheduler";
  AllowExternalQueues := false |}.

Definition demoPod : Pod :=
  {| podMeta := named "pod"; podNodeName := ""; podSchedulerName := "kai-scheduler";
     podAffinity := Some demoAffinity; podPhase := PodPending |}.

Definition demoPodGroup : PodGroup :=
  {| pgMeta := meta_with_labels (fun _ =>
       {["kai.scheduler/node-pool" := "kai-unexisting-node-pool"; "project" := "prj"]}) (named "pg");
     pgMarkUnschedulable := Some false; pgSchedulingBackoff := Some 1; pgQueue := "";
     pgTopologyConstraint := emptyTopologyConstraint; pgSchedulingConditions := [] |}.

Definition demoQueue : Queue :=
  {| qMeta := meta_with_labels (fun _ => {["kai.scheduler/node-pool" := "b"; "project" := "prj"]}) (named "prj-b");
     qSpec := {| DisplayName := ""; ParentQueue := ""; qResources := None; qPriority := None |};
     qStatus := emptyQueueStatus |}.

(** Pool "a" is being deleted, pool "b" is ready. *)
Definition demoStore : store :=
  store_add (K := KNodePool) (demoPool "a" NodePoolDeleting)
  (store_add (K := KNodePool) (demoPool "b" NodePoolReady)
  (store_add (K := KPod) demoPod
  (store_add (K := KQueue) demoQueue
  (store_add (K := KPodGroup) demoPodGroup emptyStore)))).

Definition demoRun {A} (p : kube A) : list (event KubeCall) := run_trace memServer p demoStore.

Lemma demoExec {A} (p : kube A) : exec p (demoRun p) (run memServer p demoStore).1.
Proof. apply run_exec. Qed.

(** Which demo pools are available. *)
Definition demoAvail (n : string) : bool := n ==? "b".

Definition demoAssignment := GetNodePoolAssignmentParams (Some false) None "a" ["a"; "b"].

Ltac forall_concrete := vm_compute; repeat (apply Forall_cons; split); try apply Forall_nil; try done; eauto.

Lemma GetNodePoolAssignmentParams_first_available_witness :
  firstAvailable demoAvail (Some false) ["a"; "b"] "a" (run memServer demoAssignment demoStore).1.
Proof.
  apply (GetNodePoolAssignmentParams_first_available demoAvail (Some false) None "a" ["a"; "b"] "a" (demoRun demoAssignment)).
  - discriminate.
  - reflexivity.
  - apply demoExec.
  - forall_concrete.
Defined.

Lemma GetNodePoolAssignmentParams_complete_witness :
  writes (demoRun demoAssignment) = [] /\
  ((exists p, (run memServer demoAssignment demoStore).1 = inr p /\ NodePoolName p ∈ ["a"; "b"] /\
      demoAvail (NodePoolName p) = true) <-> exists x, x ∈ ["a"; "b"] /\ demoAvail x = true).
Proof.
  apply (GetNodePoolAssignmentParams_complete demoAvail (Some false) None "a" ["a"; "b"]).
  - discriminate.
  - apply demoExec.
  - forall_concrete.
Defined.

Lemma round_robin_witness :
  (forall k, ["a"; "b"; "c"] !! ((1 + k) `mod` 3)%nat = Some (Nat.iter k (nextPool ["a"; "b"; "c"]) "b")) /\
  (forall x, x ∈ ["a"; "b"; "c"] -> exists k, (k < 3)%nat /\ Nat.iter k (nextPool ["a"; "b"; "c"]) "b" = x).
Proof. apply (round_robin ["a"; "b"; "c"] "b" 1); [apply (bool_decide_unpack _); vm_compute; exact I|reflexivity]. Defined.

Lemma initial_params_backoff_and_mark_witness :
  (-1 = NoSchedulingBackoff <-> len ["a"] = 1) /\ (len ["a"] = 1 -> true = true) /\ (None = Some true -> true = true).
Proof.
  apply (initial_params_backoff_and_mark None None "" ["a"]
    {| NodePoolName := "a"; MarkUnschedulable := true; SchedulingBackoff := -1;
       RemoveUnschedulableOnNodePoolSchedulingCondition := false |}). reflexivity.
Defined.

Definition demoReconcile := Run demoConfig ∅ demoPodGroup.

Lemma Run_keeps_user_topology_witness :
  Forall (fun e => patch_keeps_user_topology _ (ev_call e)) (demoRun demoReconcile).
Proof. apply (Run_keeps_user_topology demoConfig ∅ demoPodGroup _ (run memServer demoReconcile demoStore).1), demoExec. Defined.

Lemma Run_writes_only_eligible_witness :
  GetSchedulingBackoffValue (pgSchedulingBackoff demoPodGroup) <> NoSchedulingBackoff.
Proof.
  apply (Run_writes_only_eligible demoConfig ∅ demoPodGroup (demoRun demoReconcile)
           (run memServer demoReconcile demoStore).1).
  - apply demoExec.
  - vm_compute. discriminate.
Defined.

Lemma Run_never_panics_witness :
  cacheOk {["" := ["b"]]} /\ cacheOk (clearNodePoolListCache {["" := ["b"]]}) /\ noPanic (inr ()).
Proof.
  apply (Run_never_panics demoConfig ∅ demoPodGroup (demoRun demoReconcile)).
  - intros k op vs w. discriminate.
  - apply map_Forall_empty.
  - apply (demoExec demoReconcile).
  - forall_concrete.
Defined.

(** The cluster of [demoStore] as functions. *)
Definition demoGetNP (n : string) : result NodePool :=
  match demoStore KNodePool !! ("", n) with Some np => inr np | None => notFound end.
Definition demoGetTopology (n : string) : result Topology := notFound.

Definition demoParams : NodePoolAssignmentParams :=
  {| NodePoolName := "b"; MarkUnschedulable := false; SchedulingBackoff := 1;
     RemoveUnschedulableOnNodePoolSchedulingCondition := false |}.

Definition demoUpdate (pg : PodGroup) := updatePodGroupWithAssignment demoConfig pg "prj-b" demoParams.

Definition demoNext : FullNodePoolAssignmentParams :=
  {| fQueue := "prj-b"; fParams := demoParams; NetworkTopologyConstraint := emptyTopologyConstraint;
     NetworkTopologySystemSourced := false |}.

Definition demoAssigned : PodGroup := mutatePodGroupObjForAssignment demoConfig demoPodGroup demoNext.

(** The assignment after the scheduler gave up on another node pool. *)
Definition demoMoveParams : NodePoolAssignmentParams :=
  {| NodePoolName := "b"; MarkUnschedulable := false; SchedulingBackoff := 1;
     RemoveUnschedulableOnNodePoolSchedulingCondition := true |}.
Definition demoMove (pg : PodGroup) := updatePodGroupWithAssignment demoConfig pg "prj-b" demoMoveParams.

Lemma assignment_idempotent_witness :
  (writes (demoRun (demoUpdate demoAssigned)) = [] /\ (run memServer (demoUpdate demoAssigned) demoStore).1 = inr tt)
  /\ exists answer : result PodGroup,
    writes (demoRun (demoMove demoAssigned)) = [Event (PatchStatus KPodGroup demoAssigned (conditionRemoved demoAssigned)) answer]
    /\ (run memServer (demoMove demoAssigned) demoStore).1 = match answer with inl e => inl e | inr _ => inr tt end.
Proof.
  assert (sameAssignment demoAssigned demoAssigned) as Hsame by (by repeat split).
  split.
  - apply (assignment_idempotent demoConfig demoGetNP demoGetTopology demoPodGroup "prj-b" demoParams
      (demoRun (demoUpdate demoPodGroup)) demoPodGroup demoAssigned (inr demoAssigned) demoAssigned).
    + discriminate.
    + apply (demoExec (demoUpdate demoPodGroup)).
    + forall_concrete.
    + vm_compute. reflexivity.
    + exact Hsame.
    + apply (demoExec (demoUpdate demoAssigned)).
    + forall_concrete.
    + forall_concrete.
  - apply (assignment_idempotent demoConfig demoGetNP demoGetTopology demoPodGroup "prj-b" demoMoveParams
      (demoRun (demoMove demoPodGroup)) demoPodGroup demoAssigned (inr demoAssigned) demoAssigned).
    + discriminate.
    + apply (demoExec (demoMove demoPodGroup)).
    + forall_concrete.
    + vm_compute. reflexivity.
    + exact Hsame.
    + apply (demoExec (demoMove demoAssigned)).
    + forall_concrete.
    + forall_concrete.
Defined.

Lemma cached_list_is_rebuilt_witness :
  exec (GetRequestedNodePoolsForPodGroup demoConfig (pgMeta demoAssigned) [demoPod])
    (demoRun (GetRequestedNodePoolsForPodGroup demoConfig (pgMeta demoPodGroup) [demoPod])) (inr ["b"]).
Proof.
  apply cached_list_is_rebuilt.
  - apply (demoExec (GetRequestedNodePoolsForPodGroup demoConfig (pgMeta demoPodGroup) [demoPod])).
  - apply (bool_decide_unpack _). vm_compute. exact I.
Defined.
