(* ===== verification/Mutators.v ===== *)
(** * The mutating admission webhooks

    [pkg/pod-group-assigner/mutators]: the pod mutator (scheduler enforcement,
    project label, default node pools as required node affinity) and the pod
    group mutator.  JSON decoding of the request is a value of [result]: an
    error or the decoded object; encoding the mutated object is total. *)

From stdpp Require Import base list gmap strings.
From S2P Require Import Prelude ApiTypes NodePoolUtils Assigner.

(** ** Admission responses *)

Inductive Response (A : Type) :=
| Allowed (message : string)
| Errored (code : Z) (err : error)
| PatchResponse (o : A).
Arguments Allowed {A} _.
Arguments Errored {A} _ _.
Arguments PatchResponse {A} _.

Definition StatusInternalServerError : Z := 500.

(** ** Node affinity ([mutators/pod/affinity.go]) *)

(** One term of the updated selector: the expressions on the added key are
    replaced. *)
Definition addExpressionToTerm (matchExpressionToAdd : NodeSelectorRequirement) (term : NodeSelectorTerm)
    : NodeSelectorTerm :=
  {| MatchExpressions :=
       filter (fun expr => nsrKey expr <> nsrKey matchExpressionToAdd) (MatchExpressions term)
       ++ [matchExpressionToAdd];
     MatchFields := MatchFields term |}.

(** The terms of the selector after the call. *)
Definition addToTerms (terms : list NodeSelectorTerm) (matchExpressionsToAdd : list NodeSelectorRequirement)
    : list NodeSelectorTerm :=
  match terms with
  | [] => (fun m => {| MatchExpressions := [m]; MatchFields := [] |}) <$> matchExpressionsToAdd
  | _ =>
      let updatedTerms := matchExpressionsToAdd ≫= (fun m => addExpressionToTerm m <$> terms) in
      match updatedTerms with [] => terms | _ => updatedTerms end
  end.

Definition AddNodeAffinityToPodSpec (affinity : option Affinity)
    (matchExpressionsToAdd : list NodeSelectorRequirement) : Affinity :=
  let a := default {| AffinityNodeAffinity := None; AffinityPodAffinity := "" |} affinity in
  let na := default {| RequiredDuringSchedulingIgnoredDuringExecution := None;
                       PreferredDuringSchedulingIgnoredDuringExecution := "" |} (AffinityNodeAffinity a) in
  let selector := default {| NodeSelectorTerms := [] |} (RequiredDuringSchedulingIgnoredDuringExecution na) in
  {| AffinityNodeAffinity := Some
       {| RequiredDuringSchedulingIgnoredDuringExecution :=
            Some {| NodeSelectorTerms := addToTerms (NodeSelectorTerms selector) matchExpressionsToAdd |};
          PreferredDuringSchedulingIgnoredDuringExecution :=
            PreferredDuringSchedulingIgnoredDuringExecution na |};
     AffinityPodAffinity := AffinityPodAffinity a |}.

(** Go's [strconv.ParseBool]; [None] is the error. *)
Definition ParseBool (s : string) : option bool :=
  if bool_decide (s ∈ ["1"; "t"; "T"; "true"; "TRUE"; "True"]) then Some true
  else if bool_decide (s ∈ ["0"; "f"; "F"; "false"; "FALSE"; "False"]) then Some false
  else None.

Definition pod_with_meta (f : ObjectMeta -> ObjectMeta) (pod : Pod) : Pod :=
  {| podMeta := f (podMeta pod); podNodeName := podNodeName pod; podSchedulerName := podSchedulerName pod;
     podAffinity := podAffinity pod; podPhase := podPhase pod |}.

Definition pod_with_affinity (a : Affinity) (pod : Pod) : Pod :=
  {| podMeta := podMeta pod; podNodeName := podNodeName pod; podSchedulerName := podSchedulerName pod;
     podAffinity := Some a; podPhase := podPhase pod |}.

(** ** The pod mutator *)

Section PodMutator.
(** [podProjectLabelKey] is the constant [ProjectLabelKey] of the pod grouper's API. *)
Context (cfg : PodGroupAssignerConfig) (podProjectLabelKey : string).

Definition isSchedulerEnforcedForNamespace (namespaceName : string) : kube (result bool) :=
  r <- call (Get KNamespace ("", namespaceName)) ;;
  match r with
  | inl err => Ret (inl (Textf "failed to get namespace <%s>, error: %s" [namespaceName] err))
  | inr namespace =>
      match Annotations (nsMeta namespace) !! EnforceSchedulerAnnotationKey cfg with
      | None => Ret (inr false)
      | Some enforce => Ret (inr (default false (ParseBool enforce)))
      end
  end.

Definition mutateSchedulerName (pod : Pod) : Pod :=
  if podSchedulerName pod ==? SchedulerName cfg then pod
  else {| podMeta := podMeta pod; podNodeName := podNodeName pod; podSchedulerName := SchedulerName cfg;
          podAffinity := podAffinity pod; podPhase := podPhase pod |}.

Definition mutateProjectNameLabel (pod : Pod) (namespace : string) : kube Pod :=
  match Labels (podMeta pod) !! podProjectLabelKey with
  | Some _ => Ret pod
  | None =>
      r <- GetProjectNameOfNamespace cfg namespace ;;
      match r with
      | inl _ => Ret pod
      | inr projectName =>
          Ret (pod_with_meta (meta_with_labels <[podProjectLabelKey := projectName]>) pod)
      end
  end.

Definition createMatchExpressionForNodePool (nodePoolName : string)
    : kube (result (option NodeSelectorRequirement)) :=
  if nodePoolName ==? DefaultNodepoolName cfg then
    Ret (inr (Some {| nsrKey := NodePoolLabelKey cfg; nsrOperator := NodeSelectorOpDoesNotExist;
                      nsrValues := [] |}))
  else
    r <- GetNodePoolFields nodePoolName ;;
    match r with
    | inl err =>
        if IsNotFound err then Ret (inl (Errorf "node pool %s does not exist" [nodePoolName]))
        else Ret (inl err)
    | inr (phase, labelKey, labelValue) =>
        if phase ==? NodePoolDeleting then Ret (inr None)
        else Ret (inr (Some {| nsrKey := labelKey; nsrOperator := NodeSelectorOpIn; nsrValues := [labelValue] |}))
    end.

(** The loop of [setNodeAffinityForNodePools]. *)
Fixpoint matchExpressionsOf (nodePoolsNames : list string) : kube (result (list NodeSelectorRequirement)) :=
  match nodePoolsNames with
  | [] => Ret (inr [])
  | nodePoolName :: rest =>
      created <-? createMatchExpressionForNodePool nodePoolName ;;
      others <-? matchExpressionsOf rest ;;
      Ret (inr (match created with Some m => m :: others | None => others end))
  end.

Definition setNodeAffinityForNodePools (pod : Pod) (nodePoolsNames : list string) : kube (result Pod) :=
  matchExpressionsToAdd <-? matchExpressionsOf nodePoolsNames ;;
  Ret (inr (match matchExpressionsToAdd with
            | [] => pod
            | _ => pod_with_affinity (AddNodeAffinityToPodSpec (podAffinity pod) matchExpressionsToAdd) pod
            end)).

(** The key and value of every listed pool but the default one. *)
Definition nodePoolPairs (nodePools : list NodePool) : gset (string * string) :=
  list_to_set ((fun nodePool => (LabelKey nodePool, LabelValue nodePool)) <$>
    filter (fun nodePool => Name (npMeta nodePool) <> DefaultNodepoolName cfg) nodePools).

Definition getNodePoolsMapping : kube (result (gset (string * string))) :=
  nodePoolList <-? call (List KNodePool listAll) ;;
  Ret (inr (nodePoolPairs nodePoolList)).

Definition isMatchExpressionOfDefaultNodePool (expression : NodeSelectorRequirement) : bool :=
  (nsrOperator expression ==? NodeSelectorOpDoesNotExist) && (nsrKey expression ==? NodePoolLabelKey cfg).

Definition isMatchExpressionOfCustomNodePool (matchExpression : NodeSelectorRequirement)
    (nodePoolsMapping : gset (string * string)) : bool :=
  existsb (fun value => bool_decide ((nsrKey matchExpression, value) ∈ nodePoolsMapping))
    (nsrValues matchExpression).

Definition hasNodePoolInNodeAffinity (terms : list NodeSelectorTerm)
    (nodePoolsMapping : gset (string * string)) : bool :=
  existsb (fun term =>
    existsb (fun matchExpression =>
      if nsrOperator matchExpression !=? NodeSelectorOpIn
      then isMatchExpressionOfDefaultNodePool matchExpression
      else isMatchExpressionOfCustomNodePool matchExpression nodePoolsMapping)
      (MatchExpressions term)) terms.

Definition hasNodePoolInPodsNodeAffinity (pod : Pod) : kube (result bool) :=
  match requiredTerms (podAffinity pod) with
  | [] => Ret (inr false)
  | terms =>
      nodePoolsMapping <-? getNodePoolsMapping ;;
      Ret (inr (hasNodePoolInNodeAffinity terms nodePoolsMapping))
  end.

(** Fail-open: every error leaves the pod as it is. *)
Definition orUnchanged (pod : Pod) (p : kube (result Pod)) : kube Pod :=
  r <- p ;; match r with inl _ => Ret pod | inr pod' => Ret pod' end.

Definition mutateNodeAffinityForDefaultNodePools (pod : Pod) (namespace : string) : kube Pod :=
  orUnchanged pod (
    projectName <-? GetProjectNameOfNamespace cfg namespace ;;
    match Labels (podMeta pod) !! NodePoolLabelKey cfg with
    | Some nodePoolName => setNodeAffinityForNodePools pod [nodePoolName]
    | None =>
        project <-? call (Get KProject ("", projectName)) ;;
        match DefaultNodePools project with
        | [] => Ret (inr pod)
        | defaultNodePools =>
            hasNodePool <-? hasNodePoolInPodsNodeAffinity pod ;;
            if (hasNodePool : bool) then Ret (inr pod)
            else setNodeAffinityForNodePools pod defaultNodePools
        end
    end).

Definition notManagedPod := "pod is not managed by the resource-management package".

(** [PodMutator.Handle]. *)
Definition HandlePod (raw : result Pod) (reqNamespace : string) : kube (Response Pod) :=
  match raw with
  | inl err => Ret (Errored StatusInternalServerError (Textf "unable to unmarshal pod: %s" [] err))
  | inr pod =>
      let namespace := if reqNamespace ==? "" then Namespace (podMeta pod) else reqNamespace in
      let handle :=
        let pod := mutateSchedulerName pod in
        pod <- mutateProjectNameLabel pod namespace ;;
        pod <- mutateNodeAffinityForDefaultNodePools pod namespace ;;
        Ret (PatchResponse pod) in
      if podSchedulerName pod !=? SchedulerName cfg then
        r <- isSchedulerEnforcedForNamespace namespace ;;
        match r with
        | inl err => Ret (Errored StatusInternalServerError err)
        | inr enforced => if negb enforced then Ret (Allowed notManagedPod) else handle
        end
      else handle
  end.

(** ** The pod group mutator ([mutators/podgroup/pod_group_mutator.go]) *)

Definition mutatePodGroup (podGroup : PodGroup) : PodGroup :=
  let podGroup :=
    {| pgMeta := pgMeta podGroup; pgMarkUnschedulable := Some false;
       pgSchedulingBackoff := Some SingleSchedulingBackoff; pgQueue := pgQueue podGroup;
       pgTopologyConstraint := pgTopologyConstraint podGroup;
       pgSchedulingConditions := pgSchedulingConditions podGroup |} in
  match Labels (pgMeta podGroup) !! NodePoolLabelKey cfg with
  | Some _ => podGroup
  | None => pg_with_meta (meta_with_labels <[NodePoolLabelKey cfg := UnexistingNodepoolSentinel cfg]>) podGroup
  end.

Definition notManagedPodGroup := "pod group is not managed by the resource-management package".

(** [PodGroupMutator.Handle]. *)
Definition HandlePodGroup (raw : result PodGroup) (reqNamespace : string) : kube (Response PodGroup) :=
  match raw with
  | inl err => Ret (Errored StatusInternalServerError (Textf "unable to unmarshal podgroup: %s" [] err))
  | inr podGroup =>
      let namespace := if reqNamespace ==? "" then Namespace (pgMeta podGroup) else reqNamespace in
      r <- IsExternalNamespace cfg namespace ;;
      match r with
      | inl err => Ret (Errored StatusInternalServerError err)
      | inr true => Ret (Allowed notManagedPodGroup)
      | inr false => Ret (PatchResponse (mutatePodGroup podGroup))
      end
  end.

End PodMutator.
