(* ===== verification/MutatorFacts.v ===== *)
(** * Properties of the mutating webhooks

    What the pod mutator may change, the meaning of the node affinity it adds,
    the round trip from default node pools through the mutated affinity back to
    the requested node pools, and the state the pod group mutator leaves. *)

From stdpp Require Import base list gmap strings.
From S2P Require Import Prelude ApiTypes NodePoolUtils Assigner AssignerFacts Mutators.

(** ** The meaning of the added affinity *)

Section Affinity.
(** Which expressions and field expressions a node satisfies. *)
Context (sat satField : NodeSelectorRequirement -> bool).

(** All expressions of a term must hold; a null or empty term matches no node. *)
Definition emptyTerm (t : NodeSelectorTerm) : bool :=
  match MatchExpressions t, MatchFields t with [], [] => true | _, _ => false end.

Definition termSatisfied (t : NodeSelectorTerm) : bool :=
  negb (emptyTerm t) && forallb sat (MatchExpressions t) && forallb satField (MatchFields t).

(** The terms of a node selector are alternatives. *)
Definition selectorSatisfied (ts : list NodeSelectorTerm) : bool := existsb termSatisfied ts.

Lemma termSatisfied_spec t :
  termSatisfied t = true <->
  emptyTerm t = false /\ (forall e, e ∈ MatchExpressions t -> sat e = true) /\ (forall f, f ∈ MatchFields t -> satField f = true).
Proof.
  unfold termSatisfied. rewrite !andb_true_iff, !forallb_forall, negb_true_iff. setoid_rewrite <- list_elem_of_In. tauto.
Qed.

Lemma selectorSatisfied_spec ts :
  selectorSatisfied ts = true <-> exists t, t ∈ ts /\ termSatisfied t = true.
Proof. unfold selectorSatisfied. rewrite existsb_exists. by setoid_rewrite <- list_elem_of_In. Qed.

Lemma addExpressionToTerm_nonempty m t : emptyTerm (addExpressionToTerm m t) = false.
Proof. unfold emptyTerm, addExpressionToTerm. simpl. by destruct (filter _ _). Qed.

Lemma addExpressionToTerm_satisfied m t :
  termSatisfied (addExpressionToTerm m t) = true <->
  sat m = true /\ (forall e, e ∈ MatchExpressions t -> nsrKey e <> nsrKey m -> sat e = true) /\
  (forall f, f ∈ MatchFields t -> satField f = true).
Proof.
  rewrite termSatisfied_spec, addExpressionToTerm_nonempty. simpl. setoid_rewrite elem_of_app.
  setoid_rewrite list_elem_of_filter. setoid_rewrite list_elem_of_singleton. naive_solver.
Qed.

Lemma requiredTerms_added affinity ms :
  requiredTerms (Some (AddNodeAffinityToPodSpec affinity ms)) = addToTerms (requiredTerms affinity) ms.
Proof. destruct affinity as [[[[[?|] ?]|] ?]|]; reflexivity. Qed.

(** The nodes of the updated terms. *)
Lemma addToTerms_satisfied terms ms :
  ms <> [] ->
  selectorSatisfied (addToTerms terms ms) = true <->
  exists m, m ∈ ms /\ sat m = true /\
    (terms = [] \/
     exists t, t ∈ terms /\
       (forall e, e ∈ MatchExpressions t -> nsrKey e <> nsrKey m -> sat e = true) /\
       (forall f, f ∈ MatchFields t -> satField f = true)).
Proof.
  intros Hms. rewrite selectorSatisfied_spec. destruct terms as [|t0 ts]; cbn [addToTerms].
  - setoid_rewrite list_elem_of_fmap. split.
    + intros (t & (m & -> & Hm) & (_ & Hs & _)%termSatisfied_spec). exists m. split_and!; [done| |by left].
      apply Hs. simpl. set_solver.
    + intros (m & Hm & Hs & _). eexists. split; [by eexists|]. apply termSatisfied_spec. set_solver.
  - set (upd := ms ≫= _). assert (upd <> []) as Hupd.
    { subst upd. by destruct ms. }
    destruct upd as [|u us] eqn:Hu; [done|]. rewrite <- Hu. clear Hu u us Hupd. subst upd.
    setoid_rewrite list_elem_of_bind. split.
    + intros (t & (m & Ht & Hm) & Hs).
      apply list_elem_of_fmap in Ht as (t' & -> & Ht'). apply addExpressionToTerm_satisfied in Hs as (?&?&?).
      exists m. split_and!; [done..|]. right. eauto.
    + intros (m & Hm & Hs & [?|(t & Ht & He & Hf)]); [done|]. exists (addExpressionToTerm m t).
      split; [exists m; split; [by apply list_elem_of_fmap_2|done]|]. by apply addExpressionToTerm_satisfied.
Qed.

(** C39: The nodes of the node affinity that [AddNodeAffinityToPodSpec] builds.  A
    node is admitted exactly when it satisfies one of the added expressions and,
    unless there was no term before, all that an original term asks for apart
    from its expressions on the key of that added expression, which are replaced.
    So a node that was admitted and satisfies an added expression stays admitted;
    and when the original terms, of which there is at least one and none is empty,
    have no expression on an added key, the admitted nodes are exactly those
    that were admitted before and satisfy an added expression.  (An empty term
    admits no node; with an expression added it is not empty any more.) *)
Theorem AddNodeAffinity_meaning affinity ms :
  ms <> [] ->
  let before := requiredTerms affinity in
  let after := requiredTerms (Some (AddNodeAffinityToPodSpec affinity ms)) in
  (selectorSatisfied after = true <->
   exists m, m ∈ ms /\ sat m = true /\
     (before = [] \/
      exists t, t ∈ before /\
        (forall e, e ∈ MatchExpressions t -> nsrKey e <> nsrKey m -> sat e = true) /\
        (forall f, f ∈ MatchFields t -> satField f = true))) /\
  (selectorSatisfied before = true -> (exists m, m ∈ ms /\ sat m = true) -> selectorSatisfied after = true) /\
  (before <> [] ->
   (forall t, t ∈ before -> emptyTerm t = false /\
      forall e m, e ∈ MatchExpressions t -> m ∈ ms -> nsrKey e <> nsrKey m) ->
   selectorSatisfied after = true <-> selectorSatisfied before = true /\ exists m, m ∈ ms /\ sat m = true).
Proof.
  intros Hms before after. subst after. rewrite requiredTerms_added. fold before.
  pose proof (addToTerms_satisfied before ms Hms) as Hexact. split; [exact Hexact|].
  assert (selectorSatisfied before = true -> (exists m, m ∈ ms /\ sat m = true) -> selectorSatisfied (addToTerms before ms) = true) as Hkept.
  { intros (t & Ht & (_ & He & Hf)%termSatisfied_spec)%selectorSatisfied_spec (m & Hm & Hs). apply Hexact.
    exists m. split; [done|]. split; [done|]. right. exists t. split; [done|]. split; [|done]. intros e Hin _. by apply He. }
  split; [exact Hkept|]. intros Hne Hkeys. split; [|intros [? ?]; by apply Hkept].
  intros (m & Hm & Hs & [?|(t & Ht & He & Hf)])%Hexact; [done|]. split; [|by exists m].
  apply selectorSatisfied_spec. exists t. split; [done|]. destruct (Hkeys t Ht) as [Hfull Hk]. apply termSatisfied_spec.
  split; [done|]. split; [|done]. intros e Hin. by apply He, Hk.
Qed.

End Affinity.

(** ** Round trip: default node pools, affinity, requested node pools *)

Section RoundTrip.
Context (cfg : PodGroupAssignerConfig) (nps : list NodePool).

Notation ids := (assignerIdentifiers cfg).
Notation km := ((GetNodePoolsMap nps).1).
Notation dm := ((GetNodePoolsMap nps).2).

(** Names identify pools, and so do label key and value. *)
Definition uniquePools : Prop :=
  (forall np np', np ∈ nps -> np' ∈ nps -> Name (npMeta np) = Name (npMeta np') -> np = np') /\
  NoDup ((fun np => (LabelKey np, LabelValue np)) <$> nps).

(** An expression that no pool of the cluster matches. *)
Definition selectsNothing (e : NodeSelectorRequirement) : Prop :=
  forall res, getNodePoolsForMatchExpression ids e km dm res = (res, false).

(** An expression that selects exactly the pool [n]. *)
Definition selectsPool (n : string) (e : NodeSelectorRequirement) : Prop :=
  forall res, getNodePoolsForMatchExpression ids e km dm res = (res ++ [n], true).

(** The expression the mutator creates for a pool that is not being deleted. *)
Definition expressionFor (n : string) (e : NodeSelectorRequirement) : Prop :=
  (n = DefaultNodepoolName cfg /\
   e = {| nsrKey := NodePoolLabelKey cfg; nsrOperator := NodeSelectorOpDoesNotExist; nsrValues := [] |}) \/
  (exists np, np ∈ nps /\ Name (npMeta np) = n /\ npPhase np <> NodePoolDeleting /\
   e = {| nsrKey := LabelKey np; nsrOperator := NodeSelectorOpIn; nsrValues := [LabelValue np] |}).

Lemma unique_indexedAt np : uniquePools -> np ∈ nps -> indexedAt nps (LabelKey np) (LabelValue np) (Name (npMeta np)).
Proof.
  intros [_ Hnd] Hin. apply list_elem_of_split in Hin as (l1 & l2 & ->).
  exists l1, np, l2. split_and!; try done.
  rewrite fmap_app, fmap_cons in Hnd. apply NoDup_app in Hnd as (_ & _ & [Hni _]%NoDup_cons).
  apply Forall_forall. intros np' Hnp' [Hk Hv]. apply Hni. apply list_elem_of_fmap.
  exists np'. by rewrite Hk, Hv.
Qed.

Lemma expressionFor_selects n e : uniquePools -> expressionFor n e -> selectsPool n e.
Proof.
  intros Hu [[-> ->]|(np & Hin & <- & Hph & ->)] res; unfold getNodePoolsForMatchExpression; simpl.
  - by rewrite bool_decide_true.
  - pose proof (unique_indexedAt np Hu Hin) as Hidx. apply GetNodePoolsMap_key in Hidx.
    destruct (km !! LabelKey np) as [m|]; simpl in *; [|done]. rewrite Hidx.
    destruct (dm !! Name (npMeta np)) eqn:Hd; [|done].
    assert (is_Some (dm !! Name (npMeta np))) as (np' & Hin' & Hn & Hph')%GetNodePoolsMap_deleting by eauto.
    destruct Hu as [Hname _]. rewrite (Hname np' np Hin' Hin Hn) in Hph'. done.
Qed.

Lemma nodePoolsOfTerm_skip exprs m n res :
  Forall selectsNothing exprs -> selectsPool n m ->
  nodePoolsOfTerm ids km dm (exprs ++ [m]) res false = res ++ [n].
Proof.
  intros Hall Hm. induction Hall as [|e exprs He _ IH]; simpl.
  - by rewrite Hm.
  - by rewrite He.
Qed.

(** The terms of a pod that reference no pool. *)
Definition termsSelectNothing (ts : list NodeSelectorTerm) : Prop :=
  Forall (fun t => Forall selectsNothing (MatchExpressions t)) ts.

Lemma nodePoolsOfTerms_added ts m n rest res :
  termsSelectNothing ts -> selectsPool n m ->
  nodePoolsOfTerms ids km dm ((addExpressionToTerm m <$> ts) ++ rest) res =
  nodePoolsOfTerms ids km dm rest (res ++ replicate (length ts) n).
Proof.
  intros Hall Hm. revert res. induction Hall as [|t ts Ht _ IH]; intros res; simpl; [by rewrite app_nil_r|].
  rewrite nodePoolsOfTerm_skip with (n := n); [| |done].
  2: { rewrite Forall_forall in Ht |- *. intros e [_ He]%list_elem_of_filter. by apply Ht. }
  rewrite IH. by rewrite <- app_assoc.
Qed.

Lemma nodePoolsOfTerms_single names ms res :
  Forall2 selectsPool names ms ->
  nodePoolsOfTerms ids km dm ((fun m => {| MatchExpressions := [m]; MatchFields := [] |}) <$> ms) res = res ++ names.
Proof.
  intros H. revert res. induction H as [|n m names ms Hm Hms IH]; intros res; simpl.
  - by rewrite app_nil_r.
  - rewrite Hm, IH. by rewrite <- app_assoc.
Qed.

Lemma nodePoolsOfTerms_product ts names ms res :
  termsSelectNothing ts -> Forall2 selectsPool names ms ->
  nodePoolsOfTerms ids km dm (ms ≫= (fun m => addExpressionToTerm m <$> ts)) res
  = res ++ (names ≫= replicate (length ts)).
Proof.
  intros Hts H. revert res. induction H as [|n m names ms Hm Hms IH]; intros res.
  - simpl. by rewrite app_nil_r.
  - rewrite bind_cons, nodePoolsOfTerms_added with (n := n) by done. rewrite IH, bind_cons. by rewrite <- app_assoc.
Qed.

Lemma nodePoolsOfTerms_addToTerms ts ms names :
  termsSelectNothing ts -> Forall2 selectsPool names ms -> ms <> [] ->
  nodePoolsOfTerms ids km dm (addToTerms ts ms) [] = names ≫= replicate (Nat.max 1 (length ts)).
Proof.
  intros Hts Hms Hne. destruct ts as [|t ts].
  - cbn [addToTerms]. rewrite (nodePoolsOfTerms_single names) by done. simpl.
    clear. induction names as [|x xs IH]; [done|]. rewrite bind_cons. simpl. by f_equal.
  - replace (addToTerms (t :: ts) ms) with (ms ≫= (fun m => addExpressionToTerm m <$> (t :: ts))) by (by destruct ms).
    by rewrite (nodePoolsOfTerms_product _ names).
Qed.

Lemma RemoveDuplicates_replicated k names :
  NoDup names -> RemoveDuplicates (names ≫= replicate (Nat.max 1 k)) = names.
Proof.
  replace (Nat.max 1 k) with (S (Nat.max 1 k - 1)) by lia. generalize (Nat.max 1 k - 1)%nat as j. clear k. intros j.
  unfold RemoveDuplicates. intros Hnd.
  assert (forall seen, (forall x, x ∈ names -> x ∉ seen) ->
    removeDuplicatesFrom seen (names ≫= replicate (S j)) = names) as H; [|apply H; set_solver].
  induction Hnd as [|n names Hn Hnd IH]; intros seen Hs; [done|]. rewrite bind_cons. simpl.
  rewrite decide_False by (apply Hs; left). f_equal.
  assert (forall i l (s : gset string), n ∈ s -> removeDuplicatesFrom s (replicate i n ++ l) = removeDuplicatesFrom s l) as Hrep.
  { clear. intros i l s Hin. induction i as [|i IH]; simpl; [done|]. by rewrite decide_True. }
  rewrite Hrep by set_solver. apply IH. intros x Hx. assert (x ∉ seen) by (apply Hs; by right). set_solver.
Qed.

(** The pools reads answer from the cluster [nps]. *)
Definition readsPoolList : forall X, KubeCall X -> X -> Prop := fun X c =>
  match c in KubeCall X return X -> Prop with
  | Get K key =>
      match K return result (obj K) -> Prop with
      | KNodePool => fun reply =>
          match reply with inr np => np ∈ nps /\ Name (npMeta np) = key.2 | inl _ => True end
      | _ => fun _ => True
      end
  | _ => fun _ => True
  end.

(** The default pool, or a pool of the cluster that is not being deleted. *)
Definition admissible (n : string) : Prop :=
  n = DefaultNodepoolName cfg \/
  exists np, np ∈ nps /\ Name (npMeta np) = n /\ npPhase np <> NodePoolDeleting.

Lemma exec_matchExpressionsOf names tr ms :
  Forall admissible names -> uniquePools ->
  exec (matchExpressionsOf cfg names) tr (inr ms) ->
  Forall (fun e => readsPoolList _ (ev_call e) (ev_reply e)) tr ->
  Forall2 expressionFor names ms.
Proof.
  intros Hadm Hu. revert tr ms. induction Hadm as [|n names Hn _ IH]; intros tr ms Hex Hall.
  { destruct Hex as [_ [= ->]]. constructor. }
  simpl in Hex. apply exec_bind_inv in Hex as (tr1 & tr2 & created & -> & Hc & Hex).
  apply Forall_app in Hall as [Hall1 Hall2]. destruct created as [e|created]; [by destruct Hex|].
  apply exec_bind_inv in Hex as (tr3 & tr4 & others & -> & Ho & Hex).
  apply Forall_app in Hall2 as [Hall3 _]. destruct others as [e|others]; [by destruct Hex|].
  specialize (IH _ _ Ho Hall3). destruct Hex as [_ [= ->]].
  assert (exists m, created = Some m /\ expressionFor n m) as (m & -> & Hm); [|by constructor].
  unfold createMatchExpressionForNodePool in Hc. case_bool_decide as Hd.
  { destruct Hc as [_ [= ->]]. eexists. split; [done|]. by left. }
  destruct Hc as (reply & tr' & -> & Hc). apply Forall_cons in Hall1 as [Hr _]. simpl in Hr.
  destruct reply as [e|np]; simpl in Hc; [by destruct (IsNotFound e), Hc|].
  destruct Hr as [Hin Hname]. destruct Hn as [?|(np' & Hin' & Hname' & Hph)]; [done|].
  rewrite <- (proj1 Hu np np' Hin Hin' ltac:(congruence)) in Hph.
  rewrite bool_decide_false in Hc by done. destruct Hc as [_ [= ->]].
  eexists. split; [done|]. right. exists np. auto.
Qed.

(** Round trip between the two webhook-side halves of the assignment: when
    the pod mutator writes node pools into a pod whose own terms reference no
    pool, converting the resulting affinity back (as the pod group assigner
    does) gives exactly those pools, in order.  The pools are distinct, exist,
    are not being deleted, and pool names and labels identify pools. *)
Theorem default_node_pools_round_trip pod names tr pod' :
  uniquePools -> nps <> [] -> NoDup names -> names <> [] -> Forall admissible names ->
  termsSelectNothing (requiredTerms (podAffinity pod)) ->
  exec (setNodeAffinityForNodePools cfg pod names) tr (inr pod') ->
  Forall (fun e => readsPoolList _ (ev_call e) (ev_reply e)) tr ->
  exec (convertNodeAffinityToNodePoolNames ids (podAffinity pod'))
    [Event (List KNodePool listAll) (inr nps)] (inr names).
Proof.
  intros Hu Hne Hnd Hnames Hadm Hts Hex Hall.
  apply exec_bind_inv in Hex as (tr1 & tr2 & ms & -> & Hms & Hex).
  apply Forall_app in Hall as [Hall1 _]. destruct ms as [e|ms]; [by destruct Hex|].
  apply (exec_matchExpressionsOf _ _ _ Hadm Hu) in Hms; [|done].
  assert (Forall2 selectsPool names ms) as Hsel.
  { eapply Forall2_impl; [exact Hms|]. intros n e. by apply expressionFor_selects. }
  destruct ms as [|m ms]; [by apply Forall2_nil_inv_r in Hms|]. destruct Hex as [_ [= ->]]. simpl.
  set (ms' := m :: ms) in *.
  assert (requiredTerms (Some (AddNodeAffinityToPodSpec (podAffinity pod) ms')) =
          addToTerms (requiredTerms (podAffinity pod)) ms') as Heq.
  { destruct (podAffinity pod) as [[[[[?|] ?]|] ?]|]; reflexivity. }
  unfold convertNodeAffinityToNodePoolNames. rewrite Heq.
  pose proof (nodePoolsOfTerms_addToTerms (requiredTerms (podAffinity pod)) ms' names Hts Hsel ltac:(done)) as Hn.
  destruct (addToTerms (requiredTerms (podAffinity pod)) ms') as [|t ts] eqn:Hadd.
  { simpl in Hn. destruct names; [done|]. rewrite bind_cons in Hn.
    destruct (Nat.max 1 (length (requiredTerms (podAffinity pod)))) eqn:?; [lia|done]. }
  exists (inr nps), []. split; [done|].
  destruct (decide (length nps = 0%nat)) as [?%nil_length_inv|Hlen]; [done|].
  cbn -[GetNodePoolsMap nodePoolsOfTerms]. rewrite bool_decide_false by done. cbn -[GetNodePoolsMap nodePoolsOfTerms].
  destruct (GetNodePoolsMap nps) as [k d] eqn:Hm. split; [done|]. simpl in Hn |- *. rewrite Hn.
  by rewrite RemoveDuplicates_replicated.
Qed.

End RoundTrip.

(** ** What the pod mutator changes *)

Section PodMutatorProps.
Context (cfg : PodGroupAssignerConfig) (projectKey : string).

(** [pod'] differs from [pod] at most in an added project label and in its
    affinity. *)
Definition onlyMutates (pod pod' : Pod) : Prop :=
  podSchedulerName pod' = podSchedulerName pod /\ podNodeName pod' = podNodeName pod /\
  podPhase pod' = podPhase pod /\
  Annotations (podMeta pod') = Annotations (podMeta pod) /\ Name (podMeta pod') = Name (podMeta pod) /\
  (Labels (podMeta pod') = Labels (podMeta pod) \/
   Labels (podMeta pod) !! projectKey = None /\
   exists project, Labels (podMeta pod') = <[projectKey := project]> (Labels (podMeta pod))).

Lemma wp_project_name namespace :
  reads_only (GetProjectNameOfNamespace cfg namespace).
Proof. unfold GetProjectNameOfNamespace. reads_tac. Qed.

Lemma setNodeAffinity_reads pod names : reads_only (setNodeAffinityForNodePools cfg pod names).
Proof.
  assert (reads_only (matchExpressionsOf cfg names)).
  { induction names; simpl; [reads_tac|].
    unfold createMatchExpressionForNodePool, GetNodePoolFields. reads_tac. }
  unfold setNodeAffinityForNodePools. reads_tac.
Qed.

Lemma setNodeAffinity_result pod names tr pod' :
  exec (setNodeAffinityForNodePools cfg pod names) tr (inr pod') ->
  pod' = pod \/ exists a, pod' = pod_with_affinity a pod.
Proof.
  intros (tr1 & tr2 & [e|[|m ms]] & -> & _ & H)%exec_bind_inv; destruct H as [-> [= ->]]; eauto.
Qed.

Lemma exec_orUnchanged pod p tr pod' :
  exec (orUnchanged pod p) tr pod' -> pod' = pod \/ exec p tr (inr pod').
Proof.
  intros (tr1 & tr2 & [e|q] & -> & H1 & [-> ->])%exec_bind_inv; [by left|right]. by rewrite app_nil_r.
Qed.

Lemma mutateNodeAffinity_result pod namespace tr pod' :
  exec (mutateNodeAffinityForDefaultNodePools cfg pod namespace) tr pod' ->
  pod' = pod \/ exists a, pod' = pod_with_affinity a pod.
Proof.
  intros [->|H]%exec_orUnchanged; [by left|].
  apply exec_bind_inv in H as (tr1 & tr2 & [e|project] & -> & _ & H); [by destruct H|].
  destruct (Labels (podMeta pod) !! _); [by eapply setNodeAffinity_result|].
  destruct H as ([e|prj] & tr3 & -> & H); simpl in H; [by destruct H|].
  destruct (DefaultNodePools prj) as [|p ps]; [destruct H as [_ [= ->]]; by left|].
  apply exec_bind_inv in H as (tr4 & tr5 & [e|[]] & -> & _ & H); [by destruct H| |].
  - destruct H as [_ [= ->]]. by left.
  - by eapply setNodeAffinity_result.
Qed.

Lemma mutateProjectNameLabel_result pod namespace tr pod' :
  exec (mutateProjectNameLabel cfg projectKey pod namespace) tr pod' -> onlyMutates pod pod'.
Proof.
  unfold mutateProjectNameLabel. destruct (Labels (podMeta pod) !! projectKey) eqn:Hl.
  { intros [_ ->]. repeat split; auto. }
  intros (tr1 & tr2 & [e|project] & -> & _ & H)%exec_bind_inv; destruct H as [_ ->].
  - repeat split; auto.
  - repeat split; try done. right. eauto.
Qed.

Lemma HandlePod_reads raw ns : reads_only (HandlePod cfg projectKey raw ns).
Proof.
  pose proof wp_project_name. pose proof setNodeAffinity_reads.
  unfold HandlePod, isSchedulerEnforcedForNamespace, mutateProjectNameLabel,
    mutateNodeAffinityForDefaultNodePools, orUnchanged, hasNodePoolInPodsNodeAffinity, getNodePoolsMapping.
  reads_tac.
Qed.

(** The pod names our scheduler, or the API said its namespace enforces it. *)
Definition enforcedOrChosen (pod : Pod) (namespace : string) (tr : list (event KubeCall)) : Prop :=
  podSchedulerName pod = SchedulerName cfg \/
  exists nsObj v, Event (Get KNamespace ("", namespace)) (inr nsObj) ∈ tr /\
    Annotations (nsMeta nsObj) !! EnforceSchedulerAnnotationKey cfg = Some v /\ ParseBool v = Some true.

Lemma exec_enforced namespace tr :
  exec (isSchedulerEnforcedForNamespace cfg namespace) tr (inr true) ->
  exists nsObj v, Event (Get KNamespace ("", namespace)) (inr nsObj) ∈ tr /\
    Annotations (nsMeta nsObj) !! EnforceSchedulerAnnotationKey cfg = Some v /\ ParseBool v = Some true.
Proof.
  intros ([e|nsObj] & tr' & -> & H); simpl in H; [by destruct H|].
  destruct (Annotations (nsMeta nsObj) !! _) as [v|] eqn:Hv; destruct H as [-> [= Hb]].
  exists nsObj, v. split_and!; [by left|done|]. by destruct (ParseBool v) as [[]|].
Qed.

(** The pod webhook never writes to the cluster, and mutates only pods that
    chose our scheduler or whose namespace was read as enforcing it (an absent
    or unparseable annotation does not enforce).  A mutated pod is scheduled by
    our scheduler, keeps every label, annotation and placement, and gains at
    most the project label and node affinity; a pod is admitted unchanged only
    if it did not choose our scheduler, and rejected only when its namespace
    could not be read. *)
Theorem HandlePod_contract pod ns tr resp :
  exec (HandlePod cfg projectKey (inr pod) ns) tr resp ->
  let namespace := if ns ==? "" then Namespace (podMeta pod) else ns in
  writes tr = [] /\
  match resp with
  | PatchResponse pod' =>
      enforcedOrChosen pod namespace tr /\
      podSchedulerName pod' = SchedulerName cfg /\
      onlyMutates (mutateSchedulerName cfg pod) pod'
  | Allowed _ => podSchedulerName pod <> SchedulerName cfg
  | Errored code _ => code = 500%Z /\ podSchedulerName pod <> SchedulerName cfg
  end.
Proof.
  intros Hex. split; [by eapply reads_only_writes, Hex; apply HandlePod_reads|].
  unfold HandlePod in Hex. cbv zeta in Hex.
  set (namespace := if ns ==? "" then Namespace (podMeta pod) else ns) in *.
  assert (forall tr resp, exec (pod <- mutateProjectNameLabel cfg projectKey (mutateSchedulerName cfg pod) namespace ;;
            pod0 <- mutateNodeAffinityForDefaultNodePools cfg pod namespace ;;
            Ret (PatchResponse pod0)) tr resp ->
    exists pod', resp = PatchResponse pod' /\ podSchedulerName pod' = SchedulerName cfg /\
      onlyMutates (mutateSchedulerName cfg pod) pod') as Hhandle.
  { clear. intros tr resp (tr1 & tr2 & p1 & -> & H1 & H)%exec_bind_inv.
    apply exec_bind_inv in H as (tr3 & tr4 & p2 & -> & H2 & [-> ->]).
    apply mutateProjectNameLabel_result in H1. apply mutateNodeAffinity_result in H2.
    exists p2. split; [done|].
    assert (podSchedulerName (mutateSchedulerName cfg pod) = SchedulerName cfg) as Hs
      by (unfold mutateSchedulerName; by case_bool_decide).
    destruct H1 as (Hs1 & ? & ? & ? & ? & ?).
    destruct H2 as [->|[a ->]]; (split; [simpl; congruence|]); repeat split; done. }
  clearbody namespace. case_bool_decide as Hs; cbn [negb] in Hex.
  - apply Hhandle in Hex as (pod' & -> & ? & ?). split_and!; [by left|done..].
  - apply exec_bind_inv in Hex as (tr1 & tr2 & r & -> & Henf & Hex).
    destruct r as [e|[]]; [by destruct Hex as [_ ->]| |by destruct Hex as [_ ->]].
    apply Hhandle in Hex as (pod' & -> & ? & ?). split_and!; [|done..].
    right. destruct (exec_enforced _ _ Henf) as (nsObj & v & Hin & ? & ?).
    exists nsObj, v. split_and!; [|done..]. rewrite elem_of_app. by left.
Qed.

(** ** The pod group mutator *)

(** A pod group the webhook mutated is up for assignment: a group without
    scheduling conditions is eligible with no API call, its node pool list never
    comes from the sentinel (it is the label the workload brought, or the default
    pool), and mutating it again changes nothing. *)
Theorem mutatePodGroup_eligible pg :
  (pgSchedulingConditions pg = [] ->
   isEligibleForNodePoolAssignment cfg (mutatePodGroup cfg pg) = Ret (inr (true, None))) /\
  nodePoolsFromLabelsOrProject (assignerIdentifiers cfg) (pgMeta (mutatePodGroup cfg pg)) None =
    nodePoolsFromLabelsOrProject (assignerIdentifiers cfg) (pgMeta pg) None /\
  mutatePodGroup cfg (mutatePodGroup cfg pg) = mutatePodGroup cfg pg.
Proof.
  unfold mutatePodGroup. cbn [pgMeta]. destruct (Labels (pgMeta pg) !! NodePoolLabelKey cfg) as [l|] eqn:Hl; simpl; split_and!.
  - intros Hc. unfold isEligibleForNodePoolAssignment, GetLastSchedulingCondition. case_bool_decide as Hb; [cbv in Hb; discriminate Hb|]. simpl. by rewrite Hc.
  - done.
  - by rewrite Hl.
  - intros Hc. unfold isEligibleForNodePoolAssignment, GetLastSchedulingCondition. case_bool_decide as Hb; [cbv in Hb; discriminate Hb|]. simpl. by rewrite Hc.
  - unfold nodePoolsFromLabelsOrProject. simpl. rewrite lookup_insert_eq, Hl. by rewrite bool_decide_true.
  - by rewrite lookup_insert_eq.
Qed.

(** The pod group webhook leaves a pod group outside every project untouched
    (where external queues are allowed), rejects it when the project cannot be
    resolved, and otherwise mutates it; without external queues it mutates every
    pod group and reads nothing. *)
Theorem HandlePodGroup_external pg ns tr resp :
  exec (HandlePodGroup cfg (inr pg) ns) tr resp ->
  writes tr = [] /\
  (AllowExternalQueues cfg = false -> tr = [] /\ resp = PatchResponse (mutatePodGroup cfg pg)) /\
  (AllowExternalQueues cfg = true -> forall pg', resp = PatchResponse pg' ->
     pg' = mutatePodGroup cfg pg /\
     exists nsObj prj, let project := mapGet (Labels (nsMeta nsObj)) (NamespaceProjectLabelKey cfg) in
       Event (Get KNamespace ("", if ns ==? "" then Namespace (pgMeta pg) else ns)) (inr nsObj) ∈ tr /\
       project <> "" /\ Event (Get KProject ("", project)) (inr prj) ∈ tr).
Proof.
  intros Hex. split.
  { eapply reads_only_writes, Hex. unfold HandlePodGroup. pose proof (external_reads cfg). reads_tac. }
  apply exec_bind_inv in Hex as (tr1 & tr2 & r & -> & Hext & Hex). split.
  - intros Hal. unfold IsExternalNamespace in Hext. rewrite Hal in Hext.
    destruct Hext as [-> ->]. by destruct Hex as [-> ->].
  - intros Hal pg' ->. destruct r as [e|[]]; [by destruct Hex| by destruct Hex|].
    destruct Hex as [-> [= ->]]. split; [done|].
    apply exec_external in Hext as (nsObj & project & prj & Hin & <- & Hne & Hp); [|done].
    exists nsObj, prj. simpl. rewrite app_nil_r. auto.
Qed.

End PodMutatorProps.

(** ** Witnesses *)

Definition demoExpr (v : string) : NodeSelectorRequirement :=
  {| nsrKey := "gpu"; nsrOperator := NodeSelectorOpIn; nsrValues := [v] |}.

(** A pod with an unrelated required term. *)
Definition zonePod : Pod :=
  {| podMeta := named "pod"; podNodeName := ""; podSchedulerName := "default-scheduler"; podPhase := PodPending;
     podAffinity := Some
       {| AffinityNodeAffinity := Some
            {| RequiredDuringSchedulingIgnoredDuringExecution := Some {| NodeSelectorTerms :=
                 [{| MatchExpressions := [{| nsrKey := "zone"; nsrOperator := NodeSelectorOpIn; nsrValues := ["z1"] |}];
                     MatchFields := [] |}] |};
               PreferredDuringSchedulingIgnoredDuringExecution := "" |};
          AffinityPodAffinity := "" |} |}.

(** Nodes of zone "z1" with the gpu "b". *)
Lemma AddNodeAffinity_meaning_witness :
  let sat := fun e => (e ==? demoExpr "b") || (nsrKey e ==? "zone") in
  selectorSatisfied sat (fun _ => true)
    (requiredTerms (Some (AddNodeAffinityToPodSpec (podAffinity zonePod) [demoExpr "a"; demoExpr "b"]))) = true.
Proof.
  intros sat.
  destruct (AddNodeAffinity_meaning sat (fun _ => true) (podAffinity zonePod) [demoExpr "a"; demoExpr "b"]) as (_ & _ & Hexact);
    [discriminate|].
  apply Hexact.
  - vm_compute. discriminate.
  - intros t ->%list_elem_of_singleton. split; [reflexivity|].
    intros e m ->%list_elem_of_singleton Hm. apply elem_of_cons in Hm as [->|Hm]; [vm_compute; discriminate|].
    apply list_elem_of_singleton in Hm as ->. vm_compute. discriminate.
  - split; [vm_compute; reflexivity|]. exists (demoExpr "b"). split; [right; left|vm_compute; reflexivity].
Defined.

Lemma demoPools_unique : uniquePools demoPools.
Proof.
  split.
  - intros np np' Hnp Hnp'. unfold demoPools in *.
    repeat (apply elem_of_cons in Hnp as [->|Hnp]); repeat (apply elem_of_cons in Hnp' as [->|Hnp']);
      by try set_solver.
  - apply (bool_decide_unpack _). vm_compute. exact I.
Qed.

Definition zoneUpdate := setNodeAffinityForNodePools demoConfig zonePod ["b"; "default"].

Lemma default_node_pools_round_trip_witness :
  exists pod', exec zoneUpdate (run_trace memServer zoneUpdate demoStore) (inr pod') /\
    exec (convertNodeAffinityToNodePoolNames (assignerIdentifiers demoConfig) (podAffinity pod'))
      [Event (List KNodePool listAll) (inr demoPools)] (inr ["b"; "default"]).
Proof.
  eexists. split; [apply (run_exec memServer zoneUpdate demoStore)|].
  apply (default_node_pools_round_trip demoConfig demoPools zonePod ["b"; "default"]
           (run_trace memServer zoneUpdate demoStore)).
  - apply demoPools_unique.
  - discriminate.
  - apply (bool_decide_unpack _). vm_compute. exact I.
  - discriminate.
  - constructor; [right; exists (demoPool "b" NodePoolReady)|constructor; [by left|constructor]].
    split_and!; [by right; left|done|done].
  - repeat constructor.
  - apply (run_exec memServer zoneUpdate demoStore).
  - constructor; [|constructor]. split; [by right; left|done].
Defined.

Lemma HandlePod_contract_witness :
  podSchedulerName zonePod <> SchedulerName demoConfig.
Proof.
  apply (HandlePod_contract demoConfig "project" zonePod "ns" [Event (Get KNamespace ("", "ns"))
           (inr {| nsKind := ""; nsAPIVersion := ""; nsMeta := named "ns" |})] (Allowed notManagedPod)).
  eexists _, []. split; [reflexivity|]. split; reflexivity.
Defined.

Lemma HandlePodGroup_external_witness :
  writes [] = [] /\
  (AllowExternalQueues demoConfig = false ->
   @nil (event KubeCall) = [] /\
   PatchResponse (mutatePodGroup demoConfig demoPodGroup) = PatchResponse (mutatePodGroup demoConfig demoPodGroup)) /\
  (AllowExternalQueues demoConfig = true -> forall pg',
     PatchResponse (mutatePodGroup demoConfig demoPodGroup) = PatchResponse pg' ->
     pg' = mutatePodGroup demoConfig demoPodGroup /\
     exists nsObj prj, let project := mapGet (Labels (nsMeta nsObj)) (NamespaceProjectLabelKey demoConfig) in
       Event (Get KNamespace ("", if "ns" ==? "" then Namespace (pgMeta demoPodGroup) else "ns")) (inr nsObj) ∈ [] /\
       project <> "" /\ Event (Get KProject ("", project)) (inr prj) ∈ []).
Proof. apply (HandlePodGroup_external demoConfig demoPodGroup "ns"). split; reflexivity. Defined.
