(* ===== verification/Hierarchy.v ===== *)
(** * The department tree

    [pkg/project-controller/hierarchy/tree.go]: the tree that
    [Department.spec.parent] forms, its ancestors and its height.  Both walks
    are bounded by [limit], which is their structural argument. *)

From stdpp Require Import base list gmap strings.
From S2P Require Import Prelude ApiTypes.

Definition MaxDepth : nat := 7.

(** A department name to its parent's name, "" for a top-level department. *)
Notation Tree := (gmap string string) (only parsing).

Definition NewTree (departments : list Department) : Tree :=
  foldl (fun tree d => <[Name (depMeta d) := depParent d]> tree) ∅ departments.

(** The loop of [Ancestors]: [parent] is the next candidate, [limit] what is
    left of the limit. *)
Fixpoint ancestorsFrom (t : Tree) (name : string) (seen : gset string) (parent : string) (limit : nat)
    : list string * bool :=
  match limit with
  | O => ([], false)
  | S limit' =>
      if parent ==? "" then ([], false)
      else if parent ==? name then ([], true)
      else if bool_decide (t !! parent = None) || bool_decide (parent ∈ seen) then ([], false)
      else
        let '(ancestors, inLoop) := ancestorsFrom t name ({[parent]} ∪ seen) (mapGet t parent) limit' in
        (parent :: ancestors, inLoop)
  end.

Definition Ancestors (t : Tree) (name : string) (limit : nat) : list string * bool :=
  ancestorsFrom t name ∅ (mapGet t name) limit.

(** [children[department]]. *)
Definition children (t : Tree) (department : string) : list string :=
  fst <$> filter (fun cp => cp.2 = department) (map_to_list t).

(** One child of the inner loops of [Height]. *)
Definition visitChild (acc : gset string * list string) (child : string) : gset string * list string :=
  let '(seen, next) := acc in
  if bool_decide (child ∈ seen) then (seen, next) else ({[child]} ∪ seen, next ++ [child]).

(** The next level and the departments seen so far. *)
Definition nextLevel (t : Tree) (seen : gset string) (level : list string) : gset string * list string :=
  foldl visitChild (seen, []) (level ≫= children t).

Fixpoint heightFrom (t : Tree) (seen : gset string) (level : list string) (limit : nat) : nat :=
  match level, limit with
  | [], _ => O
  | _, O => O
  | _, S limit' => let '(seen', next) := nextLevel t seen level in S (heightFrom t seen' next limit')
  end.

Definition Height (t : Tree) (name : string) (limit : nat) : nat :=
  heightFrom t {[name]} [name] limit.

(** ** Specification: chains of parents *)

(** The parent of [a], when it exists in the tree. *)
Definition up (t : Tree) (a : string) : option string :=
  p ← t !! a; if bool_decide (p = "") then None else if bool_decide (is_Some (t !! p)) then Some p else None.

Fixpoint upN (t : Tree) (n : nat) (a : string) : option string :=
  match n with O => Some a | S n' => up t a ≫= upN t n' end.

(** No chain of parents has more than [MaxDepth] departments. *)
Definition depthOk (t : Tree) : Prop := forall n a b, upN t n a = Some b -> (n < MaxDepth)%nat.

(** Every parent exists. *)
Definition closed (t : Tree) : Prop := forall a p, t !! a = Some p -> p <> "" -> is_Some (t !! p).

Definition treeOk (t : Tree) : Prop := depthOk t /\ closed t.

Lemma up_Some t a b : up t a = Some b <-> t !! a = Some b /\ b <> "" /\ is_Some (t !! b).
Proof.
  unfold up. destruct (t !! a) as [p|]; simpl; [|naive_solver].
  repeat case_bool_decide; naive_solver.
Qed.

Lemma upN_app t n m a : upN t (n + m) a = upN t n a ≫= upN t m.
Proof. revert a. induction n as [|n IH]; intros a; simpl; [done|]. destruct (up t a); simpl; auto. Qed.

Lemma upN_S_r t n a : upN t (S n) a = upN t n a ≫= up t.
Proof.
  replace (S n) with (n + 1)%nat by lia. rewrite upN_app. destruct (upN t n a); simpl; [|done].
  by destruct (up t _).
Qed.

(** A cycle makes chains of any length. *)
Lemma depthOk_no_cycle t n a : depthOk t -> (0 < n)%nat -> upN t n a <> Some a.
Proof.
  intros Hd Hn Hc.
  assert (forall k, upN t (k * n) a = Some a) as Hk.
  { induction k as [|k IH]; [done|]. simpl. rewrite upN_app, Hc. exact IH. }
  specialize (Hd _ _ _ (Hk MaxDepth)). nia.
Qed.

(** ** Ancestors *)

Section SetParent.
(** The tree [t] in which the parent of [d] becomes [p]. *)
Context (t : Tree) (d p : string).
Notation t' := (<[d := p]> t).

Lemma up_other a b : a <> d -> b <> d -> up t' a = Some b -> up t a = Some b.
Proof. intros Ha Hb. rewrite !up_Some, !lookup_insert_ne by done. done. Qed.

(** The walk up from [cur] stops only where the chain of parents ends. *)
Lemma ancestorsFrom_complete limit cur seen ancestors :
  depthOk t ->
  (forall s, s ∈ seen -> s <> d /\ exists i, upN t i s = Some cur) ->
  (cur = d -> seen = ∅) ->
  ancestorsFrom t' d seen (mapGet t' cur) limit = (ancestors, false) ->
  (length ancestors < limit)%nat ->
  forall m b, upN t' m cur = Some b -> (m <= length ancestors)%nat.
Proof.
  intros Hd. revert cur seen ancestors.
  induction limit as [|limit IH]; intros cur seen ancestors Hseen Hcur Hanc Hlen m b Hup; simpl in Hlen; [lia|].
  destruct m as [|m]; [lia|]. simpl in Hup. destruct (up t' cur) as [q|] eqn:Hq; [|done]. simpl in Hup.
  pose proof (proj1 (up_Some _ _ _) Hq) as (Hlq & Hne & [r Hr]).
  assert (mapGet t' cur = q) as Hmq by (unfold mapGet; by rewrite Hlq).
  rewrite Hmq in Hanc. simpl in Hanc. rewrite bool_decide_false in Hanc by done.
  case_bool_decide as Hqd; [done|].
  rewrite (bool_decide_false (_ = None)) in Hanc by congruence. simpl in Hanc.
  assert (cur <> d -> up t cur = Some q) as Hqt by (intros; by apply up_other).
  case_bool_decide as Hqs.
  { exfalso. destruct (Hseen q Hqs) as [_ [i Hi]].
    assert (cur <> d) as Hcd by (intros Hcd; rewrite (Hcur Hcd) in Hqs; set_solver).
    apply (depthOk_no_cycle t (i + 1) q Hd); [lia|]. rewrite upN_app, Hi. simpl. by rewrite (Hqt Hcd). }
  destruct (ancestorsFrom t' d ({[q]} ∪ seen) (mapGet t' q) limit) as [anc l] eqn:Hrec. clear Hmq. simplify_eq.
  simpl in *. apply le_n_S. eapply (IH q ({[q]} ∪ seen)); [|done|exact Hrec|lia|exact Hup].
  intros s [->%elem_of_singleton|Hs]%elem_of_union; [split; [done|by exists 0%nat]|].
  destruct (Hseen s Hs) as [Hsd [i Hi]]. split; [done|]. exists (i + 1)%nat. rewrite upN_app, Hi. simpl.
  rewrite Hqt; [done|]. intros Hcd. rewrite (Hcur Hcd) in Hs. set_solver.
Qed.

(** The listed ancestors are a chain of parents. *)
Lemma ancestorsFrom_sound limit cur seen ancestors inLoop :
  ancestorsFrom t' d seen (mapGet t' cur) limit = (ancestors, inLoop) ->
  exists b, upN t' (length ancestors) cur = Some b /\ (inLoop = true -> d <> "" -> up t' b = Some d).
Proof.
  revert cur seen ancestors. induction limit as [|limit IH]; intros cur seen ancestors Hanc; simpl in Hanc.
  { simplify_eq. by exists cur. }
  repeat case_bool_decide; simplify_eq/=; try (by exists cur).
  - exists cur. split; [done|]. intros _ Hne. apply up_Some. split_and!; [|done|].
    + unfold mapGet in *. destruct (t' !! cur) as [x|] eqn:Hx; simpl in *; congruence.
    + rewrite lookup_insert_eq. eauto.
  - destruct (ancestorsFrom _ _ _ _ limit) as [anc l] eqn:Hrec. simplify_eq.
    destruct (IH _ _ _ Hrec) as (b & Hb & Hl). exists b. split; [|exact Hl]. simpl.
    assert (up t' cur = Some (mapGet t' cur)) as ->; [|exact Hb]. apply up_Some. unfold mapGet in *.
    destruct (t' !! cur) as [x|] eqn:Hx; simpl in *; [|done]. split_and!; [done..|].
    destruct (t' !! x); [eauto|done].
Qed.

Lemma ancestors_complete ancestors :
  depthOk t -> Ancestors t' d MaxDepth = (ancestors, false) -> (length ancestors < MaxDepth)%nat ->
  forall m b, upN t' m d = Some b -> (m <= length ancestors)%nat.
Proof.
  intros Hd Ha Hl. apply (ancestorsFrom_complete MaxDepth d ∅ ancestors Hd); [set_solver|done..].
Qed.

End SetParent.

(** ** Height *)

Lemma elem_of_children t a b : a ∈ children t b <-> t !! a = Some b.
Proof.
  unfold children. rewrite list_elem_of_fmap. setoid_rewrite list_elem_of_filter.
  setoid_rewrite elem_of_map_to_list'. split; [by intros ([a' b'] & -> & <- & ?)|].
  intros H. by exists (a, b).
Qed.

Lemma foldl_visitChild cs seen next :
  (foldl visitChild (seen, next) cs).1 = list_to_set cs ∪ seen /\
  forall x, x ∈ (foldl visitChild (seen, next) cs).2 <-> x ∈ next \/ (x ∈ cs /\ x ∉ seen).
Proof.
  revert seen next. induction cs as [|c cs IH]; intros seen next; simpl.
  - split; [set_solver|]. set_solver.
  - case_bool_decide as Hc.
    + destruct (IH seen next) as [-> Hx]. split; [set_solver|]. intros x. rewrite Hx. set_solver.
    + destruct (IH ({[c]} ∪ seen) (next ++ [c])) as [-> Hx]. split; [set_solver|].
      intros x. rewrite Hx. destruct (decide (x = c)); set_solver.
Qed.

Lemma nextLevel_spec t seen level :
  (forall x, x ∈ (nextLevel t seen level).1 <-> x ∈ seen \/ exists y, y ∈ level /\ t !! x = Some y) /\
  (forall x, x ∈ (nextLevel t seen level).2 <-> x ∉ seen /\ exists y, y ∈ level /\ t !! x = Some y).
Proof.
  unfold nextLevel. destruct (foldl_visitChild (level ≫= children t) seen []) as [-> Hn].
  split; intros x.
  - rewrite elem_of_union, elem_of_list_to_set, list_elem_of_bind. setoid_rewrite elem_of_children. naive_solver.
  - rewrite Hn, list_elem_of_bind. setoid_rewrite elem_of_children. set_solver.
Qed.

(** A chain of [i] parents below a department of the level makes the tree at
    least [i + 1] levels high. *)
Lemma heightFrom_lower t limit seen level i a y :
  upN t i a = Some y -> y ∈ level -> (forall x, x ∈ level -> x ∈ seen) ->
  (forall j x, (j < i)%nat -> upN t j a = Some x -> x ∉ seen) ->
  (Nat.min (S i) limit <= heightFrom t seen level limit)%nat.
Proof.
  revert seen level i y. induction limit as [|limit IH]; intros seen level i y Hup Hy Hsub Hfresh.
  { lia. }
  destruct level as [|l0 level]; [set_solver|]. cbn [heightFrom]. set (lv := l0 :: level) in *. clearbody lv.
  destruct (nextLevel_spec t seen lv) as [Hs Hn].
  destruct (nextLevel t seen lv) as [seen' next]; simpl in *.
  destruct i as [|i]; [lia|]. rewrite upN_S_r in Hup.
  destruct (upN t i a) as [x|] eqn:Hx; [|done]. simpl in Hup. apply up_Some in Hup as (Hxy & _).
  assert (x ∉ seen) as Hxs by (eapply (Hfresh i); [lia|done]).
  cut (Nat.min (S i) limit <= heightFrom t seen' next limit)%nat; [lia|].
  apply (IH _ _ _ x); [done| | |].
  - apply Hn. eauto.
  - intros z [Hz ?]%Hn. apply Hs. eauto.
  - intros j z Hj Hz [Hzs|(w & Hw & Hzw)]%Hs; [by apply (Hfresh j z); [lia|..]|].
    assert (exists w', upN t (S j) a = Some w' /\ t !! z = Some w') as (w' & Hup' & Hzw').
    { rewrite upN_S_r, Hz. simpl. assert (is_Some (upN t (S j) a)) as [w' Hw'].
      { replace i with (S j + (i - S j))%nat in Hx by lia. rewrite upN_app in Hx.
        destruct (upN t (S j) a); [eauto|done]. }
      rewrite upN_S_r, Hz in Hw'. simpl in Hw'. exists w'. split; [done|]. by apply up_Some in Hw' as [? _]. }
    assert (w' = w) as -> by congruence. apply (Hfresh (S j) w); [lia|done|]. by apply Hsub.
Qed.

(** The counted levels are the levels of a chain down from the level. *)
Lemma heightFrom_upper t limit seen level :
  (forall x, x ∈ level -> x <> "" /\ is_Some (t !! x)) -> (forall x, is_Some (t !! x) -> x <> "") ->
  level <> [] -> limit <> 0%nat ->
  exists a y, y ∈ level /\ upN t (heightFrom t seen level limit - 1) a = Some y.
Proof.
  intros Hlv Hnames. revert seen level Hlv. induction limit as [|limit IH]; intros seen level Hlv Hne Hlim; [done|].
  destruct level as [|l0 level]; [done|]. cbn [heightFrom]. set (lv := l0 :: level) in *.
  destruct (nextLevel_spec t seen lv) as [_ Hn].
  destruct (nextLevel t seen lv) as [seen' next]; simpl in *.
  destruct (decide (next = [] \/ limit = 0%nat)) as [Hend|Hend].
  { exists l0, l0. split; [left|].
    assert (heightFrom t seen' next limit = 0%nat) as ->; [|done].
    destruct Hend as [->| ->]; [by destruct limit|by destruct next]. }
  assert (next <> [] /\ limit <> 0%nat) as [Hn1 Hl1] by naive_solver.
  destruct (IH seen' next) as (a & x & Hx & Ha); [|done..|].
  { intros x [_ (y & _ & Hxy)]%Hn. split; [apply Hnames|]; eauto. }
  apply Hn in Hx as [_ (y & Hy & Hxy)]. exists a, y. split; [done|].
  assert (exists h, heightFrom t seen' next limit = S h) as [h Hh].
  { destruct next as [|x0 next]; [done|]. destruct limit; [done|]. simpl. destruct (nextLevel t seen' _). eauto. }
  rewrite Hh in Ha |- *. cbn [Nat.sub] in *. rewrite Nat.sub_0_r in Ha. rewrite upN_S_r, Ha. simpl.
  apply up_Some. destruct (Hlv y Hy). auto.
Qed.

Lemma Height_pos t d : (1 <= Height t d MaxDepth)%nat.
Proof. unfold Height, MaxDepth. cbn [heightFrom]. destruct (nextLevel _ _ _). lia. Qed.

(** ** Setting a parent *)

Lemma upN_avoids t d p n a b :
  (forall k, (k <= n)%nat -> upN (<[d := p]> t) k a <> Some d) ->
  upN (<[d := p]> t) n a = Some b -> upN t n a = Some b.
Proof.
  revert a. induction n as [|n IH]; intros a Hav Hup; [done|]. simpl in Hup |- *.
  destruct (up (<[d := p]> t) a) as [q|] eqn:Hq; [|done]. simpl in Hup.
  assert (a <> d) as Ha by (intros ->; by apply (Hav 0%nat); [lia|]).
  assert (q <> d) as Hqd by (intros ->; apply (Hav 1%nat); [lia|]; simpl; by rewrite Hq).
  rewrite (up_other _ _ _ _ _ Ha Hqd Hq). simpl. apply IH; [|done].
  intros k Hk Hc. apply (Hav (S k)); [lia|]. simpl. by rewrite Hq.
Qed.

(** The first visit of a chain to [d]. *)
Lemma first_visit t d n a :
  (forall k, (k <= n)%nat -> upN t k a <> Some d) \/
  exists k, (k <= n)%nat /\ upN t k a = Some d /\ forall j, (j < k)%nat -> upN t j a <> Some d.
Proof.
  induction n as [|n [IH|(k & Hk & Hd & Hj)]].
  - destruct (decide (upN t 0 a = Some d)) as [H|H].
    + right. exists 0%nat. split_and!; [lia|done|lia].
    + left. intros k Hk. by replace k with 0%nat by lia.
  - destruct (decide (upN t (S n) a = Some d)) as [H|H].
    + right. exists (S n). split_and!; [lia|done|]. intros j Hj. apply IH. lia.
    + left. intros k Hk. destruct (decide (k = S n)) as [->|]; [done|]. apply IH. lia.
  - right. exists k. split_and!; [lia|done..].
Qed.

Lemma Ancestors_nonempty t d p limit ancestors :
  p <> "" -> is_Some (t !! p) -> Ancestors (<[d := p]> t) d (S limit) = (ancestors, false) ->
  (1 <= length ancestors)%nat.
Proof.
  unfold Ancestors. intros Hp [q Hq] Hanc. cbn [ancestorsFrom] in Hanc.
  assert (mapGet (<[d := p]> t) d = p) as Hm by (unfold mapGet; by rewrite lookup_insert_eq).
  rewrite Hm, bool_decide_false in Hanc by done. case_bool_decide as Hpd; [done|].
  rewrite lookup_insert_ne, (bool_decide_false (_ = None)), bool_decide_false in Hanc by (done || set_solver || congruence).
  cbn [orb] in Hanc. destruct (ancestorsFrom _ _ _ _ _) as [x l]. simplify_eq. simpl. lia.
Qed.

Lemma set_parent_depthOk t d p ancestors :
  depthOk t -> p <> "" -> is_Some (t !! p) ->
  Ancestors (<[d := p]> t) d MaxDepth = (ancestors, false) ->
  (length ancestors + Height (<[d := p]> t) d MaxDepth <= MaxDepth)%nat ->
  depthOk (<[d := p]> t).
Proof.
  intros Hd Hp Hex Hanc Hsum n a b Hup.
  pose proof (Height_pos (<[d := p]> t) d) as Hh.
  assert (1 <= length ancestors)%nat as Hl by (by eapply (Ancestors_nonempty t d p 6)).
  destruct (first_visit (<[d := p]> t) d n a) as [Hav|(k & Hk & Hvisit & Hfirst)].
  { eapply Hd. by eapply upN_avoids. }
  assert (n - k <= length ancestors)%nat.
  { eapply (ancestors_complete t d p ancestors Hd Hanc ltac:(lia) (n - k) b).
    replace n with (k + (n - k))%nat in Hup by lia. by rewrite upN_app, Hvisit in Hup. }
  assert (Nat.min (S k) MaxDepth <= Height (<[d := p]> t) d MaxDepth)%nat.
  { apply (heightFrom_lower _ _ _ _ _ a d Hvisit); [set_solver..|].
    intros j x Hj Hx ->%elem_of_singleton. by apply (Hfirst j). }
  lia.
Qed.

Lemma set_parent_ok t d p ancestors :
  treeOk t -> p <> "" -> is_Some (t !! p) ->
  Ancestors (<[d := p]> t) d MaxDepth = (ancestors, false) ->
  (length ancestors + Height (<[d := p]> t) d MaxDepth <= MaxDepth)%nat ->
  treeOk (<[d := p]> t).
Proof.
  intros [Hd Hc] Hp Hex Hanc Hsum. split; [by eapply set_parent_depthOk|].
  intros a q. destruct (decide (a = d)) as [->|Ha].
  - rewrite lookup_insert_eq. intros [= <-] _. rewrite lookup_insert_is_Some. destruct (decide (d = p)); auto.
  - rewrite lookup_insert_ne by done. intros Haq Hq.
    rewrite lookup_insert_is_Some. destruct (decide (d = q)); [auto|]. right. split; [done|by eapply Hc].
Qed.

Lemma set_root_ok t d : treeOk t -> d <> "" -> treeOk (<[d := ""]> t).
Proof.
  intros [Hd Hc] Hne.
  assert (forall a b, up (<[d := ""]> t) a = Some b -> up t a = Some b) as Hup.
  { intros a b (Hab & Hb & Hex)%up_Some. destruct (decide (a = d)) as [->|Ha].
    - rewrite lookup_insert_eq in Hab. naive_solver.
    - rewrite lookup_insert_ne in Hab by done. apply up_Some. split_and!; [done..|]. by eapply Hc. }
  split.
  - intros n a b Hn. apply (Hd n a b). revert a Hn. induction n as [|n IH]; intros a Hn; [done|].
    simpl in Hn |- *. destruct (up (<[d := ""]> t) a) as [q|] eqn:Hq; [|done].
    rewrite (Hup _ _ Hq). by apply IH.
  - intros a q Haq Hq. destruct (decide (a = d)) as [->|Ha].
    + rewrite lookup_insert_eq in Haq. congruence.
    + rewrite lookup_insert_ne in Haq by done. rewrite lookup_insert_is_Some.
      destruct (decide (d = q)); [auto|]. right. split; [done|by eapply Hc].
Qed.

(** The two tests hold of a parent that leaves the tree well formed. *)
Lemma set_parent_complete t d p :
  depthOk (<[d := p]> t) -> d <> "" -> t !! "" = None ->
  exists ancestors, Ancestors (<[d := p]> t) d MaxDepth = (ancestors, false) /\
    (length ancestors + Height (<[d := p]> t) d MaxDepth <= MaxDepth)%nat.
Proof.
  intros Hd Hne He. destruct (Ancestors (<[d := p]> t) d MaxDepth) as [ancestors inLoop] eqn:Hanc.
  destruct (ancestorsFrom_sound t d p _ _ _ _ _ Hanc) as (b & Hb & Hloop). exists ancestors.
  destruct inLoop.
  { exfalso. apply (depthOk_no_cycle _ (length ancestors + 1) d Hd); [lia|].
    rewrite upN_app, Hb. simpl. by rewrite Hloop. }
  split; [done|]. pose proof (Height_pos (<[d := p]> t) d) as Hh.
  destruct (heightFrom_upper (<[d := p]> t) MaxDepth {[d]} [d]) as (a & y & Hy & Ha); [| |done|done|].
  - intros x ->%list_elem_of_singleton. rewrite lookup_insert_eq. eauto.
  - intros x [v Hx] ->. rewrite lookup_insert_ne in Hx by done. congruence.
  - apply list_elem_of_singleton in Hy as ->. fold (Height (<[d := p]> t) d MaxDepth) in Ha.
    assert (Height (<[d := p]> t) d MaxDepth - 1 + length ancestors < MaxDepth)%nat; [|lia].
    eapply (Hd _ a b). by rewrite upN_app, Ha.
Qed.
