(* ===== verification/ProjectCommon.v ===== *)
(** * Shared code of the project controller

    [pkg/project-controller]: the configuration ([config/config.go]), the
    helpers of [common/common.go] and the conditions and selectors of
    [handlers/utils.go]. *)

From stdpp Require Import base list gmap strings.
From S2P Require Import Prelude ApiTypes NodePoolUtils.

(** ** Configuration *)

(** The fields that the reconcilers read; the ports, certificates, profiler and
    client rate options of the process are left out. *)
Record ProjectReconcilerConfig := {
  CreateNamespaces : bool;
  CreateRoleBindings : bool;
  RoleBindingsCm : string;
  RoleBindingsCmNamespace : string;
  cfgLimitRange : bool;
  IsOpenshift : bool;
  NodePoolLabelKey : string;
  DefaultNodepoolName : string;
  NamespaceProjectLabelKey : string;
  ProjectLabelKey : string;
  ProjectIdLabelKey : string;
  QueueDepartmentNameLabelKey : string;
  NamespaceVersionLabelKey : string;
  EnforceSchedulerAnnotationKey : string;
  FinalizerDomain : string;
  InstallNamespace : string;
  ProjectNamePrefix : string;
  ResourceManualOverrideLabelKey : string;
  AllowExternalQueues : bool;
  LimitRangeName : string;
  GvkDeleteBlockersNamespace : string;
}.

Definition ProjectKind := "Project".
Definition DepartmentKind := "Department".
Definition ForceDeleteAnnotation := "kai/force-delete".

Definition CoreV1ApiVersion := "v1".
Definition NamespaceKind := "Namespace".
Definition RbacGroup := "rbac.authorization.k8s.io".
Definition ServiceAccountKind := "ServiceAccount".
Definition ClusterRoleKind := "ClusterRole".
Definition OcpClusterMonitoringLabel := "openshift.io/cluster-monitoring".
Definition ManagedByLabel := "app.kubernetes.io/managed-by".
Definition ProjectControllerName := "project-controller".
Definition FailedGetNamespaceStatusMsg := "Failed to get namespace for project".
Definition ProjectsNamespaceNotFoundStatusMsg := "Can't find namespace for project".
Definition QueueLabelMissingFromNamespaceStatusMsg := "label missing from namespace".
Definition FailedUpdateNamespaceStatusMsg := "Failed to update namespace for project".
Definition FailedCreateNamespaceStatusMsg := "Failed to create namespace for project".
Definition AgentNamespaceVersion := "v2".
Definition DefaultLimitRangeConfigMapName := "default-limit-range".
Definition CpuResourceName := "cpu".
Definition MemoryResourceName := "memory".
Definition CpuDefaultRequest := "cpuDefaultRequest".
Definition MemoryDefaultRequest := "memoryDefaultRequest".
Definition CpuDefaultLimit := "cpuDefaultLimit".
Definition MemoryDefaultLimit := "memoryDefaultLimit".
Definition CpuMaxLimit := "cpuMaxLimit".
Definition MemoryMaxLimit := "memoryMaxLimit".
Definition GvkDeleteBlockersConfigMapName := "project-delete-blockers".

(** ** Lists of strings *)

Fixpoint indexOfStringFrom (i : Z) (term : string) (items : list string) : Z :=
  match items with
  | [] => -1
  | element :: rest => if element ==? term then i else indexOfStringFrom (i + 1) term rest
  end.

Definition IndexOfString (term : string) (items : list string) : Z := indexOfStringFrom 0 term items.

Definition ContainsString (term : string) (items : list string) : bool :=
  bool_decide (-1 < IndexOfString term items)%Z.

(** The found term is overwritten with the last element, and the last element
    dropped.  A nil and an empty list are the same value. *)
Definition DeleteTerm (term : string) (items : list string) : list string :=
  let indexOfTerm := IndexOfString term items in
  if bool_decide (indexOfTerm < 0)%Z then items
  else take (length items - 1) (<[Z.to_nat indexOfTerm := default "" (last items)]> items).

(** ** Ownership *)

(** [isOwnedByUID] and [isOwnedByKind] of [handlers/queue_resource_handler.go]. *)
Definition isOwnedByUID (ownerRefs : list OwnerReference) (ownerUID : string) : bool :=
  existsb (fun ref => OwnerUID ref ==? ownerUID) ownerRefs.

Definition isOwnedByKind (ownerRefs : list OwnerReference) (kind : string) : bool :=
  existsb (fun ref => OwnerKind ref ==? kind) ownerRefs.

Section Common.
Context (cfg : ProjectReconcilerConfig).
(** [schema.ParseGroupVersion]: the group of an API version, and the group of
    the KAI resource management API. *)
Context (groupOf : string -> option string) (kaiGroup : string).

Definition finalizerSuffix := ".finalizers.project".
Definition departmentFinalizerSuffix := ".finalizers.department".
Definition namespacePrefixSuffix := "-".

Definition FinalizerName : string := FinalizerDomain cfg +:+ finalizerSuffix.
Definition DepartmentFinalizerName : string := FinalizerDomain cfg +:+ departmentFinalizerSuffix.
Definition NamespacePrefix : string := ProjectNamePrefix cfg +:+ namespacePrefixSuffix.

Definition IsManuallyOverridden (m : ObjectMeta) : bool :=
  toLower (mapGet (Labels m) (ResourceManualOverrideLabelKey cfg)) ==? "true".

Definition IsForceDelete (m : ObjectMeta) : bool :=
  toLower (mapGet (Annotations m) ForceDeleteAnnotation) ==? "true".

Fixpoint ProjectOrDepartmentOwner (refs : list OwnerReference) : option OwnerReference :=
  match refs with
  | [] => None
  | ref :: rest =>
      if (OwnerKind ref !=? ProjectKind) && (OwnerKind ref !=? DepartmentKind)
      then ProjectOrDepartmentOwner rest
      else if bool_decide (groupOf (OwnerAPIVersion ref) = Some kaiGroup) then Some ref
      else ProjectOrDepartmentOwner rest
  end.

Fixpoint projectOwnerFrom (i : Z) (project : Project) (refs : list OwnerReference) : Z :=
  match refs with
  | [] => -1
  | ref :: rest =>
      if (OwnerKind ref ==? ProjectKind) && (OwnerUID ref ==? UID (prjMeta project))
         && (OwnerName ref ==? Name (prjMeta project))
      then i else projectOwnerFrom (i + 1) project rest
  end.

Definition IsProjectOwner (project : Project) (m : ObjectMeta) : Z :=
  projectOwnerFrom 0 project (OwnerReferences m).

(** ** The namespace of a project *)

Definition matchingLabel (k v : string) : ListOptions :=
  {| loNamespace := ""; loLabelSelector := []; loMatchingLabels := {[k := v]}; loFieldSelector := None |}.

Definition GetQueuesForProjectByLabel (projectName : string) : kube (result (list Queue)) :=
  call (List KQueue (matchingLabel (ProjectLabelKey cfg) projectName)).

(** The error carries whether the namespace was not found. *)
Definition projectToNamespace (project : string) : kube ((bool * error) + string) :=
  r <- call (List KNamespace (matchingLabel (NamespaceProjectLabelKey cfg) project)) ;;
  match r with
  | inl err => Ret (inl (false, err))
  | inr [] =>
      Ret (inl (true, Errorf "no namespace found to have %s label with the name of the project"
                        [NamespaceProjectLabelKey cfg]))
  | inr [item] => Ret (inr (Name (nsMeta item)))
  | inr (item1 :: item2 :: _) =>
      Ret (inl (false,
        Errorf "multiple namespaces found to have %s label with the name of the project (%s, %s, ...)"
          [NamespaceProjectLabelKey cfg; Name (nsMeta item1); Name (nsMeta item2)]))
  end.

(** The method of the handlers drops the flag. *)
Definition namespaceOf (r : (bool * error) + string) : result string :=
  match r with inl (_, err) => inl err | inr ns => inr ns end.

Definition KaiProjectToNamespace (project : Project) : kube ((bool * error) + string) :=
  if stNamespace (prjStatus project) !=? "" then Ret (inr (stNamespace (prjStatus project)))
  else projectToNamespace (Name (prjMeta project)).

Definition handlerProjectToNamespace (project : Project) : kube (result string) :=
  r <- KaiProjectToNamespace project ;; Ret (namespaceOf r).

(** ** Conditions ([handlers/utils.go])

    Project and department conditions have the same fields; the two copies of
    the Go functions are these. *)

Fixpoint conditionIndexFrom (i : nat) (conditions : list Condition) (conditionType : string)
    : option (nat * Condition) :=
  match conditions with
  | [] => None
  | c :: rest => if condType c ==? conditionType then Some (i, c) else conditionIndexFrom (S i) rest conditionType
  end.

Definition GetConditionFromList (conditions : list Condition) (conditionType : string) : option (nat * Condition) :=
  conditionIndexFrom 0 conditions conditionType.

(** The new conditions, and whether something changed.  [now] is [metav1.Now()]. *)
Definition UpdateCondition (now : Z) (conditions : list Condition) (condition : Condition) : list Condition * bool :=
  let stamp t := {| condType := condType condition; condStatus := condStatus condition;
                    condReason := condReason condition; condMessage := condMessage condition;
                    LastProbeTime := LastProbeTime condition; LastTransitionTime := t |} in
  match GetConditionFromList conditions (condType condition) with
  | None => (conditions ++ [stamp now], true)
  | Some (conditionIndex, oldCondition) =>
      let condition :=
        stamp (if condStatus condition ==? condStatus oldCondition then LastTransitionTime oldCondition else now) in
      let isEqual :=
        (condStatus condition ==? condStatus oldCondition) && (condReason condition ==? condReason oldCondition)
        && (condMessage condition ==? condMessage oldCondition)
        && (LastProbeTime condition ==? LastProbeTime oldCondition)
        && (LastTransitionTime condition ==? LastTransitionTime oldCondition) in
      (<[conditionIndex := condition]> conditions, negb isEqual)
  end.

(** The copies of the two functions for departments. *)
Definition GetDepartmentConditionFromList := GetConditionFromList.
Definition UpdateDepartmentCondition := UpdateCondition.

(** [UpdateProjectConditions]: one clock reading per condition. *)
Fixpoint UpdateProjectConditions (conditions : list Condition) (updates : list Condition)
    : kube (list Condition * bool) :=
  match updates with
  | [] => Ret (conditions, false)
  | u :: rest =>
      now <- call Now ;;
      let '(conditions, changed) := UpdateCondition now conditions u in
      r <- UpdateProjectConditions conditions rest ;;
      Ret (r.1, r.2 || changed)
  end.

Definition ConditionTrue := "True".
Definition ConditionFalse := "False".

Definition GetStatusFromError (err : option error) : string :=
  match err with None => ConditionTrue | Some _ => ConditionFalse end.

Definition getReasonFromError (err : option error) (reason : string) : string :=
  match err with None => "" | Some _ => reason end.

(** The error of a result. *)
Definition errOf {A} (r : result A) : option error :=
  match r with inl e => Some e | inr _ => None end.

(** [GetMessageFromError]; [errorText] is [err.Error()]. *)
Definition GetMessageFromError (errorText : error -> string) (err : option error) : string :=
  match err with None => "" | Some e => errorText e end.

(** [AppendErrIfNotNil] on the collected errors. *)
Definition AppendErrIfNotNil (errs : list error) (innerErr : result unit) : list error :=
  match innerErr with inl e => appendErr errs e | inr _ => errs end.

(** A condition as a handler reports it: both times are zero. *)
Definition newCondition (type status reason message : string) : Condition :=
  {| condType := type; condStatus := status; condReason := reason; condMessage := message;
     LastProbeTime := 0; LastTransitionTime := 0 |}.

Definition GetObjectNodePoolFromLabels (labels : gmap string string) : string :=
  default (DefaultNodepoolName cfg) (labels !! NodePoolLabelKey cfg).

(** [ShouldPatchAnnotations]: a [None] in the patch clears the annotation. *)
Definition ShouldPatchAnnotations (annotations : gmap string string) (patch : gmap string (option string)) : bool :=
  existsb (fun kv =>
    let curValue := annotations !! kv.1 in
    match kv.2 with
    | None => bool_decide (is_Some curValue)
    | Some v => curValue !=? Some v
    end) (map_to_list patch).

End Common.
