(* ===== verification/Validation.v ===== *)
(** * The validating webhooks of the project controller

    [pkg/project-controller/webhooks/validation]: departments, projects and
    queues. *)

From stdpp Require Import base list gmap strings.
From S2P Require Import Prelude ApiTypes NodePoolUtils Hierarchy ProjectCommon.

(** ** Errors ([errors.go]) *)

Definition newInternalError (err : error) : error := InternalError err.

(** [errors.AsType[*internalError](err)]. *)
Fixpoint isInternal (e : error) : bool :=
  match e with
  | InternalError _ => true
  | Wrapf _ _ c => isInternal c
  | Joined cs => existsb isInternal cs
  | APIError _ _ | Errorf _ _ | Textf _ _ _ | RuntimePanic _ | Typed _ _ => false
  end.

(** An admission response of a validating webhook. *)
Inductive ValidationResponse :=
| AdmAllowed
| AdmDenied (err : error)
| AdmErrored (code : Z) (err : error).

Definition StatusBadRequest : Z := 400.
Definition StatusInternalServerError : Z := 500.

Definition toAdmissionResponse (err : error) : ValidationResponse :=
  if isInternal err then AdmErrored StatusInternalServerError err else AdmDenied err.

Section Validator.
Context (groupOf : string -> option string) (kaiGroup : string).

(** ** Node pools of queues ([handler.go]) *)

Definition nodePoolNameSet (nodePools : list NodePool) : gset string :=
  list_to_set ((fun np => Name (npMeta np)) <$> nodePools).

Definition listNodePoolNames : kube (result (gset string)) :=
  r <- call (List KNodePool listAll) ;;
  match r with
  | inl err => Ret (inl (newInternalError err))
  | inr nodePoolList => Ret (inr (nodePoolNameSet nodePoolList))
  end.

(** The loop over the queues. *)
Fixpoint checkQueueNodePools (existingNodePools seenQueues : gset string) (queues : list QueueConfig)
    (errs : list error) : list error :=
  match queues with
  | [] => errs
  | queue :: rest =>
      if qcNodepool queue ==? "" then
        checkQueueNodePools existingNodePools seenQueues rest
          (appendErr errs (Errorf "queue %q: node pool must not be empty" [qcName queue]))
      else if bool_decide (qcNodepool queue ∈ seenQueues) then
        checkQueueNodePools existingNodePools seenQueues rest
          (appendErr errs (Errorf "queue %q: node pool %q is already referenced by another queue"
                             [qcName queue; qcNodepool queue]))
      else
        let seenQueues := {[qcNodepool queue]} ∪ seenQueues in
        if bool_decide (qcNodepool queue ∉ existingNodePools) then
          checkQueueNodePools existingNodePools seenQueues rest
            (appendErr errs (Errorf "queue %q: node pool %q does not exist" [qcName queue; qcNodepool queue]))
        else checkQueueNodePools existingNodePools seenQueues rest errs
  end.

Definition validateQueueNodePoolsExist (queues : list QueueConfig) : kube (result unit) :=
  match queues with
  | [] => Ret (inr tt)
  | _ =>
      r <- listNodePoolNames ;;
      match r with
      | inl err => Ret (inl (Wrapf "failed to list node pools: %w" [] err))
      | inr existingNodePools => Ret (errorOf (checkQueueNodePools existingNodePools ∅ queues []))
      end
  end.

(** ** Projects ([project.go]) *)

Definition getParentDepartment (name : string) : kube (result Department) :=
  r <- call (Get KDepartment ("", name)) ;;
  r <- match r with
       | inl err => if IsNotFound err then call (GetLive KDepartment ("", name)) else Ret (inl err)
       | inr d => Ret (inr d)
       end ;;
  match r with
  | inl err =>
      if IsNotFound err then Ret (inl (Errorf "parent department %q does not exist" [name]))
      else Ret (inl (newInternalError (Wrapf "failed to get parent department %q: %w" [name] err)))
  | inr department => Ret (inr department)
  end.

Definition validateParent (parent : string) : kube (result unit) :=
  if parent ==? "" then Ret (inr tt)
  else _ <-? getParentDepartment parent ;; Ret (inr tt).

Definition validateDefaultNodePoolsHaveQueues (defaultNodePools : list string) (queues : list QueueConfig)
    : result unit :=
  let queueNodePools : gset string := list_to_set (qcNodepool <$> queues) in
  errorOf (foldl (fun errs nodePool =>
      if bool_decide (nodePool ∈ queueNodePools) then errs
      else appendErr errs (Errorf "the nodepool %q from the DefaultNodePools list has no queue defined in the spec"
                             [nodePool])) [] defaultNodePools).

(** [errs = multierror.Append(errs, err)] when [err] is not nil. *)
Definition collect (errs : list error) (r : result unit) : list error :=
  match r with inl err => appendErr errs err | inr _ => errs end.

Definition validateProject (project : Project) : kube (result unit) :=
  r1 <- validateParent (prjParent project) ;;
  r2 <- validateQueueNodePoolsExist (prjQueues project) ;;
  let r3 := validateDefaultNodePoolsHaveQueues (DefaultNodePools project) (prjQueues project) in
  Ret (errorOf (collect (collect (collect [] r1) r2) r3)).

(** ** Departments ([department.go]) *)

(** The tests of the tree with the new parent. *)
Definition checkDepartmentTree (tree : Tree) (name parentName : string) : result unit :=
  let '(ancestors, inLoop) := Ancestors tree name MaxDepth in
  if inLoop then
    inl (Errorf "department %q cannot have parent %q: that would make a loop: %s"
           [name; parentName; String.concat " -> " ([name] ++ ancestors ++ [name])])
  else if bool_decide (MaxDepth < length ancestors + Height tree name MaxDepth)%nat then
    inl (Errorf "department %q cannot have parent %q: departments can nest at most %d levels deep, and this would nest them deeper"
           [name; parentName; "7"])
  else inr tt.

Definition validateDepartmentParent (department : Department) : kube (result unit) :=
  let parentName := depParent department in
  if parentName ==? "" then Ret (inr tt) else
  parent <-? getParentDepartment parentName ;;
  match DeletionTimestamp (depMeta parent) with
  | Some _ => Ret (inl (Errorf "parent department %q is being deleted" [parentName]))
  | None =>
      r <- call (List KDepartment listAll) ;;
      match r with
      | inl err => Ret (inl (newInternalError (Wrapf "failed to list departments: %w" [] err)))
      | inr departmentList =>
          let tree := NewTree departmentList in
          let tree := <[Name (depMeta parent) := depParent parent]> tree in
          let tree := <[Name (depMeta department) := parentName]> tree in
          Ret (checkDepartmentTree tree (Name (depMeta department)) parentName)
      end
  end.

Definition validateDepartment (department : Department) (oldDepartment : option Department) : kube (result unit) :=
  r1 <- validateQueueNodePoolsExist (depQueues department) ;;
  r2 <- (if match oldDepartment with
            | None => true
            | Some old => depParent old !=? depParent department
            end
         then validateDepartmentParent department else Ret (inr tt)) ;;
  Ret (errorOf (collect (collect [] r1) r2)).

(** ** Queues ([queue.go]) *)

Definition validateQueue (queue : Queue) (oldQueue : option Queue) : kube (result unit) :=
  let parentName := ParentQueue (qSpec queue) in
  if match oldQueue with Some old => ParentQueue (qSpec old) ==? parentName | None => false end
  then Ret (inr tt)
  else if parentName ==? "" then Ret (inr tt)
  else
    match ProjectOrDepartmentOwner groupOf kaiGroup (OwnerReferences (qMeta queue)) with
    | Some _ => Ret (inr tt)
    | None =>
        r <- call (Get KQueue ("", parentName)) ;;
        match r with
        | inl err =>
            if IsNotFound err then Ret (inr tt)
            else Ret (inl (newInternalError (Wrapf "failed to get parent queue %q: %w" [parentName] err)))
        | inr parent =>
            match ProjectOrDepartmentOwner groupOf kaiGroup (OwnerReferences (qMeta parent)) with
            | None => Ret (inr tt)
            | Some owner =>
                Ret (inl (Errorf "queue %q cannot use %q as its parent queue: %q is managed by KAI Resource Management (%s %q), which supports only its own queue tree. Choose a parent queue that KAI Resource Management does not manage, or create a Project instead of this queue"
                            [Name (qMeta queue); parentName; parentName; OwnerKind owner; OwnerName owner]))
            end
        end
    end.

(** ** The handler ([handler.go])

    A request carries its kind, and the new (and on update the old) object as
    JSON decoding left them. *)
Inductive Request :=
| ReqProject (raw : result Project)
| ReqDepartment (raw : result Department) (old : option (result Department))
| ReqQueue (raw : result Queue) (old : option (result Queue))
| ReqOther (kind : string).

Definition badRequest (what : string) (err : error) : ValidationResponse :=
  AdmErrored StatusBadRequest (Wrapf "failed to unmarshal %s: %w" [what] err).

Definition respond (p : kube (result unit)) : kube ValidationResponse :=
  r <- p ;;
  match r with inl err => Ret (toAdmissionResponse err) | inr _ => Ret AdmAllowed end.

(** The decoded old object, or the response to a bad one. *)
Definition decodeOld {A} (what : string) (old : option (result A)) : ValidationResponse + option A :=
  match old with
  | None => inr None
  | Some (inl err) => inl (badRequest what err)
  | Some (inr o) => inr (Some o)
  end.

Definition Handle (req : Request) : kube ValidationResponse :=
  match req with
  | ReqProject (inl err) => Ret (badRequest "project" err)
  | ReqProject (inr project) => respond (validateProject project)
  | ReqDepartment (inl err) _ => Ret (badRequest "department" err)
  | ReqDepartment (inr department) old =>
      match decodeOld "old department" old with
      | inl resp => Ret resp
      | inr oldDepartment => respond (validateDepartment department oldDepartment)
      end
  | ReqQueue (inl err) _ => Ret (badRequest "queue" err)
  | ReqQueue (inr queue) old =>
      match decodeOld "old queue" old with
      | inl resp => Ret resp
      | inr oldQueue => respond (validateQueue queue oldQueue)
      end
  | ReqOther kind => Ret (AdmErrored StatusBadRequest (Errorf "unexpected resource kind %q" [kind]))
  end.

End Validator.
