(* ===== verification/ValidationFacts.v ===== *)
(** * Properties of the validating webhooks

    The department webhook keeps the department tree loop free and at most
    seven levels deep; the node pools of queues; outages are reported as
    retryable errors; external queues stay outside the managed queue tree. *)

From stdpp Require Import base list gmap strings.
From S2P Require Import Prelude ApiTypes NodePoolUtils Hierarchy ProjectCommon Validation.

(** ** Departments *)

Lemma exec_getParentDepartment name tr r :
  exec (getParentDepartment name) tr r ->
  match r with
  | inr d => Event (Get KDepartment ("", name)) (inr d) ∈ tr \/ Event (GetLive KDepartment ("", name)) (inr d) ∈ tr
  | inl _ => True
  end.
Proof.
  intros (r1 & tr1 & -> & H). destruct r1 as [e|d]; simpl in H.
  - destruct (IsNotFound e); simpl in H.
    + destruct H as (r2 & tr2 & -> & H). destruct r2 as [e'|d]; simpl in H.
      * destruct (IsNotFound e'); by destruct H as [_ ->].
      * destruct H as [-> ->]. right. apply elem_of_cons. right. by left.
    + by destruct (IsNotFound e), H as [_ ->].
  - destruct H as [-> ->]. left. by left.
Qed.

(** The tree the webhook checks before the change: the listed departments with
    the parent as it was read. *)
Definition listedTree (departments : list Department) (parent : Department) : Tree :=
  <[Name (depMeta parent) := depParent parent]> (NewTree departments).

(** What the webhook tests of the tree after the change. *)
Definition parentAccepted (t' : Tree) (d : string) : Prop :=
  exists ancestors, Ancestors t' d MaxDepth = (ancestors, false) /\
    (length ancestors + Height t' d MaxDepth <= MaxDepth)%nat.

Lemma checkDepartmentTree_spec t' d p : checkDepartmentTree t' d p = inr tt <-> parentAccepted t' d.
Proof.
  unfold checkDepartmentTree, parentAccepted. destruct (Ancestors t' d MaxDepth) as [ancestors inLoop].
  destruct inLoop; [naive_solver|]. case_bool_decide.
  - split; [done|]. intros (x & [= <-] & ?). lia.
  - split; [|done]. intros _. exists ancestors. split; [done|]. lia.
Qed.

Lemma exec_validateDepartmentParent d tr :
  exec (validateDepartmentParent d) tr (inr tt) -> depParent d <> "" ->
  exists parent ds, DeletionTimestamp (depMeta parent) = None /\
    (Event (Get KDepartment ("", depParent d)) (inr parent) ∈ tr \/
     Event (GetLive KDepartment ("", depParent d)) (inr parent) ∈ tr) /\
    Event (List KDepartment listAll) (inr ds) ∈ tr /\
    parentAccepted (<[Name (depMeta d) := depParent d]> (listedTree ds parent)) (Name (depMeta d)).
Proof.
  unfold validateDepartmentParent. intros Hex Hne. rewrite bool_decide_false in Hex by done.
  apply exec_bind_inv in Hex as (tr1 & tr2 & [e|parent] & -> & Hp & Hex); [by destruct Hex|].
  apply exec_getParentDepartment in Hp.
  destruct (DeletionTimestamp (depMeta parent)) eqn:Hdel; [by destruct Hex|].
  destruct Hex as ([e|ds] & tr3 & -> & Hex); [by destruct Hex|].
  destruct Hex as [-> Hok]. symmetry in Hok. apply checkDepartmentTree_spec in Hok.
  exists parent, ds. rewrite !elem_of_app, !list_elem_of_singleton. split_and!; [done|naive_solver|by right|auto].
Qed.

(** The department webhook protects the tree: when it accepts a parent, the
    parent was read, is not being deleted, and if the tree it read was loop free,
    at most [MaxDepth] levels deep and closed, so is the tree with the new
    parent.  Accepting a department without a parent keeps the tree so
    too. *)
Theorem validateDepartmentParent_protects d tr :
  exec (validateDepartmentParent d) tr (inr tt) -> Name (depMeta d) <> "" ->
  (depParent d = "" -> forall t, treeOk t -> treeOk (<[Name (depMeta d) := ""]> t)) /\
  (depParent d <> "" ->
   exists parent ds, DeletionTimestamp (depMeta parent) = None /\
     (Event (Get KDepartment ("", depParent d)) (inr parent) ∈ tr \/
      Event (GetLive KDepartment ("", depParent d)) (inr parent) ∈ tr) /\
     Event (List KDepartment listAll) (inr ds) ∈ tr /\
     (Name (depMeta parent) = depParent d -> treeOk (listedTree ds parent) ->
      treeOk (<[Name (depMeta d) := depParent d]> (listedTree ds parent)))).
Proof.
  intros Hex Hname. split.
  - intros _ t Ht. by apply set_root_ok.
  - intros Hne. destruct (exec_validateDepartmentParent d tr Hex Hne) as (parent & ds & ? & ? & ? & anc & Hanc & Hsum).
    exists parent, ds. split_and!; [done..|]. intros Hpn Hok. eapply set_parent_ok; [done..| |exact Hanc|exact Hsum].
    unfold listedTree. rewrite Hpn, lookup_insert_eq. eauto.
Qed.

(** The API answers department reads with [parent] and lists [ds]. *)
Definition readsDepartments (parent : Department) (ds : list Department) : forall X, KubeCall X -> X -> Prop := fun X c =>
  match c in KubeCall X return X -> Prop with
  | Get K _ | GetLive K _ =>
      match K return result (obj K) -> Prop with
      | KDepartment => fun reply => reply = inr parent
      | _ => fun _ => True
      end
  | List K _ =>
      match K return result (list (obj K)) -> Prop with
      | KDepartment => fun reply => reply = inr ds
      | _ => fun _ => True
      end
  | _ => fun _ => True
  end.

(** C8: The department webhook does not over-reject: with the parent read and
    not being deleted, and the tree it read well formed, a parent is accepted
    exactly when the tree with it is loop free and at most [MaxDepth] levels
    deep. *)
Theorem validateDepartmentParent_exact d parent ds tr r :
  depParent d <> "" -> Name (depMeta d) <> "" -> DeletionTimestamp (depMeta parent) = None ->
  Name (depMeta parent) = depParent d -> listedTree ds parent !! "" = None -> treeOk (listedTree ds parent) ->
  exec (validateDepartmentParent d) tr r ->
  Forall (fun e => readsDepartments parent ds _ (ev_call e) (ev_reply e)) tr ->
  (r = inr tt <-> treeOk (<[Name (depMeta d) := depParent d]> (listedTree ds parent))).
Proof.
  intros Hne Hname Hdel Hpn He Hok Hex Hall. unfold validateDepartmentParent in Hex.
  rewrite bool_decide_false in Hex by done.
  destruct Hex as (reply & tr1 & -> & Hex). apply Forall_cons in Hall as [Hr Hall]. simpl in Hr. subst reply.
  simpl in Hex. rewrite Hdel in Hex.
  destruct Hex as (reply & tr2 & -> & Hex). apply Forall_cons in Hall as [Hr Hall]. simpl in Hr. subst reply.
  destruct Hex as [_ ->]. setoid_rewrite checkDepartmentTree_spec. split.
  - intros (anc & Hanc & Hsum). eapply set_parent_ok; [done..| |exact Hanc|exact Hsum].
    unfold listedTree. rewrite Hpn, lookup_insert_eq. eauto.
  - intros [Hd _]. by apply set_parent_complete.
Qed.

(** ** Node pools of queues *)

Lemma checkQueueNodePools_app existing seen queues errs :
  checkQueueNodePools existing seen queues errs = errs ++ checkQueueNodePools existing seen queues [].
Proof.
  revert seen errs. induction queues as [|q queues IH]; intros seen errs; simpl; [by rewrite app_nil_r|].
  repeat case_bool_decide; rewrite IH; [rewrite (IH _ (appendErr _ _))..|done];
    unfold appendErr; by rewrite <- app_assoc.
Qed.

Lemma checkQueueNodePools_nil existing seen queues :
  checkQueueNodePools existing seen queues [] = [] <->
  (forall n, n ∈ (qcNodepool <$> queues) -> n <> "" /\ n ∈ existing /\ n ∉ seen) /\ NoDup (qcNodepool <$> queues).
Proof.
  revert seen. induction queues as [|q queues IH]; intros seen; cbn [checkQueueNodePools].
  { split; [|done]. intros _. split; [set_solver|constructor]. }
  rewrite fmap_cons, NoDup_cons. setoid_rewrite elem_of_cons.
  repeat case_bool_decide;
    try (rewrite checkQueueNodePools_app; split; [done|]; intros [Hall _];
         by destruct (Hall _ (or_introl eq_refl)) as (?&?&?)).
  rewrite IH. split.
  - intros [Hall Hnd]. split_and!; [|set_solver|done]. intros n [->|Hn]; [split_and!; [done| |done]; by destruct (decide (qcNodepool q ∈ existing))|].
    destruct (Hall n Hn) as (?&?&?). set_solver.
  - intros (Hall & Hq & Hnd). split; [|done]. intros n Hn. destruct (Hall n (or_intror Hn)) as (?&?&?).
    split_and!; [done..|]. set_solver.
Qed.

(** The API lists the node pools [nps]. *)
Definition listsNodePools (nps : list NodePool) : forall X, KubeCall X -> X -> Prop := fun X c =>
  match c in KubeCall X return X -> Prop with
  | List K _ =>
      match K return result (list (obj K)) -> Prop with
      | KNodePool => fun reply => reply = inr nps
      | _ => fun _ => True
      end
  | _ => fun _ => True
  end.

(** The queues of a project or department are accepted exactly when every
    queue names a node pool, no pool is named twice, and every named pool
    exists. *)
Theorem validateQueueNodePoolsExist_exact queues nps tr r :
  exec (validateQueueNodePoolsExist queues) tr r ->
  Forall (fun e => listsNodePools nps _ (ev_call e) (ev_reply e)) tr ->
  (r = inr tt <->
   (forall n, n ∈ (qcNodepool <$> queues) -> n <> "" /\ exists np, np ∈ nps /\ Name (npMeta np) = n) /\
   NoDup (qcNodepool <$> queues)).
Proof.
  destruct queues as [|q queues].
  { intros [-> ->] _. split; [|done]. intros _. split; [set_solver|constructor]. }
  intros (reply & tr' & -> & Hex) [Hr _]%Forall_cons. simpl in Hr. subst reply.
  cbn -[checkQueueNodePools] in Hex. destruct Hex as [_ ->].
  assert (forall errs, errorOf errs = inr tt <-> errs = []) as -> by (intros []; split; done).
  rewrite checkQueueNodePools_nil. unfold nodePoolNameSet.
  split; (intros [Hall Hnd]; split; [|done]); intros n Hn; destruct (Hall n Hn) as [? H].
  - split; [done|]. destruct H as [(np & -> & ?)%elem_of_list_to_set%list_elem_of_fmap _]. eauto.
  - destruct H as (np & ? & <-). split_and!; [done| |set_solver].
    apply elem_of_list_to_set, list_elem_of_fmap. eauto.
Qed.

Lemma foldl_errors {A} (P : A -> Prop) `{forall a, Decision (P a)} (f : A -> string) fmt (l : list A) errs :
  foldl (fun errs a => if bool_decide (P a) then errs else appendErr errs (Errorf fmt [f a])) errs l = [] <->
  errs = [] /\ Forall P l.
Proof.
  revert errs. induction l as [|a l IH]; intros errs; simpl; [by rewrite Forall_nil; naive_solver|].
  rewrite IH, Forall_cons. case_bool_decide; [naive_solver|]. unfold appendErr. split; [|naive_solver].
  intros [Hnil _]. by destruct errs.
Qed.

(** The default node pools of a project are accepted exactly when each is
    the node pool of a queue of the same spec. *)
Theorem validateDefaultNodePoolsHaveQueues_exact pools queues :
  validateDefaultNodePoolsHaveQueues pools queues = inr tt <->
  forall n, n ∈ pools -> n ∈ (qcNodepool <$> queues).
Proof.
  unfold validateDefaultNodePoolsHaveQueues.
  assert (forall errs, errorOf errs = inr tt <-> errs = []) as -> by (intros []; split; done).
  rewrite (foldl_errors (fun n => n ∈ (list_to_set (qcNodepool <$> queues) : gset string)) id), Forall_forall.
  setoid_rewrite elem_of_list_to_set. naive_solver.
Qed.

(** ** Outages *)

(** A read that failed for another reason than a missing object. *)
Definition failedRead (e : event KubeCall) : bool :=
  match ev_call e in KubeCall X return X -> bool with
  | Get _ _ | GetLive _ _ => fun reply => match reply with inl err => negb (IsNotFound err) | inr _ => false end
  | List _ _ => fun reply => match reply with inl _ => true | inr _ => false end
  | _ => fun _ => false
  end (ev_reply e).

Definition internalResult (r : result unit) : bool := match r with inl e => isInternal e | inr _ => false end.

(** The result is an internal error exactly when a read failed. *)
Definition reportsOutages (p : kube (result unit)) : Prop :=
  forall tr r, exec p tr r -> internalResult r = existsb failedRead tr.

Lemma collect_internal errs r :
  existsb isInternal (collect errs r) = existsb isInternal errs || internalResult r.
Proof.
  destruct r as [e|[]]; simpl; [|by rewrite orb_false_r]. unfold appendErr.
  rewrite existsb_app. f_equal. destruct e as [| | | | | | |[]]; simpl; by rewrite ?orb_false_r.
Qed.

Lemma errorOf_internal errs : internalResult (errorOf errs) = existsb isInternal errs.
Proof. by destruct errs. Qed.

Lemma exec_getParentDepartment_outage name tr r :
  exec (getParentDepartment name) tr r ->
  match r with inl e => isInternal e | inr _ => false end = existsb failedRead tr.
Proof.
  intros ([e|d] & tr1 & -> & H); simpl in H.
  - destruct (IsNotFound e) eqn:He; simpl in H.
    + destruct H as ([e'|d] & tr2 & -> & H); simpl in H; [|destruct H as [-> ->]; by cbn; rewrite He].
      destruct (IsNotFound e') eqn:He'; destruct H as [-> ->]; cbn; by rewrite He, He'.
    + rewrite He in H. destruct H as [-> ->]. cbn. by rewrite He.
  - by destruct H as [-> ->].
Qed.

Lemma validateQueueNodePools_outage queues : reportsOutages (validateQueueNodePoolsExist queues).
Proof.
  intros tr r. destruct queues as [|q queues]; [by intros [-> ->]|].
  intros ([e|nps] & tr1 & -> & [-> ->]); [done|].
  transitivity false; [|done]. rewrite errorOf_internal.
  generalize (nodePoolNameSet nps) (∅ : gset string) (q :: queues). clear. intros ex seen qs. revert seen.
  induction qs as [|q0 qs IH]; intros seen; simpl; [done|].
  repeat case_bool_decide; rewrite ?(checkQueueNodePools_app _ _ _ (appendErr _ _)); simpl; apply IH.
Qed.

Lemma validateParent_outage parent : reportsOutages (validateParent parent).
Proof.
  intros tr r. unfold validateParent. case_bool_decide; [by intros [-> ->]|].
  intros (tr1 & tr2 & r1 & -> & H1 & H2)%exec_bind_inv. apply exec_getParentDepartment_outage in H1.
  rewrite existsb_app, <- H1. destruct r1 as [e|d]; destruct H2 as [-> ->]; simpl; by rewrite ?orb_false_r.
Qed.

Lemma validateDepartmentParent_outage d : reportsOutages (validateDepartmentParent d).
Proof.
  intros tr r. unfold validateDepartmentParent. case_bool_decide; [by intros [-> ->]|].
  intros (tr1 & tr2 & r1 & -> & H1 & H2)%exec_bind_inv. apply exec_getParentDepartment_outage in H1.
  rewrite existsb_app, <- H1. destruct r1 as [e|parent]; [destruct H2 as [-> ->]; simpl; by rewrite orb_false_r|].
  destruct (DeletionTimestamp _); [by destruct H2 as [-> ->]|].
  destruct H2 as ([e|ds] & tr3 & -> & H2); [by destruct H2 as [-> ->]|]. cbn [prog_bind_] in H2.
  destruct H2 as [-> ->]. unfold checkDepartmentTree. destruct (Ancestors _ _ _) as [anc []]; [done|].
  by case_bool_decide.
Qed.

Lemma validateDefault_internal pools queues :
  internalResult (validateDefaultNodePoolsHaveQueues pools queues) = false.
Proof.
  unfold validateDefaultNodePoolsHaveQueues. rewrite errorOf_internal.
  assert (forall errs, existsb isInternal errs = false -> existsb isInternal (foldl (fun errs nodePool =>
      if bool_decide (nodePool ∈ (list_to_set (qcNodepool <$> queues) : gset string)) then errs
      else appendErr errs (Errorf "the nodepool %q from the DefaultNodePools list has no queue defined in the spec"
                             [nodePool])) errs pools) = false) as H; [|by apply H].
  induction pools as [|n pools IH]; intros errs He; simpl; [done|]. apply IH.
  case_bool_decide; [done|]. unfold appendErr. by rewrite existsb_app, He.
Qed.

Section Outages.
Context (groupOf : string -> option string) (kaiGroup : string).

Lemma validateQueue_outage q old : reportsOutages (validateQueue groupOf kaiGroup q old).
Proof.
  intros tr r. unfold validateQueue. destruct (match old with Some _ => _ | None => _ end); [by intros [-> ->]|].
  case_bool_decide as Hpn; [by intros [-> ->]|]. destruct (ProjectOrDepartmentOwner _ _ _); [by intros [-> ->]|].
  intros ([e|parent] & tr1 & -> & H); simpl in H.
  - destruct (IsNotFound e) eqn:He; destruct H as [-> ->]; cbn; by rewrite He.
  - destruct (ProjectOrDepartmentOwner _ _ _); by destruct H as [-> ->].
Qed.

Lemma validateProject_outage p : reportsOutages (validateProject p).
Proof.
  intros tr r (tr1 & tr' & r1 & -> & H1 & H)%exec_bind_inv.
  apply exec_bind_inv in H as (tr2 & tr3 & r2 & -> & H2 & [-> ->]).
  rewrite errorOf_internal, !collect_internal, validateDefault_internal, !existsb_app.
  rewrite (validateParent_outage _ _ _ H1), (validateQueueNodePools_outage _ _ _ H2). simpl.
  by rewrite !orb_false_r.
Qed.

Lemma validateDepartment_outage d old : reportsOutages (validateDepartment d old).
Proof.
  intros tr r (tr1 & tr' & r1 & -> & H1 & H)%exec_bind_inv.
  apply exec_bind_inv in H as (tr2 & tr3 & r2 & -> & H2 & [-> ->]).
  rewrite errorOf_internal, !collect_internal, !existsb_app.
  rewrite (validateQueueNodePools_outage _ _ _ H1). simpl. rewrite orb_false_r. f_equal.
  destruct (match old with Some _ => _ | None => _ end); [by apply (validateDepartmentParent_outage d)|].
  by destruct H2 as [-> ->].
Qed.

Lemma exec_respond p tr resp :
  reportsOutages p -> exec (respond p) tr resp ->
  ((exists e, resp = AdmErrored StatusInternalServerError e) <-> existsb failedRead tr = true).
Proof.
  intros Hp (tr1 & tr2 & r & -> & H1 & H2)%exec_bind_inv. apply Hp in H1. unfold internalResult in H1.
  rewrite existsb_app, <- H1.
  destruct r as [e|[]]; destruct H2 as [-> ->]; simpl; [|naive_solver].
  unfold toAdmissionResponse. destruct (isInternal e); naive_solver.
Qed.

(** C40: An outage is never reported as a spec violation and a spec violation
    never as an outage: for every kind of object, the webhook answers with a
    retryable internal server error exactly when one of its reads failed for
    another reason than a missing object. *)
Theorem Handle_reports_outages req tr resp :
  exec (Handle groupOf kaiGroup req) tr resp ->
  ((exists e, resp = AdmErrored StatusInternalServerError e) <-> existsb failedRead tr = true).
Proof.
  destruct req as [[e|p]|[e|d] old|[e|q] old|k]; simpl; try (by intros [-> ->]; naive_solver).
  - apply exec_respond, validateProject_outage.
  - destruct (decodeOld _ old) as [resp0|o] eqn:Ho; [|apply exec_respond, validateDepartment_outage].
    intros [-> ->]. destruct old as [[?|?]|]; simplify_eq/=. naive_solver.
  - destruct (decodeOld _ old) as [resp0|o] eqn:Ho; [|apply exec_respond, validateQueue_outage].
    intros [-> ->]. destruct old as [[?|?]|]; simplify_eq/=. naive_solver.
Qed.

(** A queue outside the managed hierarchy cannot be moved under it: when
    the queue webhook accepts a new or changed parent of a queue that no Project
    or Department owns, the parent was read as missing or as a queue no Project
    or Department owns. *)
Theorem validateQueue_protects q old tr :
  exec (validateQueue groupOf kaiGroup q old) tr (inr tt) ->
  (forall o, old = Some o -> ParentQueue (qSpec o) <> ParentQueue (qSpec q)) ->
  ParentQueue (qSpec q) <> "" ->
  ProjectOrDepartmentOwner groupOf kaiGroup (OwnerReferences (qMeta q)) = None ->
  (exists e, Event (Get KQueue ("", ParentQueue (qSpec q))) (inl e) ∈ tr /\ IsNotFound e = true) \/
  (exists parent, Event (Get KQueue ("", ParentQueue (qSpec q))) (inr parent) ∈ tr /\
     ProjectOrDepartmentOwner groupOf kaiGroup (OwnerReferences (qMeta parent)) = None).
Proof.
  intros Hex Hold Hne Hown. unfold validateQueue in Hex.
  destruct old as [o|].
  { rewrite bool_decide_false in Hex by (by apply Hold). rewrite bool_decide_false, Hown in Hex by done.
    destruct Hex as ([e|parent] & tr1 & -> & H); simpl in H.
    - destruct (IsNotFound e) eqn:He; [|by destruct H]. left. exists e. split; [by left|done].
    - destruct (ProjectOrDepartmentOwner _ _ (OwnerReferences (qMeta parent))) eqn:Hp; [by destruct H|].
      right. exists parent. split; [by left|done]. }
  rewrite bool_decide_false, Hown in Hex by done.
  destruct Hex as ([e|parent] & tr1 & -> & H); simpl in H.
  - destruct (IsNotFound e) eqn:He; [|by destruct H]. left. exists e. split; [by left|done].
  - destruct (ProjectOrDepartmentOwner _ _ (OwnerReferences (qMeta parent))) eqn:Hp; [by destruct H|].
    right. exists parent. split; [by left|done].
Qed.

End Outages.

(** ** Witnesses *)

Definition demoDepartment (name parent : string) : Department :=
  {| depMeta := named name; depParent := parent; depQueues := []; depConditions := [] |}.

(** A root "a" with a child "b"; a new department "c" under "b". *)
Definition demoDepartments : list Department := [demoDepartment "a" ""; demoDepartment "b" "a"].

Definition demoDepartmentTrace : list (event KubeCall) :=
  [Event (Get KDepartment ("", "b")) (inr (demoDepartment "b" "a"));
   Event (List KDepartment listAll) (inr demoDepartments)].

Lemma demoDepartment_accepted :
  exec (validateDepartmentParent (demoDepartment "c" "b")) demoDepartmentTrace (inr tt).
Proof.
  eexists _, _. split; [reflexivity|]. eexists _, _. split; [reflexivity|].
  split; [reflexivity|]. vm_compute. reflexivity.
Qed.

Lemma demoTree_ok : treeOk (listedTree demoDepartments (demoDepartment "b" "a")).
Proof.
  assert (forall a p, listedTree demoDepartments (demoDepartment "b" "a") !! a = Some p ->
    (a = "a" /\ p = "") \/ (a = "b" /\ p = "a")) as Hl.
  { intros a p. unfold listedTree, NewTree, demoDepartments. simpl.
    rewrite !lookup_insert_Some, lookup_empty. naive_solver. }
  assert (forall a b, up (listedTree demoDepartments (demoDepartment "b" "a")) a = Some b -> a = "b" /\ b = "a") as Hup.
  { intros a b ([[-> ->]|[-> ->]]%Hl & ? & ?)%up_Some; done. }
  split.
  - intros n a b. destruct n as [|[|n]]; [unfold MaxDepth; lia..|]. simpl.
    destruct (up _ a) as [x|] eqn:Hx; simpl; [|done]. apply Hup in Hx as [-> ->].
    destruct (up _ "a") as [y|] eqn:Hy; simpl; [|done]. by apply Hup in Hy as [? _].
  - intros a p [[-> ->]|[-> ->]]%Hl Hp; [done|]. vm_compute. eauto.
Qed.

Lemma validateDepartmentParent_protects_witness :
  ("b" = "" -> forall t, treeOk t -> treeOk (<["c" := ""]> t)) /\
  ("b" <> "" ->
   exists parent ds, DeletionTimestamp (depMeta parent) = None /\
     (Event (Get KDepartment ("", "b")) (inr parent) ∈ demoDepartmentTrace \/
      Event (GetLive KDepartment ("", "b")) (inr parent) ∈ demoDepartmentTrace) /\
     Event (List KDepartment listAll) (inr ds) ∈ demoDepartmentTrace /\
     (Name (depMeta parent) = "b" -> treeOk (listedTree ds parent) ->
      treeOk (<["c" := "b"]> (listedTree ds parent)))).
Proof.
  apply (validateDepartmentParent_protects (demoDepartment "c" "b") demoDepartmentTrace).
  - apply demoDepartment_accepted.
  - discriminate.
Defined.

Lemma validateDepartmentParent_exact_witness :
  @inr error _ tt = inr tt <->
  treeOk (<["c" := "b"]> (listedTree demoDepartments (demoDepartment "b" "a"))).
Proof.
  apply (validateDepartmentParent_exact (demoDepartment "c" "b") (demoDepartment "b" "a") demoDepartments demoDepartmentTrace).
  - discriminate.
  - discriminate.
  - reflexivity.
  - reflexivity.
  - vm_compute. reflexivity.
  - apply demoTree_ok.
  - apply demoDepartment_accepted.
  - repeat constructor.
Defined.

Definition demoQueueConfig (pool : string) : QueueConfig :=
  {| qcName := ""; qcNodepool := pool; qcResources := None; qcPriority := None |}.

Lemma validateQueueNodePoolsExist_exact_witness :
  @inr error _ tt = inr tt <->
  (forall n, n ∈ (qcNodepool <$> [demoQueueConfig "b"]) -> n <> "" /\ exists np, np ∈ demoPools /\ Name (npMeta np) = n) /\
  NoDup (qcNodepool <$> [demoQueueConfig "b"]).
Proof.
  apply (validateQueueNodePoolsExist_exact [demoQueueConfig "b"] demoPools [Event (List KNodePool listAll) (inr demoPools)]).
  - eexists _, []. split; [reflexivity|]. split; [reflexivity|]. vm_compute. reflexivity.
  - repeat constructor.
Defined.

Definition demoOutage : error := APIError ReasonOther "etcd is down".

Lemma Handle_reports_outages_witness :
  (exists e, AdmErrored 500 (InternalError (Wrapf "failed to get parent queue %q: %w" ["p"] demoOutage)) =
             AdmErrored StatusInternalServerError e) <->
  existsb failedRead [Event (Get KQueue ("", "p")) (inl demoOutage)] = true.
Proof.
  apply (Handle_reports_outages (fun _ => None) "kai" (ReqQueue (inr {| qMeta := named "q"; qSpec :=
    {| DisplayName := ""; ParentQueue := "p"; qResources := None; qPriority := None |}; qStatus := emptyQueueStatus |}) None)).
  eexists _, []. split; [reflexivity|]. split; reflexivity.
Defined.

Lemma validateQueue_protects_witness :
  (exists e, Event (Get KQueue ("", "p")) (inl e) ∈ [Event (Get KQueue ("", "p")) (inl (APIError ReasonNotFound ""))]
     /\ IsNotFound e = true) \/
  (exists parent, Event (Get KQueue ("", "p")) (inr parent) ∈ [Event (Get KQueue ("", "p")) (inl (APIError ReasonNotFound ""))]
     /\ ProjectOrDepartmentOwner (fun _ => None) "kai" (OwnerReferences (qMeta parent)) = None).
Proof.
  apply (validateQueue_protects (fun _ => None) "kai" {| qMeta := named "q"; qSpec :=
    {| DisplayName := ""; ParentQueue := "p"; qResources := None; qPriority := None |}; qStatus := emptyQueueStatus |} None).
  - eexists _, []. split; [reflexivity|]. split; reflexivity.
  - discriminate.
  - discriminate.
  - reflexivity.
Defined.
