(* ===== verification/Queues.v ===== *)
(** * Queues of projects and departments

    [pkg/project-controller/handlers]: [queue_utils.go], the project side
    [queue_resource_handler.go] and the department side
    [departments_handler.go].  A Project or Department has one queue per node
    pool; the handlers create, update, adopt and delete them. *)

From stdpp Require Import base list gmap strings.
From S2P Require Import Prelude ApiTypes NodePoolUtils ProjectCommon.

Definition queueNameRandSuffixLen : nat := 4.
Definition maxNameLen : nat := 58.
Definition queueNameRandSuffixLongLen : nat := 20.
Definition maxNameLenWithLongSuffix : nat := 42.
Definition generateQueueNameTries : nat := 10.
Definition DefaultQueuePriority : Z := 100.

(** [s[:n]]. *)
Definition prefixOf (n : nat) (s : string) : string := String.substring 0 n s.

Definition zeroResourceConfig : ResourceConfig := {| Deserved := 0; rcOverQuotaWeight := 0; rcLimit := 0 |}.
Definition zeroResourcesConfig : QueueResourcesConfig :=
  {| cfgGPU := zeroResourceConfig; cfgCPU := zeroResourceConfig; cfgMemory := zeroResourceConfig |}.

Definition toQueueResource (r : ResourceConfig) : QueueResource :=
  {| Quota := Deserved r; OverQuotaWeight := rcOverQuotaWeight r; Limit := rcLimit r |}.

Definition populateQueueSpec (resources : option QueueResourcesConfig) (displayName parentQueue : string)
    (priority : option Z) : QueueSpec :=
  let priorityValue := default DefaultQueuePriority priority in
  let resources := default zeroResourcesConfig resources in
  {| DisplayName := displayName; ParentQueue := parentQueue;
     qResources := Some {| GPU := toQueueResource (cfgGPU resources);
                           CPU := toQueueResource (cfgCPU resources);
                           Memory := toQueueResource (cfgMemory resources) |};
     qPriority := Some priorityValue |}.

Definition areQueuesEqual (left right : Queue) : bool :=
  (Name (qMeta left) ==? Name (qMeta right))
  && (Labels (qMeta left) ==? Labels (qMeta right))
  && (OwnerReferences (qMeta left) ==? OwnerReferences (qMeta right))
  && (qSpec left ==? qSpec right).

Definition meta_renamed (name : string) (m : ObjectMeta) : ObjectMeta :=
  {| Name := name; Namespace := Namespace m; UID := UID m; Labels := Labels m; Annotations := Annotations m;
     OwnerReferences := OwnerReferences m; Finalizers := Finalizers m; DeletionTimestamp := DeletionTimestamp m;
     ResourceVersion := ResourceVersion m; Generation := Generation m |}.

(** [queue.Name = name]. *)
Definition queue_renamed (name : string) (q : Queue) : Queue :=
  {| qMeta := meta_renamed name (qMeta q); qSpec := qSpec q; qStatus := qStatus q |}.

(** [queue.Spec.DisplayName = name]. *)
Definition queue_with_display (name : string) (q : Queue) : Queue :=
  {| qMeta := qMeta q;
     qSpec := {| DisplayName := name; ParentQueue := ParentQueue (qSpec q); qResources := qResources (qSpec q);
                 qPriority := qPriority (qSpec q) |};
     qStatus := qStatus q |}.

(** [queue.Spec.ParentQueue = parent]. *)
Definition queue_with_parent (parent : string) (q : Queue) : Queue :=
  {| qMeta := qMeta q;
     qSpec := {| DisplayName := DisplayName (qSpec q); ParentQueue := parent; qResources := qResources (qSpec q);
                 qPriority := qPriority (qSpec q) |};
     qStatus := qStatus q |}.

Definition updateExistingQueueWithExpectedValues (expectedQueueObject existingQueue : Queue) : Queue :=
  {| qMeta := meta_with_owners (fun _ => OwnerReferences (qMeta expectedQueueObject))
                (meta_with_labels (fun _ => Labels (qMeta expectedQueueObject)) (qMeta existingQueue));
     qSpec := qSpec expectedQueueObject;
     qStatus := qStatus existingQueue |}.

Section Queues.
Context {L : LabelsLib} (cfg : ProjectReconcilerConfig).
(** [kaiv1alpha1.GroupVersion.Identifier()]. *)
Context (kaiAPIVersion : string).

Definition GetQueueName (queue : QueueConfig) (ownerName : string) : string :=
  if qcName queue !=? "" then qcName queue
  else if qcNodepool queue ==? DefaultNodepoolName cfg then ownerName
  else ownerName +:+ "-" +:+ qcNodepool queue.

Definition addNodePoolLabelIfNeeded (nodepoolLabelKey nodepoolName : string) (labels : gmap string string)
    : gmap string string :=
  if nodepoolName !=? DefaultNodepoolName cfg then <[nodepoolLabelKey := nodepoolName]> labels else labels.

Definition IsExternalQueue (queue : Queue) (ownerUID : string) : bool :=
  AllowExternalQueues cfg && negb (isOwnedByUID (OwnerReferences (qMeta queue)) ownerUID).

(** ** Writes *)

Definition createQueue (queueObject : Queue) : kube (result unit) :=
  r <- call (Create KQueue queueObject) ;;
  match r with
  | inl err => if IsAlreadyExists err then Ret (inr tt) else Ret (inl err)
  | inr _ => Ret (inr tt)
  end.

Definition updateExistingQueue (expectedQueueObject existingQueue : Queue) (ownerUID : string) : kube (result unit) :=
  if IsExternalQueue existingQueue ownerUID then Ret (inr tt)
  else
    _ <-? call (Update KQueue (updateExistingQueueWithExpectedValues expectedQueueObject existingQueue)) ;;
    Ret (inr tt).

Definition deleteQueue (queue : Queue) (ownerUID : string) : kube (result unit) :=
  if IsExternalQueue queue ownerUID then Ret (inr tt)
  else call (Delete KQueue queue).

(** ** Reads *)

Definition listQueuesWithLabelSelectors (labelSelector : ListOptions) : kube (result (list Queue)) :=
  call (List KQueue labelSelector).

Definition listQueuesWithLabelSelector (labelKey labelValue : string) : kube (result (list Queue)) :=
  listQueuesWithLabelSelectors (matchingLabel labelKey labelValue).

Definition ListProjectQueues (projectName : string) : kube (result (list Queue)) :=
  listQueuesWithLabelSelector (ProjectLabelKey cfg) projectName.

Definition withSelector (requirements : list Requirement) : ListOptions :=
  {| loNamespace := ""; loLabelSelector := requirements; loMatchingLabels := ∅; loFieldSelector := None |}.

Definition nodePoolRequirementOf (nodepoolName : string) : result Requirement :=
  if nodepoolName ==? DefaultNodepoolName cfg
  then NewRequirement (NodePoolLabelKey cfg) DoesNotExist []
  else NewRequirement (NodePoolLabelKey cfg) DoubleEquals [nodepoolName].

Definition listQueuesForNodepool (nodepoolName : string) : kube (result (list Queue)) :=
  match nodePoolRequirementOf nodepoolName with
  | inl err => Ret (inl err)
  | inr nodePoolRequirement => listQueuesWithLabelSelectors (withSelector [nodePoolRequirement])
  end.

(** The first queue of the list that satisfies the test. *)
Definition firstQueue (test : Queue -> bool) (queues : list Queue) : option Queue :=
  snd <$> list_find (fun q => test q = true) queues.

Definition departmentQueueByOwner (department : Department) (nodepoolName : string) : kube (result string) :=
  queues <-? listQueuesForNodepool nodepoolName ;;
  Ret (inr (match firstQueue (fun q => isOwnedByUID (OwnerReferences (qMeta q)) (UID (depMeta department))) queues with
            | Some q => Name (qMeta q)
            | None => ""
            end)).

Definition departmentQueueName (departmentName nodepoolName : string) : kube (result string) :=
  if departmentName ==? "" then Ret (inr "") else
  r <- call (Get KDepartment ("", departmentName)) ;;
  match r with
  | inl err => if IsNotFound err then Ret (inr "") else Ret (inl err)
  | inr department =>
      match snd <$> list_find (fun q => qcNodepool q = nodepoolName) (depQueues department) with
      | None => Ret (inr "")
      | Some q =>
          let candidateName := GetQueueName q (Name (depMeta department)) in
          r <- call (Get KQueue ("", candidateName)) ;;
          match r with
          | inr candidate =>
              if isOwnedByUID (OwnerReferences (qMeta candidate)) (UID (depMeta department))
              then Ret (inr candidateName)
              else if candidateName ==? "" then Ret (inr "")
              else departmentQueueByOwner department nodepoolName
          | inl err =>
              if negb (IsNotFound err) then Ret (inl err)
              else if candidateName ==? "" then Ret (inr "")
              else departmentQueueByOwner department nodepoolName
          end
      end
  end.

(** The walk up the parent queues, read live.  [fuel] bounds the walk; that a
    fuel above the number of queues is enough is proved below. *)
Fixpoint queueLoopFrom (fuel : nat) (seen : gset string) (queueName name : string) : kube (result bool) :=
  if name ==? "" then Ret (inr false)
  else if name ==? queueName then Ret (inr true)
  else if bool_decide (name ∈ seen) then Ret (inr false)
  else
    match fuel with
    | O => Ret (inl (RuntimePanic "out of fuel"))
    | S fuel' =>
        r <- call (GetLive KQueue ("", name)) ;;
        match r with
        | inl err => if IsNotFound err then Ret (inr false) else Ret (inl err)
        | inr queue => queueLoopFrom fuel' ({[name]} ∪ seen) queueName (ParentQueue (qSpec queue))
        end
    end.

Definition wouldCloseQueueLoop (fuel : nat) (queueName parentQueue : string) : kube (result bool) :=
  queueLoopFrom fuel ∅ queueName parentQueue.

(** ** Deletion *)

(** The loop over the listed queues, with the collected errors. *)
Fixpoint deleteQueues (reconciledQueues : gset string) (ownerUID ownerKind : string) (queues : list Queue)
    (errs : list error) : kube (result unit) :=
  match queues with
  | [] => Ret (errorOf errs)
  | existingQueue :: rest =>
      if negb (isOwnedByKind (OwnerReferences (qMeta existingQueue)) ownerKind)
      then deleteQueues reconciledQueues ownerUID ownerKind rest errs
      else if bool_decide (Name (qMeta existingQueue) ∈ reconciledQueues)
      then deleteQueues reconciledQueues ownerUID ownerKind rest errs
      else
        r <- deleteQueue existingQueue ownerUID ;;
        deleteQueues reconciledQueues ownerUID ownerKind rest
          (match r with inl innerErr => appendErr errs innerErr | inr _ => errs end)
  end.

Definition deleteUnnecessaryQueues (reconciledQueues : gset string) (ownerUID labelKey labelValue ownerKind : string)
    : kube (result unit) :=
  existingQueues <-? listQueuesWithLabelSelector labelKey labelValue ;;
  deleteQueues reconciledQueues ownerUID ownerKind existingQueues [].

(** ** Names *)

(** Whether the queue is taken by another resource, and the queue if it exists. *)
Definition isQueueTakenByOtherResource (expectedDepartmentName expectedProjectName queueName ownerUID : string)
    : kube (bool * option Queue) :=
  r <- call (Get KQueue ("", queueName)) ;;
  match r with
  | inl _ => Ret (false, None)
  | inr existingQueue =>
      if IsExternalQueue existingQueue ownerUID then Ret (true, Some existingQueue)
      else
        let ownedByDepartment := isOwnedByKind (OwnerReferences (qMeta existingQueue)) DepartmentKind in
        let ownedByProject := isOwnedByKind (OwnerReferences (qMeta existingQueue)) ProjectKind in
        let departmentNameOnQueue := mapGet (Labels (qMeta existingQueue)) (QueueDepartmentNameLabelKey cfg) in
        let projectNameOnQueue := mapGet (Labels (qMeta existingQueue)) (ProjectLabelKey cfg) in
        if (expectedDepartmentName !=? "") && ownedByDepartment && (expectedDepartmentName ==? departmentNameOnQueue)
        then Ret (false, Some existingQueue)
        else if (expectedProjectName !=? "") && ownedByProject && (expectedProjectName ==? projectNameOnQueue)
        then Ret (false, Some existingQueue)
        else if ownedByDepartment || ownedByProject then Ret (true, Some existingQueue)
        else Ret (false, Some existingQueue)
  end.

Definition isSuggestedQueueTakenByOtherResource
    (expectedDepartmentName expectedProjectName suggestedQueueName ownerUID : string) : kube bool :=
  r <- isQueueTakenByOtherResource expectedDepartmentName expectedProjectName suggestedQueueName ownerUID ;;
  Ret r.1.

Definition withSuffix (base suffix : string) : string := base +:+ "-" +:+ suffix.

(** The loop of [generateQueueNameForResource]; the arguments of the taken-test
    are passed in the order the code passes them. *)
Fixpoint tryQueueNames (tries : nat) (projectName departmentName suggestedQueueName ownerUID : string)
    (trimNameLen : nat) (newSuggestedQueueName : string) : kube string :=
  match tries with
  | O =>
      let trimNameLen := if bool_decide (maxNameLenWithLongSuffix < trimNameLen)%nat
                         then maxNameLenWithLongSuffix else trimNameLen in
      suffix <- call (RandString queueNameRandSuffixLongLen) ;;
      Ret (withSuffix (prefixOf trimNameLen suggestedQueueName) suffix)
  | S tries' =>
      taken <- isSuggestedQueueTakenByOtherResource projectName departmentName newSuggestedQueueName ownerUID ;;
      if negb taken then Ret newSuggestedQueueName
      else
        suffix <- call (RandString queueNameRandSuffixLen) ;;
        tryQueueNames tries' projectName departmentName suggestedQueueName ownerUID trimNameLen
          (withSuffix (prefixOf trimNameLen suggestedQueueName) suffix)
  end.

Definition generateQueueNameForResource (projectName departmentName suggestedQueueName ownerUID : string)
    : kube string :=
  if bool_decide (maxNameLen < String.length suggestedQueueName)%nat then
    suffix <- call (RandString queueNameRandSuffixLen) ;;
    tryQueueNames generateQueueNameTries projectName departmentName suggestedQueueName ownerUID maxNameLen
      (withSuffix (prefixOf maxNameLen suggestedQueueName) suffix)
  else
    tryQueueNames generateQueueNameTries projectName departmentName suggestedQueueName ownerUID
      (String.length suggestedQueueName) suggestedQueueName.

(** ** The existing queue of a resource *)

Definition addRequirement (labelKey labelValue : string) (requirements : list Requirement)
    : result (list Requirement) :=
  if labelValue ==? "" then inr requirements
  else r ← NewRequirement labelKey DoubleEquals [labelValue]; mret (requirements ++ [r]).

Definition createRequirementsForQueuesList (nodepoolName projectName departmentName : string)
    : result (list Requirement) :=
  if (projectName ==? "") && (departmentName ==? "") then
    inl (Errorf "wrong params for createRequirementsForQueuesList - project %s, department %s"
           [projectName; departmentName])
  else
    requirements ←
      (if projectName !=? "" then addRequirement (ProjectLabelKey cfg) projectName []
       else addRequirement (QueueDepartmentNameLabelKey cfg) departmentName []);
    nodePoolRequirement ← nodePoolRequirementOf nodepoolName;
    mret (requirements ++ [nodePoolRequirement]).

Definition queueNotFound {A} (name : string) : result A := inl (APIError ReasonNotFound name).

Definition getExistingQueueByLabels (nodepoolName projectName departmentName ownerUID : string)
    : kube (result Queue) :=
  match createRequirementsForQueuesList nodepoolName projectName departmentName with
  | inl err => Ret (inl err)
  | inr requirements =>
      queues <-? listQueuesWithLabelSelectors (withSelector requirements) ;;
      let expectedOwnerKind := if projectName !=? "" then ProjectKind else DepartmentKind in
      let ownerName := if projectName !=? "" then projectName else departmentName in
      match firstQueue (fun q => isOwnedByKind (OwnerReferences (qMeta q)) expectedOwnerKind
                                 && negb (IsExternalQueue q ownerUID)) queues with
      | Some queue => Ret (inr queue)
      | None => Ret (queueNotFound (ownerName +:+ "/" +:+ nodepoolName))
      end
  end.

Definition getExistingQueueOfResource (nodepoolName projectName departmentName suggestedQueueName ownerUID : string)
    : kube (result Queue) :=
  r <- getExistingQueueByLabels nodepoolName projectName departmentName ownerUID ;;
  match r with
  | inr existingQueueByLabels => Ret (inr existingQueueByLabels)
  | inl err =>
      if negb (IsNotFound err) then Ret (inl err)
      else
        taken <- isQueueTakenByOtherResource departmentName projectName suggestedQueueName ownerUID ;;
        match taken with
        | (false, Some existingQueueWithExpectedName) => Ret (inr existingQueueWithExpectedName)
        | _ => Ret (queueNotFound suggestedQueueName)
        end
  end.

(** ** Project queues ([queue_resource_handler.go]) *)

Definition ownerReference (kind name uid : string) : OwnerReference :=
  {| OwnerAPIVersion := kaiAPIVersion; OwnerKind := kind; OwnerName := name; OwnerUID := uid;
     OwnerController := Some true; OwnerBlockOwnerDeletion := Some true |}.

Definition newQueueMeta (name : string) (labels : gmap string string) (owner : OwnerReference) : ObjectMeta :=
  meta_with_owners (fun _ => [owner]) (meta_with_labels (fun _ => labels) (named name)).

Definition buildProjectQueueFromSpec (queueProjectSpec : QueueConfig) (project : Project) : kube (result Queue) :=
  parentQueueName <-? departmentQueueName (prjParent project) (qcNodepool queueProjectSpec) ;;
  let suggestedName := GetQueueName queueProjectSpec (Name (prjMeta project)) in
  let labels : gmap string string :=
    <[QueueDepartmentNameLabelKey cfg := prjParent project]>
    (<[ProjectIdLabelKey cfg := UID (prjMeta project)]>
    (<[ProjectLabelKey cfg := Name (prjMeta project)]> ∅)) in
  Ret (inr {| qMeta := newQueueMeta suggestedName
                         (addNodePoolLabelIfNeeded (NodePoolLabelKey cfg) (qcNodepool queueProjectSpec) labels)
                         (ownerReference ProjectKind (Name (prjMeta project)) (UID (prjMeta project)));
              qSpec := populateQueueSpec (qcResources queueProjectSpec) suggestedName parentQueueName
                         (qcPriority queueProjectSpec);
              qStatus := emptyQueueStatus |}).

Definition getExistingQueueOfProject (queueNameFomSpec projectName projectUID nodepoolName : string)
    : kube (result Queue) :=
  getExistingQueueOfResource nodepoolName projectName "" queueNameFomSpec projectUID.

Definition generateQueueNameOfProject (queueNameFomSpec projectName projectUID : string) : kube string :=
  generateQueueNameForResource projectName "" queueNameFomSpec projectUID.

Definition handleExistingProjectQueue (expectedQueueObject existingQueue : Queue) (projectUID : string)
    : kube (result unit) :=
  if areQueuesEqual expectedQueueObject existingQueue then Ret (inr tt)
  else if IsManuallyOverridden cfg (qMeta existingQueue) then Ret (inr tt)
  else updateExistingQueue expectedQueueObject existingQueue projectUID.

(** Answers the name the queue ended up with. *)
Definition reconcileProjectQueue (queueObject : Queue) (projectName projectUID nodepoolName : string)
    : kube (result string) :=
  r <- getExistingQueueOfProject (Name (qMeta queueObject)) projectName projectUID nodepoolName ;;
  match r with
  | inl err =>
      if IsNotFound err then
        name <- generateQueueNameOfProject (Name (qMeta queueObject)) projectName projectUID ;;
        let queueObject := queue_with_display name (queue_renamed name queueObject) in
        _ <-? createQueue queueObject ;; Ret (inr name)
      else Ret (inl err)
  | inr existingQueue =>
      let name := Name (qMeta existingQueue) in
      let queueObject := queue_with_display name (queue_renamed name queueObject) in
      _ <-? handleExistingProjectQueue queueObject existingQueue projectUID ;; Ret (inr name)
  end.

(** The loop over the queues of the spec: the reconciled names and the errors. *)
Fixpoint reconcileProjectQueues (project : Project) (queues : list QueueConfig)
    (reconciledQueues : gset string) (errs : list error) : kube (gset string * list error) :=
  match queues with
  | [] => Ret (reconciledQueues, errs)
  | projectQueue :: rest =>
      r <- (queueObject <-? buildProjectQueueFromSpec projectQueue project ;;
            reconcileProjectQueue queueObject (Name (prjMeta project)) (UID (prjMeta project))
              (qcNodepool projectQueue)) ;;
      match r with
      | inl innerErr => reconcileProjectQueues project rest reconciledQueues (appendErr errs innerErr)
      | inr name => reconcileProjectQueues project rest ({[name]} ∪ reconciledQueues) errs
      end
  end.

(** [handleResourceInner]. *)
Definition handleProjectQueues (project : Project) : kube (result unit) :=
  r <- reconcileProjectQueues project (prjQueues project) ∅ [] ;;
  let '(reconciledQueues, errs) := r in
  match errorOf errs with
  | inl err => Ret (inl err)
  | inr _ =>
      deleteUnnecessaryQueues reconciledQueues (UID (prjMeta project))
        (ProjectLabelKey cfg) (Name (prjMeta project)) ProjectKind
  end.

(** ** Department queues ([departments_handler.go]) *)

Definition ParentQueueLoopReason := "ParentQueueLoop".

Definition buildDepartmentQueueFromSpec (queueDepartmentSpec : QueueConfig) (department : Department)
    (parentQueueName : string) : Queue :=
  let labels : gmap string string := {[QueueDepartmentNameLabelKey cfg := Name (depMeta department)]} in
  {| qMeta := newQueueMeta (GetQueueName queueDepartmentSpec (Name (depMeta department)))
                (addNodePoolLabelIfNeeded (NodePoolLabelKey cfg) (qcNodepool queueDepartmentSpec) labels)
                (ownerReference DepartmentKind (Name (depMeta department)) (UID (depMeta department)));
     qSpec := populateQueueSpec (qcResources queueDepartmentSpec) (Name (depMeta department)) parentQueueName
                (qcPriority queueDepartmentSpec);
     qStatus := emptyQueueStatus |}.

Definition getExistingQueueOfDepartment (department : Department) (nodepoolName : string) : kube (result Queue) :=
  queues <-? listQueuesForNodepool nodepoolName ;;
  match firstQueue (fun q => isOwnedByUID (OwnerReferences (qMeta q)) (UID (depMeta department))) queues with
  | Some queue => Ret (inr queue)
  | None => Ret (queueNotFound (Name (depMeta department) +:+ "/" +:+ nodepoolName))
  end.

Definition generateQueueNameOfDepartment (departmentName suggestedQueueName departmentUID : string) : kube string :=
  generateQueueNameForResource "" departmentName suggestedQueueName departmentUID.

(** The queue to write, and whether it was kept a root queue. *)
Definition holdAsRootOnLoop (fuel : nat) (department : Department) (queue : Queue) (currentParentQueue : string)
    : kube (result (Queue * bool)) :=
  let parentQueue := ParentQueue (qSpec queue) in
  if (parentQueue ==? "") || (parentQueue ==? currentParentQueue) then Ret (inr (queue, false))
  else
    loop <-? wouldCloseQueueLoop fuel (Name (qMeta queue)) parentQueue ;;
    if negb loop then Ret (inr (queue, false))
    else
      _ <- call (RecordEvent (Name (depMeta department)) ParentQueueLoopReason) ;;
      Ret (inr (queue_with_parent "" queue, true)).

Definition handleExistingDepartmentQueue (expectedQueueObject existingQueue : Queue) (departmentUID : string)
    : kube (result unit) :=
  if areQueuesEqual expectedQueueObject existingQueue then Ret (inr tt)
  else updateExistingQueue expectedQueueObject existingQueue departmentUID.

(** Answers the name the queue ended up with and whether it was held as a root. *)
Definition reconcileDepartmentQueue (fuel : nat) (queueObject : Queue) (department : Department)
    (nodepoolName : string) : kube (result (string * bool)) :=
  r <- getExistingQueueOfDepartment department nodepoolName ;;
  match r with
  | inl err =>
      if IsNotFound err then
        name <- generateQueueNameOfDepartment (Name (depMeta department)) (Name (qMeta queueObject))
                  (UID (depMeta department)) ;;
        held <-? holdAsRootOnLoop fuel department (queue_renamed name queueObject) "" ;;
        _ <-? createQueue held.1 ;; Ret (inr (name, held.2))
      else Ret (inl err)
  | inr existingQueue =>
      let name := Name (qMeta existingQueue) in
      held <-? holdAsRootOnLoop fuel department (queue_renamed name queueObject)
                 (ParentQueue (qSpec existingQueue)) ;;
      _ <-? handleExistingDepartmentQueue held.1 existingQueue (UID (depMeta department)) ;;
      Ret (inr (name, held.2))
  end.

Fixpoint reconcileDepartmentQueues (fuel : nat) (department : Department) (queues : list QueueConfig)
    (reconciledQueues : gset string) (heldAsRoot : bool) (errs : list error)
    : kube (gset string * bool * list error) :=
  match queues with
  | [] => Ret (reconciledQueues, heldAsRoot, errs)
  | departmentQueue :: rest =>
      r <- (parentQueueName <-? departmentQueueName (depParent department) (qcNodepool departmentQueue) ;;
            reconcileDepartmentQueue fuel
              (buildDepartmentQueueFromSpec departmentQueue department parentQueueName)
              department (qcNodepool departmentQueue)) ;;
      match r with
      | inl innerErr =>
          reconcileDepartmentQueues fuel department rest reconciledQueues heldAsRoot (appendErr errs innerErr)
      | inr (name, held) =>
          reconcileDepartmentQueues fuel department rest ({[name]} ∪ reconciledQueues) (heldAsRoot || held) errs
      end
  end.

(** [DepartmentHandler.Handle]. *)
Definition handleDepartmentQueues (fuel : nat) (department : Department) : kube (bool * result unit) :=
  r <- reconcileDepartmentQueues fuel department (depQueues department) ∅ false [] ;;
  let '(reconciledQueues, heldAsRoot, errs) := r in
  match errorOf errs with
  | inl err => Ret (heldAsRoot, inl err)
  | inr _ =>
      r <- deleteUnnecessaryQueues reconciledQueues (UID (depMeta department))
             (QueueDepartmentNameLabelKey cfg) (Name (depMeta department)) DepartmentKind ;;
      Ret (heldAsRoot, r)
  end.

End Queues.
