(* ===== verification/QueueFacts.v ===== *)
(** * Properties of the queues of projects and departments

    What the handlers may delete and update, the length of generated names, the
    queue loop check and the acyclicity of the queue forest, stability of an
    updated queue, and the collision of a project and a department of the same
    name. *)

From stdpp Require Import base list gmap strings.
From S2P Require Import Prelude ApiTypes NodePoolUtils ProjectCommon Queues.

(** ** Names *)

Lemma length_prefixOf n s : (String.length (prefixOf n s) <= n)%nat.
Proof.
  unfold prefixOf. revert s. induction n as [|n IH]; intros [|c s]; simpl; try lia.
  pose proof (IH s). lia.
Qed.

Lemma length_prefixOf_all s : prefixOf (String.length s) s = s.
Proof. unfold prefixOf. induction s as [|c s IH]; simpl; [done|]. by rewrite IH. Qed.

(** [rand.String(n)] answers [n] characters. *)
Definition randLength : forall X, KubeCall X -> X -> Prop := fun X c =>
  match c in KubeCall X return X -> Prop with
  | RandString n => fun s => String.length s = n
  | _ => fun _ => True
  end.

Definition maxKubeNameLen : nat := 63.

Section QueueProps.
Context {L : LabelsLib} (cfg : ProjectReconcilerConfig) (kaiAPIVersion : string).

Lemma taken_reads d p n uid : reads_only (isQueueTakenByOtherResource cfg d p n uid).
Proof. unfold isQueueTakenByOtherResource. reads_tac. Qed.

Lemma wp_taken d p n uid (post : forall X, KubeCall X -> X -> Prop) (Q : bool * option Queue -> Prop) :
  (forall r, Q r) -> wp (fun _ _ => True) post (isQueueTakenByOtherResource cfg d p n uid) Q.
Proof.
  intros HQ. unfold isQueueTakenByOtherResource. simpl. split; [done|]. intros [e|q] _; simpl; [apply HQ|].
  repeat case_match; apply HQ.
Qed.

Lemma wp_tryQueueNames tries p d s uid trim new :
  (trim <= maxNameLen)%nat -> (String.length new <= maxKubeNameLen)%nat ->
  wp (fun _ _ => True) randLength (tryQueueNames cfg tries p d s uid trim new)
    (fun name => (String.length name <= maxKubeNameLen)%nat).
Proof.
  intros Htrim. revert new. induction tries as [|tries IH]; intros new Hnew; cbn [tryQueueNames].
  - simpl. split; [done|]. intros suffix Hs. simpl in Hs. unfold withSuffix. rewrite !length_append. simpl.
    pose proof (length_prefixOf (if bool_decide (maxNameLenWithLongSuffix < trim)%nat then maxNameLenWithLongSuffix else trim) s).
    unfold maxKubeNameLen, queueNameRandSuffixLongLen, maxNameLenWithLongSuffix in *.
    case_bool_decide; lia.
  - unfold isSuggestedQueueTakenByOtherResource. apply wp_bind, wp_bind, wp_taken. intros r.
    apply wp_ret. destruct r.1; simpl; [|done]. split; [done|]. intros suffix Hs. apply IH.
    simpl in Hs. unfold withSuffix. rewrite !length_append. simpl.
    pose proof (length_prefixOf trim s). unfold maxKubeNameLen, maxNameLen, queueNameRandSuffixLen in *. lia.
Qed.

(** A generated queue name never exceeds the 63 characters Kubernetes
    allows for names and label values, whatever the suggested name, the taken
    names and the random suffixes. *)
Theorem generateQueueName_length p d s uid tr name :
  exec (generateQueueNameForResource cfg p d s uid) tr name ->
  Forall (fun e => randLength _ (ev_call e) (ev_reply e)) tr ->
  (String.length name <= maxKubeNameLen)%nat.
Proof.
  intros Hex Hall.
  apply (wp_exec (fun _ _ => True) randLength _ (fun name => (String.length name <= maxKubeNameLen)%nat) _ _) in Hex;
    [by destruct Hex| |done].
  unfold generateQueueNameForResource. case_bool_decide as Hlen.
  - apply wp_bind, wp_call; [done|]. intros suffix Hs. apply wp_tryQueueNames; [done|].
    simpl in Hs. unfold withSuffix. rewrite !length_append. simpl.
    pose proof (length_prefixOf maxNameLen s). unfold maxKubeNameLen, maxNameLen, queueNameRandSuffixLen in *. lia.
  - apply wp_tryQueueNames; unfold maxKubeNameLen, maxNameLen in *; lia.
Qed.

(** ** Ownership of what is written *)

(** A queue the API returned during the execution. *)
Definition queueSeen (tr : list (event KubeCall)) (q : Queue) : Prop :=
  (exists key, Event (Get KQueue key) (inr q) ∈ tr) \/
  (exists opts qs, Event (List KQueue opts) (inr qs) ∈ tr /\ q ∈ qs).

Lemma queueSeen_app_l tr1 tr2 q : queueSeen tr1 q -> queueSeen (tr1 ++ tr2) q.
Proof.
  intros [(key & H)|(opts & qs & H & Hq)]; [left|right].
  - exists key. apply elem_of_app. by left.
  - exists opts, qs. split; [apply elem_of_app; by left|done].
Qed.

Lemma queueSeen_app_r tr1 tr2 q : queueSeen tr2 q -> queueSeen (tr1 ++ tr2) q.
Proof.
  intros [(key & H)|(opts & qs & H & Hq)]; [left|right].
  - exists key. apply elem_of_app. by right.
  - exists opts, qs. split; [apply elem_of_app; by right|done].
Qed.

Lemma firstQueue_Some test qs q : firstQueue test qs = Some q -> q ∈ qs /\ test q = true.
Proof.
  unfold firstQueue. destruct (list_find _ qs) as [[i q']|] eqn:Hf; [|done]. intros [= <-].
  apply list_find_Some in Hf as (Hi & Ht & _). split; [by eapply list_elem_of_lookup_2|done].
Qed.

Lemma exec_taken_free d p n uid tr q :
  exec (isQueueTakenByOtherResource cfg d p n uid) tr (false, Some q) ->
  queueSeen tr q /\ IsExternalQueue cfg q uid = false.
Proof.
  intros ([e|q'] & tr' & -> & H); simpl in H; [by destruct H as [_ [=]]|].
  destruct (IsExternalQueue cfg q' uid) eqn:He; [by destruct H as [_ [=]]|].
  assert (q' = q) as ->.
  { repeat case_match; destruct H as [_ ?]; by simplify_eq. }
  split; [|done]. left. eexists. by left.
Qed.

Lemma getExistingByLabels_seen np p d uid tr q :
  exec (getExistingQueueByLabels cfg np p d uid) tr (inr q) ->
  queueSeen tr q /\ IsExternalQueue cfg q uid = false.
Proof.
  unfold getExistingQueueByLabels. destruct (createRequirementsForQueuesList cfg np p d); [by intros [_ [=]]|].
  intros ([e|qs] & tr' & -> & H); [by destruct H|]. cbn -[firstQueue] in H.
  destruct (firstQueue _ qs) as [q'|] eqn:Hq; destruct H as [_ [= ->]].
  apply firstQueue_Some in Hq as [Hin [_ He]%andb_true_iff]. split; [|by destruct (IsExternalQueue cfg q' uid)].
  right. eexists _, qs. split; [by left|done].
Qed.

Lemma getExisting_seen np p d s uid tr q :
  exec (getExistingQueueOfResource cfg np p d s uid) tr (inr q) ->
  queueSeen tr q /\ IsExternalQueue cfg q uid = false.
Proof.
  intros (tr1 & tr2 & r & -> & H1 & H2)%exec_bind_inv. destruct r as [e|q'].
  - destruct (IsNotFound e); [|by destruct H2]. cbn [negb] in H2.
    apply exec_bind_inv in H2 as (tr3 & tr4 & [[] [q'|]] & -> & H3 & [-> H4]); simplify_eq.
    apply exec_taken_free in H3 as [Hs He]. split; [|done]. by apply queueSeen_app_r, queueSeen_app_l.
  - destruct H2 as [-> [= <-]]. apply getExistingByLabels_seen in H1 as [Hs He]. split; [|done].
    by apply queueSeen_app_l.
Qed.

(** An update rewrites a queue that was read during the reconcile, under the
    same name, and that the owner may touch. *)
Definition updateOk (uid : string) (tr : list (event KubeCall)) (e : event KubeCall) : Prop :=
  match ev_call e with
  | Update KQueue q =>
      exists existing, queueSeen tr existing /\ Name (qMeta q) = Name (qMeta existing) /\
        IsExternalQueue cfg existing uid = false
  | Delete _ _ => False
  | _ => True
  end.

Lemma updateOk_reads {A} (p : kube A) tr a uid tr0 :
  reads_only p -> exec p tr a -> Forall (updateOk uid tr0) tr.
Proof.
  intros Hro Hex. destruct (wp_exec_any _ _ _ _ _ Hro Hex) as [Hall _].
  eapply Forall_impl; [exact Hall|]. intros [X c x]. unfold updateOk. simpl. by destruct c.
Qed.

Lemma updateOk_createQueue q tr r uid tr0 :
  exec (createQueue q) tr r -> Forall (updateOk uid tr0) tr.
Proof.
  intros ([e|q'] & tr' & -> & H); simpl in H; [destruct (IsAlreadyExists e)|]; destruct H as [-> _]; repeat constructor.
Qed.

Lemma updateOk_update expected existing uid tr r tr0 :
  queueSeen tr0 existing -> exec (updateExistingQueue cfg expected existing uid) tr r ->
  Forall (updateOk uid tr0) tr.
Proof.
  unfold updateExistingQueue. intros Hs. destruct (IsExternalQueue cfg existing uid) eqn:He; [by intros [-> _]|].
  intros (r' & tr' & -> & H). assert (tr' = []) as -> by (by destruct r', H).
  apply Forall_singleton. exists existing. done.
Qed.

Lemma getExistingOfResource_reads np p d s uid : reads_only (getExistingQueueOfResource cfg np p d s uid).
Proof.
  pose proof taken_reads. unfold getExistingQueueOfResource, getExistingQueueByLabels, listQueuesWithLabelSelectors.
  reads_tac.
Qed.

Lemma generate_reads p d s uid : reads_only (generateQueueNameForResource cfg p d s uid).
Proof.
  assert (forall tries trim new, reads_only (tryQueueNames cfg tries p d s uid trim new)).
  { intros tries trim. pose proof taken_reads. induction tries as [|tries IH]; intros new; cbn [tryQueueNames];
      unfold isSuggestedQueueTakenByOtherResource.
    - reads_tac.
    - apply (reads_bind (A := bool)); [apply reads_bind; [eauto|intros ?; apply reads_ret]|]. intros taken.
      destruct taken; cbn [negb]; [|apply reads_ret]. apply reads_bind; [by apply reads_call|]. intros suffix. apply IH. }
  unfold generateQueueNameForResource. reads_tac.
Qed.

(** Reconciling a project's queue never deletes anything and never updates
    a queue outside the project: every queue it updates was read during the
    reconcile, keeps its name, and (where external queues are allowed) carries
    the project's UID among its owners. *)
Theorem reconcileProjectQueue_updates q name uid np tr r :
  exec (reconcileProjectQueue cfg q name uid np) tr r -> Forall (updateOk uid tr) tr.
Proof.
  intros (tr1 & tr2 & r1 & -> & H1 & H2)%exec_bind_inv. apply Forall_app. split.
  { by eapply updateOk_reads, H1; apply getExistingOfResource_reads. }
  destruct r1 as [e|existing].
  - destruct (IsNotFound e); [|by destruct H2 as [-> _]].
    apply exec_bind_inv in H2 as (tr3 & tr4 & n & -> & H3 & H4). apply Forall_app. split.
    { by eapply updateOk_reads, H3; apply generate_reads. }
    apply exec_bind_inv in H4 as (tr5 & tr6 & r5 & -> & H5 & H6). apply Forall_app. split.
    { by eapply updateOk_createQueue. }
    by destruct r5, H6 as [-> _].
  - apply getExisting_seen in H1 as [Hs He].
    apply exec_bind_inv in H2 as (tr3 & tr4 & r3 & -> & H3 & H4). apply Forall_app. split.
    2: { by destruct r3, H4 as [-> _]. }
    unfold handleExistingProjectQueue in H3.
    destruct (areQueuesEqual _ existing); [by destruct H3 as [-> _]|].
    destruct (IsManuallyOverridden _ _); [by destruct H3 as [-> _]|].
    eapply updateOk_update, H3. by apply queueSeen_app_l.
Qed.

(** ** Deletion *)

(** A deletion is of a queue of the owner's kind, that was not reconciled, and
    that the owner may touch. *)
Definition deleteOk (uid kind : string) (reconciled : gset string) : forall X, KubeCall X -> Prop := fun X c =>
  match c with
  | Delete KQueue q =>
      isOwnedByKind (OwnerReferences (qMeta q)) kind = true /\ Name (qMeta q) ∉ reconciled /\
      IsExternalQueue cfg q uid = false
  | _ => is_write c = false
  end.

Lemma wp_deleteQueues uid kind reconciled qs errs :
  wp (deleteOk uid kind reconciled) any_reply (deleteQueues cfg reconciled uid kind qs errs) (fun _ => True).
Proof.
  revert errs. induction qs as [|q qs IH]; intros errs; simpl; [done|].
  destruct (isOwnedByKind _ kind) eqn:Hk; simpl; [|apply IH].
  case_bool_decide; [apply IH|]. unfold deleteQueue.
  destruct (IsExternalQueue cfg q uid) eqn:He; simpl; [apply IH|].
  split; [done|]. intros [e|[]] _; simpl; apply IH.
Qed.

Lemma wp_deleteUnnecessary uid kind reconciled k v :
  wp (deleteOk uid kind reconciled) any_reply (deleteUnnecessaryQueues cfg reconciled uid k v kind) (fun _ => True).
Proof. simpl. split; [done|]. intros [e|qs] _; [done|]. apply wp_deleteQueues. Qed.

Definition noDelete : forall X, KubeCall X -> Prop := fun X c =>
  match c with Delete _ _ => False | _ => True end.

Lemma departmentQueueName_reads d np : reads_only (departmentQueueName cfg d np).
Proof.
  unfold departmentQueueName, departmentQueueByOwner, listQueuesForNodepool, listQueuesWithLabelSelectors. reads_tac.
Qed.

Lemma existingDepartment_reads d np : reads_only (getExistingQueueOfDepartment cfg d np).
Proof. unfold getExistingQueueOfDepartment, listQueuesForNodepool, listQueuesWithLabelSelectors. reads_tac. Qed.

Lemma queueLoop_reads fuel seen q n : reads_only (queueLoopFrom fuel seen q n).
Proof.
  revert seen n. induction fuel as [|fuel IH]; intros seen n; simpl; repeat case_match; try done.
  split; [done|]. intros [e|queue] _; [by case_match|]. apply IH.
Qed.

Lemma hold_reads fuel d q current : reads_only (holdAsRootOnLoop fuel d q current).
Proof. pose proof queueLoop_reads. unfold holdAsRootOnLoop, wouldCloseQueueLoop. reads_tac. Qed.

(** What reconciling the queues of a spec issues: reads, and creates and updates
    of queues. *)
Section ReconcileWrites.
Context (pre : forall X, KubeCall X -> Prop).
Hypothesis pre_read : forall X (c : KubeCall X), is_write c = false -> pre X c.
Hypothesis pre_create : forall q, pre _ (Create KQueue q).
Hypothesis pre_update : forall q, pre _ (Update KQueue q).

Lemma createQueue_issues q : issues pre (createQueue q).
Proof. apply issues_bind; [by apply issues_call|]. intros [e|q']; [by destruct (IsAlreadyExists e)|done]. Qed.

Lemma updateQueue_issues e q uid : issues pre (updateExistingQueue cfg e q uid).
Proof.
  unfold updateExistingQueue. destruct (IsExternalQueue _ _ _); [done|]. apply issues_try; [by apply issues_call|done].
Qed.

Lemma reconcileProjectQueue_issues q name uid np : issues pre (reconcileProjectQueue cfg q name uid np).
Proof.
  apply issues_bind; [by apply issues_reads, getExistingOfResource_reads|]. intros [e|existing].
  - destruct (IsNotFound e); [|done]. apply issues_bind; [by apply issues_reads, generate_reads|]. intros n.
    apply issues_try; [apply createQueue_issues|done].
  - apply issues_try; [|done]. unfold handleExistingProjectQueue.
    destruct (areQueuesEqual _ _); [done|]. destruct (IsManuallyOverridden _ _); [done|apply updateQueue_issues].
Qed.

Lemma reconcileProjectQueues_issues project qs names errs :
  issues pre (reconcileProjectQueues cfg kaiAPIVersion project qs names errs).
Proof.
  revert names errs. induction qs as [|q qs IH]; intros names errs; simpl; [done|].
  apply issues_bind; [|intros [e|n]; apply IH]. apply issues_try; [|intros; apply reconcileProjectQueue_issues].
  apply issues_reads; [done|]. unfold buildProjectQueueFromSpec. pose proof departmentQueueName_reads. reads_tac.
Qed.

Lemma reconcileDepartmentQueue_issues fuel q d np : issues pre (reconcileDepartmentQueue cfg fuel q d np).
Proof.
  pose proof hold_reads.
  apply issues_bind; [by apply issues_reads, existingDepartment_reads|]. intros [e|existing].
  - destruct (IsNotFound e); [|done]. apply issues_bind; [by apply issues_reads, generate_reads|]. intros n.
    apply issues_try; [by apply issues_reads|]. intros held. apply issues_try; [apply createQueue_issues|done].
  - cbv zeta. apply issues_try; [by apply issues_reads|]. intros held. apply issues_try; [|done].
    unfold handleExistingDepartmentQueue. destruct (areQueuesEqual _ _); [done|apply updateQueue_issues].
Qed.

Lemma reconcileDepartmentQueues_issues fuel d qs names held errs :
  issues pre (reconcileDepartmentQueues cfg kaiAPIVersion fuel d qs names held errs).
Proof.
  revert names held errs. induction qs as [|q qs IH]; intros names held errs; simpl; [done|].
  apply issues_bind; [|intros [e|[n h]]; apply IH].
  apply issues_try; [by apply issues_reads, departmentQueueName_reads|]. intros. apply reconcileDepartmentQueue_issues.
Qed.

End ReconcileWrites.

Lemma noDelete_read X (c : KubeCall X) : is_write c = false -> noDelete X c.
Proof. by destruct c. Qed.

(** The queue [n] is the one of an entry of the spec of the project: it was
    created for the entry, or it was found, as a queue of the project in the node
    pool of the entry or under the name of the entry, and the project may touch it. *)
Definition queueOfEntry (project : Project) (entry : QueueConfig) (tr : list (event KubeCall)) (n : string) : Prop :=
  exists q, Name (qMeta q) = n /\
    ((Labels (qMeta q) = addNodePoolLabelIfNeeded cfg (NodePoolLabelKey cfg) (qcNodepool entry)
        {[QueueDepartmentNameLabelKey cfg := prjParent project; ProjectIdLabelKey cfg := UID (prjMeta project);
          ProjectLabelKey cfg := Name (prjMeta project)]}
      /\ exists reply : result (obj KQueue), Event (Create KQueue q) reply ∈ tr
         /\ match reply with inr _ => True | inl err => IsAlreadyExists err = true end)
     \/ IsExternalQueue cfg q (UID (prjMeta project)) = false
        /\ (Event (Get KQueue ("", GetQueueName cfg entry (Name (prjMeta project)))) (inr q) ∈ tr
            \/ exists ofProject ofPool qs,
                 NewRequirement (ProjectLabelKey cfg) DoubleEquals [Name (prjMeta project)] = inr ofProject
                 /\ nodePoolRequirementOf cfg (qcNodepool entry) = inr ofPool
                 /\ Event (List KQueue (withSelector [ofProject; ofPool])) (inr qs) ∈ tr
                 /\ q ∈ qs /\ isOwnedByKind (OwnerReferences (qMeta q)) ProjectKind = true)).

Lemma queueOfEntry_mono project entry tr tr' n : tr ⊆ tr' -> queueOfEntry project entry tr n -> queueOfEntry project entry tr' n.
Proof.
  intros Hsub (q & Hn & [(Hl & reply & Hin & Hr)|(He & [Hget|(r1 & r2 & qs & H1 & H2 & Hin & Hq)])]); exists q; (split; [exact Hn|]).
  - left. split; [done|]. exists reply. split; [by apply Hsub|done].
  - right. split; [done|]. left. by apply Hsub.
  - right. split; [done|]. right. exists r1, r2, qs. do 2 (split; [done|]). split; [by apply Hsub|done].
Qed.

(** A write of a queue that did what it was for. *)
Definition queueWritten : forall X, KubeCall X -> X -> Prop := fun X c =>
  match c in KubeCall X return X -> Prop with
  | Create K _ => fun reply => match reply with inr _ => True | inl err => IsAlreadyExists err = true end
  | Update K _ => fun reply => isOk reply = true
  | c => fun _ => is_write c = false
  end.

Notation written := (fun e => queueWritten _ (ev_call e) (ev_reply e)).

Lemma written_reads {A} (p : kube A) tr a : reads_only p -> exec p tr a -> Forall written tr.
Proof.
  intros Hro Hex. destruct (wp_exec_any _ _ _ _ _ Hro Hex) as [Hall _].
  eapply Forall_impl; [exact Hall|]. intros [X c x]. simpl. by destruct c.
Qed.

Lemma buildProjectQueue_reads entry project : reads_only (buildProjectQueueFromSpec cfg kaiAPIVersion entry project).
Proof. pose proof departmentQueueName_reads. unfold buildProjectQueueFromSpec. reads_tac. Qed.

(** What is found for an entry. *)
Lemma existing_queueOfEntry project entry tr q :
  exec (getExistingQueueOfProject cfg (GetQueueName cfg entry (Name (prjMeta project))) (Name (prjMeta project))
          (UID (prjMeta project)) (qcNodepool entry)) tr (inr q) ->
  queueOfEntry project entry tr (Name (qMeta q)).
Proof.
  intros Hex. exists q. split; [done|]. right. destruct (getExisting_seen _ _ _ _ _ _ _ Hex) as [_ Hext]. split; [done|].
  apply exec_bind_inv in Hex as (tr1 & tr2 & r & -> & H1 & H2). destruct r as [e|q'].
  - left. destruct (IsNotFound e); [|by destruct H2]. cbn [negb] in H2.
    apply exec_bind_inv in H2 as (tr3 & tr4 & [[] [q'|]] & -> & H3 & [-> H4]); simplify_eq.
    apply elem_of_app. right. rewrite app_nil_r. destruct H3 as ([e'|q2] & tr' & -> & H); simpl in H; [by destruct H as [_ [=]]|].
    assert (q2 = q') as ->; [|by left].
    destruct (IsExternalQueue cfg q2 _); [by destruct H as [_ [=]]|].
    repeat case_match; destruct H as [_ ?]; by simplify_eq.
  - destruct H2 as [-> [= <-]]. rewrite app_nil_r. right. unfold getExistingQueueByLabels, createRequirementsForQueuesList in H1.
    case_bool_decide as Hname; [by destruct H1|]. cbn [andb negb] in H1. unfold addRequirement in H1.
    rewrite (bool_decide_false _ Hname) in H1. cbn [andb negb mbind result_bind mret result_ret app] in H1.
    destruct (NewRequirement (ProjectLabelKey cfg) DoubleEquals _) as [e|ofProject] eqn:Hp; [by destruct H1|].
    cbn [mbind result_bind mret result_ret] in H1.
    destruct (nodePoolRequirementOf cfg (qcNodepool entry)) as [e|ofPool] eqn:Hnp; [by destruct H1|].
    cbn [mbind result_bind mret result_ret app] in H1.
    destruct H1 as ([e|qs] & tr' & -> & H); [by destruct H|]. cbn -[firstQueue] in H.
    destruct (firstQueue _ qs) as [q'|] eqn:Hq; destruct H as [-> [= ->]].
    apply firstQueue_Some in Hq as [Hin [Ho _]%andb_true_iff]. exists ofProject, ofPool, qs.
    do 2 (split; [done|]). split; [by left|done].
Qed.

(** Reconciling an entry with success: its queue is there, and what was written
    was stored. *)
Lemma exec_entry project entry tr n :
  exec (queueObject <-? buildProjectQueueFromSpec cfg kaiAPIVersion entry project ;;
        reconcileProjectQueue cfg queueObject (Name (prjMeta project)) (UID (prjMeta project)) (qcNodepool entry)) tr (inr n) ->
  queueOfEntry project entry tr n /\ Forall written tr.
Proof.
  intros (tr1 & tr2 & q & -> & H1 & H2)%exec_try_ok. pose proof (written_reads _ _ _ (buildProjectQueue_reads _ _) H1) as Hw1.
  apply exec_try_ok in H1 as (ta & tb & parent & _ & _ & [_ [= ->]]).
  apply exec_bind_inv in H2 as (tr3 & tr4 & r & -> & H3 & H4).
  pose proof (written_reads _ _ _ (getExistingOfResource_reads _ _ _ _ _) H3) as Hw3.
  destruct r as [e|existing].
  - destruct (IsNotFound e); [|by destruct H4]. apply exec_bind_inv in H4 as (tr5 & tr6 & name & -> & H5 & H6).
    pose proof (written_reads _ _ _ (generate_reads _ _ _ _) H5) as Hw5. cbv zeta in H6.
    destruct H6 as (reply & tr7 & -> & H6).
    assert (match reply with inr _ => True | inl err => IsAlreadyExists err = true end /\ tr7 = [] /\ n = name) as (Hr & -> & ->).
    { destruct reply as [err|q']; cbn [prog_bind_ call] in H6; [destruct (IsAlreadyExists err); [|by destruct H6]|];
        destruct H6 as [-> [= ->]]; done. }
    split.
    + eexists. split; [|left; split; [|exists reply; split; [|exact Hr]; rewrite !elem_of_app; do 3 right; by left]]; reflexivity.
    + rewrite !Forall_app. split_and!; [done|done|done|]. by constructor.
  - apply exec_try_ok in H4 as (tr5 & tr6 & u & -> & H5 & [-> [= ->]]). split.
    + eapply queueOfEntry_mono; [|by apply existing_queueOfEntry]. intros x Hx. rewrite !elem_of_app. naive_solver.
    + rewrite !Forall_app. split_and!; [done|done| |done]. unfold handleExistingProjectQueue, updateExistingQueue in H5.
      destruct (areQueuesEqual _ _); [by destruct H5 as [-> _]|]. destruct (IsManuallyOverridden _ _); [by destruct H5 as [-> _]|].
      destruct (IsExternalQueue _ _ _); [by destruct H5 as [-> _]|]. destruct H5 as (reply & tr' & -> & H5).
      destruct reply as [err|q']; destruct H5 as [-> ?]; [done|]. by constructor.
Qed.

Lemma exec_reconcileProjectQueues project qs names errs tr names' errs' :
  exec (reconcileProjectQueues cfg kaiAPIVersion project qs names errs) tr (names', errs') ->
  names ⊆ names' /\ (errs' = [] -> errs = [] /\ Forall written tr /\
    Forall (fun entry => exists n, n ∈ names' /\ queueOfEntry project entry tr n) qs).
Proof.
  revert names errs tr. induction qs as [|entry qs IH]; intros names errs tr; simpl.
  - intros [-> [= -> ->]]. split; [done|]. by intros ->.
  - intros (tr1 & tr2 & r & -> & H1 & H2)%exec_bind_inv. destruct r as [e|n]; apply IH in H2 as [Hsub Herr].
    + split; [done|]. intros He. apply Herr in He as [He _]. exfalso. by eapply appendErr_nonempty.
    + split; [etransitivity; [apply union_subseteq_r|exact Hsub]|]. intros He. apply Herr in He as (-> & Hw & Hall). apply exec_entry in H1 as [Hq Hw1].
      split; [done|]. split; [by apply Forall_app|]. constructor.
      * exists n. split; [apply Hsub, elem_of_union_l, elem_of_singleton_2, eq_refl|]. eapply queueOfEntry_mono; [|exact Hq]. apply list_subseteq_app_l. reflexivity.
      * eapply Forall_impl; [exact Hall|]. intros entry' (n' & Hn & Hq'). exists n'. split; [done|].
        eapply queueOfEntry_mono; [|exact Hq']. apply list_subseteq_app_r. reflexivity.
Qed.

(** The queue a call deletes. *)
Definition deletedQueue (e : event KubeCall) : option Queue :=
  match ev_call e with Delete KQueue q => Some q | _ => None end.

(** C25: The deletion of a project's queues is safe.  Nothing is deleted before
    every queue of the spec was reconciled; when one of them could not be, nothing
    is deleted at all and the error is returned.  Otherwise every queue that was
    written on the way was stored, and every entry of the spec keeps its queue:
    one that was created for the entry, or found as a queue of the project in
    the node pool of the entry or under the name of the entry, and that is not
    deleted afterwards.  What is deleted is owned by a Project, and (where
    external queues are allowed) by this project; nothing else is written. *)
Theorem handleProjectQueues_deletes project tr r :
  exec (handleProjectQueues cfg kaiAPIVersion project) tr r ->
  exists tr1 tr2, tr = tr1 ++ tr2 /\
    Forall (fun e => noDelete _ (ev_call e)) tr1 /\
    ((tr2 = [] /\ isOk r = false) \/
     (Forall (fun e => queueWritten _ (ev_call e) (ev_reply e)) tr1 /\
      Forall (fun entry => exists n, queueOfEntry project entry tr1 n /\
        Forall (fun e => forall q, deletedQueue e = Some q -> Name (qMeta q) <> n) tr2) (prjQueues project) /\
      Forall (fun e => match deletedQueue e with
                       | Some q => isOwnedByKind (OwnerReferences (qMeta q)) ProjectKind = true /\
                                   IsExternalQueue cfg q (UID (prjMeta project)) = false
                       | None => is_write (ev_call e) = false
                       end) tr2)).
Proof.
  intros (tr1 & tr2 & [names errs] & -> & H1 & H2)%exec_bind_inv. exists tr1, tr2. split; [done|].
  split; [eapply issues_exec, H1; by apply reconcileProjectQueues_issues; [apply noDelete_read|..]|].
  destruct errs as [|e errs]; simpl in H2; [right|left; by destruct H2 as [-> ->]].
  apply exec_reconcileProjectQueues in H1 as [_ H1]. destruct (H1 eq_refl) as (_ & Hw & Hall). split; [done|].
  destruct (wp_exec_any _ _ _ _ _ (wp_deleteUnnecessary _ _ _ _ _) H2) as [Hdel _]. split.
  - eapply Forall_impl; [exact Hall|]. intros entry (n & Hn & Hq). exists n. split; [done|].
    eapply Forall_impl; [exact Hdel|]. intros [X c x] Hc q Hd. unfold deletedQueue in Hd. simpl in *.
    destruct c as [| | | | | | |K o| | | | | |]; try done. destruct K; try done. injection Hd as ->.
    destruct Hc as (_ & Hnot & _). by intros <-.
  - eapply Forall_impl; [exact Hdel|]. intros [X c x] Hc. unfold deletedQueue. simpl in *.
    destruct c as [| | | | | | |K o| | | | | |]; try done. destruct K; try done. by destruct Hc as (? & _ & ?).
Qed.

(** The deletion of a department's queues is safe in the same way: nothing
    is deleted before every queue of the spec was reconciled without an error,
    and what is deleted afterwards is owned by a Department, is not one of the
    reconciled queues, and (where external queues are allowed) is owned by this
    department.  The queues of the projects of the department, which carry the
    same department label, are never deleted. *)
Theorem handleDepartmentQueues_deletes fuel department tr r :
  exec (handleDepartmentQueues cfg kaiAPIVersion fuel department) tr r ->
  exists tr1 tr2 names held errs, tr = tr1 ++ tr2 /\ r.1 = held /\
    exec (reconcileDepartmentQueues cfg kaiAPIVersion fuel department (depQueues department) ∅ false []) tr1
      (names, held, errs) /\
    Forall (fun e => noDelete _ (ev_call e)) tr1 /\
    (errs <> [] -> tr2 = [] /\ r.2 = inl (Joined errs)) /\
    Forall (fun e => deleteOk (UID (depMeta department)) DepartmentKind names _ (ev_call e)) tr2.
Proof.
  intros (tr1 & tr2 & [[names held] errs] & -> & H1 & H2)%exec_bind_inv.
  assert (Forall (fun e => noDelete _ (ev_call e)) tr1).
  { eapply issues_exec, H1. by apply reconcileDepartmentQueues_issues; [apply noDelete_read|..]. }
  exists tr1, tr2, names, held, errs. split; [done|].
  destruct errs as [|e errs]; cbn [errorOf] in H2.
  - apply exec_bind_inv in H2 as (tr3 & tr4 & r' & -> & H3 & [-> ->]). rewrite app_nil_r.
    do 4 (split; [done|]). by destruct (wp_exec_any _ _ _ _ _ (wp_deleteUnnecessary _ _ _ _ _) H3).
  - destruct H2 as [-> ->]. do 3 (split; [done|]). split; [done|constructor].
Qed.

(** ** Writes *)

(** Only queues are written. *)
Definition queuesOnly : forall X, KubeCall X -> Prop := fun X c =>
  match c with
  | Create KQueue _ | Update KQueue _ | Delete KQueue _ => True
  | _ => is_write c = false
  end.

Lemma queuesOnly_read X (c : KubeCall X) : is_write c = false -> queuesOnly X c.
Proof. by destruct c. Qed.

Lemma deleteUnnecessary_queuesOnly uid kind reconciled k v :
  issues queuesOnly (deleteUnnecessaryQueues cfg reconciled uid k v kind).
Proof.
  eapply wp_pre_mono; [|apply wp_deleteUnnecessary]. intros X c. destruct c; try done; destruct K; done.
Qed.

Lemma handleProjectQueues_queuesOnly p : issues queuesOnly (handleProjectQueues cfg kaiAPIVersion p).
Proof.
  apply issues_bind; [by apply reconcileProjectQueues_issues; [apply queuesOnly_read|..]|].
  intros [names errs]. destruct (errorOf errs); [done|apply deleteUnnecessary_queuesOnly].
Qed.

Lemma handleDepartmentQueues_queuesOnly fuel d : issues queuesOnly (handleDepartmentQueues cfg kaiAPIVersion fuel d).
Proof.
  apply issues_bind; [by apply reconcileDepartmentQueues_issues; [apply queuesOnly_read|..]|].
  intros [[names held] errs]. destruct (errorOf errs); [done|].
  apply issues_bind; [apply deleteUnnecessary_queuesOnly|done].
Qed.

(** ** The forest of queues *)

(** [queueAncestor m q a]: following the parents of the queues of [m] from the
    name [a] reaches the queue [q]. *)
Inductive queueAncestor (m : gmap string Queue) (q : string) : string -> Prop :=
| ancestor_here : q <> "" -> queueAncestor m q q
| ancestor_up a qa :
    a <> "" -> m !! a = Some qa -> queueAncestor m q (ParentQueue (qSpec qa)) -> queueAncestor m q a.

Definition acyclicQueues (m : gmap string Queue) : Prop :=
  forall n q, m !! n = Some q -> ~ queueAncestor m n (ParentQueue (qSpec q)).

(** The replies that read a queue agree with the queues [m]. *)
Definition readsQueues (m : gmap string Queue) : forall X, KubeCall X -> X -> Prop := fun X c =>
  match c in KubeCall X return X -> Prop with
  | GetLive KQueue (_, n) => fun r =>
      match r with inr q => m !! n = Some q | inl e => m !! n = None /\ IsNotFound e = true end
  | List KQueue _ => fun r =>
      match r with inr qs => Forall (fun q : Queue => m !! Name (qMeta q) = Some q) qs | inl _ => True end
  | _ => fun _ => True
  end.

Lemma ancestor_nonempty m q a : queueAncestor m q a -> a <> "" /\ q <> "".
Proof. induction 1; naive_solver. Qed.

Lemma ancestor_trans m a b c : queueAncestor m c b -> queueAncestor m b a -> queueAncestor m c a.
Proof. intros Hcb Hba. induction Hba; eauto using queueAncestor. Qed.

Lemma ancestor_step m q a qa :
  a <> "" -> a <> q -> m !! a = Some qa -> queueAncestor m q a <-> queueAncestor m q (ParentQueue (qSpec qa)).
Proof.
  intros Ha Haq Hm. split; [|by eauto using queueAncestor]. inversion 1; by simplify_eq.
Qed.

Lemma ancestor_missing m q a : a <> q -> m !! a = None -> ~ queueAncestor m q a.
Proof. intros Haq Hm. inversion 1; by simplify_eq. Qed.

(** A set closed under parents that does not hold [q] does not lead to [q]. *)
Lemma ancestor_closed m q (seen : gset string) a :
  q ∉ seen ->
  (forall n qn, n ∈ seen -> m !! n = Some qn -> ParentQueue (qSpec qn) ∈ seen) ->
  a ∈ seen -> ~ queueAncestor m q a.
Proof. intros Hq Hcl Ha Hanc. induction Hanc; naive_solver. Qed.

Lemma wp_queueLoopFrom m fuel seen q n :
  (size m < fuel + size seen)%nat ->
  (forall s, s ∈ seen -> is_Some (m !! s)) -> q ∉ seen ->
  (forall s qs, s ∈ seen -> m !! s = Some qs -> ParentQueue (qSpec qs) ∈ seen \/ ParentQueue (qSpec qs) = n) ->
  wp (fun _ _ => True) (readsQueues m) (queueLoopFrom fuel seen q n)
    (fun r => exists b, r = inr b /\ (b = true <-> queueAncestor m q n)).
Proof.
  revert seen n. induction fuel as [|fuel IH]; intros seen n Hfuel Hdom Hq Hcl; cbn [queueLoopFrom].
  all: case_bool_decide as Hempty;
    [simpl; exists false; split; [done|]; split; [done|]; by intros [? _]%ancestor_nonempty|].
  all: case_bool_decide as Hnq; [subst; simpl; exists true; split; [done|]; split; [|done]; by constructor|].
  all: case_bool_decide as Hseen;
    [simpl; exists false; split; [done|]; split; [done|]; intros Hanc; exfalso;
     eapply ancestor_closed, Hanc; [done| |done]; intros s qs Hs Hm; by destruct (Hcl s qs Hs Hm) as [ | -> ]|].
  - exfalso. assert (seen ⊆ dom m) as Hsub by (intros s Hs%Hdom; by apply elem_of_dom).
    apply subseteq_size in Hsub. rewrite size_dom in Hsub. lia.
  - apply wp_bind, wp_call; [done|]. intros [e|queue] Hr; cbn in Hr.
    + destruct Hr as [Hm ->]. exists false. split; [done|]. split; [done|].
      intros Hanc. by eapply ancestor_missing in Hanc.
    + eapply wp_mono; [|apply IH].
      * intros r (b & -> & Hb). exists b. split; [done|]. rewrite Hb. symmetry. by apply ancestor_step.
      * rewrite size_union by set_solver. rewrite size_singleton. lia.
      * intros s [->%elem_of_singleton|Hs]%elem_of_union; eauto.
      * set_solver.
      * intros s qs [->%elem_of_singleton|Hs]%elem_of_union Hm.
        -- simplify_eq. by right.
        -- destruct (Hcl s qs Hs Hm) as [ | -> ]; set_solver.
Qed.

(** C26: The queue loop check is total and exact: with more fuel than there are
    queues it always answers, and it answers true exactly when walking up from
    the new parent reaches the queue itself, even if the queues already contain
    a cycle elsewhere. *)
Theorem wouldCloseQueueLoop_exact m fuel q parent tr r :
  exec (wouldCloseQueueLoop fuel q parent) tr r ->
  Forall (fun e => readsQueues m _ (ev_call e) (ev_reply e)) tr ->
  (size m < fuel)%nat ->
  exists b, r = inr b /\ (b = true <-> queueAncestor m q parent).
Proof.
  intros Hex Hall Hfuel.
  apply (wp_exec _ _ _ _ _ _ (wp_queueLoopFrom m fuel ∅ q parent ltac:(rewrite size_empty; lia)
           ltac:(set_solver) ltac:(set_solver) ltac:(set_solver)) Hex Hall).
Qed.

Lemma ancestor_insert m n q' x y :
  queueAncestor (<[n := q']> m) x y ->
  queueAncestor m x y \/
  (queueAncestor (<[n := q']> m) n y /\ queueAncestor (<[n := q']> m) x (ParentQueue (qSpec q'))).
Proof.
  induction 1 as [|y qy Hy Hm Hanc IH]; [left; by constructor|].
  destruct (decide (y = n)) as [->|Hn].
  - rewrite lookup_insert_eq in Hm. simplify_eq. right. split; [by constructor|done].
  - pose proof Hm as Hm'. rewrite lookup_insert_ne in Hm by done.
    destruct IH as [IH|[IH1 IH2]]; [left; by econstructor|right]. split; [by econstructor|done].
Qed.

Lemma ancestor_insert_self m n q' y : queueAncestor (<[n := q']> m) n y -> queueAncestor m n y.
Proof.
  induction 1 as [|y qy Hy Hm Hanc IH]; [by constructor|].
  destruct (decide (y = n)) as [->|Hn]; [by constructor|].
  rewrite lookup_insert_ne in Hm by done. by econstructor.
Qed.

(** Setting a parent from which the queue is not reachable keeps the forest. *)
Lemma acyclic_insert m n q' :
  acyclicQueues m -> ~ queueAncestor m n (ParentQueue (qSpec q')) -> acyclicQueues (<[n := q']> m).
Proof.
  intros Hac Hnot x qx Hx Hanc.
  assert (~ queueAncestor (<[n := q']> m) n (ParentQueue (qSpec q'))) as Hnot'
    by (by intros ?%ancestor_insert_self).
  destruct (decide (x = n)) as [->|Hxn]; [rewrite lookup_insert_eq in Hx; by simplify_eq|].
  rewrite lookup_insert_ne in Hx by done.
  apply ancestor_insert in Hanc as [Hanc|[Hn Hx']]; [by eapply Hac|].
  apply Hnot'. eapply ancestor_trans; [|exact Hx'].
  eapply ancestor_up; [by apply ancestor_nonempty in Hx' as [_ ?]|by rewrite lookup_insert_ne|done].
Qed.

(** What is written to a queue keeps the forest. *)
Definition keepsForest (m : gmap string Queue) : forall X, KubeCall X -> Prop := fun X c =>
  match c with
  | Create KQueue q | Update KQueue q => acyclicQueues (<[Name (qMeta q) := q]> m)
  | _ => is_write c = false
  end.

Lemma keepsForest_read m X (c : KubeCall X) : is_write c = false -> keepsForest m X c.
Proof. by destruct c. Qed.

Lemma keepsForest_reads m {A} (p : kube A) (Q : A -> Prop) :
  reads_only p -> wp (fun _ _ => True) (readsQueues m) p Q -> wp (keepsForest m) (readsQueues m) p Q.
Proof.
  unfold reads_only. induction p as [a|X c k IH]; simpl; [done|]. intros [Hc Hk] [_ HQ].
  split; [by apply keepsForest_read|]. intros x Hx. apply IH; [by apply Hk|by apply HQ].
Qed.

(** A queue as [readsQueues] leaves it: absent, or with this parent. *)
Definition currentParent (m : gmap string Queue) (n parent : string) : Prop :=
  parent = "" \/ exists q, m !! n = Some q /\ ParentQueue (qSpec q) = parent.

Lemma wp_hold m fuel d q current :
  acyclicQueues m -> (size m < fuel)%nat -> currentParent m (Name (qMeta q)) current ->
  wp (fun _ _ => True) (readsQueues m) (holdAsRootOnLoop fuel d q current)
    (fun r => exists q' held, r = inr (q', held) /\
       q' = (if held then queue_with_parent "" q else q) /\
       (held = true <-> ParentQueue (qSpec q) <> current /\ queueAncestor m (Name (qMeta q)) (ParentQueue (qSpec q))) /\
       ~ queueAncestor m (Name (qMeta q)) (ParentQueue (qSpec q'))).
Proof.
  intros Hac Hfuel Hcur. unfold holdAsRootOnLoop. cbv zeta.
  case_bool_decide as Hempty; [|case_bool_decide as Hsame]; cbn [orb].
  - exists q, false. do 2 (split; [done|]). assert (~ queueAncestor m (Name (qMeta q)) (ParentQueue (qSpec q))).
    { intros [? _]%ancestor_nonempty. done. }
    split; [naive_solver|done].
  - exists q, false. do 2 (split; [done|]). split; [naive_solver|].
    rewrite Hsame. destruct Hcur as [->|(qc & Hm & <-)]; [done|]. by eapply Hac.
  - apply wp_try. eapply wp_mono; [|apply wp_queueLoopFrom; [rewrite size_empty; lia|set_solver..]].
    intros r (b & -> & Hb). destruct b; cbn [negb].
    + simpl. split; [done|]. intros _ _. exists (queue_with_parent "" q), true. do 2 (split; [done|]).
      split; [naive_solver|]. simpl. by intros [? _]%ancestor_nonempty.
    + exists q, false. do 2 (split; [done|]).
      assert (~ queueAncestor m (Name (qMeta q)) (ParentQueue (qSpec q))) by naive_solver.
      split; [naive_solver|done].
Qed.

Lemma wp_existingDepartment m d np :
  wp (fun _ _ => True) (readsQueues m) (getExistingQueueOfDepartment cfg d np)
    (fun r => match r with inr q => m !! Name (qMeta q) = Some q | inl _ => True end).
Proof.
  unfold getExistingQueueOfDepartment, listQueuesForNodepool, listQueuesWithLabelSelectors. apply wp_try.
  destruct (nodePoolRequirementOf cfg np); [done|]. apply wp_call; [done|]. intros [e|qs] Hqs; [done|].
  destruct (firstQueue _ qs) as [q|] eqn:Hq; [|done]. apply firstQueue_Some in Hq as [Hin _].
  cbn in Hqs. rewrite Forall_forall in Hqs. by apply Hqs.
Qed.

Lemma wp_any {A} m (p : kube A) : wp (fun _ _ => True) (readsQueues m) p (fun _ => True).
Proof. induction p; simpl; auto. Qed.

(** C7: Reconciling a department's queue keeps the queue forest acyclic: if the
    queues that were read form a forest, so do the queues after the create or
    update that the reconcile issues, whatever parent the department asks for
    (the queue is kept a root instead when its parent would close a loop). *)
Theorem reconcileDepartmentQueue_acyclic m fuel q d np tr r :
  acyclicQueues m -> (size m < fuel)%nat ->
  exec (reconcileDepartmentQueue cfg fuel q d np) tr r ->
  Forall (fun e => readsQueues m _ (ev_call e) (ev_reply e)) tr ->
  Forall (fun e => keepsForest m _ (ev_call e)) tr.
Proof.
  intros Hac Hfuel Hex Hall. eapply (wp_exec _ _ _ (fun _ => True)) in Hex as [H _]; [exact H| |exact Hall].
  unfold reconcileDepartmentQueue. apply wp_bind. eapply wp_mono;
    [|apply keepsForest_reads; [apply existingDepartment_reads|apply wp_existingDepartment]].
  intros [e|existing] Hexisting.
  - destruct (IsNotFound e); [|done]. apply wp_bind. eapply wp_mono;
      [|apply keepsForest_reads; [apply generate_reads|apply wp_any]]. intros name _.
    apply wp_try. eapply wp_mono;
      [|apply keepsForest_reads; [apply hold_reads|apply wp_hold with (m := m); [done|done|by left]]].
    intros ? (q' & held & -> & Hq' & _ & Hac'). apply wp_try. simpl. split.
    + apply acyclic_insert; [done|]. by destruct held; subst q'.
    + intros [e'|] _; [|done]. simpl. by destruct (IsAlreadyExists e').
  - cbv zeta. apply wp_try. eapply wp_mono;
      [|apply keepsForest_reads; [apply hold_reads|apply wp_hold with (m := m); [done|done|right; by exists existing]]].
    intros ? (q' & held & -> & Hq' & _ & Hac'). apply wp_try.
    unfold handleExistingDepartmentQueue, updateExistingQueue. cbn [fst snd].
    destruct (areQueuesEqual _ _); [done|]. destruct (IsExternalQueue _ _ _); [done|].
    simpl. split; [|by intros [e'|q''] _]. by apply acyclic_insert.
Qed.

End QueueProps.

(** ** Evaluation on a concrete cluster *)

Definition demoProjectConfig : ProjectReconcilerConfig :=
  {| CreateNamespaces := true; CreateRoleBindings := true; RoleBindingsCm := "rb"; RoleBindingsCmNamespace := "kai";
     cfgLimitRange := true; IsOpenshift := false; InstallNamespace := "kai"; LimitRangeName := "kai-limit-range";
     GvkDeleteBlockersNamespace := "kai";
     NodePoolLabelKey := "kai.scheduler/node-pool"; DefaultNodepoolName := "default";
     NamespaceProjectLabelKey := "kai.scheduler/project"; ProjectLabelKey := "kai.scheduler/project";
     ProjectIdLabelKey := "kai.scheduler/project-id"; QueueDepartmentNameLabelKey := "kai.scheduler/department-name";
     NamespaceVersionLabelKey := "kai.scheduler/namespace-version";
     EnforceSchedulerAnnotationKey := "kai.scheduler/enforce-scheduler";
     FinalizerDomain := "kai.resources"; ProjectNamePrefix := "kai";
     ResourceManualOverrideLabelKey := "kai.scheduler/manual-override"; AllowExternalQueues := false |}.

Definition demoSpecQueue (pool : string) : QueueConfig :=
  {| qcName := ""; qcNodepool := pool; qcResources := None; qcPriority := None |}.

Definition demoProject (name uid parent : string) : Project :=
  {| prjMeta := {| Name := name; Namespace := ""; UID := uid; Labels := ∅; Annotations := ∅; OwnerReferences := [];
                   Finalizers := []; DeletionTimestamp := None; ResourceVersion := "1"; Generation := 1 |};
     prjParent := parent; prjNamespace := ""; prjQueues := [demoSpecQueue "default"]; DefaultNodePools := [];
     EnforceKaiScheduler := false; prjDeletionType := None;
     prjStatus := {| stNamespace := ""; stPhase := ""; stMessage := ""; stConditions := [];
                     NodePoolsQuotaStatuses := []; stQuotaStatus := emptyQueueStatus |} |}.

Definition demoDept (name uid parent : string) : Department :=
  {| depMeta := {| Name := name; Namespace := ""; UID := uid; Labels := ∅; Annotations := ∅; OwnerReferences := [];
                   Finalizers := []; DeletionTimestamp := None; ResourceVersion := "1"; Generation := 1 |};
     depParent := parent; depQueues := [demoSpecQueue "default"]; depConditions := [] |}.

Definition kaiVersion := "kai.scheduler/v1alpha1".

(** The queue of department [p], as the department handler creates it. *)
Definition demoDeptQueue : Queue :=
  buildDepartmentQueueFromSpec demoProjectConfig kaiVersion (demoSpecQueue "default") (demoDept "p" "uid-dept" "") "".

Definition collisionStore : store := store_add (K := KQueue) demoDeptQueue emptyStore.

Definition collisionRun : result unit * store :=
  run memServer (handleProjectQueues demoProjectConfig kaiVersion (demoProject "p" "uid-proj" "")) collisionStore.

(** The queues that carry the project's name. *)
Definition queuesOfProject (s : store) (name : string) : list Queue :=
  filter (fun q : Queue => Labels (qMeta q) !! ProjectLabelKey demoProjectConfig = Some name)
    (snd <$> map_to_list (s KQueue)).

(** A project and a department of the same name collide silently: the
    queue of department [p] blocks the name, the name generator asks whether the
    name is taken with project and department swapped and so takes it to be free,
    the create answers that the queue already exists, which counts as success,
    and the project ends up without any queue while its reconcile succeeds.  A
    project of another name gets its queue on the same cluster. *)
Theorem project_department_collision :
  collisionRun.1 = inr tt /\ queuesOfProject collisionRun.2 "p" = [] /\
  let other := run memServer (handleProjectQueues demoProjectConfig kaiVersion (demoProject "o" "uid-o" "")) collisionStore in
  other.1 = inr tt /\ length (queuesOfProject other.2 "o") = 1%nat.
Proof. vm_compute. repeat split; reflexivity. Qed.

Definition longName : string := String.concat "" (repeat "n" 70).

Definition longNameRun := generateQueueNameForResource demoProjectConfig "p" "" longName "uid".

Lemma generateQueueName_length_witness :
  (String.length (run memServer longNameRun emptyStore).1 <= maxKubeNameLen)%nat.
Proof.
  apply (generateQueueName_length demoProjectConfig "p" "" longName "uid" (run_trace memServer longNameRun emptyStore)).
  - apply run_exec.
  - vm_compute. repeat constructor.
Defined.

(** The project's queue exists, with a priority that is not the expected one. *)
Definition demoStaleQueue : Queue :=
  {| qMeta := meta_with_owners (fun _ => [ownerReference kaiVersion ProjectKind "q" "uid-q"])
                (meta_with_labels (fun _ => {[ProjectLabelKey demoProjectConfig := "q"]}) (named "q"));
     qSpec := populateQueueSpec None "q" "" (Some 7%Z);
     qStatus := emptyQueueStatus |}.

Definition demoUpdate :=
  reconcileProjectQueue demoProjectConfig demoStaleQueue "q" "uid-q" "default".
Definition demoUpdateStore : store :=
  store_add (K := KQueue) (queue_with_parent "old" demoStaleQueue) emptyStore.

Lemma reconcileProjectQueue_updates_witness :
  length (writes (run_trace memServer demoUpdate demoUpdateStore)) = 1%nat /\
  Forall (updateOk demoProjectConfig "uid-q" (run_trace memServer demoUpdate demoUpdateStore))
    (run_trace memServer demoUpdate demoUpdateStore).
Proof.
  split; [vm_compute; reflexivity|].
  apply (reconcileProjectQueue_updates demoProjectConfig demoStaleQueue "q" "uid-q" "default" _
           (run memServer demoUpdate demoUpdateStore).1).
  apply run_exec.
Defined.

(** Project [q] with a queue of a pool that left its spec. *)
Definition demoDeletion := handleProjectQueues demoProjectConfig kaiVersion (demoProject "q" "uid-q" "").
Definition demoDeletionStore : store :=
  store_add (K := KQueue) (queue_renamed "q-old" {|
    qMeta := meta_with_labels <[NodePoolLabelKey demoProjectConfig := "old"]> (qMeta demoStaleQueue);
    qSpec := qSpec demoStaleQueue; qStatus := emptyQueueStatus |}) emptyStore.

Lemma handleProjectQueues_deletes_witness :
  Name ∘ qMeta <$> omap deletedQueue (run_trace memServer demoDeletion demoDeletionStore) = ["q-old"] /\
  exists tr1 tr2, run_trace memServer demoDeletion demoDeletionStore = tr1 ++ tr2 /\
    Forall (fun e => noDelete _ (ev_call e)) tr1 /\
    exists n, queueOfEntry demoProjectConfig (demoProject "q" "uid-q" "") (demoSpecQueue "default") tr1 n /\
      Forall (fun e => forall q, deletedQueue e = Some q -> Name (qMeta q) <> n) tr2.
Proof.
  split; [vm_compute; reflexivity|].
  destruct (handleProjectQueues_deletes demoProjectConfig kaiVersion (demoProject "q" "uid-q" "")
    (run_trace memServer demoDeletion demoDeletionStore) (run memServer demoDeletion demoDeletionStore).1)
    as (tr1 & tr2 & Heq & Hno & [[_ Herr]|(_ & Hkept & _)]).
  - apply run_exec.
  - vm_compute in Herr. discriminate.
  - exists tr1, tr2. split; [exact Heq|]. split; [exact Hno|]. apply Forall_cons in Hkept as [Hkept _]. exact Hkept.
Defined.

Definition demoDeptRun := handleDepartmentQueues demoProjectConfig kaiVersion 5 (demoDept "p" "uid-dept" "").

Lemma handleDepartmentQueues_deletes_witness :
  exists tr1 tr2 names held errs, run_trace memServer demoDeptRun emptyStore = tr1 ++ tr2 /\
    (run memServer demoDeptRun emptyStore).1.1 = held /\
    exec (reconcileDepartmentQueues demoProjectConfig kaiVersion 5 (demoDept "p" "uid-dept" "")
            [demoSpecQueue "default"] ∅ false []) tr1 (names, held, errs) /\
    Forall (fun e => noDelete _ (ev_call e)) tr1 /\
    (errs <> [] -> tr2 = [] /\ (run memServer demoDeptRun emptyStore).1.2 = inl (Joined errs)) /\
    Forall (fun e => deleteOk demoProjectConfig "uid-dept" DepartmentKind names _ (ev_call e)) tr2.
Proof.
  apply (handleDepartmentQueues_deletes demoProjectConfig kaiVersion 5 (demoDept "p" "uid-dept" "")). apply run_exec.
Defined.

(** Department [p] asks for its own child [c] as parent. *)
Definition demoChildQueue : Queue :=
  buildDepartmentQueueFromSpec demoProjectConfig kaiVersion (demoSpecQueue "default") (demoDept "c" "uid-c" "p") "p".

Definition demoForest : gmap string Queue :=
  <["p" := demoDeptQueue]> {["c" := demoChildQueue]}.

Definition forestStore : store :=
  store_add (K := KQueue) demoChildQueue collisionStore.

Lemma wouldCloseQueueLoop_exact_witness :
  exists b, (run memServer (wouldCloseQueueLoop 3 "p" "c") forestStore).1 = inr b /\
    (b = true <-> queueAncestor demoForest "p" "c").
Proof.
  apply (wouldCloseQueueLoop_exact demoForest 3 "p" "c" (run_trace memServer (wouldCloseQueueLoop 3 "p" "c") forestStore)).
  - apply run_exec.
  - vm_compute. repeat constructor.
  - vm_compute. repeat constructor.
Defined.

Definition demoHold :=
  reconcileDepartmentQueue demoProjectConfig 3 (queue_with_parent "c" demoDeptQueue) (demoDept "p" "uid-dept" "c") "default".

Lemma demoForest_acyclic : acyclicQueues demoForest.
Proof.
  unfold demoForest. apply acyclic_insert.
  - rewrite <- insert_empty. apply acyclic_insert; [intros n q; by rewrite lookup_empty|].
    intros Ha. by inversion Ha as [|a qa Hne Hl]; simplify_eq/=.
  - intros Ha. by apply ancestor_nonempty in Ha as [Ha _].
Qed.

Lemma reconcileDepartmentQueue_acyclic_witness :
  (run memServer demoHold forestStore).1 = inr ("p", true) /\
  Forall (fun e => keepsForest demoForest _ (ev_call e)) (run_trace memServer demoHold forestStore).
Proof.
  split; [vm_compute; reflexivity|].
  apply (reconcileDepartmentQueue_acyclic demoProjectConfig demoForest 3 (queue_with_parent "c" demoDeptQueue)
           (demoDept "p" "uid-dept" "c") "default" _ (run memServer demoHold forestStore).1).
  - exact demoForest_acyclic.
  - vm_compute. repeat constructor.
  - apply run_exec.
  - vm_compute. repeat constructor.
Defined.
