(* ===== verification/ProjectHandlers.v ===== *)
(** * The namespace, limit range and queues handler of a project

    [pkg/project-controller/handlers]: [namespace_resource_handler.go],
    [limit_range_resource_handler.go] and [HandleQueues].
    A handler answers the conditions it reports and its error. *)

From stdpp Require Import base list gmap strings.
From S2P Require Import Prelude ApiTypes NodePoolUtils ProjectCommon Queues.

(** [strconv.FormatBool]. *)
Definition FormatBool (b : bool) : string := if b then "true" else "false".

(** The condition types of the project API. *)
Definition NamespaceReady := "NamespaceReady".
Definition QueuesReady := "QueuesReady".
Definition RoleBindingsReady := "RoleBindingsReady".
Definition ReadyCondition := "LimitRangeReady".

(** Reasons ([project_status_handler.go]). *)
Definition NamespaceGetFailed := "NamespaceGetFailed".
Definition NamespaceNotFound := "NamespaceNotFound".
Definition NamespaceLabelMissing := "NamespaceLabelMissing".
Definition NamespaceUpdateFailed := "NamespaceUpdateFailed".
Definition NamespaceCreateFailed := "NamespaceCreateFailed".
Definition LimitRangeHandlerFailed := "LimitRangeHandlerFailed".
Definition QueuesHandlerFailed := "QueuesHandlerFailed".
Definition RoleBindingsHandlerFailed := "RoleBindingsHandlerFailed".

(** What [HandleResource] answers. *)
Notation Handled := (list Condition * result unit)%type.

Section Handlers.
Context (cfg : ProjectReconcilerConfig) (kaiAPIVersion : string).
(** [err.Error()]. *)
Context (errorText : error -> string).

(** The conditions of the handlers whose message is the error. *)
Definition reported (type reason : string) (err : result unit) : Handled :=
  ([newCondition type (GetStatusFromError (errOf err)) (getReasonFromError (errOf err) reason)
      (GetMessageFromError errorText (errOf err))], err).

(** [QueueResourceHandler.HandleResource]. *)
Definition HandleQueues `{!LabelsLib} (project : Project) : kube Handled :=
  err <- handleProjectQueues cfg kaiAPIVersion project ;; Ret (reported QueuesReady QueuesHandlerFailed err).

(** ** Namespaces *)

(** The status message, the reason and the error of the inner functions. *)
Notation Outcome := (string * string * result unit)%type.
Definition done : Outcome := ("", "", inr tt).

Definition GetNamespace (namespaceName : string) : kube (result NamespaceObj) :=
  call (Get KNamespace ("", namespaceName)).

Definition DefaultProjectNamespaceName (project : Project) : string :=
  NamespacePrefix cfg +:+ Name (prjMeta project).

Definition GetNamespaceObject (project : Project) (namespaceName : string) : NamespaceObj :=
  let labels : gmap string string :=
    <[NamespaceVersionLabelKey cfg := AgentNamespaceVersion]>
    {[NamespaceProjectLabelKey cfg := Name (prjMeta project)]} in
  let labels := if IsOpenshift cfg then <[OcpClusterMonitoringLabel := "true"]> labels else labels in
  {| nsKind := NamespaceKind; nsAPIVersion := CoreV1ApiVersion;
     nsMeta := meta_with_annotations
                 (fun _ => {[EnforceSchedulerAnnotationKey cfg := FormatBool (EnforceKaiScheduler project)]})
                 (meta_with_labels (fun _ => labels) (named namespaceName)) |}.

(** Decoding leaves the labels nil exactly when there are none. *)
Definition NamespacesEqual (left right : NamespaceObj) : bool :=
  (nsKind left ==? nsKind right) && (nsAPIVersion left ==? nsAPIVersion right)
  && (Name (nsMeta left) ==? Name (nsMeta right))
  && (Labels (nsMeta left) !=? ∅) && (Labels (nsMeta right) !=? ∅)
  && (mapGet (Labels (nsMeta left)) (NamespaceProjectLabelKey cfg)
      ==? mapGet (Labels (nsMeta right)) (NamespaceProjectLabelKey cfg))
  && (mapGet (Annotations (nsMeta left)) (EnforceSchedulerAnnotationKey cfg)
      ==? mapGet (Annotations (nsMeta right)) (EnforceSchedulerAnnotationKey cfg)).

(** The namespace [handleExistingNamespace] writes: the loops over the existing
    annotations (but the enforcement one, overriding) and labels (not
    overriding). *)
Definition mergedNamespace (existingNamespace newNamespace : NamespaceObj) : NamespaceObj :=
  let e := nsMeta existingNamespace in
  let n := nsMeta newNamespace in
  {| nsKind := nsKind newNamespace; nsAPIVersion := nsAPIVersion newNamespace;
     nsMeta := {| Name := Name n; Namespace := Namespace n; UID := UID e;
                  Labels := Labels n ∪ Labels e;
                  Annotations := delete (EnforceSchedulerAnnotationKey cfg) (Annotations e) ∪ Annotations n;
                  OwnerReferences := OwnerReferences n; Finalizers := Finalizers e;
                  DeletionTimestamp := DeletionTimestamp n; ResourceVersion := ResourceVersion e;
                  Generation := Generation n |} |}.

Definition handleExistingNamespace (existingNamespace newNamespace : NamespaceObj) : kube Outcome :=
  if IsManuallyOverridden cfg (nsMeta existingNamespace) then Ret done
  else if NamespacesEqual newNamespace existingNamespace then Ret done
  else
    r <- call (Update KNamespace (mergedNamespace existingNamespace newNamespace)) ;;
    match r with
    | inl err => Ret (FailedUpdateNamespaceStatusMsg, NamespaceUpdateFailed, inl err)
    | inr _ => Ret done
    end.

Definition handleNonExistingNamespace (newNamespace : NamespaceObj) : kube Outcome :=
  r <- call (Create KNamespace newNamespace) ;;
  match r with
  | inl err =>
      if IsAlreadyExists err then Ret done
      else Ret (FailedCreateNamespaceStatusMsg, NamespaceCreateFailed, inl err)
  | inr _ => Ret done
  end.

(** The labels and annotations [labelExternalNamespaceForProject] leaves on the
    namespace, and whether they changed. *)
Definition labelledNamespace (project : Project) (existingNamespace : NamespaceObj) : NamespaceObj * bool :=
  let labelMissing := bool_decide (Labels (nsMeta existingNamespace) !! NamespaceProjectLabelKey cfg = None) in
  let enforce := FormatBool (EnforceKaiScheduler project) in
  let annotate :=
    bool_decide (Annotations (nsMeta existingNamespace) !! EnforceSchedulerAnnotationKey cfg <> Some enforce) in
  ({| nsKind := nsKind existingNamespace; nsAPIVersion := nsAPIVersion existingNamespace;
      nsMeta :=
        meta_with_annotations
          (fun a => if annotate then <[EnforceSchedulerAnnotationKey cfg := enforce]> a else a)
          (meta_with_labels
             (fun l => if labelMissing then <[NamespaceProjectLabelKey cfg := Name (prjMeta project)]> l else l)
             (nsMeta existingNamespace)) |},
   labelMissing || annotate).

Definition labelExternalNamespaceForProject (project : Project) (existingNamespace : NamespaceObj) : kube Outcome :=
  let projectNameLabel := mapGet (Labels (nsMeta existingNamespace)) (NamespaceProjectLabelKey cfg) in
  if (projectNameLabel !=? "") && (projectNameLabel !=? Name (prjMeta project)) then
    let statusMsg := sprintf "'%s' %s" [NamespaceProjectLabelKey cfg; QueueLabelMissingFromNamespaceStatusMsg] in
    Ret (statusMsg, NamespaceLabelMissing, inl (Errorf statusMsg []))
  else
    let '(namespace, updated) := labelledNamespace project existingNamespace in
    if updated then
      r <- call (Update KNamespace namespace) ;;
      match r with
      | inl err => Ret (FailedUpdateNamespaceStatusMsg, NamespaceUpdateFailed, inl err)
      | inr _ => Ret done
      end
    else Ret done.

Definition handleUserExternalNamespaceForProject (project : Project) : kube Outcome :=
  r <- GetNamespace (prjNamespace project) ;;
  match r with
  | inl err =>
      if IsNotFound err then Ret (ProjectsNamespaceNotFoundStatusMsg, NamespaceNotFound, inl err)
      else Ret (FailedGetNamespaceStatusMsg, NamespaceGetFailed, inl err)
  | inr existingNamespace => labelExternalNamespaceForProject project existingNamespace
  end.

Definition handleNamespaceInner (project : Project) : kube Outcome :=
  if negb (CreateNamespaces cfg) then
    r <- handlerProjectToNamespace cfg project ;;
    match r with
    | inl err => Ret (ProjectsNamespaceNotFoundStatusMsg, NamespaceNotFound, inl err)
    | inr _ => Ret done
    end
  else if prjNamespace project !=? "" then handleUserExternalNamespaceForProject project
  else
    let namespaceName := DefaultProjectNamespaceName project in
    let namespaceObjToCreate := GetNamespaceObject project namespaceName in
    r <- GetNamespace namespaceName ;;
    match r with
    | inl err =>
        if IsNotFound err then handleNonExistingNamespace namespaceObjToCreate
        else Ret (FailedGetNamespaceStatusMsg, NamespaceGetFailed, inl err)
    | inr existingNamespace => handleExistingNamespace existingNamespace namespaceObjToCreate
    end.

(** [NamespaceResourceHandler.HandleResource]. *)
Definition HandleNamespace (project : Project) : kube Handled :=
  r <- handleNamespaceInner project ;;
  let '(statusMsg, reason, err) := r in
  Ret ([newCondition NamespaceReady (GetStatusFromError (errOf err)) (getReasonFromError (errOf err) reason) statusMsg],
       err).

(** ** Limit ranges *)

(** [resource.ParseQuantity]; [None] is the error. *)
Context (ParseQuantity : string -> option Z).

Definition LimitTypeContainer := "Container".

Definition emptyLimitRangeItem : LimitRangeItem :=
  {| lriType := LimitTypeContainer; lriMax := ∅; lriDefault := ∅; lriDefaultRequest := ∅ |}.

Definition buildEmptyLimitRange (project : Project) (namespace limitRangeName : string) : LimitRange :=
  {| lrMeta := {| Name := limitRangeName; Namespace := namespace; UID := ""; Labels := ∅; Annotations := ∅;
                  OwnerReferences := [ownerReference kaiAPIVersion ProjectKind (Name (prjMeta project)) (UID (prjMeta project))];
                  Finalizers := []; DeletionTimestamp := None; ResourceVersion := ""; Generation := 0 |};
     Limits := [emptyLimitRangeItem] |}.

(** The resource list after the call. *)
Definition assignLimitValueToResourceList (limitsMap : gmap string string) (resourceList : ResourceList)
    (field resourceName : string) : ResourceList :=
  match limitsMap !! field with
  | Some unit =>
      match ParseQuantity unit with
      | None => resourceList
      | Some quantity => <[resourceName := quantity]> resourceList
      end
  | None => resourceList
  end.

(** [resetLimits], then the assignments of [reconcileLimitRangeWithDefaultConfigMap]. *)
Definition reconcileLimitRangeWithDefaultConfigMap (data : gmap string string) (item : LimitRangeItem) : LimitRangeItem :=
  {| lriType := lriType item;
     lriDefaultRequest :=
       assignLimitValueToResourceList data
         (assignLimitValueToResourceList data (lriDefaultRequest item) CpuDefaultRequest CpuResourceName)
         MemoryDefaultRequest MemoryResourceName;
     lriDefault :=
       assignLimitValueToResourceList data
         (assignLimitValueToResourceList data (lriDefault item) CpuDefaultLimit CpuResourceName)
         MemoryDefaultLimit MemoryResourceName;
     lriMax :=
       assignLimitValueToResourceList data
         (assignLimitValueToResourceList data (lriMax item) CpuMaxLimit CpuResourceName)
         MemoryMaxLimit MemoryResourceName |}.

Definition populateLimitRange (data : gmap string string) (limitRange : LimitRange) : LimitRange :=
  {| lrMeta := lrMeta limitRange;
     Limits := [reconcileLimitRangeWithDefaultConfigMap data emptyLimitRangeItem] |}.

(** The limit range and whether to create it. *)
Definition GetNamespacedLimitRange (project : Project) : kube (result (LimitRange * bool)) :=
  namespace <-? handlerProjectToNamespace cfg project ;;
  r <- call (Get KLimitRange (namespace, LimitRangeName cfg)) ;;
  match r with
  | inl err =>
      if IsNotFound err then Ret (inr (buildEmptyLimitRange project namespace (LimitRangeName cfg), true))
      else Ret (inl err)
  | inr limitRange => Ret (inr (limitRange, false))
  end.

Definition createOrUpdateLimitRange (shouldCreate : bool) (limitRange : LimitRange) : kube (result unit) :=
  _ <-? (if shouldCreate then call (Create KLimitRange limitRange) else call (Update KLimitRange limitRange)) ;;
  Ret (inr tt).

Definition handleLimitRange (defaultLimitRangeConfigMap : ConfigMap) (project : Project) : kube (result unit) :=
  found <-? GetNamespacedLimitRange project ;;
  let '(limitRange, shouldCreate) := found : LimitRange * bool in
  if IsManuallyOverridden cfg (lrMeta limitRange) then Ret (inr tt)
  else createOrUpdateLimitRange shouldCreate (populateLimitRange (cmData defaultLimitRangeConfigMap) limitRange).

(** Without a config map there is nothing to do. *)
Definition handleGetConfigMapError (getErr : error) : result unit :=
  if IsNotFound getErr then inr tt else inl getErr.

Definition handleLimitRangeInner (project : Project) : kube (result unit) :=
  r <- call (Get KConfigMap (InstallNamespace cfg, DefaultLimitRangeConfigMapName)) ;;
  match r with
  | inl getErr => Ret (handleGetConfigMapError getErr)
  | inr defaultLimitRangeConfigMap => handleLimitRange defaultLimitRangeConfigMap project
  end.

(** [LimitRangeResourceHandler.HandleResource]. *)
Definition HandleLimitRange (project : Project) : kube Handled :=
  err <- handleLimitRangeInner project ;; Ret (reported ReadyCondition LimitRangeHandlerFailed err).

End Handlers.
