(* ===== verification/RoleBindings.v ===== *)
(** * The role bindings of a project

    [pkg/project-controller/handlers/role_bindings_resource_handler.go]: the role
    bindings described by a config map are created in the namespace of every
    project, kept up to date, and removed when the config map drops them.  The
    parsed config map is cached in the handler; the cache is passed explicitly. *)

From stdpp Require Import base list gmap strings.
From S2P Require Import Prelude ApiTypes ProjectCommon Queues ProjectHandlers.

Record desiredRoleBindingsCache := {
  initialized : bool;
  cacheResourceVersion : string;
  cachedRoleBindings : gmap string RoleBinding;
}.

Definition emptyRoleBindingsCache : desiredRoleBindingsCache :=
  {| initialized := false; cacheResourceVersion := ""; cachedRoleBindings := ∅ |}.

Definition isManagedByProjectController (roleBinding : RoleBinding) : bool :=
  mapGet (Labels (rbMeta roleBinding)) ManagedByLabel ==? ProjectControllerName.

(** The loop that fills in the namespace of the subjects. *)
Definition subjectsIn (namespace : string) (subjects : list Subject) : list Subject :=
  (fun subject =>
     if subjectNamespace subject ==? "" then
       {| subjectKind := subjectKind subject; subjectAPIGroup := subjectAPIGroup subject;
          subjectName := subjectName subject; subjectNamespace := namespace |}
     else subject) <$> subjects.

(** The subjects by name, a later one replacing an earlier one. *)
Definition subjectsByName (subjects : list Subject) : gmap string Subject :=
  foldl (fun m subject => <[subjectName subject := subject]> m) ∅ subjects.

Definition shouldUpdateRoleBinding (current desired : RoleBinding) : bool :=
  if negb (isManagedByProjectController current) then true
  else if (roleName (rbRoleRef current) !=? roleName (rbRoleRef desired))
          || (roleKind (rbRoleRef current) !=? roleKind (rbRoleRef desired))
          || (roleAPIGroup (rbRoleRef current) !=? roleAPIGroup (rbRoleRef desired)) then true
  else if length (rbSubjects current) !=? length (rbSubjects desired) then true
  else
    existsb (fun desiredSubject =>
      match subjectsByName (rbSubjects current) !! subjectName desiredSubject with
      | None => true
      | Some currentSubject =>
          (subjectAPIGroup currentSubject !=? subjectAPIGroup desiredSubject)
          || (subjectKind currentSubject !=? subjectKind desiredSubject)
      end) (rbSubjects desired).

Definition meta_in_namespace (namespace : string) (m : ObjectMeta) : ObjectMeta :=
  {| Name := Name m; Namespace := namespace; UID := UID m; Labels := Labels m; Annotations := Annotations m;
     OwnerReferences := OwnerReferences m; Finalizers := Finalizers m; DeletionTimestamp := DeletionTimestamp m;
     ResourceVersion := ResourceVersion m; Generation := Generation m |}.

Section RoleBindings.
Context (cfg : ProjectReconcilerConfig) (kaiAPIVersion : string) (errorText : error -> string).
(** The YAML decoder of one entry of the config map. *)
Context (decodeRoleBinding : string -> result RoleBinding).
(** The order in which Go ranges over a map: some order of its entries. *)
Context (rangeOrder : forall A, gmap string A -> list (string * A)).
(** [metav1.GetControllerOf] and [metav1.IsControlledBy] of apimachinery. *)
Context (GetControllerOf : ObjectMeta -> option OwnerReference).
Context (IsControlledBy : ObjectMeta -> ObjectMeta -> bool).

(** The loop over the entries: the parsed role bindings and the parse errors. *)
Fixpoint parseRoleBindings (entries : list (string * string)) (parsed : gmap string RoleBinding)
    (parseErrors : list error) : gmap string RoleBinding * list error :=
  match entries with
  | [] => (parsed, parseErrors)
  | (key, roleBindingYaml) :: rest =>
      match decodeRoleBinding roleBindingYaml with
      | inl err => parseRoleBindings rest parsed (parseErrors ++ [Wrapf "parse role binding %q: %w" [key] err])
      | inr roleBindingObject =>
          if Name (rbMeta roleBindingObject) ==? "" then
            parseRoleBindings rest parsed
              (parseErrors ++ [Errorf "parse role binding %q: metadata.name is required" [key]])
          else parseRoleBindings rest (<[Name (rbMeta roleBindingObject) := roleBindingObject]> parsed) parseErrors
      end
  end.

Definition getRoleBindingMapFromCm (cache : desiredRoleBindingsCache)
    : kube (desiredRoleBindingsCache * result (gmap string RoleBinding)) :=
  if RoleBindingsCm cfg ==? "" then Ret (cache, inr ∅) else
  r <- call (Get KConfigMap (RoleBindingsCmNamespace cfg, RoleBindingsCm cfg)) ;;
  match r with
  | inl err => Ret (cache, inl err)
  | inr cm =>
      if initialized cache && (cacheResourceVersion cache ==? ResourceVersion (cmMeta cm))
      then Ret (cache, inr (cachedRoleBindings cache))
      else
        match parseRoleBindings (rangeOrder _ (cmData cm)) ∅ [] with
        | (desiredRoleBindings, []) =>
            Ret ({| initialized := true; cacheResourceVersion := ResourceVersion (cmMeta cm);
                    cachedRoleBindings := desiredRoleBindings |}, inr desiredRoleBindings)
        | (_, parseErrors) => Ret (cache, inl (Joined parseErrors))
        end
  end.

Definition projectControllerRef (projectName projectUid : string) : OwnerReference :=
  ownerReference kaiAPIVersion ProjectKind projectName projectUid.

(** [funk.RandomString(20, ...)] is answered like [rand.String]. *)
Definition getDefaultSubjectsForRoleBinding : kube (list Subject) :=
  if negb (IsOpenshift cfg) then Ret [] else
  randomSuffix <- call (RandString 20) ;;
  Ret [{| subjectKind := ServiceAccountKind; subjectAPIGroup := "";
          subjectName := "non-existing-name-" +:+ randomSuffix;
          subjectNamespace := "non-existing-namespace-" +:+ randomSuffix |}].

Definition buildRoleBinding (roleBindingName namespace projectName clusterRoleName : string)
    (subjects : list Subject) (projectUid : string) : kube RoleBinding :=
  subjects <- match subjects with [] => getDefaultSubjectsForRoleBinding | _ => Ret subjects end ;;
  Ret {| rbMeta := {| Name := roleBindingName; Namespace := namespace; UID := "";
                      Labels := {[ManagedByLabel := ProjectControllerName]}; Annotations := ∅;
                      OwnerReferences := [projectControllerRef projectName projectUid]; Finalizers := [];
                      DeletionTimestamp := None; ResourceVersion := ""; Generation := 0 |};
         rbRoleRef := {| roleAPIGroup := RbacGroup; roleKind := ClusterRoleKind; roleName := clusterRoleName |};
         rbSubjects := subjects |}.

(** The error of a create is returned even when the role binding already
    exists; only the log line is skipped. *)
Definition getOrCreateRoleBinding (roleBindingName namespace projectName clusterRoleName : string)
    (subjects : list Subject) (projectUid : string) : kube (result RoleBinding) :=
  r <- call (Get KRoleBinding (namespace, roleBindingName)) ;;
  match r with
  | inr roleBinding => Ret (inr roleBinding)
  | inl getErr =>
      if IsNotFound getErr then
        roleBinding <- buildRoleBinding roleBindingName namespace projectName clusterRoleName subjects projectUid ;;
        call (Create KRoleBinding roleBinding)
      else Ret (inl getErr)
  end.

(** The role binding as [manageStaticRoleBinding] changes it. *)
Definition updatedRoleBinding (currentRoleBinding desiredRoleBinding : RoleBinding) (subjects : list Subject)
    (project : Project) : RoleBinding :=
  {| rbMeta :=
       meta_with_owners
         (fun owners =>
            match GetControllerOf (rbMeta currentRoleBinding) with
            | Some _ => owners
            | None => owners ++ [projectControllerRef (Name (prjMeta project)) (UID (prjMeta project))]
            end)
         (meta_with_labels <[ManagedByLabel := ProjectControllerName]> (rbMeta currentRoleBinding));
     rbRoleRef := rbRoleRef desiredRoleBinding;
     rbSubjects := subjects |}.

Definition recreateRoleBinding (currentRoleBinding desiredRoleBinding : RoleBinding) (project : Project)
    : kube (result unit) :=
  _ <-? call (Delete KRoleBinding currentRoleBinding) ;;
  let desiredRoleBindingToCreate :=
    {| rbMeta :=
         meta_with_owners (fun _ => [projectControllerRef (Name (prjMeta project)) (UID (prjMeta project))])
           (meta_with_labels <[ManagedByLabel := ProjectControllerName]>
              (meta_in_namespace (Namespace (rbMeta currentRoleBinding)) (rbMeta desiredRoleBinding)));
       rbRoleRef := rbRoleRef desiredRoleBinding; rbSubjects := rbSubjects desiredRoleBinding |} in
  r <- call (Create KRoleBinding desiredRoleBindingToCreate) ;;
  match r with
  | inl err => if IsAlreadyExists err then Ret (inr tt) else Ret (inl err)
  | inr _ => Ret (inr tt)
  end.

Definition manageStaticRoleBinding (name namespace : string) (project : Project) (desiredRoleBinding : RoleBinding)
    : kube (result unit) :=
  let subjects := subjectsIn namespace (rbSubjects desiredRoleBinding) in
  currentRoleBinding <-? getOrCreateRoleBinding name namespace (Name (prjMeta project))
                           (roleName (rbRoleRef desiredRoleBinding)) subjects (UID (prjMeta project)) ;;
  if shouldUpdateRoleBinding currentRoleBinding desiredRoleBinding then
    let shouldRecreateRoleBinding :=
      roleName (rbRoleRef currentRoleBinding) !=? roleName (rbRoleRef desiredRoleBinding) in
    let currentRoleBinding := updatedRoleBinding currentRoleBinding desiredRoleBinding subjects project in
    if shouldRecreateRoleBinding then recreateRoleBinding currentRoleBinding desiredRoleBinding project
    else _ <-? call (Update KRoleBinding currentRoleBinding) ;; Ret (inr tt)
  else Ret (inr tt).

Definition inNamespace (namespace : string) : ListOptions :=
  {| loNamespace := namespace; loLabelSelector := []; loMatchingLabels := ∅; loFieldSelector := None |}.

(** One listed role binding of [deleteOmittedRoleBindings]. *)
Definition deleteOmitted (namespace : string) (project : Project) (desiredRoleBindings : gmap string RoleBinding)
    (roleBinding : RoleBinding) : kube (result unit) :=
  if bool_decide (is_Some (desiredRoleBindings !! Name (rbMeta roleBinding))) then Ret (inr tt)
  else if negb (IsControlledBy (rbMeta roleBinding) (prjMeta project))
          || negb (isManagedByProjectController roleBinding) then Ret (inr tt)
  else
    r <- call (Delete KRoleBinding roleBinding) ;;
    match r with
    | inl err =>
        if IsNotFound err then Ret (inr tt)
        else Ret (inl (Wrapf "delete omitted RoleBinding %s/%s: %w" [namespace; Name (rbMeta roleBinding)] err))
    | inr _ => Ret (inr tt)
    end.

Definition deleteOmittedRoleBindings (namespace : string) (project : Project)
    (desiredRoleBindings : gmap string RoleBinding) : kube (result unit) :=
  if RoleBindingsCm cfg ==? "" then Ret (inr tt) else
  r <- call (List KRoleBinding (inNamespace namespace)) ;;
  match r with
  | inl err => Ret (inl (Wrapf "list RoleBindings in namespace %s: %w" [namespace] err))
  | inr roleBindings => forEach (A := RoleBinding) roleBindings (deleteOmitted namespace project desiredRoleBindings)
  end.

(** [validateNamespaceExists] is [!config.CreateNamespaces].  Only a missing
    namespace skips the project: another error of the read is ignored. *)
Definition namespaceMissing (namespaceName : string) : kube bool :=
  if CreateNamespaces cfg then Ret false else
  r <- call (Get KNamespace ("", namespaceName)) ;;
  match r with inl err => Ret (IsNotFound err) | inr _ => Ret false end.

Definition manageRoleBindings (namespaceName : string) (project : Project)
    (desiredRoleBindings : gmap string RoleBinding) : kube (result unit) :=
  _ <-? forEach (rangeOrder _ desiredRoleBindings)
          (fun entry => manageStaticRoleBinding entry.1 namespaceName project entry.2) ;;
  deleteOmittedRoleBindings namespaceName project desiredRoleBindings.

Definition handleRoleBindingsInner (cache : desiredRoleBindingsCache) (project : Project)
    : kube (desiredRoleBindingsCache * result unit) :=
  r <- handlerProjectToNamespace cfg project ;;
  match r with
  | inl err => Ret (cache, inl err)
  | inr namespaceName =>
      missing <- namespaceMissing namespaceName ;;
      if (missing : bool) then Ret (cache, inr tt) else
      r <- getRoleBindingMapFromCm cache ;;
      match r with
      | (cache, inl err) => Ret (cache, inl err)
      | (cache, inr desiredRoleBindings) =>
          err <- manageRoleBindings namespaceName project desiredRoleBindings ;;
          Ret (cache, err)
      end
  end.

(** [RoleBindingsResourceHandler.HandleResource]. *)
Definition HandleRoleBindings (cache : desiredRoleBindingsCache) (project : Project)
    : kube (desiredRoleBindingsCache * Handled) :=
  r <- handleRoleBindingsInner cache project ;;
  Ret (r.1, reported errorText RoleBindingsReady RoleBindingsHandlerFailed r.2).

End RoleBindings.
