(* ===== verification/ProjectDeletion.v ===== *)
(** * Project status and deletion

    [pkg/project-controller/handlers]: [project_status_handler.go] and the
    deletion handlers and blockers of [handlers/deletion].  A project passed by
    pointer is passed and returned; a patch leaves the server's reply in it.  A
    raw merge patch names the fields it sets, so both arguments of the [Patch]
    call are the object with those fields. *)

From stdpp Require Import base list gmap strings sorting pretty.
From S2P Require Import Prelude ApiTypes NodePoolUtils ProjectCommon Queues ProjectHandlers.

(** ** Status ([project_status_handler.go]) *)

Definition PhaseReady := "Ready".
Definition PhaseNotReady := "NotReady".
Definition PhaseDeleting := "Deleting".

Definition project_with_status (f : ProjectStatus -> ProjectStatus) (p : Project) : Project :=
  {| prjMeta := prjMeta p; prjParent := prjParent p; prjNamespace := prjNamespace p; prjQueues := prjQueues p;
     DefaultNodePools := DefaultNodePools p; EnforceKaiScheduler := EnforceKaiScheduler p;
     prjDeletionType := prjDeletionType p; prjStatus := f (prjStatus p) |}.

Definition project_with_finalizers (f : list string -> list string) (p : Project) : Project :=
  {| prjMeta := meta_with_finalizers f (prjMeta p); prjParent := prjParent p; prjNamespace := prjNamespace p;
     prjQueues := prjQueues p; DefaultNodePools := DefaultNodePools p; EnforceKaiScheduler := EnforceKaiScheduler p;
     prjDeletionType := prjDeletionType p; prjStatus := prjStatus p |}.

Definition status_with_namespace (namespace : string) (s : ProjectStatus) : ProjectStatus :=
  {| stNamespace := namespace; stPhase := stPhase s; stMessage := stMessage s; stConditions := stConditions s;
     NodePoolsQuotaStatuses := NodePoolsQuotaStatuses s; stQuotaStatus := stQuotaStatus s |}.

Definition status_with_phase (phase message : string) (s : ProjectStatus) : ProjectStatus :=
  {| stNamespace := stNamespace s; stPhase := phase; stMessage := message; stConditions := stConditions s;
     NodePoolsQuotaStatuses := NodePoolsQuotaStatuses s; stQuotaStatus := stQuotaStatus s |}.

Definition status_with_conditions (conditions : list Condition) (s : ProjectStatus) : ProjectStatus :=
  {| stNamespace := stNamespace s; stPhase := stPhase s; stMessage := stMessage s; stConditions := conditions;
     NodePoolsQuotaStatuses := NodePoolsQuotaStatuses s; stQuotaStatus := stQuotaStatus s |}.

Definition status_with_quotas (quotas : list QuotaStatus) (s : ProjectStatus) : ProjectStatus :=
  {| stNamespace := stNamespace s; stPhase := stPhase s; stMessage := stMessage s; stConditions := stConditions s;
     NodePoolsQuotaStatuses := quotas; stQuotaStatus := stQuotaStatus s |}.

Definition failedConditions (conditions : list Condition) : list Condition :=
  filter (fun condition => condStatus condition = ConditionFalse) conditions.

Definition setPhase (conditionsChanged onDeletion : bool) (status : ProjectStatus) : ProjectStatus :=
  if negb conditionsChanged then status
  else
    let failed := failedConditions (stConditions status) in
    let phase := match failed with
                 | [] => PhaseReady
                 | _ => if onDeletion then PhaseDeleting else PhaseNotReady
                 end in
    status_with_phase phase (String.concat ", " (condReason <$> failed)) status.

(** [addResourceList]: the result list after the call. *)
Definition addResourceList (result resourceListToAdd : ResourceList) : ResourceList :=
  union_with (fun existingValue quantityToAdd => Some (existingValue + quantityToAdd)%Z) result resourceListToAdd.

Definition addQueueStatus (sum : QueueStatus) (nodePoolQuotaStatus : QuotaStatus) : QueueStatus :=
  let s := quotaQueueStatus nodePoolQuotaStatus in
  {| Allocated := addResourceList (Allocated sum) (Allocated s);
     AllocatedNonPreemptible := addResourceList (AllocatedNonPreemptible sum) (AllocatedNonPreemptible s);
     Requested := addResourceList (Requested sum) (Requested s) |}.

Definition sumNodePoolsQuotaStatusesToProjectQuotaStatus (s : ProjectStatus) : ProjectStatus :=
  {| stNamespace := stNamespace s; stPhase := stPhase s; stMessage := stMessage s; stConditions := stConditions s;
     NodePoolsQuotaStatuses := NodePoolsQuotaStatuses s;
     stQuotaStatus := foldl addQueueStatus emptyQueueStatus (NodePoolsQuotaStatuses s) |}.

(** What the merge patch of [updateProjectStatusPatchBytes] leaves of a stored
    resource list: null removes the field, an object is merged into it. *)
Definition mergeResourceList (stored sent : ResourceList) : ResourceList :=
  if bool_decide (sent = ∅) then ∅ else sent ∪ stored.

(** The status the server stores for the patch of [updateProjectStatusPatchBytes]:
    strings and arrays are replaced. *)
Definition updateProjectStatusPatch (stored projectStatus : ProjectStatus) : ProjectStatus :=
  {| stNamespace := stNamespace projectStatus; stPhase := stPhase projectStatus;
     stMessage := stMessage projectStatus; stConditions := stConditions projectStatus;
     NodePoolsQuotaStatuses := NodePoolsQuotaStatuses projectStatus;
     stQuotaStatus :=
       {| Allocated := mergeResourceList (Allocated (stQuotaStatus stored)) (Allocated (stQuotaStatus projectStatus));
          AllocatedNonPreemptible :=
            mergeResourceList (AllocatedNonPreemptible (stQuotaStatus stored))
              (AllocatedNonPreemptible (stQuotaStatus projectStatus));
          Requested := mergeResourceList (Requested (stQuotaStatus stored)) (Requested (stQuotaStatus projectStatus)) |} |}.

Section Status.
Context (cfg : ProjectReconcilerConfig).

Definition setNamespace (project : Project) : kube (Project * result unit) :=
  r <- handlerProjectToNamespace cfg project ;;
  match r with
  | inl err => Ret (project, inl err)
  | inr namespace => Ret (project_with_status (status_with_namespace namespace) project, inr tt)
  end.

Definition quotaStatusOf (queue : Queue) : QuotaStatus :=
  {| NodePoolName := GetObjectNodePoolFromLabels cfg (Labels (qMeta queue)); quotaQueueStatus := qStatus queue |}.

Definition setQuotaStatuses (project : Project) : kube (Project * result unit) :=
  r <- ListProjectQueues cfg (Name (prjMeta project)) ;;
  match r with
  | inl err => Ret (project, inl err)
  | inr queues => Ret (project_with_status (status_with_quotas (quotaStatusOf <$> (queues : list Queue))) project, inr tt)
  end.

Definition getProjectStatus (project : Project) (conditionsChanged : bool) : kube (Project * list error) :=
  r <- setNamespace project ;;
  let '(project, err) := r in
  let project := project_with_status (setPhase conditionsChanged false) project in
  r <- setQuotaStatuses project ;;
  let '(project, innerErr) := r in
  Ret (project, AppendErrIfNotNil (AppendErrIfNotNil [] err) innerErr).

Definition updateStatus (project : Project) : kube (Project * result unit) :=
  let project := project_with_status sumNodePoolsQuotaStatusesToProjectQuotaStatus project in
  r <- call (PatchStatus KProject project project) ;;
  match r with
  | inl err => Ret (project, inl err)
  | inr patched => Ret (patched, inr tt)
  end.

Definition updateProjectStatusIfNeeded (project : Project) (projectStatusCopy : ProjectStatus)
    (conditionsChanged : bool) : kube (Project * result unit) :=
  if conditionsChanged
     || (stNamespace (prjStatus project) !=? stNamespace projectStatusCopy)
     || (stPhase (prjStatus project) !=? stPhase projectStatusCopy)
     || (stMessage (prjStatus project) !=? stMessage projectStatusCopy)
  then updateStatus project
  else if NodePoolsQuotaStatuses (prjStatus project) !=? NodePoolsQuotaStatuses projectStatusCopy
  then updateStatus project
  else Ret (project, inr tt).

Definition ReconcileStatus (project : Project) (conditionsChanged : bool) : kube (Project * result unit) :=
  let projectStatusCopy := prjStatus project in
  r <- getProjectStatus project conditionsChanged ;;
  let '(project, errs) := r in
  r <- updateProjectStatusIfNeeded project projectStatusCopy conditionsChanged ;;
  let '(project, innerErr) := r in
  Ret (project, errorOf (AppendErrIfNotNil errs innerErr)).

Definition ReconcileStatusOnDeletion (project : Project) (conditionsChanged : bool) : kube (Project * result unit) :=
  let projectStatusCopy := prjStatus project in
  let project := project_with_status (setPhase conditionsChanged true) project in
  updateProjectStatusIfNeeded project projectStatusCopy conditionsChanged.

End Status.

(** ** Deletion blockers ([deletion/blockers.go], [deletion/configurable_blocker.go]) *)

(** The label selector is carried as its text. *)
Record Blocker := {
  blkDisplayName : string;
  blkGroup : string;
  blkVersion : string;
  blkKind : string;
  blkLabelSelector : option string;
}.

Record BlockerGroup := { bgDisplayName : string; bgBlockers : list Blocker }.

Definition BlockersConfigMapKey := "blockers.yaml".
Definition conditionTypeSuffix := "Ready".
Definition reasonSuffix := "DeletionHandlerFailed".

Definition ConditionType (g : BlockerGroup) : string := bgDisplayName g +:+ conditionTypeSuffix.
Definition Reason (g : BlockerGroup) : string := bgDisplayName g +:+ reasonSuffix.

Definition validateBlocker (b : Blocker) : result unit :=
  if blkDisplayName b ==? "" then inl (Errorf "displayName is required" [])
  else if (blkVersion b ==? "") || (blkKind b ==? "")
  then inl (Errorf "blocker %q: version and kind are required" [blkDisplayName b])
  else inr tt.

(** The loop that groups the blockers by display name; [i] is the index. *)
Fixpoint groupBlockersFrom (i : nat) (groupsMap : gmap string (list Blocker)) (blockers : list Blocker)
    : result (gmap string (list Blocker)) :=
  match blockers with
  | [] => inr groupsMap
  | blocker :: rest =>
      match validateBlocker blocker with
      | inl err => inl (Wrapf "invalid blocker %d: %w" [pretty (S i)] err)
      | inr _ =>
          groupBlockersFrom (S i)
            (<[blkDisplayName blocker := default [] (groupsMap !! blkDisplayName blocker) ++ [blocker]]> groupsMap) rest
      end
  end.

(** The message of [ProjectIsNotEmptyError]: one line per kind, in the order of
    the kinds. *)
Definition resourceMapOf (remaining : list (string * string)) : gmap string (list string) :=
  foldl (fun m item => <[item.1 := default [] (m !! item.1) ++ [item.2]]> m) ∅ remaining.

Definition newline : string := String (Ascii.ascii_of_nat 10) EmptyString.

Definition resourceLine (kindNames : string * list string) : string :=
  match kindNames.2 with
  | [] => ""
  | [name] => kindNames.1 +:+ " " +:+ name +:+ newline
  | name :: others => kindNames.1 +:+ " " +:+ name +:+ " +" +:+ pretty (length others) +:+ " more" +:+ newline
  end.

Definition kindLe (a b : string * list string) : Prop := String.leb a.1 b.1 = true.
#[export] Instance kindLe_dec a b : Decision (kindLe a b).
Proof. unfold kindLe. apply _. Defined.

Definition remainingResources (remaining : list (string * string)) : string :=
  String.concat "" (resourceLine <$> merge_sort kindLe (map_to_list (resourceMapOf remaining))).

Definition ProjectIsNotEmptyError (remaining : list (string * string)) : error :=
  Errorf "The project couldn't be deleted because the following needs to be deleted first:\n%s"
    [remainingResources remaining].

Section Deletion.
Context (cfg : ProjectReconcilerConfig) (errorText : error -> string).
Context (LabelSelectorAsSelector : string -> result (list Requirement)).
Context (unmarshalBlockers : string -> result (list Blocker)).
Context (rangeOrder : forall A, gmap string A -> list (string * A)).

Definition groupBlockers (blockers : list Blocker) : result (list BlockerGroup) :=
  groupsMap ← groupBlockersFrom 0 ∅ blockers;
  mret ((fun g => {| bgDisplayName := g.1; bgBlockers := g.2 |}) <$> rangeOrder _ groupsMap).

Definition BlockerGroupsFromConfigMapData (data : gmap string string) : result (list BlockerGroup) :=
  match data !! BlockersConfigMapKey with
  | None => inr []
  | Some raw =>
      match unmarshalBlockers raw with
      | inl err => inl (Wrapf "parsing blockers from %q: %w" [BlockersConfigMapKey] err)
      | inr blockers => groupBlockers blockers
      end
  end.

(** [loadDeletionBlockers] of [project_reconciler.go], run once at startup. *)
Definition loadDeletionBlockers : kube (list BlockerGroup) :=
  if GvkDeleteBlockersNamespace cfg ==? "" then Ret [] else
  r <- call (GetLive KConfigMap (GvkDeleteBlockersNamespace cfg, GvkDeleteBlockersConfigMapName)) ;;
  match r with
  | inl _ => Ret []
  | inr cm =>
      match BlockerGroupsFromConfigMapData (cmData cm) with
      | inl _ => Ret []
      | inr groups => Ret groups
      end
  end.

Definition listBlockers (namespace : string) (blocker : Blocker) : kube (result (list (string * string))) :=
  match match blkLabelSelector blocker with
        | None => inr []
        | Some labelSelector => LabelSelectorAsSelector labelSelector
        end with
  | inl err => Ret (inl err)
  | inr selector =>
      r <- call (ListUnstructured (blkGroup blocker) (blkVersion blocker) (blkKind blocker +:+ "List")
                   {| loNamespace := namespace; loLabelSelector := selector; loMatchingLabels := ∅;
                      loFieldSelector := None |}) ;;
      match r with
      | inl err => if IsNoMatchError err || IsNotFound err then Ret (inr []) else Ret (inl err)
      | inr items => Ret (inr items)
      end
  end.

(** The loop over the blockers of the group. *)
Fixpoint remainingObjects (namespace : string) (blockers : list Blocker)
    : kube (result (list (string * string))) :=
  match blockers with
  | [] => Ret (inr [])
  | blocker :: rest =>
      items <-? listBlockers namespace blocker ;;
      others <-? remainingObjects namespace rest ;;
      Ret (inr (items ++ others))
  end.

Definition blockerOnDeleteInner (group : BlockerGroup) (project : Project) : kube (result unit) :=
  namespaceName <-? handlerProjectToNamespace cfg project ;;
  remaining <-? remainingObjects namespaceName (bgBlockers group) ;;
  match remaining with
  | [] => Ret (inr tt)
  | _ => Ret (inl (ProjectIsNotEmptyError remaining))
  end.

(** [ConfigurableBlocker.OnDelete]. *)
Definition blockerOnDelete (group : BlockerGroup) (project : Project) : kube Handled :=
  err <- blockerOnDeleteInner group project ;;
  Ret (reported errorText (ConditionType group) (Reason group) err).

(** ** Deletion handlers *)

Definition NamespaceDeletionHandlerFailed := "NamespaceDeletionHandlerFailed".
Definition LimitRangeDeletionHandlerFailed := "LimitRangeDeletionHandlerFailed".
Definition QueuesDeletionHandlerFailed := "QueuesDeletionHandlerFailed".

Definition deleteResource (K : Kind) (o : obj K) : kube (result unit) :=
  r <- call (Delete K o) ;; Ret (IgnoreNotFound r).

Definition DeleteExistingResourceIfNeeded (K : Kind) (o : obj K) : kube (result unit) :=
  if IsManuallyOverridden cfg (objMeta K o) then Ret (inr tt) else deleteResource K o.

Definition DeleteResourceIfNeeded (K : Kind) (key : NamespacedName) : kube (result unit) :=
  r <- call (Get K key) ;;
  match r with
  | inl err => if IsNotFound err then Ret (inr tt) else Ret (inl err)
  | inr o => DeleteExistingResourceIfNeeded K o
  end.

(** [deleteOwnerRef]: the last reference replaces the removed one. *)
Definition deleteOwnerRef (ownerRefs : list OwnerReference) (indexToRemove : Z) : list OwnerReference :=
  match last ownerRefs with
  | None => ownerRefs
  | Some lastRef => take (length ownerRefs - 1) (<[Z.to_nat indexToRemove := lastRef]> ownerRefs)
  end.

Definition limitRange_with_meta (m : ObjectMeta) (lr : LimitRange) : LimitRange := {| lrMeta := m; Limits := Limits lr |}.

Definition namespace_with_meta (m : ObjectMeta) (ns : NamespaceObj) : NamespaceObj :=
  {| nsKind := nsKind ns; nsAPIVersion := nsAPIVersion ns; nsMeta := m |}.

(** [withMeta] sets the metadata of the object. *)
Definition RemoveOwnerRef (project : Project) (K : Kind) (o : obj K) (withMeta : ObjectMeta -> obj K -> obj K)
    : kube (result unit) :=
  let indexOfOwner := IsProjectOwner project (objMeta K o) in
  if bool_decide (-1 < indexOfOwner)%Z then
    r <- call (Update K (withMeta (meta_with_owners (fun refs => deleteOwnerRef refs indexOfOwner) (objMeta K o)) o)) ;;
    match r with
    | inl innerErr => Ret (inl (Joined (appendErr [] innerErr)))
    | inr _ => Ret (inr tt)
    end
  else Ret (inr tt).

(** The loop over the queues of the project. *)
Fixpoint deleteProjectQueues (project : Project) (queues : list Queue) (errs : list error) : kube (result unit) :=
  match queues with
  | [] => Ret (errorOf errs)
  | queue :: rest =>
      if IsExternalQueue cfg queue (UID (prjMeta project)) then deleteProjectQueues project rest errs
      else
        r <- DeleteExistingResourceIfNeeded KQueue queue ;;
        deleteProjectQueues project rest (match r with inl innerErr => appendErr errs innerErr | inr _ => errs end)
  end.

Definition queueOnDeleteInner (project : Project) : kube (result unit) :=
  queues <-? GetQueuesForProjectByLabel cfg (Name (prjMeta project)) ;;
  deleteProjectQueues project queues [].

(** [QueueDeletionHandler.OnDelete]. *)
Definition queueOnDelete (project : Project) : kube Handled :=
  err <- queueOnDeleteInner project ;; Ret (reported errorText QueuesReady QueuesDeletionHandlerFailed err).

Definition limitRangeOnDeleteInner (project : Project) (namespace : string) : kube (result unit) :=
  r <- call (Get KLimitRange (namespace, LimitRangeName cfg)) ;;
  match r with
  | inl err => if IsNotFound err then Ret (inr tt) else Ret (inl err)
  | inr limitRange => RemoveOwnerRef project KLimitRange limitRange limitRange_with_meta
  end.

(** [LimitRangeDeletionHandler.OnDelete]: an unresolvable namespace is forgiven. *)
Definition limitRangeOnDelete (project : Project) : kube Handled :=
  r <- handlerProjectToNamespace cfg project ;;
  match r with
  | inl _ => Ret ([], inr tt)
  | inr namespace =>
      err <- limitRangeOnDeleteInner project namespace ;;
      Ret (reported errorText ReadyCondition LimitRangeDeletionHandlerFailed err)
  end.

(** [NamespaceDeletionHandler] with its feature flags. *)
Definition namespaceOnDeleteInner (deleteNamespaceFeatureEnabled createNamespacesFeatureEnabled : bool)
    (project : Project) : kube (result unit) :=
  if negb createNamespacesFeatureEnabled then Ret (inr tt) else
  namespaceName <-? handlerProjectToNamespace cfg project ;;
  if (prjNamespace project ==? "") && deleteNamespaceFeatureEnabled
  then DeleteResourceIfNeeded KNamespace ("", namespaceName)
  else
    namespace <-? call (Get KNamespace ("", namespaceName)) ;;
    RemoveOwnerRef project KNamespace namespace namespace_with_meta.

Definition namespaceOnDelete (deleteNamespaceFeatureEnabled createNamespacesFeatureEnabled : bool) (project : Project)
    : kube Handled :=
  err <- namespaceOnDeleteInner deleteNamespaceFeatureEnabled createNamespacesFeatureEnabled project ;;
  Ret (reported errorText NamespaceReady NamespaceDeletionHandlerFailed err).

End Deletion.
