(* ===== verification/ProjectReconciler.v ===== *)
(** * The project and department reconcilers

    [pkg/project-controller/reconcilers]: [project_reconciler.go],
    [project_event_filter.go], [limitrange_reconciler.go],
    [department_reconciler.go] and [reconcilers_common.go]. *)

From stdpp Require Import base list gmap strings pretty.
From S2P Require Import Prelude ApiTypes NodePoolUtils ProjectCommon Queues ProjectHandlers RoleBindings ProjectDeletion.

Definition noRequeue : Result := {| Requeue := false; RequeueAfter := 0 |}.
Definition requeueNow : Result := {| Requeue := true; RequeueAfter := 0 |}.

(** ** The project reconciler *)

Section ProjectReconciler.
Context {L : LabelsLib} (cfg : ProjectReconcilerConfig) (kaiAPIVersion : string) (errorText : error -> string).
Context (decodeRoleBinding : string -> result RoleBinding).
Context (rangeOrder : forall A, gmap string A -> list (string * A)).
Context (GetControllerOf : ObjectMeta -> option OwnerReference).
Context (IsControlledBy : ObjectMeta -> ObjectMeta -> bool).
Context (ParseQuantity : string -> option Z).
Context (LabelSelectorAsSelector : string -> result (list Requirement)).

(** A [ProjectResourceHandler], with the state the handlers keep between runs. *)
Notation resourceHandler :=
  (desiredRoleBindingsCache -> Project -> kube (desiredRoleBindingsCache * Handled)).

Definition stateless (h : Project -> kube Handled) : resourceHandler :=
  fun cache project => handled <- h project ;; Ret (cache, handled).

(** The handlers in the order [NewProjectReconciler] leaves them. *)
Definition reconcilers : list resourceHandler :=
  [stateless (HandleNamespace cfg)]
  ++ (if CreateRoleBindings cfg
      then [HandleRoleBindings cfg kaiAPIVersion errorText decodeRoleBinding rangeOrder GetControllerOf IsControlledBy] else [])
  ++ [stateless (HandleQueues cfg kaiAPIVersion errorText)]
  ++ (if cfgLimitRange cfg then [stateless (HandleLimitRange cfg kaiAPIVersion errorText ParseQuantity)] else []).

Definition deletionHandlers : list (Project -> kube Handled) :=
  [queueOnDelete cfg errorText] ++ (if cfgLimitRange cfg then [limitRangeOnDelete cfg errorText] else []).

(** [UpdateProjectConditions] on the status of the project. *)
Definition updateConditions (project : Project) (conditions : list Condition) : kube (Project * bool) :=
  r <- UpdateProjectConditions (stConditions (prjStatus project)) conditions ;;
  Ret (project_with_status (status_with_conditions r.1) project, r.2).

(** The loop over the handlers: the errors and whether a condition changed. *)
Fixpoint runHandlers (handlers : list resourceHandler) (cache : desiredRoleBindingsCache) (project : Project)
    (errs : list error) (conditionsChanged : bool)
    : kube (desiredRoleBindingsCache * Project * list error * bool) :=
  match handlers with
  | [] => Ret (cache, project, errs, conditionsChanged)
  | subReconciler :: rest =>
      r <- subReconciler cache project ;;
      let '(cache, (projectConditions, innerErr)) := r in
      u <- updateConditions project projectConditions ;;
      runHandlers rest cache u.1 (AppendErrIfNotNil errs innerErr) (u.2 || conditionsChanged)
  end.

Definition reconcileProject (cache : desiredRoleBindingsCache) (project : Project)
    : kube (desiredRoleBindingsCache * (Result * result unit)) :=
  r <- runHandlers reconcilers cache project [] false ;;
  let '(cache, project, errs, conditionsChanged) := r in
  r <- ReconcileStatus cfg project conditionsChanged ;;
  Ret (cache, (noRequeue, errorOf (AppendErrIfNotNil errs r.2))).

(** The project as the patch left it. *)
Definition updateFinalizers (project : Project) : kube (result Project) :=
  call (Patch KProject project project).

Definition AddControllerAsFinalizerIfNeeded (project : Project) : kube (result Project) :=
  if ContainsString (FinalizerName cfg) (Finalizers (prjMeta project)) then Ret (inr project)
  else updateFinalizers (project_with_finalizers (fun fs => fs ++ [FinalizerName cfg]) project).

Definition deleteFinalizer (project : Project) : kube (result unit) :=
  _ <-? updateFinalizers (project_with_finalizers (DeleteTerm (FinalizerName cfg)) project) ;; Ret (inr tt).

(** The loop over the deletion blockers or handlers. *)
Fixpoint runDeletion (handlers : list (Project -> kube Handled)) (project : Project) (errs : list error)
    (conditionsChanged : bool) : kube (Project * list error * bool) :=
  match handlers with
  | [] => Ret (project, errs, conditionsChanged)
  | handler :: rest =>
      r <- handler project ;;
      let '(projectConditions, innerErr) := r in
      u <- updateConditions project projectConditions ;;
      runDeletion rest u.1 (AppendErrIfNotNil errs innerErr) (u.2 || conditionsChanged)
  end.

Definition deletionBlockers (groups : list BlockerGroup) : list (Project -> kube Handled) :=
  blockerOnDelete cfg errorText LabelSelectorAsSelector <$> groups.

(** The project as the status updates left it, and the error. *)
Definition finalizeProject (groups : list BlockerGroup) (project : Project) : kube (Project * result unit) :=
  r <- (if bool_decide (prjDeletionType project = Some Blocking)
        then runDeletion (deletionBlockers groups) project [] false
        else Ret (project, [], false)) ;;
  let '(project, errs, conditionsChanged) := r in
  match errorOf errs with
  | inl err =>
      r <- ReconcileStatusOnDeletion project conditionsChanged ;;
      Ret (r.1, inl err)
  | inr _ =>
      r <- runDeletion deletionHandlers project [] conditionsChanged ;;
      let '(project, errs, conditionsChanged) := r in
      r <- ReconcileStatusOnDeletion project conditionsChanged ;;
      Ret (r.1, errorOf errs)
  end.

(** [addMissingQueueSpecIfNeeded] turns a nil list into an empty one, which is
    the same value here. *)
Definition Finalize (groups : list BlockerGroup) (project : Project) : kube (Result * result unit) :=
  if negb (ContainsString (FinalizerName cfg) (Finalizers (prjMeta project))) then Ret (noRequeue, inr tt)
  else if IsManuallyOverridden cfg (prjMeta project) then Ret (noRequeue, inr tt)
  else
    r <- finalizeProject groups project ;;
    let finish := r' <- deleteFinalizer r.1 ;; Ret (noRequeue, r') in
    match r.2 with
    | inl err =>
        if negb (IsForceDelete (prjMeta r.1)) then
          Ret (noRequeue,
               inl (Wrapf "errors encountered during deletion of secondary resources of Project '%s'; error: %w"
                      [Name (prjMeta r.1)] err))
        else finish
    | inr _ => finish
    end.

(** [ProjectReconciler.Reconcile]. *)
Definition ReconcileProject (groups : list BlockerGroup) (cache : desiredRoleBindingsCache) (req : NamespacedName)
    : kube (desiredRoleBindingsCache * (Result * result unit)) :=
  r <- call (Get KProject req) ;;
  match r with
  | inl getErr =>
      if IsNotFound getErr then Ret (cache, (noRequeue, inr tt)) else Ret (cache, (requeueNow, inl getErr))
  | inr project =>
      match DeletionTimestamp (prjMeta project) with
      | Some _ => r <- Finalize groups project ;; Ret (cache, r)
      | None =>
          r <- AddControllerAsFinalizerIfNeeded project ;;
          match r with
          | inl err => Ret (cache, (noRequeue, inl err))
          | inr project => reconcileProject cache project
          end
      end
  end.

(** ** Events ([project_event_filter.go], [limitrange_reconciler.go]) *)

Inductive watched :=
| WRoleBinding (o : RoleBinding)
| WConfigMap (o : ConfigMap)
| WNamespace (o : NamespaceObj)
| WLimitRange (o : LimitRange)
| WQueue (o : Queue)
| WProject (o : Project)
| WOther (m : ObjectMeta).

Definition watchedMeta (w : watched) : ObjectMeta :=
  match w with
  | WRoleBinding o => rbMeta o | WConfigMap o => cmMeta o | WNamespace o => nsMeta o | WLimitRange o => lrMeta o
  | WQueue o => qMeta o | WProject o => prjMeta o | WOther m => m
  end.

Definition isProjectPrefixedNamespace (namespace : string) : bool :=
  (namespace !=? "") && (namespace !=? NamespacePrefix cfg) && String.prefix (NamespacePrefix cfg) namespace.

Definition getProjectNameFromNamespace (namespace : NamespaceObj) : string :=
  mapGet (Labels (nsMeta namespace)) (NamespaceProjectLabelKey cfg).

Definition isNamespaceObjectOfProjectByLabel (namespace : NamespaceObj) : bool :=
  getProjectNameFromNamespace namespace !=? "".

Definition skipIfOverridden (object : watched) (shouldAllowEvent : bool) : bool :=
  if IsManuallyOverridden cfg (watchedMeta object) then false else shouldAllowEvent.

Definition FilterProjectEvent (object : watched) : bool :=
  let shouldAllowEvent :=
    match object with
    | WRoleBinding _ => true
    | WConfigMap o =>
        CreateRoleBindings cfg && (Name (cmMeta o) ==? RoleBindingsCm cfg)
        && (Namespace (cmMeta o) ==? RoleBindingsCmNamespace cfg)
    | WNamespace o => isNamespaceObjectOfProjectByLabel o
    | WLimitRange o => isProjectPrefixedNamespace (Namespace (lrMeta o))
    | WQueue _ | WProject _ => true
    | WOther _ => false
    end in
  skipIfOverridden object shouldAllowEvent.

Definition requestFor (name : string) : NamespacedName := ("", name).

Definition MapNamespaceToProjectEvent (namespace : NamespaceObj) : list NamespacedName :=
  let projectName := getProjectNameFromNamespace namespace in
  if projectName ==? "" then [] else [requestFor projectName].

Definition getProjectNameFromNamespaceName (namespaceName : string) : kube (result string) :=
  namespace <-? call (Get KNamespace ("", namespaceName)) ;;
  Ret (inr (getProjectNameFromNamespace namespace)).

Definition MapRoleBindingToProjectEvent (roleBinding : RoleBinding) : kube (list NamespacedName) :=
  let byNamespace :=
    r <- getProjectNameFromNamespaceName (Namespace (rbMeta roleBinding)) ;;
    match r with
    | inl _ => Ret []
    | inr projectName => if projectName ==? "" then Ret [] else Ret [requestFor projectName]
    end in
  match OwnerReferences (rbMeta roleBinding) with
  | [owner] => if OwnerKind owner ==? ProjectKind then Ret [requestFor (OwnerName owner)] else byNamespace
  | _ => byNamespace
  end.

Definition notOverriddenNames (projects : list Project) : list NamespacedName :=
  (fun p => requestFor (Name (prjMeta p))) <$>
  filter (fun p => IsManuallyOverridden cfg (prjMeta p) = false) projects.

Definition MapRoleBindingsConfigMapToProjectEvents (configMap : ConfigMap) : kube (list NamespacedName) :=
  if negb (CreateRoleBindings cfg) || (Name (cmMeta configMap) !=? RoleBindingsCm cfg)
     || (Namespace (cmMeta configMap) !=? RoleBindingsCmNamespace cfg)
  then Ret []
  else
    r <- call (List KProject listAll) ;;
    match r with
    | inl _ => Ret []
    | inr projects => Ret (notOverriddenNames projects)
    end.

Definition FilterConfigmapEvent (object : watched) : bool :=
  match object with
  | WConfigMap o =>
      (Namespace (cmMeta o) ==? InstallNamespace cfg) && (Name (cmMeta o) ==? DefaultLimitRangeConfigMapName)
  | _ => false
  end.

(** The names of the projects [triggerEventsForAllProjects] sends events for. *)
Definition projectNames (projects : list Project) : list NamespacedName :=
  (fun p => requestFor (Name (prjMeta p))) <$> projects.

(** [LimitRangeReconciler.Reconcile]. *)
Definition ReconcileLimitRangeConfig : kube (result (list NamespacedName)) :=
  projectsList <-? call (List KProject listAll) ;; Ret (inr (projectNames projectsList)).

End ProjectReconciler.

(** ** The department reconciler *)

Definition department_with_conditions (conditions : list Condition) (d : Department) : Department :=
  {| depMeta := depMeta d; depParent := depParent d; depQueues := depQueues d; depConditions := conditions |}.

Definition department_with_finalizers (f : list string -> list string) (d : Department) : Department :=
  {| depMeta := meta_with_finalizers f (depMeta d); depParent := depParent d; depQueues := depQueues d;
     depConditions := depConditions d |}.

Definition heldQueueRetryInterval : Z := 60.
Definition ProjectDepartmentIndexField := "spec.parent".
Definition DepartmentParentIndexField := "spec.parent".
Definition DepartmentDeletionBlocked := "DepartmentDeletionBlocked".

Definition IndexDepartmentByParent (department : Department) : list string :=
  if depParent department ==? "" then [] else [depParent department].

Definition IndexProjectByDepartment (project : Project) : list string :=
  if prjParent project ==? "" then [] else [prjParent project].

(** [QueuePlacementChangedPredicate]'s update function. *)
Definition QueuePlacementChanged (oldQueue newQueue : Queue) : bool :=
  ParentQueue (qSpec oldQueue) !=? ParentQueue (qSpec newQueue).

Definition matchingField (field value : string) : ListOptions :=
  {| loNamespace := ""; loLabelSelector := []; loMatchingLabels := ∅; loFieldSelector := Some (field, value) |}.

Section DepartmentReconciler.
Context {L : LabelsLib} (cfg : ProjectReconcilerConfig) (kaiAPIVersion : string).
Context (groupOf : string -> option string) (kaiGroup : string).

Definition getProjectsOfDepartment (departmentName : string) : kube (result (list Project)) :=
  call (List KProject (matchingField ProjectDepartmentIndexField departmentName)).

Definition getChildDepartments (departmentName : string) : kube (result (list Department)) :=
  call (List KDepartment (matchingField DepartmentParentIndexField departmentName)).

Definition updateDepartmentFinalizers (department : Department) : kube (result Department) :=
  call (Patch KDepartment department department).

Definition addDepartmentFinalizerIfNeeded (department : Department) : kube (result Department) :=
  if ContainsString (DepartmentFinalizerName cfg) (Finalizers (depMeta department)) then Ret (inr department)
  else updateDepartmentFinalizers
         (department_with_finalizers (fun fs => fs ++ [DepartmentFinalizerName cfg]) department).

Definition removeDepartmentFinalizer (department : Department) : kube (result unit) :=
  _ <-? updateDepartmentFinalizers
          (department_with_finalizers (DeleteTerm (DepartmentFinalizerName cfg)) department) ;;
  Ret (inr tt).

Definition updateDepartmentStatusCondition (department : Department) (condition : Condition) : kube (result unit) :=
  now <- call Now ;;
  let '(conditions, changed) := UpdateDepartmentCondition now (depConditions department) condition in
  if negb changed then Ret (inr tt)
  else
    let department := department_with_conditions conditions department in
    _ <-? call (PatchStatus KDepartment department department) ;; Ret (inr tt).

Definition blockDeletion (department : Department) (reason referrers : string) (count : nat) (example : string)
    : kube (Result * result unit) :=
  let condition :=
    newCondition DepartmentDeletionBlocked ConditionTrue reason
      (sprintf "%d %s still reference this department, e.g. %q" [pretty count; referrers; example]) in
  r <- updateDepartmentStatusCondition department condition ;;
  match r with
  | inl err => Ret (noRequeue, inl err)
  | inr _ =>
      Ret (noRequeue, inl (Errorf "department %q cannot be deleted: %d %s still reference it (e.g. %q)"
                             [Name (depMeta department); pretty count; referrers; example]))
  end.

Definition finalizeDepartment (department : Department) : kube (Result * result unit) :=
  if negb (ContainsString (DepartmentFinalizerName cfg) (Finalizers (depMeta department)))
  then Ret (noRequeue, inr tt)
  else
    r <- getProjectsOfDepartment (Name (depMeta department)) ;;
    match r with
    | inl err => Ret (noRequeue, inl err)
    | inr ((project :: _) as projects) =>
        blockDeletion department "ProjectsStillAssigned" "project(s)" (length projects) (Name (prjMeta project))
    | inr [] =>
        r <- getChildDepartments (Name (depMeta department)) ;;
        match r with
        | inl err => Ret (noRequeue, inl err)
        | inr ((child :: _) as children) =>
            blockDeletion department "ChildDepartmentsStillAssigned" "child department(s)" (length children)
              (Name (depMeta child))
        | inr [] => r <- removeDepartmentFinalizer department ;; Ret (noRequeue, r)
        end
    end.

(** [DepartmentReconciler.Reconcile]; [fuel] bounds the queue loop check. *)
Definition getDepartmentForRequest (req : NamespacedName) : kube (result (option Department)) :=
  r <- call (Get KDepartment req) ;;
  match r with
  | inr department => Ret (inr (Some (department : Department)))
  | inl err => if IsNotFound err then Ret (inr None) else Ret (inl err)
  end.

Definition ReconcileDepartment (fuel : nat) (req : NamespacedName) : kube (Result * result unit) :=
  r <- getDepartmentForRequest req ;;
  match r with
  | inl err => Ret (requeueNow, inl err)
  | inr None => Ret (noRequeue, inr tt)
  | inr (Some department) =>
      match DeletionTimestamp (depMeta department) with
      | Some _ => finalizeDepartment department
      | None =>
          r <- addDepartmentFinalizerIfNeeded department ;;
          match r with
          | inl err => Ret (requeueNow, inl err)
          | inr department =>
              r <- handleDepartmentQueues cfg kaiAPIVersion fuel department ;;
              match r with
              | (_, inl err) => Ret (requeueNow, inl err)
              | (true, inr _) => Ret ({| Requeue := false; RequeueAfter := heldQueueRetryInterval |}, inr tt)
              | (false, inr _) => Ret (noRequeue, inr tt)
              end
          end
      end
  end.

(** [mapQueueToDepartmentChildren] for the children of a kind. *)
Definition mapQueueToDepartmentChildren (K : Kind) (queue : Queue) (parentIndexField : string)
    : kube (list NamespacedName) :=
  match ProjectOrDepartmentOwner groupOf kaiGroup (OwnerReferences (qMeta queue)) with
  | None => Ret []
  | Some owner =>
      if OwnerKind owner !=? DepartmentKind then Ret []
      else
        r <- call (List K (matchingField parentIndexField (OwnerName owner))) ;;
        match r with
        | inl _ => Ret []
        | inr items => Ret (List.map (fun o => requestFor (Name (objMeta K o))) items)
        end
  end.

Definition MapQueueToChildDepartments (queue : Queue) : kube (list NamespacedName) :=
  mapQueueToDepartmentChildren KDepartment queue DepartmentParentIndexField.

Definition MapQueueToChildProjects (queue : Queue) : kube (list NamespacedName) :=
  mapQueueToDepartmentChildren KProject queue ProjectDepartmentIndexField.

End DepartmentReconciler.
