(* ===== verification/ProjectFacts.v ===== *)
(** * Properties of the namespace, limit range, role bindings and status of a project

    The namespace of a project carries the scheduler enforcement that the pod
    mutator reads back, keeps what others put on it and is stable; the limit
    range is the parsed config map; role bindings are only removed when the
    controller made them; the quota of a project is the sum over its queues. *)

From stdpp Require Import base list gmap strings.
From S2P Require Import Prelude ApiTypes NodePoolUtils Assigner Mutators ProjectCommon Queues ProjectHandlers RoleBindings ProjectDeletion.

(** ** Namespaces *)

Lemma ParseBool_FormatBool b : ParseBool (FormatBool b) = Some b.
Proof. by destruct b. Qed.

Lemma FormatBool_nonempty b : FormatBool b <> "".
Proof. by destruct b. Qed.

(** Reading the namespace the way the pod mutator does. *)
Definition enforcedIn (key : string) (ns : NamespaceObj) : bool :=
  match Annotations (nsMeta ns) !! key with
  | None => false
  | Some enforce => default false (ParseBool enforce)
  end.

Section NamespaceProps.
Context (cfg : ProjectReconcilerConfig).
Notation enforceKey := (ProjectCommon.EnforceSchedulerAnnotationKey cfg).

Lemma enforcedIn_formatted ns b : Annotations (nsMeta ns) !! enforceKey = Some (FormatBool b) -> enforcedIn enforceKey ns = b.
Proof. unfold enforcedIn. intros ->. by rewrite ParseBool_FormatBool. Qed.

Lemma GetNamespaceObject_annotation p n :
  Annotations (nsMeta (GetNamespaceObject cfg p n)) !! enforceKey = Some (FormatBool (EnforceKaiScheduler p)).
Proof. simpl. by rewrite lookup_singleton_eq. Qed.

Lemma merged_annotation p n existing :
  Annotations (nsMeta (mergedNamespace cfg existing (GetNamespaceObject cfg p n))) !! enforceKey
  = Some (FormatBool (EnforceKaiScheduler p)).
Proof.
  simpl. rewrite lookup_union_r by (by rewrite lookup_delete_eq). by rewrite lookup_singleton_eq.
Qed.

Lemma NamespacesEqual_annotation p n existing :
  NamespacesEqual cfg (GetNamespaceObject cfg p n) existing = true ->
  Annotations (nsMeta existing) !! enforceKey = Some (FormatBool (EnforceKaiScheduler p)).
Proof.
  unfold NamespacesEqual. rewrite !andb_true_iff. intros [_ Ha]. apply bool_decide_eq_true in Ha.
  unfold mapGet in Ha. rewrite GetNamespaceObject_annotation in Ha. simpl in Ha.
  destruct (Annotations (nsMeta existing) !! enforceKey) as [v|]; simpl in Ha; [by subst|].
  by destruct (FormatBool_nonempty _ Ha).
Qed.

Lemma labelled_annotation p existing :
  Annotations (nsMeta (labelledNamespace cfg p existing).1) !! enforceKey = Some (FormatBool (EnforceKaiScheduler p)).
Proof.
  unfold labelledNamespace. simpl. case_bool_decide as Ha; simpl; [by rewrite lookup_insert_eq|].
  destruct (decide (Annotations (nsMeta existing) !! enforceKey = Some (FormatBool (EnforceKaiScheduler p)))); [done|].
  by destruct Ha.
Qed.

(** Updating the namespace of a project keeps what others put on it: every
    label and annotation the controller does not own survives with its value,
    the owned ones get the project's values, and the updated namespace compares
    equal to the expected one, so the next reconcile does not write again. *)
Theorem mergedNamespace_keeps_foreign existing p n :
  let new := GetNamespaceObject cfg p n in
  let m := mergedNamespace cfg existing new in
  (forall k v, k <> enforceKey -> Annotations (nsMeta existing) !! k = Some v -> Annotations (nsMeta m) !! k = Some v) /\
  (forall k v, Labels (nsMeta new) !! k = None -> Labels (nsMeta existing) !! k = Some v -> Labels (nsMeta m) !! k = Some v) /\
  (forall k v, Labels (nsMeta new) !! k = Some v -> Labels (nsMeta m) !! k = Some v) /\
  NamespacesEqual cfg new m = true.
Proof.
  intros new m. split_and!.
  - intros k v Hk Hv. simpl. apply lookup_union_Some_l. by rewrite lookup_delete_ne.
  - intros k v Hn Hv. simpl. by rewrite lookup_union_r.
  - intros k v Hn. simpl. by apply lookup_union_Some_l.
  - assert (Labels (nsMeta new) <> ∅) as Hne.
    { simpl. destruct (IsOpenshift cfg); by apply insert_non_empty. }
    assert (forall k v, Labels (nsMeta new) !! k = Some v -> Labels (nsMeta m) !! k = Some v) as Hlab.
    { intros k v Hn. simpl. by apply lookup_union_Some_l. }
    unfold NamespacesEqual. rewrite !andb_true_iff, !bool_decide_eq_true, !negb_true_iff, !bool_decide_eq_false.
    split_and!; try done.
    + intros Hm. destruct (map_choose _ Hne) as (k & v & Hkv). apply Hlab in Hkv. rewrite Hm in Hkv. done.
    + unfold mapGet.
      destruct (Labels (nsMeta new) !! ProjectCommon.NamespaceProjectLabelKey cfg) as [v|] eqn:Hv; [by rewrite (Hlab _ _ Hv)|].
      exfalso. revert Hv. simpl. destruct (IsOpenshift cfg); simpl; rewrite ?lookup_insert, ?lookup_singleton; repeat case_decide; done.
    + unfold mapGet, m, new. by rewrite merged_annotation, GetNamespaceObject_annotation.
Qed.

(** The namespace of the in-memory server. *)
Definition namespaceAt (s : store) (name : string) : option NamespaceObj := s KNamespace !! ("", name).

(** The store holds each namespace under its own name. *)
Definition namespacesKeyed (s : store) : Prop :=
  forall name o, namespaceAt s name = Some o -> Name (nsMeta o) = name /\ Namespace (nsMeta o) = "".

Lemma store_add_namespace (ns : NamespaceObj) (s : store) :
  Namespace (nsMeta ns) = "" -> namespaceAt (store_add (K := KNamespace) ns s) (Name (nsMeta ns)) = Some ns.
Proof. intros Hn. unfold namespaceAt, store_add, store_update, objKey. simpl. rewrite Hn. apply lookup_insert_eq. Qed.

Lemma run_get_namespace (s : store) name :
  run memServer (GetNamespace name) s
  = (match namespaceAt s name with Some o => inr o | None => notFound end, s).
Proof. reflexivity. Qed.

Lemma run_update_namespace (s : store) (ns : NamespaceObj) :
  is_Some (namespaceAt s (Name (nsMeta ns))) -> Namespace (nsMeta ns) = "" ->
  run memServer (call (Update KNamespace ns)) s = (inr ns, store_add (K := KNamespace) ns s).
Proof.
  unfold namespaceAt. intros [o Hs] Hn. cbn [run call memServer].
  destruct (s KNamespace !! objKey (K := KNamespace) ns) eqn:E; [done|].
  exfalso. unfold objKey in E. simpl in E. rewrite Hn in E. by pose proof (eq_trans (eq_sym E) Hs).
Qed.

Lemma run_create_namespace (s : store) (ns : NamespaceObj) :
  namespaceAt s (Name (nsMeta ns)) = None -> Namespace (nsMeta ns) = "" ->
  run memServer (call (Create KNamespace ns)) s = (inr ns, store_add (K := KNamespace) ns s).
Proof.
  unfold namespaceAt. intros Hs Hn. cbn [run call memServer].
  destruct (s KNamespace !! objKey (K := KNamespace) ns) eqn:E; [|done].
  exfalso. unfold objKey in E. simpl in E. rewrite Hn in E. by pose proof (eq_trans (eq_sym E) Hs).
Qed.

Lemma run_enforced pcfg (s : store) name ns :
  namespaceAt s name = Some ns ->
  (run memServer (isSchedulerEnforcedForNamespace pcfg name) s).1
  = inr (enforcedIn (Assigner.EnforceSchedulerAnnotationKey pcfg) ns).
Proof.
  intros Hs. unfold isSchedulerEnforcedForNamespace. rewrite run_bind.
  change (call (Get KNamespace ("", name))) with (GetNamespace name). rewrite run_get_namespace, Hs.
  unfold enforcedIn. by destruct (Annotations (nsMeta ns) !! _).
Qed.

Definition projectNamespaceName (p : Project) : string :=
  if prjNamespace p ==? "" then DefaultProjectNamespaceName cfg p else prjNamespace p.

(** The project's enforcement is on the namespace. *)
Definition enforcementSet (p : Project) (s : store) (name : string) : Prop :=
  exists ns, namespaceAt s name = Some ns /\
    Annotations (nsMeta ns) !! enforceKey = Some (FormatBool (EnforceKaiScheduler p)).

Lemma run_write_enforced p (s : store) (ns : NamespaceObj) (call_ : kube (result NamespaceObj)) (f : result NamespaceObj -> kube (string * string * result unit)) :
  run memServer call_ s = (inr ns, store_add (K := KNamespace) ns s) -> f (inr ns) = Ret done ->
  Namespace (nsMeta ns) = "" -> Annotations (nsMeta ns) !! enforceKey = Some (FormatBool (EnforceKaiScheduler p)) ->
  enforcementSet p (run memServer (x <- call_ ;; f x) s).2 (Name (nsMeta ns)).
Proof.
  intros Hrun Hf Hns Hann. rewrite run_bind, Hrun, Hf. exists ns. split; [by apply store_add_namespace|done].
Qed.

Lemma run_handleExisting p (s : store) name existing :
  namespaceAt s name = Some existing -> IsManuallyOverridden cfg (nsMeta existing) = false ->
  enforcementSet p (run memServer (handleExistingNamespace cfg existing (GetNamespaceObject cfg p name)) s).2 name.
Proof.
  intros Hs Hov. unfold handleExistingNamespace. rewrite Hov.
  destruct (NamespacesEqual cfg _ existing) eqn:Heq.
  - exists existing. split; [done|]. by eapply NamespacesEqual_annotation.
  - eapply (run_write_enforced p s (mergedNamespace cfg existing (GetNamespaceObject cfg p name)));
      [by apply run_update_namespace; eauto|done|done|apply merged_annotation].
Qed.

Lemma run_labelExternal p (s : store) name existing :
  namespaceAt s name = Some existing -> namespacesKeyed s ->
  (run memServer (labelExternalNamespaceForProject cfg p existing) s).1.2 = inr tt ->
  enforcementSet p (run memServer (labelExternalNamespaceForProject cfg p existing) s).2 name.
Proof.
  intros Hs Hkeyed. destruct (Hkeyed _ _ Hs) as [Hname Hns]. unfold labelExternalNamespaceForProject.
  destruct (_ && _); [done|]. pose proof (labelled_annotation p existing) as Hann.
  assert (Namespace (nsMeta (labelledNamespace cfg p existing).1) = "" /\
          Name (nsMeta (labelledNamespace cfg p existing).1) = name) as [H1 H2] by done.
  assert ((labelledNamespace cfg p existing).2 = false ->
          Annotations (nsMeta existing) !! enforceKey = Some (FormatBool (EnforceKaiScheduler p))) as Hsame.
  { unfold labelledNamespace in *. simpl in *. intros [_ Hu]%orb_false_iff. by rewrite Hu in Hann. }
  destruct (labelledNamespace cfg p existing) as [ns updated]. cbn [fst snd] in *. intros _. destruct updated.
  - rewrite <- H2. eapply run_write_enforced; [apply run_update_namespace; [rewrite H2; eauto|done]|done..].
  - exists existing. auto.
Qed.

Lemma run_HandleNamespace p (s s' : store) msg reason err :
  run memServer (handleNamespaceInner cfg p) s = (msg, reason, err, s') ->
  run memServer (HandleNamespace cfg p) s =
  ([newCondition NamespaceReady (GetStatusFromError (errOf err)) (getReasonFromError (errOf err) reason) msg], err, s').
Proof. intros H. unfold HandleNamespace. rewrite run_bind, H. done. Qed.

(** C18: Scheduler enforcement travels from the project to its pods: after the
    namespace handler succeeded on a cluster, the pod mutator's test of the
    project's namespace answers exactly what the project asks for, whether the
    namespace was created, updated, adopted or already right. *)
Theorem enforcement_round_trip pcfg p s :
  CreateNamespaces cfg = true ->
  Assigner.EnforceSchedulerAnnotationKey pcfg = enforceKey ->
  namespacesKeyed s ->
  (forall o, namespaceAt s (projectNamespaceName p) = Some o -> IsManuallyOverridden cfg (nsMeta o) = false) ->
  (run memServer (HandleNamespace cfg p) s).1.2 = inr tt ->
  (run memServer (isSchedulerEnforcedForNamespace pcfg (projectNamespaceName p)) (run memServer (HandleNamespace cfg p) s).2).1
  = inr (EnforceKaiScheduler p).
Proof.
  intros Hcreate Hkey Hkeyed Hov.
  destruct (run memServer (handleNamespaceInner cfg p) s) as [[[msg reason] err] s'] eqn:Hrun.
  rewrite (run_HandleNamespace _ _ _ _ _ _ Hrun). cbn [fst snd]. intros ->.
  enough (enforcementSet p s' (projectNamespaceName p)) as (ns & Hns & Hann).
  { rewrite (run_enforced _ _ _ ns Hns), Hkey. by rewrite (enforcedIn_formatted _ _ Hann). }
  unfold handleNamespaceInner in Hrun. rewrite Hcreate in Hrun. cbn [negb] in Hrun.
  unfold projectNamespaceName in *. case_bool_decide as Hp; cbn [negb] in Hrun; rewrite ?run_bind in Hrun.
  - rewrite run_get_namespace in Hrun.
    destruct (namespaceAt s (DefaultProjectNamespaceName cfg p)) as [existing|] eqn:Hs.
    + pose proof (run_handleExisting p s _ existing Hs (Hov _ eq_refl)) as He. by rewrite Hrun in He.
    + assert (enforcementSet p (run memServer (handleNonExistingNamespace (GetNamespaceObject cfg p (DefaultProjectNamespaceName cfg p))) s).2
        (DefaultProjectNamespaceName cfg p)) as He.
      { eapply (run_write_enforced p s (GetNamespaceObject cfg p (DefaultProjectNamespaceName cfg p)));
          [by apply run_create_namespace|done|done|apply GetNamespaceObject_annotation]. }
      change (run memServer (handleNonExistingNamespace (GetNamespaceObject cfg p (DefaultProjectNamespaceName cfg p))) s
              = (msg, reason, inr (), s')) in Hrun. by rewrite Hrun in He.
  - unfold handleUserExternalNamespaceForProject in Hrun. rewrite run_bind, run_get_namespace in Hrun.
    destruct (namespaceAt s (prjNamespace p)) as [existing|] eqn:Hs; [|done].
    pose proof (run_labelExternal p s _ existing Hs Hkeyed) as He. rewrite Hrun in He. by apply He.
Qed.

End NamespaceProps.

(** ** Limit ranges *)

Section LimitRangeProps.
Context (cfg : ProjectReconcilerConfig) (kaiAPIVersion : string) (ParseQuantity : string -> option Z).

(** The quantity a field of the config map gives. *)
Definition limitOf (data : gmap string string) (field : string) : option Z := data !! field ≫= ParseQuantity.

(** A resource list with the two fields and nothing else. *)
Definition limitsAre (data : gmap string string) (cpuField memoryField : string) (m : ResourceList) : Prop :=
  m !! CpuResourceName = limitOf data cpuField /\ m !! MemoryResourceName = limitOf data memoryField /\
  (forall r, r <> CpuResourceName -> r <> MemoryResourceName -> m !! r = None).

Lemma assign_two data cpuField memoryField :
  limitsAre data cpuField memoryField
    (assignLimitValueToResourceList ParseQuantity data
       (assignLimitValueToResourceList ParseQuantity data ∅ cpuField CpuResourceName) memoryField MemoryResourceName).
Proof.
  unfold assignLimitValueToResourceList, limitsAre, limitOf.
  destruct (data !! cpuField) as [u|]; destruct (data !! memoryField) as [v|]; simpl;
    try destruct (ParseQuantity u); try destruct (ParseQuantity v); simpl;
    split_and!; intros; by simplify_map_eq.
Qed.

(** A written limit range holds exactly the limits of the config map that was
    read, and is not one that was manually overridden. *)
Definition limitRangeWriteOk (cm : ConfigMap) : forall X, KubeCall X -> Prop := fun X c =>
  match c with
  | Create KLimitRange lr | Update KLimitRange lr =>
      IsManuallyOverridden cfg (lrMeta lr) = false /\
      exists item, Limits lr = [item] /\ lriType item = LimitTypeContainer /\
        limitsAre (cmData cm) CpuDefaultRequest MemoryDefaultRequest (lriDefaultRequest item) /\
        limitsAre (cmData cm) CpuDefaultLimit MemoryDefaultLimit (lriDefault item) /\
        limitsAre (cmData cm) CpuMaxLimit MemoryMaxLimit (lriMax item)
  | _ => is_write c = false
  end.

Lemma handlerNamespace_reads p : reads_only (handlerProjectToNamespace cfg p).
Proof. unfold handlerProjectToNamespace, KaiProjectToNamespace, projectToNamespace. reads_tac. Qed.

Lemma populated_ok cm lr :
  IsManuallyOverridden cfg (lrMeta lr) = false ->
  IsManuallyOverridden cfg (lrMeta (populateLimitRange ParseQuantity (cmData cm) lr)) = false /\
  exists item, Limits (populateLimitRange ParseQuantity (cmData cm) lr) = [item] /\ lriType item = LimitTypeContainer /\
    limitsAre (cmData cm) CpuDefaultRequest MemoryDefaultRequest (lriDefaultRequest item) /\
    limitsAre (cmData cm) CpuDefaultLimit MemoryDefaultLimit (lriDefault item) /\
    limitsAre (cmData cm) CpuMaxLimit MemoryMaxLimit (lriMax item).
Proof. intros Ho. split; [done|]. eexists. split; [done|]. split; [done|]. split_and!; apply assign_two. Qed.

Lemma wp_handleLimitRange cm p :
  wp (limitRangeWriteOk cm) any_reply (handleLimitRange cfg kaiAPIVersion ParseQuantity cm p) (fun _ => True).
Proof.
  unfold handleLimitRange. apply wp_try. eapply wp_mono; [|apply reads_only_wp].
  - intros [e|[lr create]] _; [done|]. destruct (IsManuallyOverridden cfg (lrMeta lr)) eqn:Ho; [done|].
    pose proof (populated_ok cm lr Ho) as Hok. unfold createOrUpdateLimitRange.
    destruct create; simpl; (split; [exact Hok|]); by intros [] _.
  - intros X c Hc. by destruct c.
  - unfold GetNamespacedLimitRange. apply reads_try; [apply handlerNamespace_reads|]. intros. reads_tac.
Qed.

(** The limit range of a project is the default config map: every limit
    range the handler creates or updates has a single container item whose
    requests, limits and maxima are exactly the parseable fields of the config
    map that was read (no earlier limit survives), nothing is written without the
    config map, and a manually overridden limit range is left alone. *)
Theorem limitRange_is_config_map p tr r :
  exec (handleLimitRangeInner cfg kaiAPIVersion ParseQuantity p) tr r ->
  writes tr = [] \/
  exists cm, Event (Get KConfigMap (InstallNamespace cfg, DefaultLimitRangeConfigMapName)) (inr cm) ∈ tr /\
    Forall (fun e => limitRangeWriteOk cm _ (ev_call e)) tr.
Proof.
  intros ([e|cm] & tr' & -> & H).
  - left. cbn in H. destruct (IsNotFound e); destruct H as [-> _]; done.
  - right. exists cm. split; [by left|]. constructor; [done|].
    by destruct (wp_exec_any _ _ _ _ _ (wp_handleLimitRange cm p) H).
Qed.

End LimitRangeProps.

(** ** Role bindings *)

Section RoleBindingProps.
Context (cfg : ProjectReconcilerConfig) (kaiAPIVersion : string).
Context (decodeRoleBinding : string -> result RoleBinding).
Context (rangeOrder : forall A, gmap string A -> list (string * A)).
Context (GetControllerOf : ObjectMeta -> option OwnerReference).
Context (IsControlledBy : ObjectMeta -> ObjectMeta -> bool).

(** What a project may remove: a role binding the config map does not describe,
    that the project controls and that this controller made. *)
Definition omitted (p : Project) (desired : gmap string RoleBinding) (rb : RoleBinding) : Prop :=
  desired !! Name (rbMeta rb) = None /\ IsControlledBy (rbMeta rb) (prjMeta p) = true /\
  isManagedByProjectController rb = true.
#[global] Instance omitted_dec p desired rb : Decision (omitted p desired rb).
Proof. unfold omitted. apply _. Defined.

(** The role bindings a trace deletes, in order. *)
Definition deletedRoleBinding (e : event KubeCall) : option RoleBinding :=
  match ev_call e with Delete KRoleBinding rb => Some rb | _ => None end.

Lemma exec_deleteOmitted ns p desired rb tr r :
  exec (deleteOmitted IsControlledBy ns p desired rb) tr r ->
  omap deletedRoleBinding tr = filter (omitted p desired) [rb].
Proof.
  unfold deleteOmitted. rewrite filter_cons, filter_nil.
  destruct (decide (omitted p desired rb)) as [(Hn & Hc & Hm)|Hno].
  - rewrite Hc, Hm, bool_decide_false by (rewrite Hn; by intros []). intros (reply & tr' & -> & H).
    destruct reply as [e|[]]; cbn in H; [destruct (IsNotFound e)|]; by destruct H as [-> _].
  - case_bool_decide as Hd; [by intros [-> _]|].
    destruct (negb _ || negb _) eqn:Hor; [by intros [-> _]|].
    apply orb_false_iff in Hor as [Hc%negb_false_iff Hm%negb_false_iff].
    exfalso. apply Hno. split; [by apply eq_None_not_Some|done].
Qed.

Lemma exec_deleteOmitted_all ns p desired (rbs : list RoleBinding) tr :
  exec (forEach rbs (deleteOmitted IsControlledBy ns p desired)) tr (inr tt) ->
  omap deletedRoleBinding tr = filter (omitted p desired) rbs.
Proof.
  revert tr. induction rbs as [|rb rest IH]; intros tr H; [by destruct H as [-> _]|].
  apply exec_bind_inv in H as (tr1 & tr2 & [e|[]] & -> & H1 & H2); [by destruct H2|].
  rewrite omap_app, (exec_deleteOmitted _ _ _ _ _ _ H1), (IH _ H2). by rewrite <- filter_app.
Qed.

(** Reading satisfies every condition on writes, whatever is assumed of the replies. *)
Lemma wp_reads_any {A} (post : forall X, KubeCall X -> X -> Prop) (p : kube A) :
  reads_only p -> wp (fun _ c => is_write c = false) post p (fun _ => True).
Proof. induction p as [a|X c k IH]; [done|]. intros [Hc Hk]. split; [done|]. intros x _. apply IH, Hk. done. Qed.

Lemma handlerNamespace_bool_reads p : reads_only (KaiProjectToNamespace cfg p).
Proof. unfold KaiProjectToNamespace, projectToNamespace. reads_tac. Qed.

(** Pruning role bindings is exact: when the clean-up succeeds, the role
    bindings it deleted are, in order, exactly the listed ones that the config
    map no longer describes, that the project controls and that carry the
    controller's label; without a configured config map nothing is deleted. *)
Theorem deleteOmittedRoleBindings_exact ns p desired tr :
  exec (deleteOmittedRoleBindings cfg IsControlledBy ns p desired) tr (inr tt) ->
  (RoleBindingsCm cfg = "" /\ tr = []) \/
  exists rbs, head tr = Some (Event (List KRoleBinding (inNamespace ns)) (inr rbs)) /\
    omap deletedRoleBinding tr = filter (omitted p desired) (rbs : list RoleBinding).
Proof.
  unfold deleteOmittedRoleBindings. case_bool_decide as Hcm; [intros [-> _]; by left|].
  intros ([e|rbs] & tr' & -> & H); [by destruct H|]. right. exists rbs. split; [done|].
  exact (exec_deleteOmitted_all ns p desired rbs tr' H).
Qed.

(** An entry that does not describe a role binding. *)
Definition badEntry (yaml : string) : Prop :=
  match decodeRoleBinding yaml with inl _ => True | inr rb => Name (rbMeta rb) = "" end.

Lemma parseRoleBindings_bad entries parsed errs :
  (errs <> [] \/ exists k y, (k, y) ∈ entries /\ badEntry y) ->
  (parseRoleBindings decodeRoleBinding entries parsed errs).2 <> [].
Proof.
  revert parsed errs. induction entries as [|[k y] rest IH]; intros parsed errs Hbad; simpl.
  - destruct Hbad as [|(k & y & Hin & _)]; [done|by apply elem_of_nil in Hin].
  - assert (forall errs' : list error, (errs <> [] -> errs' <> []) -> (badEntry y -> errs' <> []) ->
      errs' <> [] \/ exists k y, (k, y) ∈ rest /\ badEntry y) as Hcase.
    { intros errs' H1 H2. destruct Hbad as [|(k' & y' & [[= -> ->]|Hin]%elem_of_cons & Hb)]; eauto. }
    unfold badEntry in Hcase. destruct (decodeRoleBinding y) as [e|rb].
    + apply IH. left. by destruct errs.
    + case_bool_decide as Hn; apply IH; [left; by destruct errs|]. apply Hcase; [done|]. intros Hn'. done.
Qed.

(** The replies that read the role bindings config map answer [cm]. *)
Definition readsConfigMap (cm : ConfigMap) : forall X, KubeCall X -> X -> Prop := fun X c =>
  match c in KubeCall X return X -> Prop with
  | Get KConfigMap _ => fun r => r = inr cm
  | _ => fun _ => True
  end.

Lemma wp_getRoleBindingMap_bad cm cache :
  RoleBindingsCm cfg <> "" ->
  (exists k y, (k, y) ∈ rangeOrder _ (cmData cm) /\ badEntry y) ->
  (initialized cache = true -> cacheResourceVersion cache <> ResourceVersion (cmMeta cm)) ->
  wp (fun _ c => is_write c = false) (readsConfigMap cm) (getRoleBindingMapFromCm cfg decodeRoleBinding rangeOrder cache)
    (fun r => exists errs, r = (cache, inl (Joined errs))).
Proof.
  intros Hcm Hbad Hcache. unfold getRoleBindingMapFromCm. rewrite bool_decide_false by done.
  apply wp_bind, wp_call; [done|]. intros r Hr. cbn in Hr. subst r.
  destruct (initialized cache && _) eqn:Hc.
  { apply andb_true_iff in Hc as [Hi Hv%bool_decide_eq_true]. by apply Hcache in Hi. }
  pose proof (parseRoleBindings_bad (rangeOrder _ (cmData cm)) ∅ [] (or_intror Hbad)) as Hne.
  destruct (parseRoleBindings _ _ _ _) as [m [|e errs]]; [done|]. simpl. eauto.
Qed.

(** A malformed config map never prunes: when an entry of the role bindings
    config map does not parse or has no name (and the parsed version is not
    cached), the handler writes nothing at all and leaves the cache as it is; it
    succeeds only where the namespace of the project does not exist. *)
Theorem malformed_config_map_writes_nothing cm cache p tr cache' r :
  RoleBindingsCm cfg <> "" ->
  (exists k y, (k, y) ∈ rangeOrder _ (cmData cm) /\ badEntry y) ->
  (initialized cache = true -> cacheResourceVersion cache <> ResourceVersion (cmMeta cm)) ->
  exec (handleRoleBindingsInner cfg kaiAPIVersion decodeRoleBinding rangeOrder GetControllerOf IsControlledBy cache p) tr (cache', r) ->
  Forall (fun e => readsConfigMap cm _ (ev_call e) (ev_reply e)) tr ->
  writes tr = [] /\ cache' = cache /\ (CreateNamespaces cfg = true -> isOk r = false).
Proof.
  intros Hcm Hbad Hcache Hex Hall.
  assert (wp (fun _ c => is_write c = false) (readsConfigMap cm)
    (handleRoleBindingsInner cfg kaiAPIVersion decodeRoleBinding rangeOrder GetControllerOf IsControlledBy cache p)
    (fun r => r.1 = cache /\ (CreateNamespaces cfg = true -> isOk r.2 = false))) as Hwp.
  { unfold handleRoleBindingsInner. apply wp_bind. unfold handlerProjectToNamespace.
    apply wp_bind. eapply wp_mono; [|apply wp_reads_any, (handlerNamespace_bool_reads p)].
    intros r0 _. apply wp_ret. destruct (namespaceOf r0) as [e|ns]; [done|].
    apply wp_bind. unfold namespaceMissing. destruct (CreateNamespaces cfg) eqn:Hcn.
    - apply wp_ret. apply wp_bind. eapply wp_mono; [|by apply wp_getRoleBindingMap_bad].
      intros ? (errs & ->). done.
    - apply wp_bind, wp_call; [done|]. intros reply _.
      assert (forall b : bool, wp (fun _ c => is_write c = false) (readsConfigMap cm)
        (if b then Ret (cache, inr tt) else
         r <- getRoleBindingMapFromCm cfg decodeRoleBinding rangeOrder cache ;;
         match r with
         | (cache, inl err) => Ret (cache, inl err)
         | (cache, inr desiredRoleBindings) =>
             err <- manageRoleBindings cfg kaiAPIVersion rangeOrder GetControllerOf IsControlledBy ns p desiredRoleBindings ;; Ret (cache, err)
         end) (fun r => r.1 = cache /\ (false = true -> isOk r.2 = false))) as Hrest.
      { intros []; [done|]. apply wp_bind. eapply wp_mono; [|by apply wp_getRoleBindingMap_bad].
        intros ? (errs & ->). done. }
      destruct reply; apply Hrest. }
  destruct (wp_exec _ _ _ _ _ _ Hwp Hex Hall) as [Hw [Hc Hr]]. simpl in *. split_and!; [by apply writes_nil|done|done].
Qed.

(** ** Convergence *)

Lemma subjectsByName_lookup subjects s :
  s ∈ subjects -> NoDup (subjectName <$> subjects) -> subjectsByName subjects !! subjectName s = Some s.
Proof.
  unfold subjectsByName. intros Hin Hnd.
  assert (forall m : gmap string Subject, foldl (fun m subject => <[subjectName subject := subject]> m) m subjects !! subjectName s = Some s) as H; [|apply H].
  revert Hin Hnd. induction subjects as [|x xs IH]; [by intros ?%elem_of_nil|].
  intros Hin Hnd m. rewrite fmap_cons in Hnd. apply NoDup_cons in Hnd as [Hx Hnd]. simpl.
  apply elem_of_cons in Hin as [->|Hin]; [|by apply IH].
  assert (forall m : gmap string Subject, m !! subjectName x = Some x ->
    foldl (fun m subject => <[subjectName subject := subject]> m) m xs !! subjectName x = Some x) as Hkeep.
  { clear IH Hnd. induction xs as [|y ys IHy]; [done|]. intros m' Hm'. simpl. apply IHy.
    - intros Hy. apply Hx. rewrite fmap_cons. by right.
    - rewrite lookup_insert_ne; [done|]. intros Heq. apply Hx. rewrite fmap_cons, Heq. left. }
  apply Hkeep. apply lookup_insert_eq.
Qed.

(** One update is enough: after a role binding was updated, the next
    reconcile finds nothing to change, provided the names of the desired subjects
    are distinct. *)
Theorem roleBinding_update_converges current desired ns p :
  NoDup (subjectName <$> rbSubjects desired) ->
  shouldUpdateRoleBinding
    (updatedRoleBinding kaiAPIVersion GetControllerOf current desired (subjectsIn ns (rbSubjects desired)) p) desired = false.
Proof.
  intros Hnd. unfold shouldUpdateRoleBinding, isManagedByProjectController, mapGet. simpl.
  rewrite lookup_insert_eq, !bool_decide_true by done. cbn [negb orb].
  rewrite (bool_decide_true (length _ = length _)) by (unfold subjectsIn; apply length_fmap). cbn [negb].
  apply not_true_iff_false. rewrite existsb_exists. intros (s & Hs & Hbad). apply list_elem_of_In in Hs.
  assert (subjectName <$> subjectsIn ns (rbSubjects desired) = subjectName <$> rbSubjects desired) as Hnames.
  { unfold subjectsIn. rewrite <- list_fmap_compose. apply list_fmap_ext. intros i x _. simpl. by case_bool_decide. }
  set (f := fun subject => if subjectNamespace subject ==? "" then
       {| subjectKind := subjectKind subject; subjectAPIGroup := subjectAPIGroup subject;
          subjectName := subjectName subject; subjectNamespace := ns |} else subject).
  assert (subjectName (f s) = subjectName s /\ subjectKind (f s) = subjectKind s /\ subjectAPIGroup (f s) = subjectAPIGroup s)
    as (Hn & Hk & Hg) by (unfold f; by case_bool_decide).
  assert (f s ∈ subjectsIn ns (rbSubjects desired)) as Hin by (by apply list_elem_of_fmap_2).
  pose proof (subjectsByName_lookup _ _ Hin) as Hl. rewrite Hnames, Hn in Hl. rewrite (Hl Hnd), Hk, Hg in Hbad.
  by rewrite !bool_decide_true in Hbad.
Qed.

End RoleBindingProps.

(** ** Conditions *)

Lemma conditionIndexFrom_Some i cs t k c :
  conditionIndexFrom i cs t = Some (k, c) ->
  (i <= k)%nat /\ cs !! (k - i)%nat = Some c /\ condType c = t /\
  forall c', condType c' = t ->
    conditionIndexFrom i (<[(k - i)%nat := c']> cs) t = Some (k, c') /\
    (forall t', t' <> t -> conditionIndexFrom i (<[(k - i)%nat := c']> cs) t' = conditionIndexFrom i cs t').
Proof.
  revert i. induction cs as [|x xs IH]; intros i; simpl; [done|]. case_bool_decide as Hx.
  - intros [= <- <-]. rewrite Nat.sub_diag. split_and!; [lia|done|done|]. intros c' Hc'. simpl. split.
    + by rewrite bool_decide_true.
    + intros t' Ht'. rewrite !bool_decide_false by congruence. done.
  - intros (Hle & Hl & Ht & Hrest)%IH. replace (k - i)%nat with (S (k - S i)) by lia. simpl.
    split_and!; [lia|done|done|]. intros c' Hc'. destruct (Hrest c' Hc') as [H1 H2]. split.
    + by rewrite bool_decide_false.
    + intros t' Ht'. by rewrite H2.
Qed.

Lemma conditionIndexFrom_None i cs t c' :
  conditionIndexFrom i cs t = None -> condType c' = t ->
  conditionIndexFrom i (cs ++ [c']) t = Some ((i + length cs)%nat, c') /\
  (forall t', t' <> t -> conditionIndexFrom i (cs ++ [c']) t' = conditionIndexFrom i cs t').
Proof.
  revert i. induction cs as [|x xs IH]; intros i Hn Hc'; simpl in *.
  - rewrite bool_decide_true by done. split; [by rewrite Nat.add_0_r|]. intros t' Ht'. by rewrite bool_decide_false by congruence.
  - case_bool_decide as Hx; [done|]. destruct (IH (S i) Hn Hc') as [H1 H2]. split.
    + rewrite H1. do 2 f_equal. lia.
    + intros t' Ht'. by rewrite H2.
Qed.

(** The condition [c] with a transition time. *)
Definition stamped (c : Condition) (t : Z) : Condition :=
  {| condType := condType c; condStatus := condStatus c; condReason := condReason c; condMessage := condMessage c;
     LastProbeTime := LastProbeTime c; LastTransitionTime := t |}.

(** The condition of a type. *)
Definition conditionOf (cs : list Condition) (t : string) : option Condition := snd <$> GetConditionFromList cs t.

(** Updating a condition is an upsert: afterwards the condition of its type
    is the given one, the transition time is kept exactly when the status did not
    change, the conditions of every other type are untouched, and "unchanged" is
    reported exactly when the conditions stay the same. *)
Theorem UpdateCondition_upsert now cs c :
  let '(cs', changed) := UpdateCondition now cs c in
  conditionOf cs' (condType c) = Some (stamped c
    (match conditionOf cs (condType c) with
     | Some old => if condStatus c ==? condStatus old then LastTransitionTime old else now
     | None => now
     end)) /\
  (forall t, t <> condType c -> conditionOf cs' t = conditionOf cs t) /\
  (changed = false <-> cs' = cs).
Proof.
  unfold UpdateCondition, conditionOf, GetConditionFromList.
  destruct (conditionIndexFrom 0 cs (condType c)) as [[k old]|] eqn:Hf; cbn [fmap option_fmap option_map snd].
  - apply conditionIndexFrom_Some in Hf as (_ & Hl & Ht & Hrest). rewrite Nat.sub_0_r in *.
    fold (stamped c (if condStatus c ==? condStatus old then LastTransitionTime old else now)).
    set (new := stamped c _) in *. destruct (Hrest new eq_refl) as [H1 H2]. rewrite H1. split_and!; [done| |].
    + intros t Hne. by rewrite H2.
    + rewrite negb_false_iff, !andb_true_iff, !bool_decide_eq_true. split.
      * intros ((((Hs & Hr) & Hm) & Hp) & Htr). apply list_insert_id. rewrite Hl. f_equal. symmetry.
        unfold new, stamped in *. destruct old; simpl in *. f_equal; congruence.
      * intros Heq. assert (Some new = Some old) as [= Hno].
        { rewrite <- Hl, <- Heq. symmetry. apply list_lookup_insert_eq. by eapply lookup_lt_Some. }
        rewrite <- Hno at 1 2 3 4. split_and!; try done. by apply (f_equal LastTransitionTime) in Hno.
  - fold (stamped c now). destruct (conditionIndexFrom_None 0 cs (condType c) (stamped c now) Hf eq_refl) as [H1 H2].
    rewrite H1. split_and!; [done| |].
    + intros t Hne. by rewrite H2.
    + split; [done|]. intros Heq. apply (f_equal length) in Heq. rewrite length_app in Heq. simpl in Heq. lia.
Qed.

(** ** Quotas *)

(** The sum of a resource over the queues of the node pools. *)
Definition quotaTotal (proj : QueueStatus -> ResourceList) (r : string) (qs : list QuotaStatus) : Z :=
  foldr (fun q acc => default 0 (proj (quotaQueueStatus q) !! r) + acc)%Z 0%Z qs.

(** Some queue reports the resource. *)
Definition quotaReported (proj : QueueStatus -> ResourceList) (r : string) (qs : list QuotaStatus) : Prop :=
  List.Exists (fun q => is_Some (proj (quotaQueueStatus q) !! r)) qs.

Definition sumsTo (proj : QueueStatus -> ResourceList) (qs : list QuotaStatus) (m : ResourceList) : Prop :=
  forall r, default 0%Z (m !! r) = quotaTotal proj r qs /\ (is_Some (m !! r) <-> quotaReported proj r qs).

Lemma addResourceList_lookup (m n : ResourceList) r :
  default 0%Z (addResourceList m n !! r) = (default 0 (m !! r) + default 0 (n !! r))%Z /\
  (is_Some (addResourceList m n !! r) <-> is_Some (m !! r) \/ is_Some (n !! r)).
Proof.
  unfold addResourceList. rewrite lookup_union_with.
  destruct (m !! r), (n !! r); simpl; split; try lia; split; intros H; try (by left); try (by right); try done.
  all: by destruct H as [[? ?]|[? ?]].
Qed.

Lemma sum_field (proj : QueueStatus -> ResourceList) qs acc :
  (forall sum q, proj (addQueueStatus sum q) = addResourceList (proj sum) (proj (quotaQueueStatus q))) ->
  forall r, default 0%Z (proj (foldl addQueueStatus acc qs) !! r) = (default 0 (proj acc !! r) + quotaTotal proj r qs)%Z /\
    (is_Some (proj (foldl addQueueStatus acc qs) !! r) <-> is_Some (proj acc !! r) \/ quotaReported proj r qs).
Proof.
  intros Hproj. revert acc. induction qs as [|q qs IH]; intros acc r; simpl.
  - split; [lia|]. unfold quotaReported. rewrite Exists_nil. naive_solver.
  - destruct (IH (addQueueStatus acc q) r) as [H1 H2]. rewrite Hproj in H1, H2.
    destruct (addResourceList_lookup (proj acc) (proj (quotaQueueStatus q)) r) as [A1 A2].
    rewrite H1, A1, H2, A2. unfold quotaReported. rewrite Exists_cons. split; [lia|tauto].
Qed.

(** The quota status of a project is the sum over its node pools: every
    resource of the allocated, non-preemptible and requested lists is the sum over
    the queues, and a resource is listed exactly when some queue reports it. *)
Theorem quota_is_sum s :
  let s' := sumNodePoolsQuotaStatusesToProjectQuotaStatus s in
  sumsTo Allocated (NodePoolsQuotaStatuses s) (Allocated (stQuotaStatus s')) /\
  sumsTo AllocatedNonPreemptible (NodePoolsQuotaStatuses s) (AllocatedNonPreemptible (stQuotaStatus s')) /\
  sumsTo Requested (NodePoolsQuotaStatuses s) (Requested (stQuotaStatus s')).
Proof.
  unfold sumNodePoolsQuotaStatusesToProjectQuotaStatus. cbv zeta. cbn [stQuotaStatus].
  split_and!; intros r.
  - destruct (sum_field Allocated (NodePoolsQuotaStatuses s) emptyQueueStatus ltac:(done) r) as [H1 H2].
    rewrite H1, H2. simpl. rewrite lookup_empty. split; [done|]. split; [by intros [[]|]|by right].
  - destruct (sum_field AllocatedNonPreemptible (NodePoolsQuotaStatuses s) emptyQueueStatus ltac:(done) r) as [H1 H2].
    rewrite H1, H2. simpl. rewrite lookup_empty. split; [done|]. split; [by intros [[]|]|by right].
  - destruct (sum_field Requested (NodePoolsQuotaStatuses s) emptyQueueStatus ltac:(done) r) as [H1 H2].
    rewrite H1, H2. simpl. rewrite lookup_empty. split; [done|]. split; [by intros [[]|]|by right].
Qed.

(** The merge patch of the project status stores a quota list as computed
    exactly when the list became empty or no stored resource disappeared: a
    resource that no queue reports any more stays in the stored quota as long as
    another one is reported. *)
Theorem quota_patch_exact (stored sent : ResourceList) :
  mergeResourceList stored sent = sent <-> sent = ∅ \/ dom stored ⊆ dom sent.
Proof.
  unfold mergeResourceList. case_bool_decide as He; [subst; naive_solver|]. split.
  - intros Heq. right. intros r Hr. rewrite <- Heq, dom_union. set_solver.
  - intros [?|Hsub]; [done|]. apply map_eq. intros r. destruct (sent !! r) as [v|] eqn:Hv.
    + by apply lookup_union_Some_l.
    + rewrite lookup_union_r by done. apply not_elem_of_dom. intros Hd%Hsub. by apply not_elem_of_dom in Hv.
Qed.

(** ** Evaluation on concrete clusters *)

Definition handlersConfig (openshift : bool) : ProjectReconcilerConfig :=
  {| CreateNamespaces := true; CreateRoleBindings := true; RoleBindingsCm := "rb"; RoleBindingsCmNamespace := "kai";
     cfgLimitRange := true; IsOpenshift := openshift; InstallNamespace := "kai"; LimitRangeName := "kai-limit-range";
     GvkDeleteBlockersNamespace := "kai";
     ProjectCommon.NodePoolLabelKey := "kai/node-pool"; ProjectCommon.DefaultNodepoolName := "default";
     ProjectCommon.NamespaceProjectLabelKey := "kai/project"; ProjectLabelKey := "kai/project";
     ProjectIdLabelKey := "kai/project-id"; QueueDepartmentNameLabelKey := "kai/department-name";
     NamespaceVersionLabelKey := "kai/namespace-version";
     ProjectCommon.EnforceSchedulerAnnotationKey := "kai/enforce-scheduler";
     FinalizerDomain := "kai"; ProjectNamePrefix := "kai";
     ResourceManualOverrideLabelKey := "kai/override"; AllowExternalQueues := false |}.

Definition assignerConfig : PodGroupAssignerConfig := {|
  Assigner.NodePoolLabelKey := "kai/node-pool"; QueueLabelKey := "kai/queue";
  Assigner.NamespaceProjectLabelKey := "kai/project"; Assigner.ProjectLabelKey := "kai/project";
  UnexistingNodepoolSentinel := "unexisting"; Assigner.DefaultNodepoolName := "default";
  AnnotationNodepoolsKey := "kai/node-pools"; Assigner.EnforceSchedulerAnnotationKey := "kai/enforce-scheduler";
  SchedulerName := "kai-scheduler"; Assigner.AllowExternalQueues := false |}.

Definition handlersProject (namespace : string) (enforce : bool) : Project :=
  {| prjMeta := {| Name := "team"; Namespace := ""; UID := "uid-team"; Labels := ∅; Annotations := ∅; OwnerReferences := [];
                   Finalizers := []; DeletionTimestamp := None; ResourceVersion := "1"; Generation := 1 |};
     prjParent := ""; prjNamespace := namespace; prjQueues := []; DefaultNodePools := [];
     EnforceKaiScheduler := enforce; prjDeletionType := None;
     prjStatus := {| stNamespace := "ns"; stPhase := ""; stMessage := ""; stConditions := [];
                     NodePoolsQuotaStatuses := []; stQuotaStatus := emptyQueueStatus |} |}.

Definition labelledNs (name : string) (labels : gmap string string) : NamespaceObj :=
  {| nsKind := NamespaceKind; nsAPIVersion := CoreV1ApiVersion; nsMeta := meta_with_labels (fun _ => labels) (named name) |}.

(** The user's own namespace, not yet labelled. *)
Definition externalStore (labels : gmap string string) : store :=
  store_add (K := KNamespace) (labelledNs "mine" labels) emptyStore.

Lemma externalStore_keyed labels : namespacesKeyed (externalStore labels).
Proof.
  intros name o. unfold namespaceAt, externalStore, store_add, store_update. simpl.
  intros [[[= <-] <-]|[_ Hn]]%lookup_insert_Some; [done|]. by pose proof (eq_trans (eq_sym Hn) (lookup_empty (M := gmap NamespacedName) (A := NamespaceObj) _)).
Qed.

Lemma enforcement_round_trip_witness :
  (run memServer (isSchedulerEnforcedForNamespace assignerConfig "mine")
     (run memServer (HandleNamespace (handlersConfig false) (handlersProject "mine" true)) (externalStore ∅)).2).1 = inr true.
Proof.
  apply (enforcement_round_trip (handlersConfig false) assignerConfig (handlersProject "mine" true) (externalStore ∅)).
  - reflexivity.
  - reflexivity.
  - apply externalStore_keyed.
  - intros o Ho. vm_compute in Ho. injection Ho as <-. reflexivity.
  - vm_compute. reflexivity.
Defined.

(** An external namespace whose project label is empty is accepted, and stays
    without the label of the project. *)
Lemma empty_project_label_stays :
  let run_ := run memServer (HandleNamespace (handlersConfig false) (handlersProject "mine" true)) (externalStore {["kai/project" := ""]}) in
  run_.1.2 = inr tt /\
  (fun ns => Labels (nsMeta ns) !! "kai/project") <$> namespaceAt run_.2 "mine" = Some (Some "") /\
  isOk (namespaceOf (run memServer (projectToNamespace (handlersConfig false) "team") run_.2).1) = false.
Proof. vm_compute. repeat split; reflexivity. Qed.

Definition demoParse (s : string) : option Z := if s ==? "1" then Some 1%Z else None.

Definition limitsStore : store :=
  store_add (K := KConfigMap) {| cmMeta := meta_in_namespace "kai" (named DefaultLimitRangeConfigMapName);
                                 cmData := {["cpuDefaultRequest" := "1"; "memoryMaxLimit" := "lots"]} |} emptyStore.

Definition limitsRun := handleLimitRangeInner (handlersConfig false) "kai/v1" demoParse (handlersProject "" true).

Lemma limitRange_is_config_map_witness :
  length (writes (run_trace memServer limitsRun limitsStore)) = 1%nat /\
  (writes (run_trace memServer limitsRun limitsStore) = [] \/
   exists cm, Event (Get KConfigMap ("kai", DefaultLimitRangeConfigMapName)) (inr cm) ∈ run_trace memServer limitsRun limitsStore /\
    Forall (fun e => limitRangeWriteOk (handlersConfig false) demoParse cm _ (ev_call e)) (run_trace memServer limitsRun limitsStore)).
Proof.
  split; [vm_compute; reflexivity|].
  apply (limitRange_is_config_map (handlersConfig false) "kai/v1" demoParse (handlersProject "" true) _
           (run memServer limitsRun limitsStore).1).
  apply run_exec.
Defined.

(** The owner reference that is marked as the controller. *)
Definition demoControllerOf (m : ObjectMeta) : option OwnerReference :=
  snd <$> list_find (fun ref => OwnerController ref = Some true) (OwnerReferences m).
Definition demoControlledBy (m owner : ObjectMeta) : bool :=
  match demoControllerOf m with Some ref => OwnerUID ref ==? UID owner | None => false end.

(** A role binding of the controller that left the config map. *)
Definition oldRoleBinding : RoleBinding :=
  {| rbMeta := meta_in_namespace "ns" (meta_with_owners (fun _ => [ownerReference "kai/v1" ProjectKind "team" "uid-team"])
                 (meta_with_labels (fun _ => {[ManagedByLabel := ProjectControllerName]}) (named "old")));
     rbRoleRef := {| roleAPIGroup := RbacGroup; roleKind := ClusterRoleKind; roleName := "view" |}; rbSubjects := [] |}.

Definition pruneRun := deleteOmittedRoleBindings (handlersConfig false) demoControlledBy "ns" (handlersProject "" true) ∅.
Definition pruneStore : store := store_add (K := KRoleBinding) oldRoleBinding emptyStore.

Lemma deleteOmittedRoleBindings_exact_witness :
  omap deletedRoleBinding (run_trace memServer pruneRun pruneStore) = [oldRoleBinding] /\
  ((RoleBindingsCm (handlersConfig false) = "" /\ run_trace memServer pruneRun pruneStore = []) \/
   exists rbs, head (run_trace memServer pruneRun pruneStore) = Some (Event (List KRoleBinding (inNamespace "ns")) (inr rbs)) /\
    omap deletedRoleBinding (run_trace memServer pruneRun pruneStore)
    = filter (omitted demoControlledBy (handlersProject "" true) ∅) (rbs : list RoleBinding)).
Proof.
  split; [vm_compute; reflexivity|].
  apply (deleteOmittedRoleBindings_exact (handlersConfig false) demoControlledBy "ns" (handlersProject "" true) ∅).
  change (inr tt) with (run memServer pruneRun pruneStore).1. apply run_exec.
Defined.

Definition demoDecode (yaml : string) : result RoleBinding :=
  if yaml ==? "old" then inr oldRoleBinding else inl (Errorf "bad yaml" []).
Definition demoOrder (A : Type) (m : gmap string A) : list (string * A) := map_to_list m.

Definition badConfigMap : ConfigMap :=
  {| cmMeta := meta_in_namespace "kai" (named "rb"); cmData := {["a" := "old"; "b" := "{"]} |}.
Definition badRun := handleRoleBindingsInner (handlersConfig false) "kai/v1" demoDecode demoOrder demoControllerOf demoControlledBy emptyRoleBindingsCache (handlersProject "" true).
Definition badStore : store := store_add (K := KConfigMap) badConfigMap pruneStore.

Lemma malformed_config_map_writes_nothing_witness :
  writes (run_trace memServer badRun badStore) = [] /\ (run memServer badRun badStore).1.1 = emptyRoleBindingsCache /\
  (CreateNamespaces (handlersConfig false) = true -> isOk (run memServer badRun badStore).1.2 = false).
Proof.
  apply (malformed_config_map_writes_nothing (handlersConfig false) "kai/v1" demoDecode demoOrder demoControllerOf demoControlledBy badConfigMap
           emptyRoleBindingsCache (handlersProject "" true)).
  - discriminate.
  - exists "b", "{". split; [apply (bool_decide_unpack _); vm_compute; exact I|exact I].
  - discriminate.
  - destruct (run memServer badRun badStore).1 eqn:E. rewrite <- E. apply run_exec.
  - vm_compute. repeat constructor.
Defined.

Definition demoSubject (name : string) : Subject :=
  {| subjectKind := "User"; subjectAPIGroup := RbacGroup; subjectName := name; subjectNamespace := "" |}.

Lemma roleBinding_update_converges_witness :
  let desired := {| rbMeta := rbMeta oldRoleBinding; rbRoleRef := rbRoleRef oldRoleBinding; rbSubjects := [demoSubject "a"; demoSubject "b"] |} in
  shouldUpdateRoleBinding
    (updatedRoleBinding "kai/v1" demoControllerOf oldRoleBinding desired (subjectsIn "ns" (rbSubjects desired)) (handlersProject "" true)) desired = false.
Proof.
  apply (roleBinding_update_converges "kai/v1" demoControllerOf oldRoleBinding
    {| rbMeta := rbMeta oldRoleBinding; rbRoleRef := rbRoleRef oldRoleBinding; rbSubjects := [demoSubject "a"; demoSubject "b"] |} "ns").
  apply (bool_decide_unpack _). vm_compute. exact I.
Defined.

(** A role binding without subjects, on OpenShift. *)
Definition openshiftRun :=
  manageStaticRoleBinding (handlersConfig true) "kai/v1" demoControllerOf "old" "ns" (handlersProject "" true) oldRoleBinding.

(** The subjects a trace writes to role bindings. *)
Definition writtenSubjects (e : event KubeCall) : option (list Subject) :=
  match ev_call e with
  | Create KRoleBinding rb | Update KRoleBinding rb => Some (rbSubjects rb)
  | _ => None
  end.

(** On OpenShift a role binding that names no subject is created with a
    placeholder subject, and the same reconcile immediately removes it again: the
    placeholder never survives. *)
Theorem openshift_placeholder_removed :
  (run memServer openshiftRun emptyStore).1 = inr tt /\
  length <$> omap writtenSubjects (run_trace memServer openshiftRun emptyStore) = [1%nat; 0%nat].
Proof. vm_compute. split; reflexivity. Qed.
