(* ===== verification/LifecycleFacts.v ===== *)
(** * Finalization of departments and projects

    A department keeps its finalizer while anything refers to it; a project that
    asks for blocking deletion is not torn down while a blocker remains; the
    finalizer of a project goes last. *)

From stdpp Require Import base list gmap strings.
From S2P Require Import Prelude ApiTypes NodePoolUtils ProjectCommon Queues QueueFacts ProjectHandlers RoleBindings ProjectDeletion ProjectFacts ProjectReconciler.

(** ** Finalizer lists *)

Lemma indexOfStringFrom_spec i term items :
  (0 <= i)%Z ->
  (indexOfStringFrom i term items = -1 /\ term ∉ items)%Z \/
  exists k, indexOfStringFrom i term items = (i + Z.of_nat k)%Z /\ items !! k = Some term.
Proof.
  revert i. induction items as [|x xs IH]; intros i Hi; simpl; [left; split; [done|apply not_elem_of_nil]|].
  case_bool_decide as Hx.
  - right. exists 0%nat. split; [lia|by subst].
  - destruct (IH (i + 1)%Z ltac:(lia)) as [[H1 H2]|(k & H1 & H2)].
    + left. split; [done|]. by apply not_elem_of_cons.
    + right. exists (S k). split; [lia|done].
Qed.

Lemma ContainsString_spec term items : ContainsString term items = true <-> term ∈ items.
Proof.
  unfold ContainsString, IndexOfString. rewrite bool_decide_eq_true.
  destruct (indexOfStringFrom_spec 0 term items ltac:(lia)) as [[-> Hn]|(k & -> & Hk)].
  - split; [lia|done].
  - split; [intros _; by eapply list_elem_of_lookup_2|lia].
Qed.

(** Removing a finalizer removes one occurrence of it and nothing else: the
    other finalizers are kept (in some order), and a list without it is
    unchanged. *)
Theorem DeleteTerm_spec term items :
  (term ∈ items /\ term :: DeleteTerm term items ≡ₚ items) \/ (term ∉ items /\ DeleteTerm term items = items).
Proof.
  unfold DeleteTerm, IndexOfString.
  destruct (indexOfStringFrom_spec 0 term items ltac:(lia)) as [[-> Hn]|(k & -> & Hk)]; [by right|].
  left. split; [by eapply list_elem_of_lookup_2|]. rewrite bool_decide_false by lia.
  replace (Z.to_nat (0 + Z.of_nat k)) with k by lia.
  destruct items as [|x xs _] using rev_ind; [by rewrite lookup_nil in Hk|].
  rewrite last_snoc, length_app. simpl. replace (length xs + 1 - 1)%nat with (length xs) by lia.
  apply lookup_app_Some in Hk as [Hk|[Hge Hk]].
  - assert (k < length xs)%nat by (by eapply lookup_lt_Some). rewrite insert_app_l by done.
    rewrite take_app_length' by (by rewrite length_insert).
    rewrite insert_take_drop by done. rewrite <- (take_drop_middle xs k term Hk) at 3.
    rewrite <- app_assoc. simpl.
    rewrite <- !Permutation_middle. by rewrite app_nil_r.
  - destruct (k - length xs)%nat eqn:E; [|done]. simpl in Hk. injection Hk as ->.
    rewrite insert_app_r_alt by lia. rewrite E. simpl. rewrite take_app_length. apply Permutation_cons_append.
Qed.

(** ** Departments *)

Section DepartmentProps.
Context {L : LabelsLib} (cfg : ProjectReconcilerConfig) (kaiAPIVersion : string).

(** The department a metadata patch writes. *)
Definition patchedDepartment (e : event KubeCall) : option Department :=
  match ev_call e with Patch KDepartment _ d => Some d | _ => None end.

(** Nothing was listed that refers to the department. *)
Definition unreferenced (name : string) (tr : list (event KubeCall)) : Prop :=
  Event (List KProject (matchingField ProjectDepartmentIndexField name)) (inr []) ∈ tr /\
  Event (List KDepartment (matchingField DepartmentParentIndexField name)) (inr []) ∈ tr.

Definition noDepartmentPatch : forall X, KubeCall X -> Prop := fun X c =>
  match c with Patch KDepartment _ _ => False | _ => True end.

Lemma noDepartmentPatch_none tr :
  Forall (fun e => noDepartmentPatch _ (ev_call e)) tr -> forall e d, e ∈ tr -> patchedDepartment e <> Some d.
Proof.
  intros Hall e d He. rewrite Forall_forall in Hall. specialize (Hall e He).
  unfold patchedDepartment. destruct (ev_call e) as [| | | | | | | |K o m| | | | |]; try done. by destruct K.
Qed.

Lemma blockDeletion_issues d reason referrers count example :
  issues noDepartmentPatch (blockDeletion d reason referrers count example).
Proof.
  apply issues_bind; [|by intros [e|[]]]. apply issues_bind; [by apply issues_call|]. intros now.
  destruct (UpdateDepartmentCondition _ _ _) as [cs []]; [|done]. apply issues_try; [by apply issues_call|done].
Qed.

Lemma exec_finalizeDepartment d tr r e d' :
  exec (finalizeDepartment cfg d) tr r -> e ∈ tr -> patchedDepartment e = Some d' ->
  d' = department_with_finalizers (DeleteTerm (DepartmentFinalizerName cfg)) d /\ unreferenced (Name (depMeta d)) tr.
Proof.
  unfold finalizeDepartment. destruct (ContainsString _ _); [|intros [-> _] He; by apply elem_of_nil in He].
  cbn [negb]. intros (projects & tr1 & -> & H) He Hp.
  apply elem_of_cons in He as [->|He]; [done|].
  destruct projects as [err|[|project projects]];
    [destruct H as [-> _]; by apply elem_of_nil in He| |].
  2: { exfalso. eapply noDepartmentPatch_none; [|exact He|exact Hp]. eapply issues_exec, H. apply blockDeletion_issues. }
  destruct H as (children & tr2 & -> & H). apply elem_of_cons in He as [->|He]; [done|].
  destruct children as [err|[|child children]];
    [destruct H as [-> _]; by apply elem_of_nil in He| |].
  2: { exfalso. eapply noDepartmentPatch_none; [|exact He|exact Hp]. eapply issues_exec, H. apply blockDeletion_issues. }
  destruct H as (reply & tr3 & -> & H). apply elem_of_cons in He as [->|He].
  - simpl in Hp. injection Hp as <-. split; [done|]. split; [left|right; left].
  - assert (tr3 = []) as -> by (by destruct reply, H as [-> _]). by apply elem_of_nil in He.
Qed.

(** C20: A department is only let go when nothing refers to it: whatever the API
    answers, a reconcile that writes the department without this controller's
    finalizer has listed both the projects and the child departments of the
    department and found none; while there are any, the finalizer stays. *)
Theorem department_finalizer_guard fuel req tr r e d' :
  exec (ReconcileDepartment cfg kaiAPIVersion fuel req) tr r -> e ∈ tr -> patchedDepartment e = Some d' ->
  ContainsString (DepartmentFinalizerName cfg) (Finalizers (depMeta d')) = false ->
  exists d, Event (Get KDepartment req) (inr d) ∈ tr /\ is_Some (DeletionTimestamp (depMeta d)) /\
    unreferenced (Name (depMeta d)) tr.
Proof.
  intros (reply & tr1 & -> & H) He Hp Hgone. apply elem_of_cons in He as [->|He]; [done|].
  cbn [prog_bind_ call] in H.
  destruct reply as [err|d]; [destruct (IsNotFound err); destruct H as [-> _]; by apply elem_of_nil in He|].
  exists d. split; [left|]. change (obj KDepartment) with Department in *. cbn [prog_bind_] in H.
  destruct (DeletionTimestamp (depMeta d)) as [t|] eqn:Hdel.
  - split; [done|]. destruct (exec_finalizeDepartment d tr1 r e d' H He Hp) as [_ [H1 H2]]. split; by right.
  - exfalso. apply exec_bind_inv in H as (tr2 & tr3 & r2 & -> & H2 & H3). apply elem_of_app in He as [He|He].
    + unfold addDepartmentFinalizerIfNeeded in H2.
      destruct (ContainsString _ _) eqn:Hc; [destruct H2 as [-> _]; by apply elem_of_nil in He|].
      destruct H2 as (x & tr4 & -> & [-> _]). apply elem_of_cons in He as [->|He]; [|by apply elem_of_nil in He].
      simpl in Hp. injection Hp as <-. simpl in Hgone.
      assert (ContainsString (DepartmentFinalizerName cfg) (Finalizers (depMeta d) ++ [DepartmentFinalizerName cfg]) = true) as Hin.
      { apply ContainsString_spec, elem_of_app. right. by left. }
      congruence.
    + destruct r2 as [err|d2]; [destruct H3 as [-> _]; by apply elem_of_nil in He|].
      eapply noDepartmentPatch_none; [|exact He|exact Hp]. eapply issues_exec, H3.
      apply issues_bind.
      * eapply wp_pre_mono; [|apply handleDepartmentQueues_queuesOnly]. intros X c. by destruct c as [| | | | | | | |K| | | | |].
      * by intros [[] [err|[]]].
Qed.

End DepartmentProps.

(** ** Projects *)

(** An answered blocker list that keeps a project from being deleted. *)
Definition blockingReply : forall X, KubeCall X -> X -> bool := fun X c =>
  match c in KubeCall X return X -> bool with
  | ListUnstructured _ _ _ _ => fun r =>
      match r with
      | inr [] => false
      | inr _ => true
      | inl err => negb (IsNoMatchError err || IsNotFound err)
      end
  | _ => fun _ => false
  end.

Definition blocking (e : event KubeCall) : bool := blockingReply _ (ev_call e) (ev_reply e).

(** The status patch leaves the annotations of the project alone. *)
Definition statusKeepsAnnotations : forall X, KubeCall X -> X -> Prop := fun X c =>
  match c in KubeCall X return X -> Prop with
  | PatchStatus K _ m =>
      match K return obj K -> result (obj K) -> Prop with
      | KProject => fun m r => match r with inr q => Annotations (prjMeta q) = Annotations (prjMeta m) | inl _ => True end
      | _ => fun _ _ => True
      end m
  | _ => fun _ => True
  end.

(** The metadata of a project is patched. *)
Definition projectPatch (e : event KubeCall) : bool :=
  match ev_call e with Patch KProject _ _ => true | _ => false end.

(** No blocker is listed and no metadata of a project is patched. *)
Definition noBlockerList : forall X, KubeCall X -> Prop := fun X c =>
  match c with ListUnstructured _ _ _ _ => False | Patch KProject _ _ => False | _ => True end.

Lemma noBlockerList_blocking tr :
  Forall (fun e => noBlockerList _ (ev_call e)) tr -> existsb blocking tr = false /\ existsb projectPatch tr = false.
Proof.
  induction 1 as [|[X c x] tr Hc Htr [IH1 IH2]]; [done|]. simpl. rewrite IH1, IH2.
  unfold blocking, projectPatch. simpl in *. destruct c as [| | | | | | | |K| | | | |]; try done. by destruct K.
Qed.

Section ProjectProps.
Context {L : LabelsLib} (cfg : ProjectReconcilerConfig) (errorText : error -> string).
Context (LabelSelectorAsSelector : string -> result (list Requirement)).
Notation finalizeP := (finalizeProject cfg errorText LabelSelectorAsSelector).
Notation FinalizeP := (Finalize cfg errorText LabelSelectorAsSelector).

(** The namespace of the project: the one in its status, or the only one that
    carries its label. *)
Definition namespaceFound (p : Project) (tr : list (event KubeCall)) (ns : string) : Prop :=
  (stNamespace (prjStatus p) = ns /\ ns <> "") \/
  (stNamespace (prjStatus p) = "" /\ exists item,
    Event (List KNamespace (matchingLabel (NamespaceProjectLabelKey cfg) (Name (prjMeta p)))) (inr [item]) ∈ tr
    /\ Name (nsMeta item) = ns).

(** The objects of a blocker in a namespace. *)
Definition blockerSelector (b : Blocker) : result (list Requirement) :=
  match blkLabelSelector b with None => inr [] | Some labelSelector => LabelSelectorAsSelector labelSelector end.

Definition blockerList (ns : string) (b : Blocker) (sel : list Requirement) : KubeCall (result (list (string * string))) :=
  ListUnstructured (blkGroup b) (blkVersion b) (blkKind b +:+ "List")
    {| loNamespace := ns; loLabelSelector := sel; loMatchingLabels := ∅; loFieldSelector := None |}.

(** The objects of the blocker in a namespace were asked for, and none remains. *)
Definition askedAndClear (tr : list (event KubeCall)) (ns : string) (b : Blocker) : Prop :=
  exists sel reply, blockerSelector b = inr sel /\ Event (blockerList ns b sel) reply ∈ tr
    /\ blocking (Event (blockerList ns b sel) reply) = false.

(** Every blocker of the groups was asked in the namespace of the project, and
    none of them has anything left. *)
Definition allClear (groups : list BlockerGroup) (p : Project) (tr : list (event KubeCall)) : Prop :=
  Forall (fun g => exists ns, namespaceFound p tr ns /\ Forall (askedAndClear tr ns) (bgBlockers g)) groups.

Lemma askedAndClear_mono tr tr' ns b : tr ⊆ tr' -> askedAndClear tr ns b -> askedAndClear tr' ns b.
Proof. intros Hsub (sel & reply & Hs & Hin & Hb). exists sel, reply. split; [done|]. split; [by apply Hsub|done]. Qed.

Lemma allClear_mono groups p q tr tr' :
  tr ⊆ tr' -> prjMeta q = prjMeta p -> stNamespace (prjStatus q) = stNamespace (prjStatus p) ->
  allClear groups q tr -> allClear groups p tr'.
Proof.
  intros Hsub Hm Hns Hg. eapply Forall_impl; [exact Hg|]. intros g (ns & Hf & Hall). exists ns. split.
  - unfold namespaceFound in *. rewrite Hm, Hns in Hf. destruct Hf as [Hf|(Hf & item & Hi & Hn)]; [by left|].
    right. split; [done|]. exists item. split; [by apply Hsub|done].
  - eapply Forall_impl; [exact Hall|]. intros b. by apply askedAndClear_mono.
Qed.

Lemma listBlockers_clear ns b tr : exec (listBlockers LabelSelectorAsSelector ns b) tr (inr []) -> askedAndClear tr ns b.
Proof.
  unfold listBlockers. change (match blkLabelSelector b with None => inr [] | Some ls => LabelSelectorAsSelector ls end)
    with (blockerSelector b). destruct (blockerSelector b) as [e|sel] eqn:Hsel; [by intros [_ ?]|].
  intros (reply & tr' & -> & H). exists sel, reply. split; [done|]. split; [by left|].
  unfold blocking. cbn [ev_call ev_reply blockingReply blockerList]. cbn [prog_bind_ call] in H.
  destruct reply as [e|items].
  - destruct (IsNoMatchError e || IsNotFound e); [done|by destruct H].
  - destruct H as [_ [= <-]]. done.
Qed.

Lemma remainingObjects_clear ns bs tr :
  exec (remainingObjects LabelSelectorAsSelector ns bs) tr (inr []) -> Forall (askedAndClear tr ns) bs.
Proof.
  revert tr. induction bs as [|b bs IH]; intros tr; [constructor|]. intros (tr1 & tr2 & items & -> & H1 & H2)%exec_try_ok.
  apply exec_try_ok in H2 as (tr3 & tr4 & others & -> & H3 & [-> [= Hnil]]). symmetry in Hnil. apply app_nil in Hnil as [-> ->].
  rewrite app_nil_r. constructor.
  - eapply askedAndClear_mono; [|by apply listBlockers_clear]. apply list_subseteq_app_l. reflexivity.
  - eapply Forall_impl; [by apply IH|]. intros b'. apply askedAndClear_mono, list_subseteq_app_r. reflexivity.
Qed.

Lemma handlerNamespace_found p tr ns : exec (handlerProjectToNamespace cfg p) tr (inr ns) -> namespaceFound p tr ns.
Proof.
  unfold handlerProjectToNamespace, KaiProjectToNamespace, projectToNamespace, namespaceFound.
  case_bool_decide as Hs; cbn [negb].
  - intros (reply & tr' & -> & H). right. split; [done|]. destruct reply as [e|[|i1 [|i2 others]]]; destruct H as [-> [= ->]].
    exists i1. split; [by left|done].
  - intros [-> [= ->]]. by left.
Qed.

Lemma exec_blocker_clear g p tr conds :
  exec (blockerOnDelete cfg errorText LabelSelectorAsSelector g p) tr (conds, inr tt) ->
  exists ns, namespaceFound p tr ns /\ Forall (askedAndClear tr ns) (bgBlockers g).
Proof.
  intros (tr1 & tr2 & r & -> & H & [-> [= -> <-]])%exec_bind_inv. rewrite app_nil_r.
  apply exec_try_ok in H as (tr3 & tr4 & ns & -> & H1 & H2). apply exec_try_ok in H2 as (tr5 & tr6 & items & -> & H3 & H4).
  destruct items; destruct H4 as [-> H4]; [|done]. rewrite app_nil_r. exists ns. split.
  - apply handlerNamespace_found in H1 as [?|(? & i & ? & ?)]; [by left|]. right. split; [done|]. exists i. split; [|done].
    apply elem_of_app. by left.
  - eapply Forall_impl; [by apply remainingObjects_clear|]. intros b. apply askedAndClear_mono, list_subseteq_app_r. reflexivity.
Qed.

Lemma exec_listBlockers ns b tr r :
  exec (listBlockers LabelSelectorAsSelector ns b) tr r -> existsb blocking tr = true ->
  match r with inl _ => True | inr items => items <> [] end.
Proof.
  unfold listBlockers. destruct (match blkLabelSelector b with None => inr [] | Some ls => LabelSelectorAsSelector ls end) as [e|sel];
    [by intros [-> _]|].
  intros (reply & tr' & -> & H). cbn [prog_bind_ call] in H. cbn [existsb]. unfold blocking at 1. simpl.
  destruct reply as [e|items].
  - destruct (IsNoMatchError e || IsNotFound e); destruct H as [-> ->]; done.
  - destruct H as [-> ->]. by destruct items.
Qed.

Lemma exec_remainingObjects ns bs tr r :
  exec (remainingObjects LabelSelectorAsSelector ns bs) tr r -> existsb blocking tr = true ->
  match r with inl _ => True | inr items => items <> [] end.
Proof.
  revert tr r. induction bs as [|b bs IH]; intros tr r; [by intros [-> _]|].
  intros (tr1 & tr2 & r1 & -> & H1 & H2)%exec_bind_inv. rewrite existsb_app. intros Hb.
  destruct r1 as [e|items]; [by destruct H2 as [-> ->]|].
  apply exec_bind_inv in H2 as (tr3 & tr4 & r2 & -> & H3 & H4).
  destruct r2 as [e|others]; destruct H4 as [-> ->]; [done|]. rewrite app_nil_r in Hb.
  apply orb_true_iff in Hb as [Hb|Hb].
  - apply (exec_listBlockers _ _ _ _ H1) in Hb. by destruct items.
  - apply (IH _ _ H3) in Hb. by destruct items.
Qed.

Lemma handlerNamespace_exec p tr r : exec (handlerProjectToNamespace cfg p) tr r -> existsb blocking tr = false.
Proof.
  unfold handlerProjectToNamespace, KaiProjectToNamespace, projectToNamespace. case_bool_decide as Hs; cbn [negb].
  - intros (reply & tr' & -> & H). destruct reply as [e|[|i1 [|i2 others]]]; by destruct H as [-> _].
  - by intros [-> _].
Qed.

Lemma exec_blocker g p tr conds err :
  exec (blockerOnDelete cfg errorText LabelSelectorAsSelector g p) tr (conds, err) ->
  existsb blocking tr = true -> isOk err = false.
Proof.
  intros (tr1 & tr2 & r & -> & H & [-> [= -> ->]])%exec_bind_inv. rewrite app_nil_r. intros Hb.
  apply exec_bind_inv in H as (tr3 & tr4 & r1 & -> & H1 & H2). rewrite existsb_app, (handlerNamespace_exec _ _ _ H1) in Hb.
  destruct r1 as [e|ns]; [by destruct H2 as [-> ->]|].
  apply exec_bind_inv in H2 as (tr5 & tr6 & r2 & -> & H3 & H4). rewrite existsb_app in Hb.
  destruct r2 as [e|items]; [by destruct H4 as [-> ->]|].
  destruct items; destruct H4 as [-> ->]; [|done]. rewrite orb_false_r in Hb.
  by apply (exec_remainingObjects _ _ _ _ H3) in Hb.
Qed.

Lemma updateConditions_issues (pre : forall X, KubeCall X -> Prop) p conds :
  pre _ Now -> issues pre (updateConditions p conds).
Proof.
  intros Hnow. apply issues_bind; [|done].
  generalize (stConditions (prjStatus p)) as cs. induction conds as [|c conds IH]; intros cs; simpl; [done|].
  split; [done|]. intros now _. destruct (UpdateCondition now cs c) as [cs' ch]. apply issues_bind; [apply IH|done].
Qed.

Lemma updateConditions_meta p conds tr p' ch :
  exec (updateConditions p conds) tr (p', ch) ->
  prjMeta p' = prjMeta p /\ stNamespace (prjStatus p') = stNamespace (prjStatus p).
Proof. intros (tr1 & tr2 & r & -> & _ & [-> [= -> ->]])%exec_bind_inv. done. Qed.

Lemma appendIf_nonempty errs err : errs <> [] \/ isOk err = false -> AppendErrIfNotNil errs err <> [].
Proof. destruct err as [e|[]]; simpl; [intros _; apply appendErr_nonempty|naive_solver]. Qed.

(** The errors of a deletion loop: what is collected stays, and the metadata of
    the project is kept. *)
Lemma exec_runDeletion hs p errs ch tr p' errs' ch' :
  exec (runDeletion hs p errs ch) tr (p', errs', ch') ->
  prjMeta p' = prjMeta p /\ (errs <> [] -> errs' <> []).
Proof.
  revert p errs ch tr. induction hs as [|h hs IH]; intros p errs ch tr; [intros [-> [= -> -> ->]]; done|].
  intros (tr1 & tr2 & [conds err] & -> & H1 & H2)%exec_bind_inv.
  apply exec_bind_inv in H2 as (tr3 & tr4 & [p1 ch1] & -> & H3 & H4).
  apply updateConditions_meta in H3 as [Hm _]. apply IH in H4 as [Hm' He]. simpl in *. split; [congruence|].
  intros Hne. apply He, appendIf_nonempty. by left.
Qed.

Lemma exec_blockers groups p errs ch tr p' errs' ch' :
  exec (runDeletion (deletionBlockers cfg errorText LabelSelectorAsSelector groups) p errs ch) tr (p', errs', ch') ->
  existsb blocking tr = true -> errs' <> [].
Proof.
  revert p errs ch tr. induction groups as [|g groups IH]; intros p errs ch tr; [by intros [-> _]|].
  intros (tr1 & tr2 & [conds err] & -> & H1 & H2)%exec_bind_inv.
  apply exec_bind_inv in H2 as (tr3 & tr4 & [p1 ch1] & -> & H3 & H4). rewrite !existsb_app.
  pose proof (issues_exec noBlockerList _ _ _ (updateConditions_issues _ _ _ I) H3) as Hn.
  apply noBlockerList_blocking in Hn as [-> _]. rewrite orb_false_l. intros [Hb|Hb]%orb_true_iff.
  - apply (exec_blocker _ _ _ _ _ H1) in Hb. eapply exec_runDeletion; [exact H4|]. apply appendIf_nonempty. by right.
  - by eapply IH.
Qed.

Lemma exec_blockers_clear groups p errs ch tr p' ch' :
  exec (runDeletion (deletionBlockers cfg errorText LabelSelectorAsSelector groups) p errs ch) tr (p', [], ch') ->
  allClear groups p tr.
Proof.
  revert p errs ch tr. induction groups as [|g groups IH]; intros p errs ch tr; [constructor|].
  intros (tr1 & tr2 & [conds err] & -> & H1 & H2)%exec_bind_inv.
  apply exec_bind_inv in H2 as (tr3 & tr4 & [p1 ch1] & -> & H3 & H4). cbn [fst snd] in H4.
  apply updateConditions_meta in H3 as [Hm Hns].
  destruct err as [e|[]]; [exfalso; apply exec_runDeletion in H4 as [_ Hne]; by apply Hne; [apply appendErr_nonempty|]|].
  assert (allClear [g] p tr1) as Hg by (constructor; [by eapply exec_blocker_clear|constructor]).
  apply IH in H4. constructor.
  - eapply (allClear_mono [g] p p tr1) in Hg; [by inversion Hg| |done|done]. apply list_subseteq_app_l. reflexivity.
  - eapply (allClear_mono groups p p1 tr4); [|done|done|exact H4]. do 2 apply list_subseteq_app_r. reflexivity.
Qed.

Lemma statusOnDeletion_issues (pre : forall X, KubeCall X -> Prop) p ch :
  (forall o m, pre _ (PatchStatus KProject o m)) -> issues pre (ReconcileStatusOnDeletion p ch).
Proof.
  intros Hp. unfold ReconcileStatusOnDeletion, updateProjectStatusIfNeeded, updateStatus. cbv zeta.
  assert (forall q, issues pre (r <- call (PatchStatus KProject q q) ;;
    match r with inl err => Ret (q, inl err) | inr patched => Ret (patched, inr tt) end)) as Hu.
  { intros q. apply issues_bind; [by apply issues_call|]. by intros []. }
  destruct (_ || _); [apply Hu|]. destruct (negb _); [apply Hu|done].
Qed.

Lemma exec_statusOnDeletion p ch tr r :
  exec (ReconcileStatusOnDeletion p ch) tr r ->
  Forall (fun e => statusKeepsAnnotations _ (ev_call e) (ev_reply e)) tr ->
  Annotations (prjMeta r.1) = Annotations (prjMeta p).
Proof.
  unfold ReconcileStatusOnDeletion, updateProjectStatusIfNeeded, updateStatus. cbv zeta.
  assert (forall q tr r, exec (r <- call (PatchStatus KProject q q) ;;
      match r with inl err => Ret (q, inl err) | inr patched => Ret (patched, inr tt) end) tr r ->
    Forall (fun e => statusKeepsAnnotations _ (ev_call e) (ev_reply e)) tr ->
    Annotations (prjMeta r.1) = Annotations (prjMeta q)) as Hu.
  { intros q tr0 r0 (reply & tr' & -> & H) [Hk _]%Forall_cons. by destruct reply; destruct H as [_ ->]. }
  destruct (_ || _); [intros He Hk; exact (Hu _ _ _ He Hk)|].
  destruct (negb _); [intros He Hk; exact (Hu _ _ _ He Hk)|]. by intros [_ ->].
Qed.

Lemma blockers_reads groups p errs ch :
  reads_only (runDeletion (deletionBlockers cfg errorText LabelSelectorAsSelector groups) p errs ch).
Proof.
  revert p errs ch. induction groups as [|g groups IH]; intros p errs ch; [done|].
  apply reads_bind.
  - apply reads_bind; [|intros; apply reads_ret]. apply reads_try; [apply handlerNamespace_reads|]. intros ns.
    apply reads_try; [|intros []; apply reads_ret].
    induction (bgBlockers g) as [|b bs IHb]; [done|]. simpl. apply reads_try; [|intros; apply reads_try; [done|done]].
    unfold listBlockers. reads_tac.
  - intros [conds err]. apply reads_bind; [by apply (updateConditions_issues (fun _ c => is_write c = false))|].
    intros u. apply IH.
Qed.

Lemma queueOnDelete_issues p : issues noBlockerList (queueOnDelete cfg errorText p).
Proof.
  apply issues_bind; [|done]. apply issues_try; [by apply issues_call|]. intros qs.
  generalize ([] : list error) as errs. induction (qs : list Queue) as [|q rest IH]; intros errs; simpl; [done|].
  destruct (IsExternalQueue _ _ _); [apply IH|].
  apply issues_bind; [|intros; apply IH]. unfold DeleteExistingResourceIfNeeded, deleteResource.
  destruct (IsManuallyOverridden _ _); [done|]. by apply issues_bind; [apply issues_call|].
Qed.

Lemma limitRangeOnDelete_issues p : issues noBlockerList (limitRangeOnDelete cfg errorText p).
Proof.
  apply issues_bind.
  - unfold handlerProjectToNamespace, KaiProjectToNamespace, projectToNamespace. apply issues_bind; [|done].
    destruct (negb _); [done|]. apply issues_bind; [by apply issues_call|]. by intros [|[|? []]].
  - intros [e|ns]; [done|]. apply issues_bind; [|done]. apply issues_bind; [by apply issues_call|].
    intros [e|lr]; [by destruct (IsNotFound e)|]. unfold RemoveOwnerRef. cbv zeta. case_bool_decide; [|done].
    apply issues_bind; [by apply issues_call|]. by intros [].
Qed.

Lemma deletionHandlers_issues p errs ch :
  issues noBlockerList (runDeletion (deletionHandlers cfg errorText) p errs ch).
Proof.
  assert (forall hs, Forall (fun h : Project -> kube Handled => forall q, issues noBlockerList (h q)) hs ->
    forall p errs ch, issues noBlockerList (runDeletion hs p errs ch)) as Hall.
  { induction 1 as [|h hs Hh Hhs IH]; intros; [done|]. simpl. apply issues_bind; [apply Hh|]. intros [conds err].
    apply issues_bind; [by apply updateConditions_issues|]. intros u. apply IH. }
  apply Hall. unfold deletionHandlers. repeat constructor; [apply queueOnDelete_issues|].
  destruct (cfgLimitRange cfg); repeat constructor. apply limitRangeOnDelete_issues.
Qed.

(** The cases of [finalizeProject]: blocked, or the deletion handlers ran. *)
Lemma exec_finalizeProject groups p tr r :
  exec (finalizeP groups p) tr r ->
  Forall (fun e => statusKeepsAnnotations _ (ev_call e) (ev_reply e)) tr ->
  Annotations (prjMeta r.1) = Annotations (prjMeta p) /\ existsb projectPatch tr = false /\
  ((isOk r.2 = false /\ Forall (fun e => noDelete _ (ev_call e)) tr) \/
   (prjDeletionType p = Some Blocking -> existsb blocking tr = false /\ allClear groups p tr) /\
   exists tr1 tr2 tr3 p1 ch p2 errs ch2, tr = tr1 ++ tr2 ++ tr3 /\ prjMeta p1 = prjMeta p /\
     exec (runDeletion (deletionHandlers cfg errorText) p1 [] ch) tr2 (p2, errs, ch2) /\ r.2 = errorOf errs).
Proof.
  intros (tr1 & tr2 & [[p1 errs] ch] & -> & H1 & H2)%exec_bind_inv [Hk1 Hk2]%Forall_app.
  assert (prjMeta p1 = prjMeta p /\ Forall (fun e => is_write (ev_call e) = false) tr1 /\
    (prjDeletionType p = Some Blocking -> errs = [] -> existsb blocking tr1 = false /\ allClear groups p tr1)) as (Hm & Hr1 & Hb).
  { case_bool_decide.
    - split_and!.
      + by apply exec_runDeletion in H1 as [? _].
      + by destruct (wp_exec_any _ _ _ _ _ (blockers_reads _ _ _ _) H1).
      + intros _ ->. split; [|by eapply exec_blockers_clear]. destruct (existsb blocking tr1) eqn:Hbl; [|done].
        by destruct (exec_blockers _ _ _ _ _ _ _ _ H1 Hbl).
    - destruct H1 as [-> [= -> -> ->]]. by repeat split. }
  assert (existsb projectPatch tr1 = false) as Hpp.
  { clear -Hr1. induction Hr1 as [|[X c x] tr Hc _ IH]; [done|]. simpl in *. rewrite IH.
    unfold projectPatch. simpl. destruct c as [| | | | | | | |K| | | | |]; by try destruct K. }
  rewrite existsb_app, Hpp. destruct errs as [|e errs]; cbn [errorOf] in H2.
  - apply exec_bind_inv in H2 as (tr3 & tr4 & [[p2 errs2] ch2] & -> & H3 & H4).
    apply exec_bind_inv in H4 as (tr5 & tr6 & r5 & -> & H5 & [-> ->]). rewrite app_nil_r in *.
    apply Forall_app in Hk2 as [Hk3 Hk5]. pose proof (exec_statusOnDeletion _ _ _ _ H5 Hk5) as Ha.
    pose proof H3 as H3'. apply exec_runDeletion in H3' as [Hm2 _].
    assert (Forall (fun e => noBlockerList _ (ev_call e)) (tr3 ++ tr5)) as Hno.
    { apply Forall_app. split; [by eapply issues_exec, H3; apply deletionHandlers_issues|].
      eapply issues_exec, H5. by apply statusOnDeletion_issues. }
    apply noBlockerList_blocking in Hno as [Hnb Hnp]. split_and!; [cbn [fst]; congruence|done|].
    right. rewrite existsb_app, Hnb, orb_false_r. split.
    + intros Hty. destruct (Hb Hty eq_refl) as [-> Hall]. split; [done|].
      apply (allClear_mono groups p p tr1); [|done|done|exact Hall]. apply list_subseteq_app_l. reflexivity.
    + by exists tr1, tr3, tr5, p1, ch, p2, errs2, ch2.
  - apply exec_bind_inv in H2 as (tr5 & tr6 & r5 & -> & H5 & [-> ->]). rewrite app_nil_r in *.
    pose proof (exec_statusOnDeletion _ _ _ _ H5 Hk2) as Ha.
    pose proof (issues_exec noBlockerList _ _ _ (statusOnDeletion_issues _ _ _ (fun _ _ => I)) H5) as Hno.
    apply noBlockerList_blocking in Hno as [_ Hnp]. split_and!; [cbn [fst]; congruence|done|]. left.
    split; [done|]. apply Forall_app. split.
    + eapply Forall_impl; [exact Hr1|]. intros [X c x]. simpl. apply noDelete_read.
    + by eapply issues_exec, H5; apply statusOnDeletion_issues.
Qed.

(** What follows [finalizeProject]. *)
Lemma exec_Finalize groups p tr r :
  exec (FinalizeP groups p) tr r ->
  Forall (fun e => statusKeepsAnnotations _ (ev_call e) (ev_reply e)) tr ->
  (tr = [] /\ (ContainsString (FinalizerName cfg) (Finalizers (prjMeta p)) = false \/ IsManuallyOverridden cfg (prjMeta p) = true)) \/
  exists tr1 tr2 f, tr = tr1 ++ tr2 /\ exec (finalizeP groups p) tr1 f /\
    Forall (fun e => noDelete _ (ev_call e)) tr2 /\ existsb blocking tr2 = false /\
    (isOk f.2 = true \/ IsForceDelete (prjMeta p) = true \/ (tr2 = [] /\ isOk r.2 = false)).
Proof.
  unfold Finalize. destruct (ContainsString _ _); cbn [negb]; [|intros [-> _]; left; split; [done|by left]].
  destruct (IsManuallyOverridden _ _); [intros [-> _]; left; split; [done|by right]|].
  intros (tr1 & tr2 & f & -> & H1 & H2)%exec_bind_inv [Hk1 _]%Forall_app. right. exists tr1, tr2, f.
  split; [done|]. split; [done|]. cbv zeta in H2.
  assert (forall tr r, exec (r' <- deleteFinalizer cfg f.1 ;; Ret (noRequeue, r')) tr r ->
    Forall (fun e => noDelete _ (ev_call e)) tr /\ existsb blocking tr = false) as Hfin.
  { intros tr0 r0 (reply & tr' & -> & H). assert (tr' = []) as -> by (by destruct reply, H as [-> _]).
    split; [by repeat constructor|done]. }
  apply exec_finalizeProject in H1 as [Ha _]; [|done].
  destruct f.2 as [err|[]] eqn:Hf2.
  - assert (IsForceDelete (prjMeta f.1) = IsForceDelete (prjMeta p)) as Hforce by (unfold IsForceDelete; by rewrite Ha).
    rewrite Hforce in H2. destruct (IsForceDelete (prjMeta p)); cbn [negb] in H2.
    + apply Hfin in H2 as [? ?]. split_and!; [done|done|]. right. by left.
    + destruct H2 as [-> ->]. split_and!; [constructor|done|]. right. by right.
  - apply Hfin in H2 as [? ?]. split_and!; [done|done|]. by left.
Qed.

(** C16: A blocked project is kept.  A project that asks for blocking deletion is
    torn down only when every blocker of every configured group was asked, in the
    namespace of the project, and each of them answered that nothing remains (or
    that its kind does not exist).  Otherwise, when a blocker still has objects,
    cannot be asked or is not asked, finalizing the project deletes nothing; and
    unless deletion is forced the metadata of the project, which has the
    finalizer, is not written, and an error is returned (when the project has this
    controller's finalizer and is not manually overridden). *)
Theorem blocked_project_is_kept groups p tr r :
  exec (FinalizeP groups p) tr r ->
  prjDeletionType p = Some Blocking ->
  Forall (fun e => statusKeepsAnnotations _ (ev_call e) (ev_reply e)) tr ->
  existsb blocking tr = true \/ ~ allClear groups p tr ->
  Forall (fun e => noDelete _ (ev_call e)) tr /\
  (IsForceDelete (prjMeta p) = false ->
   existsb projectPatch tr = false
   /\ (ContainsString (FinalizerName cfg) (Finalizers (prjMeta p)) = true -> IsManuallyOverridden cfg (prjMeta p) = false ->
       isOk r.2 = false)).
Proof.
  intros Hex Hty Hk Hb.
  destruct (exec_Finalize _ _ _ _ Hex Hk) as [[Htr Hskip]|(tr1 & tr2 & f & Htr & H1 & Hd2 & Hb2 & Hf)]; subst tr.
  { split; [done|]. intros _. split; [done|]. intros Hc Ho. by destruct Hskip; congruence. }
  apply Forall_app in Hk as [Hk1 _].
  destruct (exec_finalizeProject _ _ _ _ H1 Hk1) as (_ & Hpp & [[Hok Hd1]|[Hclear _]]).
  2: { exfalso. destruct (Hclear Hty) as [Hnb Hall]. destruct Hb as [Hb|Hb].
       - by rewrite existsb_app, Hb2, Hnb in Hb.
       - apply Hb. apply (allClear_mono groups p p tr1); [|done|done|exact Hall]. apply list_subseteq_app_l. reflexivity. }
  split; [by apply Forall_app|]. intros Hforce. destruct Hf as [Hf|[Hf|[-> Hr]]]; [congruence..|].
  split; [by rewrite app_nil_r|done].
Qed.

(** A queue that is gone, or that the project must not delete. *)
Definition queueGone (p : Project) (tr : list (event KubeCall)) (q : Queue) : Prop :=
  IsExternalQueue cfg q (UID (prjMeta p)) = true \/ IsManuallyOverridden cfg (qMeta q) = true \/
  exists reply, Event (Delete KQueue q) reply ∈ tr /\ match reply with inr _ => True | inl e => IsNotFound e = true end.

Lemma queueGone_app p tr1 tr2 q : queueGone p tr1 q \/ queueGone p tr2 q -> queueGone p (tr1 ++ tr2) q.
Proof.
  unfold queueGone. setoid_rewrite elem_of_app. intros [H|H]; naive_solver.
Qed.

Lemma exec_deleteProjectQueues p qs errs tr :
  exec (deleteProjectQueues cfg p qs errs) tr (inr tt) -> errs = [] /\ Forall (queueGone p tr) qs.
Proof.
  revert errs tr. induction qs as [|q qs IH]; intros errs tr; simpl.
  - intros [-> Hr]. split; [by destruct errs|constructor].
  - destruct (IsExternalQueue cfg q _) eqn:Hext.
    { intros [-> Hall]%IH. split; [done|]. constructor; [by left|done]. }
    intros (tr1 & tr2 & r & -> & H1 & H2)%exec_bind_inv. apply IH in H2 as [He Hall].
    unfold DeleteExistingResourceIfNeeded, deleteResource in H1. cbn [objMeta] in H1.
    assert (queueGone p tr1 q /\ errs = []) as [Hg ->].
    { destruct (IsManuallyOverridden cfg (qMeta q)) eqn:Ho.
      - destruct H1 as [-> ->]. split; [right; by left|done].
      - destruct H1 as (reply & tr' & -> & [-> ->]). destruct reply as [e|[]]; cbn in He.
        + destruct (IsNotFound e) eqn:Hnf; [|by destruct (appendErr_nonempty errs e)].
          split; [|done]. right; right. exists (inl e). split; [by left|done].
        + split; [|done]. right; right. exists (inr tt). split; [by left|done]. }
    split; [done|]. constructor; [apply queueGone_app; by left|].
    eapply Forall_impl; [exact Hall|]. intros q' Hq'. apply queueGone_app. by right.
Qed.

(** C19: The finalizer of a project goes last: unless deletion is forced, the
    finalizer is only removed after the queues of the project were listed and each
    of them was deleted or found gone, apart from the queues that belong to
    someone else or are manually overridden. *)
Theorem finalizer_after_queues groups p tr r :
  exec (FinalizeP groups p) tr r -> existsb projectPatch tr = true -> IsForceDelete (prjMeta p) = false ->
  Forall (fun e => statusKeepsAnnotations _ (ev_call e) (ev_reply e)) tr ->
  exists qs, Event (List KQueue (matchingLabel (ProjectLabelKey cfg) (Name (prjMeta p)))) (inr qs) ∈ tr /\
    Forall (queueGone p tr) qs.
Proof.
  intros Hex Hpatch Hforce Hk.
  destruct (exec_Finalize _ _ _ _ Hex Hk) as [[-> _]|(tr1 & tr2 & f & -> & H1 & Hd2 & Hb2 & Hf)]; [done|].
  apply Forall_app in Hk as [Hk1 _].
  destruct (exec_finalizeProject _ _ _ _ H1 Hk1) as (_ & Hpp & Hcases).
  destruct Hf as [Hf|[Hf|[-> Hr]]]; [|congruence|by rewrite app_nil_r, Hpp in Hpatch].
  destruct Hcases as [[Hok _]|(_ & tr3 & tr4 & tr5 & p1 & ch & p2 & errs & ch2 & -> & Hm & H4 & He)]; [congruence|].
  rewrite He in Hf. destruct errs; [|done]. clear -H4 Hm.
  apply exec_bind_inv in H4 as (tr6 & tr7 & [conds err] & -> & H6 & H7).
  apply exec_bind_inv in H7 as (tr8 & tr9 & u & -> & _ & H9). apply exec_runDeletion in H9 as [_ Hne].
  destruct err as [e|[]]; [exfalso; by apply Hne; [apply appendErr_nonempty|]|].
  apply exec_bind_inv in H6 as (tra & trb & r & -> & Ha & [-> [= _ <-]]). rewrite app_nil_r.
  destruct Ha as (reply & trc & -> & Hc). destruct reply as [e|qs]; [by destruct Hc|].
  apply exec_deleteProjectQueues in Hc as [_ Hall]. exists qs. rewrite Hm. split.
  - rewrite !elem_of_app. left. right. left. left. by left.
  - eapply Forall_impl; [exact Hall|]. intros q Hq.
    assert (queueGone p trc q) as Hq' by (by unfold queueGone in *; rewrite Hm in Hq).
    apply queueGone_app. left. apply queueGone_app. right. apply queueGone_app. left. apply queueGone_app. left.
    apply (queueGone_app p [_] trc). by right.
Qed.

End ProjectProps.

(** ** Evaluation on concrete clusters *)

Definition dyingDepartment : Department :=
  {| depMeta := {| Name := "d"; Namespace := ""; UID := "uid-d"; Labels := ∅; Annotations := ∅; OwnerReferences := [];
                   Finalizers := ["kai.finalizers.department"]; DeletionTimestamp := Some 1%Z; ResourceVersion := "1";
                   Generation := 1 |};
     depParent := ""; depQueues := []; depConditions := [] |}.

Definition releasedDepartment : Department :=
  department_with_finalizers (DeleteTerm "kai.finalizers.department") dyingDepartment.

Definition releaseTrace : list (event KubeCall) :=
  [Event (Get KDepartment ("", "d")) (inr dyingDepartment);
   Event (List KProject (matchingField ProjectDepartmentIndexField "d")) (inr []);
   Event (List KDepartment (matchingField DepartmentParentIndexField "d")) (inr []);
   Event (Patch KDepartment releasedDepartment releasedDepartment) (inr releasedDepartment)].

Lemma department_finalizer_guard_witness :
  exists d, Event (Get KDepartment ("", "d")) (inr d) ∈ releaseTrace /\ is_Some (DeletionTimestamp (depMeta d)) /\
    unreferenced (Name (depMeta d)) releaseTrace.
Proof.
  apply (department_finalizer_guard (handlersConfig false) "kai/v1" 5 ("", "d") releaseTrace (noRequeue, inr tt)
    (Event (Patch KDepartment releasedDepartment releasedDepartment) (inr releasedDepartment)) releasedDepartment).
  - eexists _, _. split; [reflexivity|]. eexists _, _. split; [reflexivity|]. eexists _, _. split; [reflexivity|].
    eexists _, _. split; [reflexivity|]. split; reflexivity.
  - right; right; right; left.
  - reflexivity.
  - vm_compute. reflexivity.
Defined.

(** A cluster in which a job of the project remains. *)
Definition blockedServer : handler KubeCall store := fun X c =>
  match c in KubeCall X return store -> X * store with
  | ListUnstructured _ _ kind _ => fun s => (inr (if kind ==? "JobList" then [("Job", "training")] else []), s)
  | c => memServer _ c
  end.

Definition dyingProject : Project :=
  {| prjMeta := {| Name := "team"; Namespace := ""; UID := "uid-team"; Labels := ∅; Annotations := ∅; OwnerReferences := [];
                   Finalizers := ["kai.finalizers.project"]; DeletionTimestamp := Some 1%Z; ResourceVersion := "1";
                   Generation := 1 |};
     prjParent := ""; prjNamespace := ""; prjQueues := []; DefaultNodePools := [];
     EnforceKaiScheduler := false; prjDeletionType := Some Blocking;
     prjStatus := {| stNamespace := "ns"; stPhase := ""; stMessage := ""; stConditions := [];
                     NodePoolsQuotaStatuses := []; stQuotaStatus := emptyQueueStatus |} |}.

Definition teamQueue : Queue :=
  {| qMeta := meta_with_labels (fun _ => {["kai/project" := "team"]}) (named "team");
     qSpec := populateQueueSpec None "team" "" None; qStatus := emptyQueueStatus |}.

Definition dyingStore : store :=
  store_add (K := KProject) dyingProject (store_add (K := KQueue) teamQueue emptyStore).

Definition podBlocker : BlockerGroup :=
  {| bgDisplayName := "Workloads";
     bgBlockers := [{| blkDisplayName := "Workloads"; blkGroup := ""; blkVersion := "v1"; blkKind := "Pod"; blkLabelSelector := None |}] |}.

Definition finalizeRun : kube (Result * result unit) :=
  Finalize (handlersConfig false) (fun _ => "error") (fun _ => inr []) [podBlocker] dyingProject.

(** The remaining objects are of the last group. *)
Definition jobBlocker : BlockerGroup :=
  {| bgDisplayName := "Jobs";
     bgBlockers := [{| blkDisplayName := "Jobs"; blkGroup := "batch"; blkVersion := "v1"; blkKind := "Job"; blkLabelSelector := None |}] |}.
Definition blockedRun : kube (Result * result unit) :=
  Finalize (handlersConfig false) (fun _ => "error") (fun _ => inr []) [podBlocker; jobBlocker] dyingProject.

Lemma blocked_project_is_kept_witness :
  Forall (fun e => noDelete _ (ev_call e)) (run_trace blockedServer blockedRun dyingStore) /\
  existsb projectPatch (run_trace blockedServer blockedRun dyingStore) = false /\
  isOk (run blockedServer blockedRun dyingStore).1.2 = false.
Proof.
  destruct (blocked_project_is_kept (handlersConfig false) (fun _ => "error") (fun _ => inr []) [podBlocker; jobBlocker] dyingProject
    (run_trace blockedServer blockedRun dyingStore) (run blockedServer blockedRun dyingStore).1) as [Hno Hkept].
  - apply run_exec.
  - reflexivity.
  - vm_compute. repeat constructor.
  - left. vm_compute. reflexivity.
  - split; [exact Hno|]. destruct (Hkept eq_refl) as [Hp He]. split; [exact Hp|]. apply He; vm_compute; reflexivity.
Defined.

Lemma finalizer_after_queues_witness :
  exists qs, Event (List KQueue (matchingLabel "kai/project" "team")) (inr qs) ∈ run_trace memServer finalizeRun dyingStore /\
    Forall (queueGone (handlersConfig false) dyingProject (run_trace memServer finalizeRun dyingStore)) qs.
Proof.
  apply (finalizer_after_queues (handlersConfig false) (fun _ => "error") (fun _ => inr []) [podBlocker] dyingProject _
           (run memServer finalizeRun dyingStore).1).
  - apply run_exec.
  - vm_compute. reflexivity.
  - reflexivity.
  - vm_compute. repeat constructor.
Defined.
