(* ===== verification/NodePoolCommon.v ===== *)
(** * Shared code of the node pool controller

    [pkg/nodepool-controller]: the configuration ([config/config.go],
    [common/types.go]), the list helpers and label selectors of [utils], the
    generic create-or-update of [utils/controller_resource.go] and the
    unmanaged scheduling shards of [unmanaged-shards]. *)

From stdpp Require Import base list gmap strings.
From S2P Require Import Prelude ApiTypes NodePoolUtils.

(** ** Configuration *)

Record NodePoolControllerConfig := {
  NodePoolNameLabel : string;
  DefaultNodepoolName : string;
  SchedulerName : string;
  SchedulerNamespace : string;
  CPUWorkerNodeLabelKey : string;
  GPUWorkerNodeLabelKey : string;
  MIGWorkerNodeLabelKey : string;
  MetricsNamespace : string;
  FinalizerDomain : string;
  ManagedNodesConfigName : string;
  ExcludedNodepoolName : string;
  ShouldBeExcludedLabelKey : string;
  UnschedulableLabelKey : string;
  GroveTopologyAnnotation : string;
  GroveTopologyResourceVersionAnnotation : string;
}.

Definition FinalizerNameForDomain (domain : string) : string := "nodepool." +:+ domain +:+ "/finalize".

Definition FinalizerName (cfg : NodePoolControllerConfig) : string := FinalizerNameForDomain (FinalizerDomain cfg).

Record UninstallDetectionRef := {
  refGroup : string;
  refVersion : string;
  refKind : string;
  refKey : NamespacedName;
}.

Record NodePoolControllerParams := {
  SchedulingShardArgs : gmap string string;
  UninstallDetection : option UninstallDetectionRef;
}.

(** Messages ([common/common.go]). *)
Definition SchedulerNotReadyMessage := "Scheduler is not ready".
Definition NodesDrainedMessage := "Nodes Being Drained".
Definition ErrorDeletingMessage := "Error Deleting NodePool".
Definition ProjectsReferencingNodePoolMessage := "NodePool is referenced by the following project(s): %s".
Definition NodesAssignedToThisNodePoolWaitingForDrainMessage :=
  "The following node(s) are assigned to this node pool and will be added once they finish draining: %s".
Definition NodesAssignedToDifferentNodePoolWaitingForDrainMessage :=
  "The following node(s) within the node pool aren't ready because they are assigned to a different node pool but haven't been drained yet: %s".
Definition NodesNotReadyMessage := "The following node(s) within the node pool aren't ready: %s".

Definition IsDeletingPhaseField := "status.phase.isDeleting".
Definition PodRunningWithKaiSchedulerNodeNameField := "spec.runningNodeName".
Definition SchedulingShardPartitionField := "spec.partitionLabelValue".

(** ** Lists ([utils/utils.go]) *)

Fixpoint indexOfFrom {A} `{EqDecision A} (i : Z) (list : list A) (item : A) : Z :=
  match list with
  | [] => -1
  | element :: rest => if element ==? item then i else indexOfFrom (i + 1) rest item
  end%Z.

Definition indexOf {A} `{EqDecision A} (list : list A) (item : A) : Z := indexOfFrom 0 list item.

Definition IsItemInList {A} `{EqDecision A} (list : list A) (item : A) : bool :=
  bool_decide (-1 < indexOf list item)%Z.

(** [copy] shifts the tail left by one, then the slice is truncated. *)
Definition DeleteFromList {A} `{EqDecision A} (list : list A) (itemToRemove : A) : Datatypes.list A :=
  let indexToRemove := indexOf list itemToRemove in
  if bool_decide (Z.of_nat (length list) <= indexToRemove)%Z || (indexToRemove ==? -1)%Z then list
  else
    let i := Z.to_nat indexToRemove in
    let shifted :=
      if bool_decide (indexToRemove < Z.of_nat (length list) - 1)%Z
      then take i list ++ drop (S i) list ++ drop (length list - 1) list else list in
    take (length list - 1) shifted.

Definition DeleteFromNodePoolList (list : list NodePool) (nodePoolToRemove : NodePool) : Datatypes.list NodePool :=
  filter (fun nodePool => Name (npMeta nodePool) <> Name (npMeta nodePoolToRemove)) list.

(** [AppendErrIfNotNil] on the list of collected errors. *)
Definition AppendErrIfNotNil {A} (errs : list error) (innerErr : result A) : list error :=
  match innerErr with inl e => appendErr errs e | inr _ => errs end.

(** Elements of the first list that are not in the second. *)
Definition Difference (firstSlice secondSlice : list string) : list string :=
  let secondSliceSet : gset string := list_to_set secondSlice in
  filter (fun element => element ∉ secondSliceSet) firstSlice.

(** [slices.Sort] and [sort.Strings]: by bytes. *)
Definition stringLeb (a b : string) : bool :=
  match String.compare a b with Gt => false | _ => true end.

Fixpoint insertSorted {A} (key : A -> string) (x : A) (sorted : list A) : list A :=
  match sorted with
  | [] => [x]
  | y :: rest => if stringLeb (key x) (key y) then x :: sorted else y :: insertSorted key x rest
  end.

Definition sortBy {A} (key : A -> string) (items : list A) : list A := foldr (insertSorted key) [] items.
Definition sortStrings : list string -> list string := sortBy id.

(** ** Label selectors ([utils/label_selector_utils.go]) *)

Section Selectors.
Context {L : LabelsLib} (cfg : NodePoolControllerConfig).

Definition nodePoolNameOfLabels (labels : gmap string string) : string :=
  GetNodePoolNameFromLabels labels (NodePoolNameLabel cfg) (DefaultNodepoolName cfg).

Definition nodePoolLabelSelector (nodePoolName : string) : result Requirement :=
  GetNodePoolLabelSelector nodePoolName (NodePoolNameLabel cfg) (DefaultNodepoolName cfg).

Definition notNodePoolLabelSelector (nodePoolName : string) : result Requirement :=
  GetNotNodePoolLabelSelector nodePoolName (NodePoolNameLabel cfg) (DefaultNodepoolName cfg).

Definition nodePoolNameMatching (nodePoolName : string) : result Requirement :=
  RequirementNodePoolNameMatching nodePoolName (NodePoolNameLabel cfg).

End Selectors.

(** ** Create or update ([utils/controller_resource.go], [utils/resource.go]) *)

(** The spec of the kinds the controller writes; whole objects elsewhere. *)
Definition specsDiffer (K : Kind) : obj K -> obj K -> bool :=
  match K return obj K -> obj K -> bool with
  | KSchedulingShard => fun existing desired => shardSpec existing !=? shardSpec desired
  | KServiceMonitor => fun existing desired => smSpec existing !=? smSpec desired
  | K => fun existing desired => existing !=? desired
  end.

Definition meta_with_resourceVersion (v : string) (m : ObjectMeta) : ObjectMeta :=
  {| Name := Name m; Namespace := Namespace m; UID := UID m; Labels := Labels m;
     Annotations := Annotations m; OwnerReferences := OwnerReferences m;
     Finalizers := Finalizers m; DeletionTimestamp := DeletionTimestamp m;
     ResourceVersion := v; Generation := Generation m |}.

(** ** Owners (apimachinery and controller-runtime)

    [schema.ParseGroupVersion] (the group, unless the text is malformed), the
    group of the API, [metav1.GetControllerOf], [metav1.IsControlledBy] (object,
    owner) and [controllerutil.SetControllerReference] (owner, object: the
    metadata of the object with the owner as its controller). *)
Class MetaLib := {
  groupOf : string -> option string;
  kaiGroup : string;
  GetControllerOf : ObjectMeta -> option OwnerReference;
  IsControlledBy : ObjectMeta -> ObjectMeta -> bool;
  SetControllerReference : ObjectMeta -> ObjectMeta -> result ObjectMeta;
}.

(** A resource the controller writes: the object by its kind. *)
Inductive Resource :=
| ShardResource (shard : SchedulingShard)
| ServiceMonitorResource (serviceMonitor : ServiceMonitor).

Definition shard_with_meta (f : ObjectMeta -> ObjectMeta) (s : SchedulingShard) : SchedulingShard :=
  {| shardMeta := f (shardMeta s); shardSpec := shardSpec s; shardConditions := shardConditions s |}.

Definition serviceMonitor_with_meta (f : ObjectMeta -> ObjectMeta) (s : ServiceMonitor) : ServiceMonitor :=
  {| smMeta := f (smMeta s); smSpec := smSpec s |}.

Definition createOrUpdateOf (K : Kind) (withMeta : (ObjectMeta -> ObjectMeta) -> obj K -> obj K) (resource : obj K)
    : kube (result unit) :=
  r <- call (Get K (Namespace (objMeta K resource), Name (objMeta K resource))) ;;
  match r with
  | inl err =>
      if IsNotFound err then _ <-? call (Create K resource) ;; Ret (inr tt)
      else Ret (inl err)
  | inr existingResource =>
      if specsDiffer K existingResource resource then
        _ <-? call (Update K (withMeta (meta_with_resourceVersion (ResourceVersion (objMeta K existingResource)))
                                resource)) ;;
        Ret (inr tt)
      else Ret (inr tt)
  end.

Definition CreateOrUpdateIfNeeded (resource : Resource) : kube (result unit) :=
  match resource with
  | ShardResource shard => createOrUpdateOf KSchedulingShard shard_with_meta shard
  | ServiceMonitorResource serviceMonitor => createOrUpdateOf KServiceMonitor serviceMonitor_with_meta serviceMonitor
  end.

(** [operands.Resource]: a resource of an operand that is to go. *)
Record AnyObject := { aoKind : Kind; aoObject : obj aoKind }.

Record OperandResource := { OperandName : string; resourceObject : kube (result AnyObject) }.

(** The body of a goroutine of [DeleteResources], up to the collection of its
    error. *)
Definition deleteOperandResource (resource : OperandResource) : kube (result unit) :=
  object <-? resourceObject resource ;;
  r <- call (Get (aoKind object) (objKey (aoObject object))) ;;
  match r with
  | inl err => if IsNotFound err || IsNoMatchError err then Ret (inr tt) else Ret (inl err)
  | inr _ =>
      r <- call (Delete (aoKind object) (aoObject object)) ;;
      match r with
      | inl err => if negb (IsNotFound err) && negb (IsNoMatchError err) then Ret (inl err) else Ret (inr tt)
      | inr _ => Ret (inr tt)
      end
  end.

Fixpoint deleteInTurn (resources : list OperandResource) (errs : list error) : kube (list error) :=
  match resources with
  | [] => Ret errs
  | resource :: rest =>
      r <- deleteOperandResource resource ;;
      deleteInTurn rest (match r with inl err => appendErr errs err | inr _ => errs end)
  end.

(** [DeleteResources], with the goroutines one after another; [Concurrency] has
    every interleaving of them. *)
Definition DeleteResources (resources : list OperandResource) : kube (result unit) :=
  errs <- deleteInTurn resources [] ;; Ret (errorOf errs).

Section Resources.
Context {M : MetaLib}.

Definition ownResource (nodePool : NodePool) (resource : Resource) : result Resource :=
  match resource with
  | ShardResource shard =>
      match SetControllerReference (npMeta nodePool) (shardMeta shard) with
      | inl err => inl err
      | inr m => inr (ShardResource (shard_with_meta (fun _ => m) shard))
      end
  | ServiceMonitorResource serviceMonitor =>
      match SetControllerReference (npMeta nodePool) (smMeta serviceMonitor) with
      | inl err => inl err
      | inr m => inr (ServiceMonitorResource (serviceMonitor_with_meta (fun _ => m) serviceMonitor))
      end
  end.

Fixpoint CreateOrUpdateResources (nodePool : NodePool) (resources : list Resource) : kube (result unit) :=
  match resources with
  | [] => Ret (inr tt)
  | resource :: rest =>
      match ownResource nodePool resource with
      | inl err => Ret (inl err)
      | inr resource =>
          r <- CreateOrUpdateIfNeeded resource ;;
          match r with
          | inl err =>
              if negb (IsAlreadyExists err) then Ret (inl err) else CreateOrUpdateResources nodePool rest
          | inr _ => CreateOrUpdateResources nodePool rest
          end
      end
  end.

End Resources.

(** ** Unmanaged shards ([unmanaged-shards/unmanaged_shards.go]) *)

Definition IgnoreShardLabelKey := "kai/ignore-shard-for-krm".

Section UnmanagedShards.
Context {M : MetaLib}.

Definition IsNodePoolReference (owner : OwnerReference) : bool :=
  if OwnerKind owner !=? "NodePool" then false
  else match groupOf (OwnerAPIVersion owner) with
       | None => false
       | Some group => group ==? kaiGroup
       end.

Definition OwningNodePoolName (shard : SchedulingShard) : string :=
  match GetControllerOf (shardMeta shard) with
  | None => ""
  | Some owner => if negb (IsNodePoolReference owner) then "" else OwnerName owner
  end.

Definition IsUnmanaged (shard : SchedulingShard) : bool :=
  (mapGet (Labels (shardMeta shard)) IgnoreShardLabelKey ==? "true")
  && (PartitionLabelValue (shardSpec shard) !=? "")
  && (OwningNodePoolName shard ==? "").

Definition ListPartitionLabelValues : kube (result (gset string)) :=
  r <- call (List KSchedulingShard
         {| loNamespace := "";
            loLabelSelector := [{| reqKey := IgnoreShardLabelKey; reqOperator := Exists; reqValues := [] |}];
            loMatchingLabels := ∅; loFieldSelector := None |}) ;;
  match r with
  | inl err => Ret (inl (Wrapf "listing scheduling shards labelled %s: %w" [IgnoreShardLabelKey] err))
  | inr shards =>
      Ret (inr (list_to_set (PartitionLabelValue ∘ shardSpec <$> filter (fun s => IsUnmanaged s = true)
                               (shards : list SchedulingShard))))
  end.

End UnmanagedShards.
