(* ===== verification/ControllerRuntime.v ===== *)
(** * Controllers, managers and what wakes a reconcile

    What the controllers use of controller-runtime.  A controller is registered
    with a builder: the kinds it watches, the function that turns an object of
    an event into reconcile requests, and the predicates an event has to pass.
    The builder and the calls on the manager are data the code hands over; how
    the library delivers events is a class with the behaviour its documentation
    states. *)

From stdpp Require Import base list gmap strings.
From S2P Require Import Prelude ApiTypes NodePoolCommon.

(** ** Events *)

Inductive WatchEvent (A : Type) :=
| Created (o : A)
| Deleted (o : A)
| Updated (old new : A)
| Generic (o : A).
Arguments Created {A} o.
Arguments Deleted {A} o.
Arguments Updated {A} old new.
Arguments Generic {A} o.

(** The objects a handler is called with: both versions on an update. *)
Definition eventObjects {A} (e : WatchEvent A) : list A :=
  match e with
  | Created o | Deleted o | Generic o => [o]
  | Updated old new => [old; new]
  end.

(** The object a filter is called with. *)
Definition eventObject {A} (e : WatchEvent A) : A :=
  match e with Created o | Deleted o | Generic o => o | Updated _ new => new end.

(** Events come from the cluster, through the cache of the manager, or from
    another part of the process, through a channel. *)
Inductive Source := FromCache | FromChannel.
#[export] Instance Source_eq_dec : EqDecision Source.
Proof. solve_decision. Defined.

Record Notification := { nSource : Source; nKind : Kind; nEvent : WatchEvent (obj nKind) }.

(** [predicate.Predicate]: whether an event passes. *)
Definition Predicate := forall K, WatchEvent (obj K) -> bool.

(** ** Builders *)

Record Watch (R : Type) := {
  wSource : Source;
  wKind : Kind;
  (** the requests for an object *)
  wEnqueue : obj wKind -> kube (list R);
  (** the predicates of this watch alone *)
  wPredicates : list Predicate;
  (** whether the filters of the builder apply too *)
  wFiltered : bool;
}.
Arguments wSource {R} _.
Arguments wKind {R} _.
Arguments wEnqueue {R} _ _.
Arguments wPredicates {R} _.
Arguments wFiltered {R} _.

(** A builder, by the calls made on it. *)
Record Builder (R : Type) := {
  bFor : option Kind;
  bWatches : list (Watch R);
  bEventFilters : list Predicate;
}.
Arguments bFor {R} _.
Arguments bWatches {R} _.
Arguments bEventFilters {R} _.

Definition NewControllerManagedBy {R} : Builder R := {| bFor := None; bWatches := []; bEventFilters := [] |}.

Definition addWatch {R} (w : Watch R) (b : Builder R) : Builder R :=
  {| bFor := bFor b; bWatches := bWatches b ++ [w]; bEventFilters := bEventFilters b |}.

Definition Watches {R} (K : Kind) (f : obj K -> kube (list R)) (predicates : list Predicate) (b : Builder R) : Builder R :=
  addWatch {| wSource := FromCache; wKind := K; wEnqueue := f; wPredicates := predicates; wFiltered := true |} b.

Definition WatchesRawSource {R} (source : Source) (K : Kind) (f : obj K -> kube (list R)) (predicates : list Predicate)
    (b : Builder R) : Builder R :=
  addWatch {| wSource := source; wKind := K; wEnqueue := f; wPredicates := predicates; wFiltered := false |} b.

Definition WithEventFilter {R} (p : Predicate) (b : Builder R) : Builder R :=
  {| bFor := bFor b; bWatches := bWatches b; bEventFilters := bEventFilters b ++ [p] |}.

(** ** What the library does

    [passes b w n]: the notification [n] is one of the watch [w], and neither the
    watch's own predicates nor, where they apply, the filters of the builder drop
    it. *)
Definition passes {R} (b : Builder R) (w : Watch R) (s : Source) (e : WatchEvent (obj (wKind w))) : Prop :=
  wSource w = s /\
  Forall (fun p : Predicate => p _ e = true) (wPredicates w) /\
  (wFiltered w = true -> Forall (fun p : Predicate => p _ e = true) (bEventFilters b)).

(** The names of the kinds that own objects. *)
Definition ownerKindName (K : Kind) : string :=
  match K with
  | KNodePool => "NodePool" | KProject => "Project" | KDepartment => "Department" | KKRMConfig => "KRMConfig"
  | _ => ""
  end.

Class ControllerRuntime := {
  (** [predicate.NewPredicateFuncs] *)
  NewPredicateFuncs : (forall K, obj K -> bool) -> Predicate;
  (** [predicate.GenerationChangedPredicate] *)
  GenerationChangedPredicate : Predicate;
  (** [handler.EnqueueRequestForObject] *)
  EnqueueRequestForObject : ObjectMeta -> list NamespacedName;
  (** [handler.EnqueueRequestForOwner] for the controlling owner, of a kind of
      this API that has no namespace *)
  EnqueueRequestForOwner : Kind -> ObjectMeta -> list NamespacedName;
  (** the requests that an event adds to the work queue of a controller *)
  deliver : forall R, Builder R -> Notification -> kube (list R);
  (** [toolscache.FilteringResourceEventHandler]: whether an event, through the
      filter, calls the [AddFunc] *)
  callsAddFunc : forall A, (A -> bool) -> WatchEvent A -> bool;
}.
Arguments deliver {_ R} b n.
Arguments callsAddFunc {_ A} filter e.

(** The documented behaviour.  A filter made of a function on objects sees the
    new object of an update.  The generation predicate drops the updates that
    leave the generation.  A mapping function runs on both objects of an update.
    An object that enters the filtered set, by being created or by being
    updated, is an addition. *)
Class ControllerRuntimeLaws {CR : ControllerRuntime} {M : MetaLib} : Prop := {
  newPredicateFuncs_filters : forall f K (e : WatchEvent (obj K)), NewPredicateFuncs f K e = f K (eventObject e);
  generationChanged_updates : forall K (old new : obj K),
    GenerationChangedPredicate K (Updated old new)
    = (Generation (objMeta K old) !=? Generation (objMeta K new));
  generationChanged_others : forall K (e : WatchEvent (obj K)),
    (forall old new, e <> Updated old new) -> GenerationChangedPredicate K e = true;
  forObject_enqueues : forall m, EnqueueRequestForObject m = [(Namespace m, Name m)];
  forOwner_enqueues : forall K m req,
    req ∈ EnqueueRequestForOwner K m <->
    exists owner, GetControllerOf m = Some owner /\ OwnerKind owner = ownerKindName K /\
      groupOf (OwnerAPIVersion owner) = Some kaiGroup /\ req = ("", OwnerName owner);
  deliver_sound : forall R (b : Builder R) n tr reqs req,
    exec (deliver b n) tr reqs -> req ∈ reqs ->
    exists w (e : WatchEvent (obj (wKind w))) o tr1 tr2 tr3 found,
      w ∈ bWatches b /\ n = {| nSource := nSource n; nKind := wKind w; nEvent := e |} /\
      passes b w (nSource n) e /\ o ∈ eventObjects e /\
      tr = tr1 ++ tr2 ++ tr3 /\ exec (wEnqueue w o) tr2 found /\ req ∈ found;
  deliver_complete : forall R (b : Builder R) w s (e : WatchEvent (obj (wKind w))) o tr reqs,
    w ∈ bWatches b -> passes b w s e -> o ∈ eventObjects e ->
    exec (deliver b {| nSource := s; nKind := wKind w; nEvent := e |}) tr reqs ->
    exists tr1 tr2 tr3 found,
      tr = tr1 ++ tr2 ++ tr3 /\ exec (wEnqueue w o) tr2 found /\ (forall req, req ∈ found -> req ∈ reqs);
  callsAddFunc_enters : forall A (filter : A -> bool) e,
    callsAddFunc filter e =
    match e with
    | Created o => filter o
    | Updated old new => filter new && negb (filter old)
    | _ => false
    end;
}.

(** [For(object, predicates...)] and [Owns(object)]; the code calls [For] before
    [Owns], which enqueues the controlling owner of that kind. *)
Section Builders.
Context {CR : ControllerRuntime}.

Definition For (K : Kind) (predicates : list Predicate) (b : Builder NamespacedName) : Builder NamespacedName :=
  addWatch {| wSource := FromCache; wKind := K; wEnqueue := fun o => Ret (EnqueueRequestForObject (objMeta K o));
              wPredicates := predicates; wFiltered := true |}
    {| bFor := Some K; bWatches := bWatches b; bEventFilters := bEventFilters b |}.

Definition Owns (K : Kind) (b : Builder NamespacedName) : Builder NamespacedName :=
  match bFor b with
  | None => b
  | Some owner =>
      addWatch {| wSource := FromCache; wKind := K;
                  wEnqueue := fun o => Ret (EnqueueRequestForOwner owner (objMeta K o));
                  wPredicates := []; wFiltered := true |} b
  end.

End Builders.

(** ** The manager

    The calls the start-up code makes on the manager, each of which can fail;
    its API reader answers the calls of the cluster. *)

Record ManagerOptions := {
  LeaderElection : bool;
  LeaderElectionID : string;
  MetricsBindAddress : string;
  HealthProbeBindAddress : string;
  (** the port and the directory of the certificate *)
  WebhookServer : option (Z * string);
  (** the namespaces of the cached config maps, all when there is no bound *)
  ConfigMapNamespaces : option (gset string);
}.

Inductive ManagerCall : Type -> Type :=
| Reader {X : Type} (c : KubeCall X) : ManagerCall X
| NewManager (options : ManagerOptions) : ManagerCall (result unit)
| IndexField (K : Kind) (field : string) (indexer : obj K -> list string) : ManagerCall (result unit)
| Complete (R : Type) (b : Builder R) : ManagerCall (result unit)
| RESTMapping (K : Kind) : ManagerCall (result unit)
(** [mgr.GetCache().GetInformer] and [informer.AddEventHandler] for definitions,
    with a filter and an [AddFunc] that exits the process *)
| GetInformer (K : Kind) : ManagerCall (result unit)
| ExitOnAdd (filter : CustomResourceDefinition -> bool) : ManagerCall (result unit)
(** a webhook server with its handlers, or a webhook for a kind *)
| AddWebhookServer (port : Z) (certDir : string) (paths : list string) : ManagerCall (result unit)
| AddWebhookFor (K : Kind) : ManagerCall (result unit)
(** a cache of its own: its creation, a handler of node events, its first sync *)
| NewCache : ManagerCall (result unit)
| AddNodeEventHandler : ManagerCall (result unit)
| WaitForCacheSync : ManagerCall bool
| WaitForNamedCacheSync (name : string) : ManagerCall bool
| AddHealthzCheck : ManagerCall (result unit)
| AddReadyzCheck : ManagerCall (result unit)
| StartManager : ManagerCall (result unit).

Notation setup A := (prog ManagerCall A).

(** A program of the cluster's API, run through the manager's reader. *)
Fixpoint viaReader {A} (p : kube A) : setup A :=
  match p with
  | Ret a => Ret a
  | Do c k => Do (Reader c) (fun x => viaReader (k x))
  end.
