(* ===== verification/Shards.v ===== *)
(** * Scheduling shards and service monitors of a node pool

    [pkg/nodepool-controller/operands]: the scheduling shard that serves the
    partition of a node pool ([kai-scheduler/resources/scheduling_shard.go]),
    its service monitor ([service_monitors.go]), the operand that puts them
    together ([kai-scheduler/operand.go], [utils/utils.go]) and the status of
    the scheduler. *)

From stdpp Require Import base list gmap strings sorting pretty.
From S2P Require Import Prelude ApiTypes NodePoolUtils NodePoolCommon.

Definition managedShardArgsAnnotation := "kai.resources/managed-shard-args".

(** ** Errors

    [UnresolvableShardError]: a shard the node pool may not write. *)

Definition unresolvableShardErrorf (format : string) (args : list string) : error :=
  Typed "UnresolvableShardError" (Errorf format args).

(** [errors.As(err, &unresolvable)]: the first such error in depth-first order. *)
Fixpoint asUnresolvable (e : error) : option error :=
  match e with
  | Typed tyname _ => if tyname ==? "UnresolvableShardError" then Some e else None
  | Wrapf _ _ c | InternalError c => asUnresolvable c
  | Joined cs =>
      (fix first (es : list error) : option error :=
         match es with
         | [] => None
         | e' :: rest => match asUnresolvable e' with Some u => Some u | None => first rest end
         end) cs
  | _ => None
  end.

(** ** Status of an operand ([operands/resource.go]) *)

Record Status := { Ready : bool; Reasons : list string }.
Definition ReadyStatus : Status := {| Ready := true; Reasons := [] |}.
Definition NotReadyStatus (reasons : list string) : Status := {| Ready := false; Reasons := reasons |}.

(** What the code uses of the scheduler's API and of [str2duration]: durations
    (in nanoseconds), the window types, the weight 1.0, the condition types of a
    shard and the keys of [schedulingshardargs]. *)
Class SchedulerAPI := {
  ParseDuration : string -> option Z;
  windowTypeIsValid : string -> bool;
  SlidingWindow : string;
  defaultWeight : float64;
  ConditionTypeDeployed : string;
  ConditionTypeAvailable : string;
  argCPUWorkerNodeLabelKey : string;
  argGPUWorkerNodeLabelKey : string;
  argMIGWorkerNodeLabelKey : string;
}.

Section Shards.
Context (cfg : NodePoolControllerConfig) (params : NodePoolControllerParams).
Context {M : MetaLib} {Sch : SchedulerAPI}.

Definition PartitionLabelValueForNodePool (nodePoolName : string) : string :=
  if nodePoolName ==? DefaultNodepoolName cfg then "" else nodePoolName.

Definition NodePoolNameForPartitionLabelValue (partitionLabelValue : string) : string :=
  if partitionLabelValue ==? "" then DefaultNodepoolName cfg else partitionLabelValue.

(** ** Which shard serves a node pool *)

Definition ListShardsWithPartitionLabelValue (partitionLabelValue : string) : kube (result (list SchedulingShard)) :=
  r <- call (List KSchedulingShard
         {| loNamespace := ""; loLabelSelector := []; loMatchingLabels := ∅;
            loFieldSelector := Some (SchedulingShardPartitionField, partitionLabelValue) |}) ;;
  match r with
  | inl err =>
      Ret (inl (Wrapf "listing scheduling shards with partitionLabelValue %q: %w" [partitionLabelValue] err))
  | inr shards => Ret (inr (shards : list SchedulingShard))
  end.

(** The decision on the shards listed for the partition. *)
Definition resolveShards (nodePool : NodePool) (partitionLabelValue : string) (shards : list SchedulingShard)
    : result (option SchedulingShard) :=
  match shards with
  | [] => inr None
  | [shard] =>
      if IsUnmanaged shard then
        inl (unresolvableShardErrorf "partitionLabelValue %q of node pool %s is served by scheduling shard %s, labelled %s"
               [partitionLabelValue; Name (npMeta nodePool); Name (shardMeta shard); IgnoreShardLabelKey])
      else inr (Some shard)
  | _ =>
      let names := sortStrings (Name ∘ shardMeta <$> shards) in
      inl (unresolvableShardErrorf "partitionLabelValue %q of node pool %s is served by more than one scheduling shard %v"
             ([partitionLabelValue; Name (npMeta nodePool)] ++ names))
  end.

Definition ResolveShardForNodePool (nodePool : NodePool) : kube (result (option SchedulingShard)) :=
  let partitionLabelValue := PartitionLabelValueForNodePool (Name (npMeta nodePool)) in
  r <- ListShardsWithPartitionLabelValue partitionLabelValue ;;
  match r with
  | inl err => Ret (inl (Wrapf "node pool %s: %w" [Name (npMeta nodePool)] err))
  | inr shards => Ret (resolveShards nodePool partitionLabelValue shards)
  end.

Definition resolveOwnedShardForNodePool (nodePool : NodePool) : kube (result (option SchedulingShard)) :=
  resolved <-? ResolveShardForNodePool nodePool ;;
  match resolved with
  | None => Ret (inr None)
  | Some shard =>
      if IsControlledBy (shardMeta shard) (npMeta nodePool) then Ret (inr (Some shard))
      else
        let partitionLabelValue := PartitionLabelValueForNodePool (Name (npMeta nodePool)) in
        let owner := OwningNodePoolName shard in
        if owner !=? "" then
          Ret (inl (unresolvableShardErrorf
            "partitionLabelValue %q of node pool %s is served by scheduling shard %s, owned by node pool %s; wait for node pool %s to be deleted, or delete it"
            [partitionLabelValue; Name (npMeta nodePool); Name (shardMeta shard); owner; owner]))
        else
          Ret (inl (unresolvableShardErrorf
            "partitionLabelValue %q of node pool %s is served by scheduling shard %s, which KRM did not create; re-run the KRM upgrade so it takes the shard over, or delete the shard"
            [partitionLabelValue; Name (npMeta nodePool); Name (shardMeta shard)]))
  end.

Definition emptyShardSpec : SchedulingShardSpec :=
  {| ssArgs := ∅; ssPlacementStrategy := None; PartitionLabelValue := ""; ssQueueDepthPerAction := ∅;
     ssMinRuntime := None; ssKValue := None; ssUsageDBConfig := None; ssPlugins := ∅; ssActions := ∅; ssOther := "" |}.

Definition newShard (name : string) : SchedulingShard :=
  {| shardMeta := named name; shardSpec := emptyShardSpec; shardConditions := [] |}.

Definition GetOrInitShardNamedAfterNodePool (nodePool : NodePool) : kube (result SchedulingShard) :=
  r <- call (Get KSchedulingShard ("", Name (npMeta nodePool))) ;;
  match r with
  | inl err => if IsNotFound err then Ret (inr (newShard (Name (npMeta nodePool)))) else Ret (inl err)
  | inr shard =>
      if negb (IsControlledBy (shardMeta shard) (npMeta nodePool)) then
        Ret (inl (unresolvableShardErrorf
          "scheduling shard %s serves partitionLabelValue %q and is not owned by node pool %s, which needs its name for partitionLabelValue %q"
          [Name (shardMeta shard); PartitionLabelValue (shardSpec shard); Name (npMeta nodePool);
           PartitionLabelValueForNodePool (Name (npMeta nodePool))]))
      else Ret (inr shard)
  end.

Definition shardNameForNodePool (nodePool : NodePool) : kube (result string) :=
  shard <-? resolveOwnedShardForNodePool nodePool ;;
  match shard with
  | None => Ret (inr (Name (npMeta nodePool)))
  | Some shard => Ret (inr (Name (shardMeta shard)))
  end.

(** ** The arguments of a shard *)

(** [maps.Copy(dst, src)]: the entries of [src] win. *)
Definition mapsCopy {A} (dst src : gmap string A) : gmap string A := src ∪ dst.

Definition buildShardArgs (shardConfig : option SchedulingShardConfig) : gmap string string :=
  let args := match shardConfig with Some c => mapsCopy ∅ (cfgArgs c) | None => ∅ end in
  let args := mapsCopy args (SchedulingShardArgs params) in
  let args := <[argCPUWorkerNodeLabelKey := CPUWorkerNodeLabelKey cfg]> args in
  let args := <[argGPUWorkerNodeLabelKey := GPUWorkerNodeLabelKey cfg]> args in
  <[argMIGWorkerNodeLabelKey := MIGWorkerNodeLabelKey cfg]> args.

(** [slices.Sorted(maps.Keys(m))], joined. *)
Definition managedKeys (desired : gmap string string) : string :=
  String.concat "," (sortStrings (fst <$> map_to_list desired)).

(** The arguments and the annotations of the shard. *)
Definition mergeShardArgs (shard : SchedulingShard) (desired : gmap string string)
    : gmap string string * gmap string string :=
  let args :=
    match Annotations (shardMeta shard) !! managedShardArgsAnnotation with
    | Some managed =>
        let previouslyManaged : gset string := list_to_set (splitOn (Ascii.ascii_of_nat 44) managed) in
        filter (fun kv => kv.1 ∉ previouslyManaged) (ssArgs (shardSpec shard))
    | None => ∅
    end in
  (mapsCopy args desired,
   <[managedShardArgsAnnotation := managedKeys desired]> (Annotations (shardMeta shard))).

(** ** Time based fair share *)

Definition timeBasedFairShare (nodePool : NodePool) : option TimeBasedFairShare :=
  match npSchedulingShardConfig nodePool with
  | None => None
  | Some c =>
      match cfgTimeBasedFairShare c with
      | None => None
      | Some tbfs => if negb (default false (tbfsEnabled tbfs)) then None else Some tbfs
      end
  end.

(** Weights are only copied. *)
Definition getKValue (nodePool : NodePool) : option float64 :=
  match timeBasedFairShare nodePool with
  | None => None
  | Some tbfs => Some (default defaultWeight (HistoricalUsageWeight tbfs))
  end.

Definition parseOptionalDurationParam (value : option string) : option Z :=
  match value with None => None | Some v => ParseDuration v end.

Definition parseDurationParam (value : option string) (fallback : Z) : Z :=
  match parseOptionalDurationParam value with Some parsed => parsed | None => fallback end.

Definition parseMonitoringDurationParam (value : option string) (fallback : string) : string :=
  match value with
  | Some v => match ParseDuration v with Some _ => v | None => fallback end
  | None => fallback
  end.

Definition setDefaultExtraParam (key value : string) (extraParams : gmap string string) : gmap string string :=
  if mapGet extraParams key ==? "" then <[key := value]> extraParams else extraParams.

(** A double quote, for the metric queries. *)
Definition quote : string := String (Ascii.ascii_of_nat 34) "".

Definition capacityMetric (resource nodePoolName : string) : string :=
  "resources_per_nodepool{resource=" +:+ quote +:+ resource +:+ quote +:+ ", nodepool=" +:+ quote +:+
  nodePoolName +:+ quote +:+ "}".

Definition overrideCapacityMetricsIfNeeded (extraParams : gmap string string) (nodePoolName : string)
    : gmap string string :=
  let prefix := MetricsNamespace cfg in
  let p := setDefaultExtraParam "gpuAllocationMetric" (prefix +:+ "_queue_allocated_gpus") extraParams in
  let p := setDefaultExtraParam "cpuAllocationMetric" (prefix +:+ "_queue_allocated_cpu_cores") p in
  let p := setDefaultExtraParam "memoryAllocationMetric" (prefix +:+ "_queue_allocated_memory_bytes") p in
  let p := setDefaultExtraParam "gpuCapacityMetric" (capacityMetric "nvidia_com_gpu" nodePoolName) p in
  let p := setDefaultExtraParam "cpuCapacityMetric" (capacityMetric "cpu" nodePoolName) p in
  setDefaultExtraParam "memoryCapacityMetric" (capacityMetric "memory" nodePoolName) p.

(** [(7*24*time.Hour).String()]. *)
Definition defaultTimeBasedFairShareWindowDuration := "168h0m0s".

Definition getTimeBasedFairShareFields (nodePool : NodePool) : option UsageDBConfig :=
  match timeBasedFairShare nodePool with
  | None => None
  | Some tbfs =>
      let windowSize := match tbfsWindow tbfs with Some w => wSize w | None => None end in
      let windowType := match tbfsWindow tbfs with Some w => wType w | None => None end in
      let tumblingStart := match tbfsWindow tbfs with Some w => wTumblingStartTime w | None => None end in
      let cronString := match tbfsWindow tbfs with Some w => default "" (wCronString w) | None => "" end in
      let sampling (f : FairShareSampling -> option string) :=
        match tbfsSampling tbfs with Some s => parseOptionalDurationParam (f s) | None => None end in
      Some {| ClientType := "prometheus";
              udbConnectionString := default "" (tbfsConnectionString tbfs);
              udbUsageParams := Some
                {| upHalfLifePeriod := Some (parseDurationParam (tbfsHalfLifePeriod tbfs) 0);
                   upWindowSize := Some (parseMonitoringDurationParam windowSize defaultTimeBasedFairShareWindowDuration);
                   upWindowType := Some match windowType with
                                        | Some wt => if windowTypeIsValid wt then wt else SlidingWindow
                                        | None => SlidingWindow
                                        end;
                   upTumblingWindowStartTime := tumblingStart;
                   upCronString := cronString;
                   upFetchInterval := sampling sFetchInterval;
                   upStalenessPeriod := sampling sStalenessPeriod;
                   upWaitTimeout := sampling sWaitTimeout;
                   upExtraParams := overrideCapacityMetricsIfNeeded (tbfsExtraParams tbfs) (Name (npMeta nodePool)) |} |}
  end.

(** ** The shard of a node pool *)

(** The settings that are copied from the configuration of the node pool. *)
Definition getPlacementStrategy (shardConfig : option SchedulingShardConfig) :=
  match shardConfig with Some c => cfgPlacementStrategy c | None => None end.
Definition getMinRuntime (shardConfig : option SchedulingShardConfig) :=
  match shardConfig with Some c => cfgMinRuntime c | None => None end.
Definition getPlugins (shardConfig : option SchedulingShardConfig) :=
  match shardConfig with Some c => cfgPlugins c | None => ∅ end.
Definition getActions (shardConfig : option SchedulingShardConfig) :=
  match shardConfig with Some c => cfgActions c | None => ∅ end.
Definition getQueueDepthPerAction (shardConfig : option SchedulingShardConfig) :=
  match shardConfig with Some c => cfgQueueDepthPerAction c | None => ∅ end.

Definition shardSpecForNodePool (nodePool : NodePool)
    (args : gmap string string) (spec : SchedulingShardSpec) : SchedulingShardSpec :=
  let shardConfig := npSchedulingShardConfig nodePool in
  {| ssArgs := args;
     ssPlacementStrategy := getPlacementStrategy shardConfig;
     PartitionLabelValue := PartitionLabelValueForNodePool (Name (npMeta nodePool));
     ssQueueDepthPerAction := getQueueDepthPerAction shardConfig;
     ssMinRuntime := getMinRuntime shardConfig;
     ssKValue := getKValue nodePool;
     ssUsageDBConfig := getTimeBasedFairShareFields nodePool;
     ssPlugins := getPlugins shardConfig;
     ssActions := getActions shardConfig;
     ssOther := ssOther spec |}.

(** What [SchedulingShardForNodePool] makes of the shard it found or began. *)
Definition desiredShard (nodePool : NodePool)
    (shard : SchedulingShard) : SchedulingShard :=
  let shard := shard_with_meta (meta_with_labels <["app" := SchedulerName cfg]>) shard in
  let '(args, annotations) := mergeShardArgs shard (buildShardArgs (npSchedulingShardConfig nodePool)) in
  {| shardMeta := meta_with_annotations (fun _ => annotations) (shardMeta shard);
     shardSpec := shardSpecForNodePool nodePool args (shardSpec shard);
     shardConditions := shardConditions shard |}.

Definition SchedulingShardForNodePool (nodePool : NodePool)
    : kube (result SchedulingShard) :=
  resolved <-? resolveOwnedShardForNodePool nodePool ;;
  shard <-? match resolved with
            | None => GetOrInitShardNamedAfterNodePool nodePool
            | Some shard => Ret (inr shard)
            end ;;
  Ret (inr (desiredShard nodePool shard)).

(** ** Service monitors *)

Definition emptyServiceMonitorSpec : ServiceMonitorSpec :=
  {| JobLabel := ""; smMatchNames := []; smMatchLabels := ∅; Endpoints := []; smOther := "" |}.

Definition newServiceMonitor : ServiceMonitor := {| smMeta := named ""; smSpec := emptyServiceMonitorSpec |}.

Definition desiredServiceMonitor (name namespace appName : string) (existing : ServiceMonitor) : ServiceMonitor :=
  let m := smMeta existing in
  {| smMeta := {| Name := name; Namespace := namespace; UID := UID m; Labels := {["app" := SchedulerName cfg]};
                  Annotations := Annotations m; OwnerReferences := OwnerReferences m; Finalizers := Finalizers m;
                  DeletionTimestamp := DeletionTimestamp m; ResourceVersion := ResourceVersion m;
                  Generation := Generation m |};
     smSpec := {| JobLabel := SchedulerName cfg; smMatchNames := [namespace]; smMatchLabels := {["app" := appName]};
                  Endpoints := [{| epPort := "http-metrics";
                                  epBearerTokenFile := "/var/run/secrets/kubernetes.io/serviceaccount/token";
                                  epMetricRelabelings := [] |}];
                  smOther := smOther (smSpec existing) |} |}.

Definition ServiceMonitorForNodePool (nodePool : NodePool) (operandName : string) : kube (result ServiceMonitor) :=
  shardName <-? shardNameForNodePool nodePool ;;
  let name := SchedulerName cfg +:+ "-" +:+ operandName in
  let namespace := SchedulerNamespace cfg in
  let appName := SchedulerName cfg +:+ "-" +:+ shardName in
  r <- call (Get KServiceMonitor (namespace, name)) ;;
  match r with
  | inl err =>
      if negb (IsNotFound err) then Ret (inl err)
      else Ret (inr (desiredServiceMonitor name namespace appName newServiceMonitor))
  | inr existing => Ret (inr (desiredServiceMonitor name namespace appName existing))
  end.

(** ** Status *)

(** The loop of [SchedulingShardStatus] over the conditions: whether the shard
    is deployed and available, and the message. *)
Definition shardConditionStep (state : bool * bool * string) (condition : Condition) : bool * bool * string :=
  let '(deployed, available, message) := state in
  let isTrue := condStatus condition ==? "True" in
  if condType condition ==? ConditionTypeDeployed then
    (isTrue, available, if negb isTrue then condMessage condition else message)
  else if condType condition ==? ConditionTypeAvailable then
    (deployed, isTrue, if negb isTrue && (message ==? "") then condMessage condition else message)
  else state.

Definition shardStatusOf (shard : SchedulingShard) : Status :=
  let '(deployed, available, message) := foldl shardConditionStep (false, false, "") (shardConditions shard) in
  if deployed && available then ReadyStatus
  else
    let message := if message ==? "" then "no status message available" else message in
    NotReadyStatus [sprintf "scheduler [%s] is not running yet: %s" [Name (shardMeta shard); message]].

Definition SchedulingShardStatus (nodePool : NodePool) : kube (result Status) :=
  shard <-? resolveOwnedShardForNodePool nodePool ;;
  Ret (inr (shardStatusOf (match shard with Some s => s | None => newShard (Name (npMeta nodePool)) end))).

Definition ServiceMonitorStatus (nodePool : NodePool) (operandName : string) : kube (result Status) :=
  serviceMonitor <-? ServiceMonitorForNodePool nodePool operandName ;;
  if UID (smMeta serviceMonitor) ==? "" then
    Ret (inr (NotReadyStatus [sprintf "service monitor [%s] is missing" [Name (smMeta serviceMonitor)]]))
  else Ret (inr ReadyStatus).

(** [utils.Status] on the statuses of the resources. *)
Definition aggregateStatus (statuses : list Status) : Status :=
  foldl (fun aggregated status =>
           if negb (Ready status)
           then {| Ready := false; Reasons := Reasons aggregated ++ Reasons status |} else aggregated)
        ReadyStatus statuses.

(** Functions that build or check the resources of an operand, in turn; the
    first error ends the loop. *)
Fixpoint callInTurn {A} (functions : list (NodePool -> string -> kube (result A))) (nodePool : NodePool)
    (operandName : string) : kube (result (list A)) :=
  match functions with
  | [] => Ret (inr [])
  | function :: rest =>
      a <-? function nodePool operandName ;;
      resources <-? callInTurn rest nodePool operandName ;;
      Ret (inr (a :: resources))
  end.

Definition resourceFunctions (includeServiceMonitor : bool) : list (NodePool -> string -> kube (result Resource)) :=
  (fun nodePool _ => shard <-? SchedulingShardForNodePool nodePool ;; Ret (inr (ShardResource shard))) ::
  if includeServiceMonitor
  then [fun nodePool operandName =>
          serviceMonitor <-? ServiceMonitorForNodePool nodePool operandName ;;
          Ret (inr (ServiceMonitorResource serviceMonitor))]
  else [].

Definition resourceStatusFunctions (includeServiceMonitor : bool) : list (NodePool -> string -> kube (result Status)) :=
  (fun nodePool _ => SchedulingShardStatus nodePool) ::
  if includeServiceMonitor then [ServiceMonitorStatus] else [].

(** The methods of the operand of a node pool, which is named after it
    ([getSchedulerOperand]). *)
Definition operandStatus (serviceMonitorEnabled : bool) (nodePool : NodePool) : kube (result Status) :=
  statuses <-? callInTurn (resourceStatusFunctions serviceMonitorEnabled) nodePool (Name (npMeta nodePool)) ;;
  Ret (inr (aggregateStatus statuses)).

Definition resourcesForNodePool (serviceMonitorEnabled : bool) (nodePool : NodePool) : kube (result (list Resource)) :=
  callInTurn (resourceFunctions serviceMonitorEnabled) nodePool (Name (npMeta nodePool)).

(** ** The scheduler of a node pool ([scheduler_handler.go]) *)

(** The resources to create or update, and those to delete: no resource of the
    operand is ever disabled. *)
Definition getSchedulerResources (serviceMonitorEnabled : bool) (nodePool : NodePool)
    : kube (result (list Resource * list OperandResource)) :=
  schedulerResources <-? resourcesForNodePool serviceMonitorEnabled nodePool ;;
  Ret (inr (schedulerResources, [])).

Definition reconcileScheduler (serviceMonitorEnabled : bool)
    (nodePool : NodePool) : kube (result unit) :=
  resources <-? getSchedulerResources serviceMonitorEnabled nodePool ;;
  let '(createOrUpdateResources, deleteResources) := resources in
  r <- CreateOrUpdateResources nodePool createOrUpdateResources ;;
  match r with
  | inl err => Ret (inl (Wrapf "enabled scheduler for nodepool <%v> handling error: %w" [Name (npMeta nodePool)] err))
  | inr _ =>
      r <- DeleteResources deleteResources ;;
      match r with
      | inl err => Ret (inl (Wrapf "disabled scheduler for nodepool <%v> cleanup error: %w" [Name (npMeta nodePool)] err))
      | inr _ => Ret (inr tt)
      end
  end.

End Shards.
