(* ===== verification/ShardConfig.v ===== *)
(** * From a scheduling shard back to the configuration of a node pool

    [pkg/nodepool-controller/operands/kai-scheduler/resources/scheduling_shard_config.go]:
    the settings of an existing scheduling shard, written as the scheduling
    shard configuration of the node pool that takes the shard over.  The
    durations are [time.Duration]s in nanoseconds, rendered as the standard
    library does. *)

From stdpp Require Import base list gmap strings pretty.
From S2P Require Import Prelude ApiTypes NodePoolUtils NodePoolCommon Shards.

(** ** Durations *)

Definition Second : Z := 1000000000.
Definition Minute : Z := 60 * Second.
Definition Hour : Z := 60 * Minute.
Definition Day : Z := 24 * Hour.

(** [time.fmtFrac]: the last [prec] digits of [v] as a fraction without its
    trailing zeros, in front of [suffix]. *)
Fixpoint fmtFrac (prec : nat) (v : Z) (print : bool) (suffix : string) : Z * string :=
  match prec with
  | O => (v, if print then "." +:+ suffix else suffix)
  | S prec' =>
      let digit := (v mod 10)%Z in
      let print' := print || negb (digit ==? 0%Z) in
      fmtFrac prec' (v / 10)%Z print' (if print' then pretty digit +:+ suffix else suffix)
  end.

(** [time.Duration.String]. *)
Definition durationString (d : Z) : string :=
  let u := Z.abs d in
  let text :=
    if (u <? Second)%Z then
      if u ==? 0%Z then "0s"
      else if (u <? 1000)%Z then pretty u +:+ "ns"
      else if (u <? 1000000)%Z then let '(u', s) := fmtFrac 3 u false "µs" in pretty u' +:+ s
      else let '(u', s) := fmtFrac 6 u false "ms" in pretty u' +:+ s
    else
      let '(seconds, s) := fmtFrac 9 u false "s" in
      let s := pretty (seconds mod 60)%Z +:+ s in
      let minutes := (seconds / 60)%Z in
      if (0 <? minutes)%Z then
        let s := pretty (minutes mod 60)%Z +:+ "m" +:+ s in
        let hours := (minutes / 60)%Z in
        if (0 <? hours)%Z then pretty hours +:+ "h" +:+ s else s
      else s in
  if (d <? 0)%Z then "-" +:+ text else text.

(** What a duration reads as (documented by [str2duration]): a zero, and a number
    of days, hours or minutes, within the width of a [time.Duration]. *)
Definition maxDuration : Z := 2 ^ 63 - 1.

Class DurationLaws (Sch : SchedulerAPI) : Prop := {
  parse_zero : ParseDuration "0" = Some 0%Z;
  parse_days n : (0 < n)%Z -> (n * Day <= maxDuration)%Z -> ParseDuration (pretty n +:+ "d") = Some (n * Day)%Z;
  parse_hours n : (0 < n)%Z -> (n * Hour <= maxDuration)%Z -> ParseDuration (pretty n +:+ "h") = Some (n * Hour)%Z;
  parse_minutes n : (0 < n)%Z -> (n * Minute <= maxDuration)%Z -> ParseDuration (pretty n +:+ "m") = Some (n * Minute)%Z;
  parse_width s d : ParseDuration s = Some d -> (d <= maxDuration)%Z;
}.

(** Floating point: the conversion of a weight to [float32], and the shortest
    decimal text ([strconv.FormatFloat]) of a duration that is not a whole
    number of minutes, in minutes. *)
Class FloatLib := {
  float32 : float64 -> float64;
  formatFractionalMinutes : Z -> string;
}.

(** KAI's own usage queries. *)
Definition capacityOf (resource : string) : string :=
  "sum(kube_node_status_capacity{resource=" +:+ quote +:+ resource +:+ quote +:+ "})".

Definition kaiDefaultUsageQueries : gmap string string :=
  {[ "gpuAllocationMetric" := "kai_queue_allocated_gpus";
     "cpuAllocationMetric" := "kai_queue_allocated_cpu_cores";
     "memoryAllocationMetric" := "kai_queue_allocated_memory_bytes";
     "gpuCapacityMetric" := capacityOf "nvidia_com_gpu";
     "cpuCapacityMetric" := capacityOf "cpu";
     "memoryCapacityMetric" := capacityOf "memory" ]}.

Definition withKAIDefaultUsageQueries (extraParams : gmap string string) : gmap string string :=
  mapsCopy kaiDefaultUsageQueries extraParams.

Definition goDuration (duration : option Z) : option string :=
  match duration with None => None | Some d => Some (durationString d) end.

Section FromShard.
Context {Sch : SchedulerAPI} {F : FloatLib}.

(** The [float64] of a whole number of minutes is exact, and its text is that of
    the integer. *)
Definition nodePoolDuration (duration : Z) : string :=
  if (duration <=? 0)%Z then "0"
  else if (duration mod Day ==? 0)%Z then pretty (duration / Day)%Z +:+ "d"
  else if (duration mod Hour ==? 0)%Z then pretty (duration / Hour)%Z +:+ "h"
  else (if (duration mod Minute ==? 0)%Z then pretty (duration / Minute)%Z
        else formatFractionalMinutes duration) +:+ "m".

Definition emptyWindow : FairShareWindow :=
  {| wSize := None; wType := None; wTumblingStartTime := None; wCronString := None |}.

Definition emptySampling : FairShareSampling :=
  {| sFetchInterval := None; sStalenessPeriod := None; sWaitTimeout := None |}.

(** A pointer to the text unless it is empty. *)
Definition ptrUnlessEmpty (s : string) : option string := if s !=? "" then Some s else None.

Definition timeBasedFairShareFromShard (shardName : string) (spec : SchedulingShardSpec)
    : result (option TimeBasedFairShare) :=
  match ssUsageDBConfig spec with
  | None => inr None
  | Some usageDB =>
      let fairShare (halfLifePeriod : option string) (window : option FairShareWindow)
                    (sampling : option FairShareSampling) (extraParams : gmap string string) :=
        {| tbfsEnabled := Some true;
           HistoricalUsageWeight := match ssKValue spec with Some k => Some (float32 (Z.max k 0)) | None => None end;
           tbfsConnectionString := ptrUnlessEmpty (udbConnectionString usageDB);
           tbfsHalfLifePeriod := halfLifePeriod;
           tbfsWindow := window;
           tbfsSampling := sampling;
           tbfsExtraParams := extraParams |} in
      match udbUsageParams usageDB with
      | None => inr (Some (fairShare None None None (withKAIDefaultUsageQueries ∅)))
      | Some params =>
          match match upWindowSize params with
                | None => inr None
                | Some windowSize =>
                    match ParseDuration windowSize with
                    | None =>
                        inl (Errorf "SchedulingShard %s has usage window size %q, which cannot be read as a duration"
                               [shardName; windowSize])
                    | Some size => inr (Some (nodePoolDuration size))
                    end
                end with
          | inl err => inl err
          | inr size =>
              let window := {| wSize := size;
                               wType := upWindowType params;
                               wTumblingStartTime := upTumblingWindowStartTime params;
                               wCronString := ptrUnlessEmpty (upCronString params) |} in
              let sampling := {| sFetchInterval := goDuration (upFetchInterval params);
                                 sStalenessPeriod := goDuration (upStalenessPeriod params);
                                 sWaitTimeout := goDuration (upWaitTimeout params) |} in
              inr (Some (fairShare
                (match upHalfLifePeriod params with Some d => Some (nodePoolDuration d) | None => None end)
                (if window !=? emptyWindow then Some window else None)
                (if sampling !=? emptySampling then Some sampling else None)
                (withKAIDefaultUsageQueries (upExtraParams params))))
          end
      end
  end.

Definition SchedulingShardConfigFromShard (shard : SchedulingShard) : result SchedulingShardConfig :=
  let spec := shardSpec shard in
  match timeBasedFairShareFromShard (Name (shardMeta shard)) spec with
  | inl err => inl err
  | inr timeBasedFairShare =>
      inr {| cfgArgs := ssArgs spec;
             cfgPlacementStrategy := ssPlacementStrategy spec;
             cfgQueueDepthPerAction := ssQueueDepthPerAction spec;
             cfgMinRuntime := ssMinRuntime spec;
             cfgPlugins := ssPlugins spec;
             cfgActions := ssActions spec;
             cfgTimeBasedFairShare := timeBasedFairShare |}
  end.

End FromShard.

(** Durations as the standard library prints them. *)
Example durationString_hours : durationString (168 * Hour) = "168h0m0s".
Proof. vm_compute. reflexivity. Qed.
Example durationString_fraction : durationString (90 * Second + 1500000) = "1m30.0015s".
Proof. vm_compute. reflexivity. Qed.
Example durationString_small : durationString (-1500000) = "-1.5ms".
Proof. vm_compute. reflexivity. Qed.
