(* ===== verification/Nodes.v ===== *)
(** * Nodes of a node pool

    [pkg/nodepool-controller/nodepool_controller]: which nodes belong to a node
    pool ([node_lister.go]), moving a node between node pools once it is drained
    ([node_handler.go], [node_status_handler.go]) and the health of its resource
    topology ([nrt_health_handler.go]).

    A node is passed by pointer and a patch leaves the server's reply in it, so
    an operation on a node answers the node as well. *)

From stdpp Require Import base list gmap strings.
From S2P Require Import Prelude ApiTypes NodePoolUtils NodePoolCommon.

Definition node_with_meta (f : ObjectMeta -> ObjectMeta) (node : Node) : Node :=
  {| nodeMeta := f (nodeMeta node); Unschedulable := Unschedulable node; nodePhase := nodePhase node;
     nodeConditions := nodeConditions node |}.

Definition node_with_unschedulable (b : bool) (node : Node) : Node :=
  {| nodeMeta := nodeMeta node; Unschedulable := b; nodePhase := nodePhase node; nodeConditions := nodeConditions node |}.

Definition node_with_conditions (cs : list NodeCondition) (node : Node) : Node :=
  {| nodeMeta := nodeMeta node; Unschedulable := Unschedulable node; nodePhase := nodePhase node; nodeConditions := cs |}.

Definition nodeName (node : Node) : string := Name (nodeMeta node).
Definition nodeLabels (node : Node) : gmap string string := Labels (nodeMeta node).

(** A patch of a node: the node afterwards and the error. *)
Definition patchNode (node modified : Node) : kube (Node * result unit) :=
  r <- call (Patch KNode node modified) ;;
  match r with inl err => Ret (node, inl err) | inr stored => Ret ((stored : Node), inr tt) end.

Definition patchNodeStatus (node modified : Node) : kube (Node * result unit) :=
  r <- call (PatchStatus KNode node modified) ;;
  match r with inl err => Ret (node, inl err) | inr stored => Ret ((stored : Node), inr tt) end.

(** A merge patch of a string map: [None] removes the key. *)
Definition mergePatchMap (changes : list (string * option string)) (m : gmap string string) : gmap string string :=
  foldl (fun m kv => match kv.2 with Some v => <[kv.1 := v]> m | None => delete kv.1 m end) m changes.

(** [corev1.ConditionTrue] and [corev1.NodeReady]. *)
Definition ConditionTrue := "True".
Definition NodeReadyCondition := "Ready".

Definition isNodeReady (node : Node) : bool :=
  if Unschedulable node then false
  else existsb (fun condition => (ncStatus condition ==? ConditionTrue) && (ncType condition ==? NodeReadyCondition))
         (nodeConditions node).

Definition isPodBoundToNode (pod : Pod) : bool :=
  (podPhase pod ==? PodRunning) || ((podPhase pod ==? PodPending) && (podNodeName pod !=? "")).

(** ** Health of the resource topology: constants and pure parts *)

Definition NrtHealthyConditionType := "MissingNrtHealthyPrerequisite".
Definition NrtHealthReasonMissing := "Missing".
Definition NrtHealthReasonPolicyNotEnforcing := "PolicyNotEnforcing".
Definition NrtHealthReasonNoNumaZones := "NoNumaZones".
Definition NrtAttrTopologyManagerPolicy := "topologyManagerPolicy".
Definition NrtPolicyNone := "none".
Definition NrtZoneTypeNode := "Node".
Definition NumaPluginName := "numa".
Definition NrtPrereqMessageTemplate :=
  "The following prerequisites are not met on the node: %s. As a result, NUMA-aware scheduling may be impacted.".
Definition NrtNodePoolPrereqMessageTemplate :=
  "The following prerequisites are not met on one or more nodes in the node pool: %s. As a result, NUMA-aware scheduling may be impacted.".
Definition NrtMissingItemNoObject := "NodeResourceTopology custom resource missing".
Definition NrtMissingItemNoNumaZones := "NodeResourceTopology custom resource invalid".
Definition NrtMissingItemPolicy := "Kubelet Topology Manager Policy misconfigured".

Definition nrtPrereqMessage (missingItem : string) : string := sprintf NrtPrereqMessageTemplate [missingItem].

Definition nrtNodePoolPrereqMessage (missingItems : list string) : string :=
  match missingItems with
  | [] => ""
  | _ => sprintf NrtNodePoolPrereqMessageTemplate [String.concat ", " missingItems]
  end.

Definition nrtNodePoolMissingItemForReason (reason : string) : string :=
  if reason ==? NrtHealthReasonMissing then NrtMissingItemNoObject
  else if reason ==? NrtHealthReasonNoNumaZones then NrtMissingItemNoNumaZones
  else if reason ==? NrtHealthReasonPolicyNotEnforcing then NrtMissingItemPolicy
  else "".

Definition isNumaEnabled (nodePool : NodePool) : bool :=
  match npSchedulingShardConfig nodePool with
  | None => false
  | Some shardConfig =>
      match cfgPlugins shardConfig !! NumaPluginName with
      | None => false
      | Some plugin => match pluginEnabled plugin with Some b => b | None => false end
      end
  end.

Definition hasNumaNodeZone (nrt : NodeResourceTopology) : bool :=
  existsb (fun zone => zone ==? NrtZoneTypeNode) (nrtZoneTypes nrt).

Fixpoint firstPolicy (attributes : list (string * string)) : option string :=
  match attributes with
  | [] => None
  | (name, value) :: rest => if name ==? NrtAttrTopologyManagerPolicy then Some (toLower value) else firstPolicy rest
  end.

Definition topologyManagerPolicy (nrt : NodeResourceTopology) : option string := firstPolicy (nrtAttributes nrt).

Definition isPolicyEnforcing (nrt : NodeResourceTopology) : bool :=
  match topologyManagerPolicy nrt with
  | Some policy => policy !=? NrtPolicyNone
  | None => false
  end.

(** Reason and message when unhealthy. *)
Definition evaluateNrtHealth (nrt : option NodeResourceTopology) : option (string * string) :=
  match nrt with
  | None => Some (NrtHealthReasonMissing, nrtPrereqMessage NrtMissingItemNoObject)
  | Some nrt =>
      if negb (hasNumaNodeZone nrt) then Some (NrtHealthReasonNoNumaZones, nrtPrereqMessage NrtMissingItemNoNumaZones)
      else if negb (isPolicyEnforcing nrt)
           then Some (NrtHealthReasonPolicyNotEnforcing, nrtPrereqMessage NrtMissingItemPolicy)
      else None
  end.

Fixpoint findCondition (conditions : list NodeCondition) (condType : string) : option NodeCondition :=
  match conditions with
  | [] => None
  | c :: rest => if ncType c ==? condType then Some c else findCondition rest condType
  end.

Definition findNodeCondition (node : Node) (condType : string) : option NodeCondition :=
  findCondition (nodeConditions node) condType.

Fixpoint upsertCondition (condition : NodeCondition) (conditions : list NodeCondition) : list NodeCondition :=
  match conditions with
  | [] => [condition]
  | c :: rest => if ncType c ==? ncType condition then condition :: rest else c :: upsertCondition condition rest
  end.

Fixpoint deleteCondition (condType : string) (conditions : list NodeCondition) : list NodeCondition :=
  match conditions with
  | [] => []
  | c :: rest => if ncType c ==? condType then rest else c :: deleteCondition condType rest
  end.

Definition upsertNodeCondition (node : Node) (condition : NodeCondition) : Node :=
  node_with_conditions (upsertCondition condition (nodeConditions node)) node.

Definition deleteNodeCondition (node : Node) (conditionType : string) : Node :=
  node_with_conditions (deleteCondition conditionType (nodeConditions node)) node.

(** A strategic merge patch of the conditions, which are merged by their type:
    other types are untouched. *)
Definition ensureNrtCondition (node : Node) (reason message : string) : kube (Node * result unit) :=
  let existing := findNodeCondition node NrtHealthyConditionType in
  if match existing with
     | Some c => (ncStatus c ==? ConditionTrue) && (ncReason c ==? reason) && (ncMessage c ==? message)
     | None => false
     end
  then Ret (node, inr tt)
  else
    now <- call Now ;;
    let lastTransition := match existing with Some c => ncLastTransitionTime c | None => now end in
    let condition := {| ncType := NrtHealthyConditionType; ncStatus := ConditionTrue; ncReason := reason;
                        ncMessage := message; ncLastHeartbeatTime := now; ncLastTransitionTime := lastTransition |} in
    r <- patchNodeStatus node (upsertNodeCondition node condition) ;;
    match r with
    | (node, inl err) => Ret (node, inl err)
    | (node, inr _) => Ret (upsertNodeCondition node condition, inr tt)
    end.

Definition removeNrtCondition (node : Node) : kube (Node * result unit) :=
  match findNodeCondition node NrtHealthyConditionType with
  | None => Ret (node, inr tt)
  | Some _ =>
      r <- patchNodeStatus node (deleteNodeCondition node NrtHealthyConditionType) ;;
      match r with
      | (node, inl err) => Ret (node, inl err)
      | (node, inr _) => Ret (deleteNodeCondition node NrtHealthyConditionType, inr tt)
      end
  end.

Definition getNodeResourceTopology (name : string) : kube (result (option NodeResourceTopology)) :=
  r <- call (Get KNodeResourceTopology ("", name)) ;;
  match r with
  | inl err => if IsNotFound err then Ret (inr None) else Ret (inl err)
  | inr nrt => Ret (inr (Some (nrt : NodeResourceTopology)))
  end.

Section Nodes.
Context {L : LabelsLib} (cfg : NodePoolControllerConfig).
(** The [nrtEnabled] field of the controller. *)
Context (nrtEnabled : bool).
(** The order in which Go ranges over a map. *)
Context (rangeOrder : forall A, gmap string A -> list (string * A)).

Definition reconcileNrtHealthCondition (node : Node) (nodePool : NodePool) : kube (Node * result unit) :=
  if negb (isNumaEnabled nodePool) then removeNrtCondition node
  else if negb nrtEnabled then
    ensureNrtCondition node NrtHealthReasonMissing (nrtPrereqMessage NrtMissingItemNoObject)
  else
    r <- getNodeResourceTopology (nodeName node) ;;
    match r with
    | inl err => Ret (node, inl err)
    | inr nrt =>
        match evaluateNrtHealth nrt with
        | Some (reason, message) => ensureNrtCondition node reason message
        | None => removeNrtCondition node
        end
    end.

Definition getTopologyManagerPolicyFromNodeNRT (node : Node) (nodePool : NodePool) : kube (result string) :=
  if negb (isNumaEnabled nodePool) || negb nrtEnabled then Ret (inr "")
  else
    r <- getNodeResourceTopology (nodeName node) ;;
    match r with
    | inl err => Ret (inl err)
    | inr None => Ret (inr "")
    | inr (Some nrt) => Ret (inr (default "" (topologyManagerPolicy nrt)))
    end.

(** ** Listing nodes *)

Definition ListNodesWithRequirements (requirements : list Requirement) : kube (result (list Node)) :=
  call (List KNode {| loNamespace := ""; loLabelSelector := requirements; loMatchingLabels := ∅;
                      loFieldSelector := None |}).

(** Requirements that may be malformed, in the order they are built. *)
Fixpoint listNodesFrom (requirements : list (result Requirement)) (built : list Requirement)
    : kube (result (list Node)) :=
  match requirements with
  | [] => ListNodesWithRequirements built
  | inl err :: _ => Ret (inl err)
  | inr requirement :: rest => listNodesFrom rest (built ++ [requirement])
  end.

Definition listNodes (requirements : list (result Requirement)) : kube (result (list Node)) :=
  listNodesFrom requirements [].

Definition getNodePoolNodes (nodePoolName : string) : kube (result (list Node)) :=
  listNodes [nodePoolLabelSelector cfg nodePoolName].

Definition getNodesMatchingNodePoolNameNoLabel (nodePool : NodePool) : kube (result (list Node)) :=
  listNodes [nodePoolNameMatching cfg (Name (npMeta nodePool));
             RequirementNodePoolLabelNotMatching (LabelKey nodePool) (LabelValue nodePool)].

Definition getNodesInDefaultNodePoolMatchingOtherNodePoolLabel (nodePool : NodePool) : kube (result (list Node)) :=
  listNodes [nodePoolLabelSelector cfg (DefaultNodepoolName cfg);
             RequirementNodePoolLabelMatching (LabelKey nodePool) (LabelValue nodePool)].

Definition getNodesMatchingNodePoolNameAndLabel (nodePool : NodePool) : kube (result (list Node)) :=
  listNodes [nodePoolNameMatching cfg (Name (npMeta nodePool));
             RequirementNodePoolLabelMatching (LabelKey nodePool) (LabelValue nodePool)].

Definition MarkedUnschedulableByNodePoolControllerLabelValue := "true".

Definition getNodesUnschedulableByUsMatchingNodePoolLabelNotMatchingNodePoolName (nodePool : NodePool)
    : kube (result (list string)) :=
  nodes <-? listNodes
    ([notNodePoolLabelSelector cfg (Name (npMeta nodePool));
      RequirementNodePoolLabelMatching (UnschedulableLabelKey cfg) MarkedUnschedulableByNodePoolControllerLabelValue]
     ++ (if (LabelKey nodePool !=? "") && (LabelValue nodePool !=? "")
         then [RequirementNodePoolLabelMatching (LabelKey nodePool) (LabelValue nodePool)] else [])) ;;
  Ret (inr (nodeName <$> filter (fun node => Unschedulable node = true) nodes)).

Definition getNodesAssignedToNodePoolWaitingForDrain := getNodesUnschedulableByUsMatchingNodePoolLabelNotMatchingNodePoolName.

Definition getNodesNotInDefaultNodePool : kube (result (list Node)) :=
  listNodes [notNodePoolLabelSelector cfg (DefaultNodepoolName cfg)].

Definition getDefaultNodePoolNodes : kube (result (list Node)) := getNodePoolNodes (DefaultNodepoolName cfg).

(** The nodes of the pool by name; the last node of a name wins. *)
Definition filterNodePoolNodes (alteredNodes : list Node) (nodePool : NodePool) : list Node :=
  let filteredNodesMap : gmap string Node :=
    foldl (fun m node =>
             if nodePoolNameOfLabels cfg (nodeLabels node) ==? Name (npMeta nodePool)
             then <[nodeName node := node]> m else m) ∅ alteredNodes in
  snd <$> rangeOrder _ filteredNodesMap.

(** ** Labels and annotations of a node *)

Definition UpdateNodeLabels (node : Node) (labelsToAdd : list (string * string)) (labelsToRemove : list string)
    : kube (Node * result unit) :=
  let changes := (prod_map id Some <$> labelsToAdd) ++ ((fun k => (k, None)) <$> labelsToRemove) in
  patchNode node (node_with_meta (meta_with_labels (mergePatchMap changes)) node).

Definition patchNodeUnschedulable (node : Node) (unschedulable : bool) : kube (Node * result unit) :=
  let change := (UnschedulableLabelKey cfg,
                 if unschedulable then Some MarkedUnschedulableByNodePoolControllerLabelValue else None) in
  patchNode node
    (node_with_unschedulable unschedulable (node_with_meta (meta_with_labels (mergePatchMap [change])) node)).

Definition updateNodeWithNodePoolNameIfNeeded (node : Node) (nodePoolName : string) : kube (Node * result unit) :=
  let nodePoolLabelKey := NodePoolNameLabel cfg in
  if nodePoolName ==? DefaultNodepoolName cfg then
    match nodeLabels node !! nodePoolLabelKey with
    | None => Ret (node, inr tt)
    | Some _ => UpdateNodeLabels node [] [nodePoolLabelKey]
    end
  else if nodeLabels node !! nodePoolLabelKey ==? Some nodePoolName then Ret (node, inr tt)
  else UpdateNodeLabels node [(nodePoolLabelKey, nodePoolName)] [].

Definition validateDefaultNodePoolLabel (node : Node) : kube (Node * result unit) :=
  updateNodeWithNodePoolNameIfNeeded node (DefaultNodepoolName cfg).

Definition GPUNetworkAccelerationLabelKey := "gpuNetworkAccelerationLabelKey".

Definition nilIfEmpty (s : string) : option string := if s ==? "" then None else Some s.

Definition annotationsUpToDate (node : Node) (desired : list (string * option string)) : bool :=
  forallb (fun kv => Annotations (nodeMeta node) !! kv.1 ==? kv.2) desired.

(** ** Unschedulable nodes *)

Definition validateNodeLabeledWithUnschedulable (node : Node) (unschedulable : bool) : kube (Node * result unit) :=
  let found := bool_decide (is_Some (nodeLabels node !! UnschedulableLabelKey cfg)) in
  if unschedulable then
    if found then Ret (node, inr tt)
    else UpdateNodeLabels node [(UnschedulableLabelKey cfg, MarkedUnschedulableByNodePoolControllerLabelValue)] []
  else if negb found then Ret (node, inr tt)
  else UpdateNodeLabels node [] [UnschedulableLabelKey cfg].

(** A failure to label a node that already has the right state is only logged. *)
Definition updateNodeUnschedulableIfNeeded (node : Node) (unschedulable : bool) : kube (Node * result unit) :=
  if Unschedulable node ==? unschedulable then
    r <- validateNodeLabeledWithUnschedulable node unschedulable ;; Ret (r.1, inr tt)
  else if negb unschedulable && negb (bool_decide (is_Some (nodeLabels node !! UnschedulableLabelKey cfg)))
  then Ret (node, inr tt)
  else patchNodeUnschedulable node unschedulable.

(** ** Running pods *)

Definition PodGroupAnnotationForPod := "pod-group-name".

(** [podsByGroup]: the annotated pods by pod group name. *)
Definition groupPods (pods : list Pod) : gmap string (list Pod) :=
  foldl (fun m pod =>
           match Annotations (podMeta pod) !! PodGroupAnnotationForPod with
           | None => m
           | Some podGroupName => <[podGroupName := default [] (m !! podGroupName) ++ [pod]]> m
           end) ∅ pods.

(** The pods of one group whose label agrees with the label of the pod group. *)
Definition correctPodsOfGroup (podGroup : PodGroup) (groupPods : list Pod) : list Pod :=
  filter (fun pod => Labels (podMeta pod) !! NodePoolNameLabel cfg = Labels (pgMeta podGroup) !! NodePoolNameLabel cfg)
    groupPods.

Fixpoint filterGroups (groups : list (string * list Pod)) (filteredPods : list Pod) : kube (list Pod) :=
  match groups with
  | [] => Ret filteredPods
  | (podGroupName, groupPods) :: rest =>
      let namespace := match groupPods with pod :: _ => Namespace (podMeta pod) | [] => "" end in
      r <- call (Get KPodGroup (namespace, podGroupName)) ;;
      match r with
      | inl _ => filterGroups rest filteredPods
      | inr podGroup => filterGroups rest (filteredPods ++ correctPodsOfGroup podGroup groupPods)
      end
  end.

Definition filterPodsWithIncorrectNodepoolLabel (pods : list Pod) : kube (list Pod) :=
  filterGroups (rangeOrder _ (groupPods pods)) [].

Definition listPodsWithSelectors (fieldSelector : string * string) (labelRequirements : list Requirement)
    : kube (result (list Pod)) :=
  call (List KPod {| loNamespace := ""; loLabelSelector := labelRequirements; loMatchingLabels := ∅;
                     loFieldSelector := Some fieldSelector |}).

Definition getRunningPodsWithNodePoolOnNode (name nodePoolName : string) (sameNodePool : bool)
    : kube (result (list Pod)) :=
  match (if sameNodePool then nodePoolLabelSelector cfg nodePoolName else notNodePoolLabelSelector cfg nodePoolName) with
  | inl err => Ret (inl err)
  | inr matchNodePool =>
      r <- listPodsWithSelectors (PodRunningWithKaiSchedulerNodeNameField, name) [matchNodePool] ;;
      match r with
      | inl err => Ret (inl err)
      | inr pods => filteredPods <- filterPodsWithIncorrectNodepoolLabel (pods : list Pod) ;; Ret (inr filteredPods)
      end
  end.

Definition arePodsRunningWithNodePool (name nodePoolName : string) (sameNodePool : bool) : kube (result bool) :=
  pods <-? getRunningPodsWithNodePoolOnNode name nodePoolName sameNodePool ;;
  Ret (inr (bool_decide (0 < length pods))).

(** [validateNodeStatusWhenChangingNodePool] and [validateNodeStatusInNodePool]:
    the node is schedulable when no pod of the old pool ([sameNodePool]),
    respectively of another pool, runs on it. *)
Definition validateNodeStatus (sameNodePool : bool) (node : Node) (nodePoolName : string)
    : kube (Node * result bool) :=
  r <- arePodsRunningWithNodePool (nodeName node) nodePoolName sameNodePool ;;
  match r with
  | inl err => Ret (node, inl err)
  | inr false =>
      r <- updateNodeUnschedulableIfNeeded node false ;;
      match r with
      | (node, inl err) => Ret (node, inl err)
      | (node, inr _) => Ret (node, inr true)
      end
  | inr true =>
      r <- updateNodeUnschedulableIfNeeded node true ;;
      match r with
      | (node, inl err) => Ret (node, inl err)
      | (node, inr _) => Ret (node, inr false)
      end
  end.

Definition validateNodeStatusWhenChangingNodePool := validateNodeStatus true.
Definition validateNodeStatusInNodePool := validateNodeStatus false.

Definition unschedulableErr (node : Node) : error := Errorf "node <%v> is unschedulable" [nodeName node].

Definition validateNodeStatusInNodePoolWrapper (node : Node) (nodesNodePoolName : string) : kube (Node * result unit) :=
  r <- validateNodeStatusInNodePool node nodesNodePoolName ;;
  match r with
  | (node, inl err) => Ret (node, inl err)
  | (node, inr schedulable) =>
      Ret (node, if negb schedulable then inl (Joined (appendErr [] (unschedulableErr node))) else inr tt)
  end.

(** ** Moving a node to another pool *)

Definition findMatchingNodePoolFromList (node : Node) (allNodePools : list NodePool) : string :=
  (fix go (pools : list NodePool) : string :=
     match pools with
     | [] => DefaultNodepoolName cfg
     | nodePool :: rest =>
         if nodeLabels node !! LabelKey nodePool ==? Some (LabelValue nodePool)
         then Name (npMeta nodePool) else go rest
     end) allNodePools.

(** The node, whether it is schedulable, and the error.  A [schedulable] of
    [true] may come with an error of the label update. *)
Definition changeNodePoolForNodeGeneric (node : Node) (newNodePoolName oldNodePoolName : string)
    (availableNodePools : list NodePool) : kube (Node * (bool * result unit)) :=
  r <- validateNodeStatusWhenChangingNodePool node oldNodePoolName ;;
  match r with
  | (node, inl err) => Ret (node, (false, inl err))
  | (node, inr false) => Ret (node, (false, inr tt))
  | (node, inr true) =>
      let newNodePoolName :=
        if newNodePoolName ==? "" then findMatchingNodePoolFromList node availableNodePools else newNodePoolName in
      r <- updateNodeWithNodePoolNameIfNeeded node newNodePoolName ;;
      Ret (r.1, (true, r.2))
  end.

Definition findAndChangeNodePoolForNode (node : Node) (oldNodePoolName : string) (availableNodePools : list NodePool)
    : kube (Node * (bool * result unit)) :=
  changeNodePoolForNodeGeneric node "" oldNodePoolName availableNodePools.

Definition ChangeNodePoolForNode (node : Node) (newNodePoolName oldNodePoolName : string)
    : kube (Node * (bool * result unit)) :=
  changeNodePoolForNodeGeneric node newNodePoolName oldNodePoolName [].

End Nodes.
