(* ===== verification/ManagedNodes.v ===== *)
(** * Nodes excluded from the scheduler

    [pkg/nodepool-controller/managed-nodes-config]: the [ManagedNodesConfig]
    names the nodes that the scheduler manages.  A node that does not meet the
    inclusion criteria is moved to the excluded pool once it is drained, an
    excluded node that meets them again goes back to the default pool, and the
    status of the configuration names the nodes that still wait for a drain. *)

From stdpp Require Import base list gmap strings pretty.
From S2P Require Import Prelude ApiTypes ControllerRuntime NodePoolUtils NodePoolCommon Nodes.

(** A request: of the configuration or of a node. *)
Record MNCReconcileRequest := { reqName : string; isNode : bool }.

Definition MNCConditionTypeApplied := "Applied".
Definition MNCConditionReasonAllNodesIncludedCorrectly := "AllNodesIncludedCorrectly".
Definition MNCConditionReasonToBeExcludedNodes := "ToBeExcludedNodes".
Definition MetaConditionTrue := "True".
Definition MetaConditionFalse := "False".

Definition mnc_with_status (conditions : list MetaCondition) (observedGeneration : Z) (mnc : ManagedNodesConfig)
    : ManagedNodesConfig :=
  {| mncMeta := mncMeta mnc; InclusionCriteria := InclusionCriteria mnc; mncConditions := conditions;
     mncObservedGeneration := observedGeneration |}.

(** ** Events *)

Definition MapNodeToManagedNodesConfigEvent (node : Node) : list MNCReconcileRequest :=
  [{| reqName := nodeName node; isNode := true |}].

Definition MapManagedNodesConfigToEvent (mnc : ManagedNodesConfig) : list MNCReconcileRequest :=
  [{| reqName := Name (mncMeta mnc); isNode := false |}].

Definition filterNodeUpdatesForMNCController (nodeOld nodeNew : Node) : bool :=
  (nodeLabels nodeOld !=? nodeLabels nodeNew)
  || (Generation (nodeMeta nodeOld) !=? Generation (nodeMeta nodeNew)).

Definition NodePredicate (e : WatchEvent Node) : bool :=
  match e with
  | Created _ | Deleted _ | Generic _ => true
  | Updated old new => filterNodeUpdatesForMNCController old new
  end.

Section ManagedNodes.
Context {L : LabelsLib} {M : MetaLib} (cfg : NodePoolControllerConfig).
Context (rangeOrder : forall A, gmap string A -> list (string * A)).
(** [MatchNodeSelectorTerms] of k8s.io/component-helpers. *)
Context (MatchNodeSelectorTerms : Node -> NodeSelector -> result bool).

Definition filterMNCUpdates (mncOld mncNew : ManagedNodesConfig) : bool :=
  (Name (mncMeta mncNew) ==? ManagedNodesConfigName cfg)
  && (Generation (mncMeta mncOld) !=? Generation (mncMeta mncNew)).

Definition MNCPredicate (e : WatchEvent ManagedNodesConfig) : bool :=
  match e with
  | Created _ | Deleted _ | Generic _ => true
  | Updated old new => filterMNCUpdates old new
  end.

(** ** Selecting nodes *)

(** A node whose match fails with an error counts as matching. *)
Definition nodeMatches (selectorTerm : NodeSelector) (node : Node) : bool :=
  match MatchNodeSelectorTerms node selectorTerm with inl _ => true | inr matches => matches end.

Definition filterNodesBasedOnNodeSelector (nodes : list Node) (selectorTerm : NodeSelector) (keepNodesThatMatch : bool)
    : list Node :=
  match NodeSelectorTerms selectorTerm with
  | [] => if keepNodesThatMatch then nodes else []
  | _ => filter (fun node => nodeMatches selectorTerm node = keepNodesThatMatch) nodes
  end.

Definition getNodesMatchingExcludingNodeConfigAndNoLabel (mnc : ManagedNodesConfig) (includedNodes : list Node)
    : list Node :=
  filterNodesBasedOnNodeSelector includedNodes (InclusionCriteria mnc) false.

Definition getNodesNotMatchingExcludingNodeConfigAndWithLabel (mnc : ManagedNodesConfig) (nodes : list Node)
    : list Node :=
  filterNodesBasedOnNodeSelector nodes (InclusionCriteria mnc) true.

(** The placeholder of a missing configuration has no name and no criteria. *)
Definition emptyManagedNodesConfig : ManagedNodesConfig :=
  {| mncMeta := named ""; InclusionCriteria := {| NodeSelectorTerms := [] |}; mncConditions := [];
     mncObservedGeneration := 0 |}.

Definition getManagedNodesConfig : kube (result ManagedNodesConfig) :=
  r <- call (Get KManagedNodesConfig ("", ManagedNodesConfigName cfg)) ;;
  match r with
  | inl err => Ret (if IsNotFound err then inr emptyManagedNodesConfig else inl err)
  | inr mnc => Ret (inr (mnc : ManagedNodesConfig))
  end.

(** Nodes of unmanaged partitions are in neither list. *)
Definition splitNodeToIncludedExcluded (nodes : list Node) : kube (result (list Node * list Node)) :=
  unmanagedPartitionLabelValues <-? ListPartitionLabelValues ;;
  let nodePoolName node := mapGet (nodeLabels node) (NodePoolNameLabel cfg) in
  let managed := filter (fun node => nodePoolName node ∉ (unmanagedPartitionLabelValues : gset string)) nodes in
  Ret (inr (filter (fun node => nodePoolName node <> ExcludedNodepoolName cfg) managed,
            filter (fun node => nodePoolName node = ExcludedNodepoolName cfg) managed)).

(** ** Excluding and including *)

(** One included node that should be excluded: [Some] when it is not drained. *)
Definition excludeNode (errs : list error) (node : Node) : kube (list error * option Node) :=
  r <- ChangeNodePoolForNode cfg rangeOrder node (ExcludedNodepoolName cfg) (nodePoolNameOfLabels cfg (nodeLabels node)) ;;
  let '(node, (schedulable, innerErr)) := r in
  match AppendErrIfNotNil errs innerErr with
  | [] =>
      if negb schedulable then
        r <- UpdateNodeLabels node [(ShouldBeExcludedLabelKey cfg, "true")] [] ;;
        Ret (AppendErrIfNotNil [] r.2, Some node)
      else
        match nodeLabels node !! ShouldBeExcludedLabelKey cfg with
        | Some _ =>
            r <- UpdateNodeLabels node [] [ShouldBeExcludedLabelKey cfg] ;;
            Ret (AppendErrIfNotNil [] r.2, None)
        | None => Ret (AppendErrIfNotNil [] innerErr, None)
        end
  | errs => Ret (errs, None)
  end.

Fixpoint excludeNodes (nodes : list Node) (errs : list error) (toBeExcludedNodes : list Node)
    : kube (list error * list Node) :=
  match nodes with
  | [] => Ret (errs, toBeExcludedNodes)
  | node :: rest =>
      r <- excludeNode errs node ;;
      excludeNodes rest r.1 (toBeExcludedNodes ++ option_list r.2)
  end.

Definition reconcileIncludedNodesThatShouldBeExcluded (mnc : ManagedNodesConfig) (includedNodes : list Node)
    : kube (list Node * result unit) :=
  r <- excludeNodes (getNodesMatchingExcludingNodeConfigAndNoLabel mnc includedNodes) [] [] ;;
  Ret (r.2, errorOf r.1).

(** One excluded node that should be included.  Without the label the error of
    the change is appended a second time. *)
Definition includeNode (errs : list error) (node : Node) : kube (list error) :=
  r <- ChangeNodePoolForNode cfg rangeOrder node (DefaultNodepoolName cfg) (ExcludedNodepoolName cfg) ;;
  let '(node, (_, innerErr)) := r in
  let errs := AppendErrIfNotNil errs innerErr in
  match nodeLabels node !! ShouldBeExcludedLabelKey cfg with
  | Some _ =>
      r <- UpdateNodeLabels node [] [ShouldBeExcludedLabelKey cfg] ;;
      Ret (AppendErrIfNotNil errs r.2)
  | None => Ret (AppendErrIfNotNil errs innerErr)
  end.

Fixpoint includeNodes (nodes : list Node) (errs : list error) : kube (list error) :=
  match nodes with
  | [] => Ret errs
  | node :: rest => errs <- includeNode errs node ;; includeNodes rest errs
  end.

Definition reconcileExcludedNodesThatShouldBeIncluded (mnc : ManagedNodesConfig) (excludedNodes : list Node)
    : kube (result unit) :=
  errs <- includeNodes (getNodesNotMatchingExcludingNodeConfigAndWithLabel mnc excludedNodes) [] ;;
  Ret (errorOf errs).

Fixpoint unmarkNodes (nodes : list Node) (errs : list error) : kube (list error) :=
  match nodes with
  | [] => Ret errs
  | node :: rest =>
      match nodeLabels node !! ShouldBeExcludedLabelKey cfg with
      | Some _ =>
          r <- UpdateNodeLabels node [] [ShouldBeExcludedLabelKey cfg] ;;
          unmarkNodes rest (AppendErrIfNotNil errs r.2)
      | None => unmarkNodes rest errs
      end
  end.

Definition reconcileMarkedToBeExcludedAndRevertedToBeIncluded (mnc : ManagedNodesConfig) (includedNodes : list Node)
    : kube (result unit) :=
  errs <- unmarkNodes (getNodesNotMatchingExcludingNodeConfigAndWithLabel mnc includedNodes) [] ;;
  Ret (errorOf errs).

(** ** Status *)

Fixpoint replaceMetaCondition (condition : MetaCondition) (conditions : list MetaCondition)
    : option (MetaCondition * list MetaCondition) :=
  match conditions with
  | [] => None
  | existCondition :: rest =>
      if mcType existCondition ==? mcType condition then Some (existCondition, condition :: rest)
      else match replaceMetaCondition condition rest with
           | Some (found, replaced) => Some (found, existCondition :: replaced)
           | None => None
           end
  end.

(** The condition is replaced or appended; a change of the reason or of the
    status counts as a change. *)
Definition setCondition (mnc : ManagedNodesConfig) (condition : MetaCondition) : ManagedNodesConfig * bool :=
  match replaceMetaCondition condition (mncConditions mnc) with
  | Some (existCondition, conditions) =>
      (mnc_with_status conditions (mncObservedGeneration mnc) mnc,
       (mcReason existCondition !=? mcReason condition) || (mcStatus existCondition !=? mcStatus condition))
  | None => (mnc_with_status (mncConditions mnc ++ [condition]) (mncObservedGeneration mnc) mnc, true)
  end.

Definition maxNodeNamesInMessage : nat := 5.

(** The first names, each after a comma, and the number of the others. *)
Fixpoint appendNodeNames (total i : nat) (nodes : list Node) : string :=
  match nodes with
  | [] => ""
  | node :: rest =>
      if i ==? maxNodeNamesInMessage
      then sprintf " and %d more" [pretty (total - maxNodeNamesInMessage)%nat]
      else "," +:+ nodeName node +:+ appendNodeNames total (S i) rest
  end.

(** [s[1:]] *)
Definition dropFirst (s : string) : string := match s with EmptyString => s | String _ rest => rest end.

Definition toBeExcludedMessage (nodes : list Node) : string :=
  sprintf "Some nodes need to be drained before gracefull exclusion: %s"
    [dropFirst (appendNodeNames (length nodes) 0 nodes)].

Definition appliedCondition (nodes : list Node) (now : Z) : MetaCondition :=
  match nodes with
  | [] => {| mcType := MNCConditionTypeApplied; mcStatus := MetaConditionTrue;
             mcReason := MNCConditionReasonAllNodesIncludedCorrectly; mcMessage := ""; mcObservedGeneration := 0;
             mcLastTransitionTime := now |}
  | _ => {| mcType := MNCConditionTypeApplied; mcStatus := MetaConditionFalse;
            mcReason := MNCConditionReasonToBeExcludedNodes; mcMessage := toBeExcludedMessage nodes;
            mcObservedGeneration := 0; mcLastTransitionTime := now |}
  end.

(** The nodes the status is about: of a node event, the marked ones. *)
Definition statusNodes (req : MNCReconcileRequest) (nodes : list Node) : kube (result (list Node)) :=
  if isNode req then
    match NewRequirement (ShouldBeExcludedLabelKey cfg) OpEquals ["true"] with
    | inl err => Ret (inl err)
    | inr toBeExcludedRequirement => ListNodesWithRequirements [toBeExcludedRequirement]
    end
  else Ret (inr nodes).

Definition calculateStatus (req : MNCReconcileRequest) (mnc : ManagedNodesConfig) (nodes : list Node)
    : kube (result (ManagedNodesConfig * bool)) :=
  nodes <-? statusNodes req nodes ;;
  now <- call Now ;;
  let '(mnc, changed) := setCondition mnc (appliedCondition nodes now) in
  Ret (inr (if mncObservedGeneration mnc !=? Generation (mncMeta mnc)
            then (mnc_with_status (mncConditions mnc) (Generation (mncMeta mnc)) mnc, true)
            else (mnc, changed))).

Definition updateStatus (mnc : ManagedNodesConfig) : kube (result unit) :=
  _ <-? call (UpdateStatus KManagedNodesConfig mnc) ;;
  Ret (inr tt).

Definition reconcileStatus (req : MNCReconcileRequest) (mnc : ManagedNodesConfig) (toBeExcludedNodes : list Node)
    : kube (result unit) :=
  if Name (mncMeta mnc) ==? "" then Ret (inr tt)
  else
    r <-? calculateStatus req mnc toBeExcludedNodes ;;
    let '(mnc, changed) := r in
    if (changed : bool) then updateStatus mnc else Ret (inr tt).

(** ** Reconcile *)

Definition reconcileManagedNodesConfig (mnc : ManagedNodesConfig) : kube (list Node * result unit) :=
  r <- ListNodesWithRequirements [] ;;
  match r with
  | inl err => Ret ([], inl err)
  | inr allNodes =>
      r <- splitNodeToIncludedExcluded allNodes ;;
      match r with
      | inl err => Ret ([], inl err)
      | inr (includedNodes, excludedNodes) =>
          r1 <- reconcileIncludedNodesThatShouldBeExcluded mnc includedNodes ;;
          r2 <- reconcileExcludedNodesThatShouldBeIncluded mnc excludedNodes ;;
          r3 <- reconcileMarkedToBeExcludedAndRevertedToBeIncluded mnc includedNodes ;;
          Ret (r1.1, errorOf (AppendErrIfNotNil (AppendErrIfNotNil (AppendErrIfNotNil [] r1.2) r2) r3))
      end
  end.

Definition reconcileNode (req : MNCReconcileRequest) (mnc : ManagedNodesConfig) : kube (result unit) :=
  node <-? call (Get KNode ("", reqName req)) ;;
  split <-? splitNodeToIncludedExcluded [node] ;;
  let '(includedNodes, excludedNodes) := split in
  r1 <- reconcileIncludedNodesThatShouldBeExcluded mnc includedNodes ;;
  r2 <- reconcileExcludedNodesThatShouldBeIncluded mnc excludedNodes ;;
  Ret (errorOf (AppendErrIfNotNil (AppendErrIfNotNil [] r1.2) r2)).

Definition Reconcile (req : MNCReconcileRequest) : kube (result unit) :=
  mnc <-? getManagedNodesConfig ;;
  r <- (if isNode req then err <- reconcileNode req mnc ;; Ret ([], err)
        else reconcileManagedNodesConfig mnc) ;;
  innerErr <- reconcileStatus req mnc r.1 ;;
  Ret (joinErrors [r.2; innerErr]).

End ManagedNodes.
