(* ===== verification/NodePoolWebhooks.v ===== *)
(** * Webhooks of node pools and scheduling shards

    [pkg/nodepool-controller/webhook]: what may be created, changed and deleted
    ([nodepool_validator.go], [schedulingshard_validator.go]).  An answer is the
    error of the denied request. *)

From stdpp Require Import base list gmap strings.
From S2P Require Import Prelude ApiTypes NodePoolUtils NodePoolCommon Shards.

(** ** Node pools *)

Module NodePoolValidator.
Section NodePoolValidator.
Context {M : MetaLib} (cfg : NodePoolControllerConfig).

Fixpoint findDuplicate (nodePool : NodePool) (nodePools : list NodePool) : option NodePool :=
  match nodePools with
  | [] => None
  | other :: rest =>
      if Name (npMeta other) ==? Name (npMeta nodePool) then findDuplicate nodePool rest
      else if (LabelKey other ==? LabelKey nodePool) && (LabelValue other ==? LabelValue nodePool) then Some other
      else findDuplicate nodePool rest
  end.

Definition validateLabels (nodePool : NodePool) : kube (result unit) :=
  if Name (npMeta nodePool) ==? DefaultNodepoolName cfg then
    if (LabelKey nodePool !=? "") || (LabelValue nodePool !=? "")
    then Ret (inl (Errorf "the %q nodepool must not set labelKey or labelValue" [DefaultNodepoolName cfg]))
    else Ret (inr tt)
  else if (LabelKey nodePool ==? "") || (LabelValue nodePool ==? "") then
    Ret (inl (Errorf "nodepool %q must set a non-empty labelKey and labelValue; only the %q nodepool may leave them empty"
                [Name (npMeta nodePool); DefaultNodepoolName cfg]))
  else
    r <- call (List KNodePool listAll) ;;
    match r with
    | inl _ => Ret (inl (Errorf "failed to validate nodepool %q: could not list existing nodepools" [Name (npMeta nodePool)]))
    | inr nodePools =>
        match findDuplicate nodePool nodePools with
        | Some other =>
            Ret (inl (Errorf "nodepool %q labelKey %q / labelValue %q duplicates existing nodepool %q"
                        [Name (npMeta nodePool); LabelKey nodePool; LabelValue nodePool; Name (npMeta other)]))
        | None => Ret (inr tt)
        end
    end.

Definition cannotBeCreated (nodePool : NodePool) (err : error) : error :=
  Wrapf "nodepool %q cannot be created: %w" [Name (npMeta nodePool)] err.

Definition validatePartitionLabelValue (nodePool : NodePool) : kube (result unit) :=
  r <- ResolveShardForNodePool cfg nodePool ;;
  match r with
  | inl err => Ret (inl (cannotBeCreated nodePool err))
  | inr None =>
      r <- GetOrInitShardNamedAfterNodePool cfg nodePool ;;
      match r with
      | inl err => Ret (inl (cannotBeCreated nodePool err))
      | inr _ => Ret (inr tt)
      end
  | inr (Some shard) =>
      let owner := OwningNodePoolName shard in
      if owner !=? "" then
        Ret (inl (Errorf "nodepool %q cannot use partitionLabelValue %q: scheduling shard %q already has it, for nodepool %q"
                    [Name (npMeta nodePool); PartitionLabelValue (shardSpec shard); Name (shardMeta shard); owner]))
      else Ret (inr tt)
  end.

Definition ValidateCreate (nodePool : NodePool) : kube (result unit) :=
  _ <-? validateLabels nodePool ;;
  validatePartitionLabelValue nodePool.

Definition ValidateUpdate (oldNodePool newNodePool : NodePool) : result unit := inr tt.

Definition ValidateDelete (nodePool : NodePool) : result unit :=
  if Name (npMeta nodePool) ==? DefaultNodepoolName cfg then
    inl (Errorf "the %q nodepool cannot be deleted; it is the catch-all for nodes no other nodepool claims"
           [DefaultNodepoolName cfg])
  else inr tt.

End NodePoolValidator.
End NodePoolValidator.

(** ** Scheduling shards *)

Module ShardValidator.
Section ShardValidator.
Context {M : MetaLib} (cfg : NodePoolControllerConfig).

Fixpoint findOther (shard : SchedulingShard) (others : list SchedulingShard) : option SchedulingShard :=
  match others with
  | [] => None
  | other :: rest =>
      if Name (shardMeta other) !=? Name (shardMeta shard) then Some other else findOther shard rest
  end.

Definition labelHint (shard : SchedulingShard) : string :=
  if PartitionLabelValue (shardSpec shard) !=? ""
  then sprintf ", or label the shard %s=true to leave its nodes to another scheduler" [IgnoreShardLabelKey]
  else "".

Definition requireNodePool (shard : SchedulingShard) : kube (result unit) :=
  let nodePoolName := NodePoolNameForPartitionLabelValue cfg (PartitionLabelValue (shardSpec shard)) in
  r <- call (Get KNodePool ("", nodePoolName)) ;;
  match r with
  | inr _ => Ret (inr tt)
  | inl err =>
      if negb (IsNotFound err) then
        Ret (inl (Errorf "failed to validate scheduling shard %q: could not get nodepool %q"
                    [Name (shardMeta shard); nodePoolName]))
      else
        Ret (inl (Errorf "scheduling shard %q cannot use partitionLabelValue %q: no nodepool %q exists for it; create that nodepool%s"
                    [Name (shardMeta shard); PartitionLabelValue (shardSpec shard); nodePoolName; labelHint shard]))
  end.

Definition ValidateCreate (shard : SchedulingShard) : kube (result unit) :=
  let partitionLabelValue := PartitionLabelValue (shardSpec shard) in
  r <- ListShardsWithPartitionLabelValue partitionLabelValue ;;
  match r with
  | inl _ =>
      Ret (inl (Errorf "failed to validate scheduling shard %q: could not list existing scheduling shards"
                  [Name (shardMeta shard)]))
  | inr others =>
      match findOther shard others with
      | Some other =>
          Ret (inl (Errorf "scheduling shard %q cannot use partitionLabelValue %q: scheduling shard %q already has it"
                      [Name (shardMeta shard); partitionLabelValue; Name (shardMeta other)]))
      | None => if IsUnmanaged shard then Ret (inr tt) else requireNodePool shard
      end
  end.

Definition ValidateUpdate (oldShard newShard : SchedulingShard) : result unit :=
  let oldPartitionLabelValue := PartitionLabelValue (shardSpec oldShard) in
  let newPartitionLabelValue := PartitionLabelValue (shardSpec newShard) in
  if oldPartitionLabelValue !=? newPartitionLabelValue then
    inl (Errorf "scheduling shard %q cannot change partitionLabelValue from %q to %q; create a new shard instead"
           [Name (shardMeta newShard); oldPartitionLabelValue; newPartitionLabelValue])
  else
    let oldLabel := Labels (shardMeta oldShard) !! IgnoreShardLabelKey in
    let newLabel := Labels (shardMeta newShard) !! IgnoreShardLabelKey in
    if (newPartitionLabelValue !=? "") && (oldLabel !=? newLabel) then
      inl (Errorf "scheduling shard %q with partitionLabelValue %q cannot add, change or remove its %s label after creation"
             [Name (shardMeta newShard); newPartitionLabelValue; IgnoreShardLabelKey])
    else inr tt.

Definition ValidateDelete (shard : SchedulingShard) : result unit := inr tt.

End ShardValidator.
End ShardValidator.
