(* ===== verification/TopologyController.v ===== *)
(** * Topologies and their Grove counterparts

    [pkg/nodepool-controller/topology_controller]: a KAI topology is annotated
    with the name and the version of the Grove topology that maps to it, and
    loses both annotations when none does. *)

From stdpp Require Import base list gmap strings.
From S2P Require Import Prelude ApiTypes NodePoolUtils NodePoolCommon Nodes.

Definition groveCRDName := "clustertopologybindings" +:+ "." +:+ "grove.io".
Definition kaiSchedulerName := "kai-scheduler".

Fixpoint referenceOf (statuses : list (string * string)) : string :=
  match statuses with
  | [] => ""
  | (schedulerName, topologyReference) :: rest =>
      if schedulerName ==? kaiSchedulerName then topologyReference else referenceOf rest
  end.

(** [None] is an object of another type. *)
Definition groveToKaiTopologyName (groveTopology : option ClusterTopologyBinding) : string :=
  match groveTopology with
  | None => ""
  | Some ct => referenceOf (SchedulerTopologyStatuses ct)
  end.

Definition mapGroveToKaiReconcileRequest (obj : option ClusterTopologyBinding) : list string :=
  let kaiTopologyName := groveToKaiTopologyName obj in
  if kaiTopologyName ==? "" then [] else [kaiTopologyName].

Fixpoint findGrove (kaiTopologyName : string) (groves : list ClusterTopologyBinding) : option ClusterTopologyBinding :=
  match groves with
  | [] => None
  | grove :: rest =>
      if groveToKaiTopologyName (Some grove) ==? kaiTopologyName then Some grove else findGrove kaiTopologyName rest
  end.

Definition findGroveTopologyForKai (kaiTopologyName : string) : kube (result (option ClusterTopologyBinding)) :=
  groves <-? call (List KClusterTopologyBinding listAll) ;;
  Ret (inr (findGrove kaiTopologyName groves)).

Definition topology_with_annotations (f : gmap string string -> gmap string string) (t : Topology) : Topology :=
  {| topoMeta := meta_with_annotations f (topoMeta t); Levels := Levels t |}.

(** A merge patch of the annotations; [None] is [nil] and removes the key. *)
Definition patchAnnotation (t : Topology) (annotations : list (string * option string)) : kube (result unit) :=
  _ <-? call (Patch KTopology t (topology_with_annotations (mergePatchMap annotations) t)) ;;
  Ret (inr tt).

Definition IsCRDInstalled (crdName : string) : kube bool :=
  r <- call (Get KCustomResourceDefinition ("", crdName)) ;;
  match r with
  | inl _ => Ret false
  | inr crd => Ret (existsb (fun c => (c.1 ==? "Established") && (c.2 ==? "True")) (crdConditions crd))
  end.

Definition isGroveCRDInstalled : kube bool := IsCRDInstalled groveCRDName.

(** What happens while the watcher waits: the context is done, or a tick. *)
Inductive WatcherEvent := ContextDone | Tick.

(** The watcher over the events it receives: whether it called [onReady], and
    whether it has stopped. *)
Fixpoint StartWhenCRDReady (events : list WatcherEvent) : kube (bool * bool) :=
  match events with
  | [] => Ret (false, false)
  | ContextDone :: _ => Ret (false, true)
  | Tick :: rest =>
      installed <- isGroveCRDInstalled ;;
      if (installed : bool) then Ret (true, true) else StartWhenCRDReady rest
  end.

Section TopologyController.
Context (cfg : NodePoolControllerConfig).

Definition setAnnotations (kaiTopology : Topology) (groveTopology : ClusterTopologyBinding) : kube (result unit) :=
  let groveName := Name (ctbMeta groveTopology) in
  let resourceVersion := ResourceVersion (ctbMeta groveTopology) in
  let currentName := mapGet (Annotations (topoMeta kaiTopology)) (GroveTopologyAnnotation cfg) in
  let currentRV := mapGet (Annotations (topoMeta kaiTopology)) (GroveTopologyResourceVersionAnnotation cfg) in
  if (currentName ==? groveName) && (currentRV ==? resourceVersion) then Ret (inr tt)
  else patchAnnotation kaiTopology [(GroveTopologyAnnotation cfg, Some groveName);
                                    (GroveTopologyResourceVersionAnnotation cfg, Some resourceVersion)].

Definition removeAnnotations (kaiTopology : Topology) : kube (result unit) :=
  match Annotations (topoMeta kaiTopology) !! GroveTopologyAnnotation cfg,
        Annotations (topoMeta kaiTopology) !! GroveTopologyResourceVersionAnnotation cfg with
  | None, None => Ret (inr tt)
  | _, _ => patchAnnotation kaiTopology [(GroveTopologyAnnotation cfg, None);
                                         (GroveTopologyResourceVersionAnnotation cfg, None)]
  end.

Definition Reconcile (kaiTopologyName : string) : kube (result unit) :=
  r <- call (Get KTopology ("", kaiTopologyName)) ;;
  match r with
  | inl err => Ret (if IsNotFound err then inr tt else inl err)
  | inr kaiTopology =>
      groveTopology <-? findGroveTopologyForKai kaiTopologyName ;;
      match groveTopology with
      | Some groveTopology => setAnnotations kaiTopology groveTopology
      | None => removeAnnotations kaiTopology
      end
  end.

End TopologyController.
