(* ===== verification/NodePools.v ===== *)
(** * The node pool controller

    [pkg/nodepool-controller/nodepool_controller]: the nodes of a node pool
    ([nodepool_handler.go], [node_handler.go]), its status
    ([nodepool_status_handler.go], [project_reference_handler.go]), its
    finalizer ([finalizer.go]), the reconciler ([nodepool_controller.go],
    [nodepool_reconciler.go], [scheduler_handler.go]) and the mapping of events
    ([nodepool_event_filter.go]).  Metrics and logging are left out. *)

From stdpp Require Import base list gmap strings pretty.
From S2P Require Import Prelude ApiTypes NodePoolUtils NodePoolCommon Shards Nodes.

Definition nodePool_with_status (f : NodePoolStatus -> NodePoolStatus) (nodePool : NodePool) : NodePool :=
  {| npMeta := npMeta nodePool; LabelKey := LabelKey nodePool; LabelValue := LabelValue nodePool;
     PreferredNetworkTopologyName := PreferredNetworkTopologyName nodePool;
     npSchedulingShardConfig := npSchedulingShardConfig nodePool; npStatus := f (npStatus nodePool) |}.

Definition nodePool_with_meta (f : ObjectMeta -> ObjectMeta) (nodePool : NodePool) : NodePool :=
  {| npMeta := f (npMeta nodePool); LabelKey := LabelKey nodePool; LabelValue := LabelValue nodePool;
     PreferredNetworkTopologyName := PreferredNetworkTopologyName nodePool;
     npSchedulingShardConfig := npSchedulingShardConfig nodePool; npStatus := npStatus nodePool |}.

Definition status_with_phase (phase : NodePoolPhase) (message : string) (s : NodePoolStatus) : NodePoolStatus :=
  {| npsPhase := phase; npsMessage := message; npsNodes := npsNodes s; npsConditions := npsConditions s |}.

Definition status_with_nodes (nodes : list NodeInNodePool) (s : NodePoolStatus) : NodePoolStatus :=
  {| npsPhase := npsPhase s; npsMessage := npsMessage s; npsNodes := nodes; npsConditions := npsConditions s |}.

Definition status_with_conditions (f : list NodePoolCondition -> list NodePoolCondition) (s : NodePoolStatus)
    : NodePoolStatus :=
  {| npsPhase := npsPhase s; npsMessage := npsMessage s; npsNodes := npsNodes s;
     npsConditions := f (npsConditions s) |}.

(** What the code uses of the API package (kai/v1alpha1): constants, and the
    methods on conditions of a node pool. *)
Class NodePoolAPI := {
  AnnotationTopologyManagerPolicy : string;
  AnnotationGPUNetworkAccelerationDetection : string;
  AnnotationGPUNetworkAccelerationLabelKey : string;
  AnnotationGPUNetworkAccelerationDetected : string;
  DefaultGPUNetworkAccelerationLabelKey : string;
  UseGPUNetworkAcceleration : string;
  AutoGPUNetworkAccelerationDetection : string;
  NodeTopologyMismatchType : string;
  NodeTopologyMismatchReason : string;
  NodePoolMissingNrtHealthyPrerequisiteType : string;
  NodePoolMissingNrtHealthyPrerequisiteReason : string;
  ProjectReferencesExistType : string;
  ProjectReferencesExistReason : string;
  SetConditionStatusValue : bool -> string;
  SetNodePoolCondition : NodePoolCondition -> list NodePoolCondition -> list NodePoolCondition;
}.

(** ** Equality of statuses *)

Definition isNodeInNodepoolEqual (left right : list NodeInNodePool) : bool :=
  if length left !=? length right then false
  else
    let leftMap : gmap string NodeInNodePool := foldl (fun m n => <[nipName n := n]> m) ∅ left in
    forallb (fun rightNodeStatus =>
               match leftMap !! nipName rightNodeStatus with
               | None => false
               | Some leftNodeStatus =>
                   (nipStatus leftNodeStatus ==? nipStatus rightNodeStatus)
                   && (TopologyMismatch leftNodeStatus ==? TopologyMismatch rightNodeStatus)
               end) right.

Definition isNodePoolConditionsEqual (left right : list NodePoolCondition) : bool :=
  if length left !=? length right then false
  else
    let leftMap : gmap string NodePoolCondition := foldl (fun m c => <[npcType c := c]> m) ∅ left in
    forallb (fun rightCondition =>
               match leftMap !! npcType rightCondition with
               | None => false
               | Some leftCondition =>
                   (npcStatus leftCondition ==? npcStatus rightCondition)
                   && (npcReason leftCondition ==? npcReason rightCondition)
                   && (npcMessage leftCondition ==? npcMessage rightCondition)
               end) right.

Definition isStatusEqual (left right : NodePoolStatus) : bool :=
  if (npsPhase left !=? npsPhase right) || (npsMessage left !=? npsMessage right)
     || (length (npsNodes left) !=? length (npsNodes right))
     || (length (npsConditions left) !=? length (npsConditions right))
  then false
  else if negb (isNodePoolConditionsEqual (npsConditions left) (npsConditions right)) then false
  else isNodeInNodepoolEqual (npsNodes left) (npsNodes right).

(** ** The situation of the nodes *)

Record NodesSituation := {
  unschedulableNodes : list string;
  missingNrtPrerequisiteItems : list string;
  nodesInNodePool : list NodeInNodePool;
  atLeastOneNodeReady : bool;
  atLeastOneNodeUnschedulable : bool;
}.

Definition missingNrtPrerequisite (node : Node) : bool :=
  match findNodeCondition node NrtHealthyConditionType with
  | Some c => ncStatus c ==? ConditionTrue
  | None => false
  end.

Definition missingItemOf (node : Node) : string :=
  match findNodeCondition node NrtHealthyConditionType with
  | Some c => if ncStatus c ==? ConditionTrue then nrtNodePoolMissingItemForReason (ncReason c) else ""
  | None => ""
  end.

Definition nodeInNodePoolOf (node : Node) : NodeInNodePool :=
  {| nipName := nodeName node;
     nipStatus := if isNodeReady node
                  then if missingNrtPrerequisite node then NodeMissingNrtHealthyPrerequisite else NodeReady
                  else NodeUnschedulable;
     TopologyMismatch := false |}.

(** By name. *)
Definition sortNodesInNodePool (nodes : list NodeInNodePool) : list NodeInNodePool := sortBy nipName nodes.

Definition getNodesSituation (nodes : list Node) : NodesSituation :=
  let missingNrtItems : gset string := list_to_set (filter (fun i => i <> "") (missingItemOf <$> nodes)) in
  {| unschedulableNodes := sortStrings (nodeName <$> filter (fun n => isNodeReady n = false) nodes);
     missingNrtPrerequisiteItems := sortStrings (elements missingNrtItems);
     nodesInNodePool := sortNodesInNodePool (nodeInNodePoolOf <$> nodes);
     atLeastOneNodeReady := existsb isNodeReady nodes;
     atLeastOneNodeUnschedulable := existsb (fun n => negb (isNodeReady n)) nodes |}.

Definition nodePoolPhaseForNodeSituation (atLeastOneNodeReady atLeastOneNodeUnschedulable missingNrtPrerequisite : bool)
    : NodePoolPhase :=
  let nodePoolPhase :=
    if atLeastOneNodeReady then NodePoolReady
    else if atLeastOneNodeUnschedulable then NodePoolUnschedulable else NodePoolEmpty in
  if missingNrtPrerequisite && (nodePoolPhase !=? NodePoolUnschedulable) then NodePoolMissingPrerequisites
  else nodePoolPhase.

Definition joinNodePoolStatusMessages (messages : list string) : string :=
  String.concat (String (Ascii.ascii_of_nat 10) "") (filter (fun message => message <> "") messages).

Definition getNodePoolStatusMessage (unschedulableNodes : list string) (messagePrefix : string) : string :=
  match unschedulableNodes with
  | [] => ""
  | _ => sprintf "%v: %v" [messagePrefix; String.concat ", " unschedulableNodes]
  end.

Definition getNodePoolDeletingMessage (unschedulableNodes : list string) : string :=
  getNodePoolStatusMessage unschedulableNodes NodesDrainedMessage.

(** ** Topology mismatches *)

Definition getNodeLevelsFromTopology (topology : Topology) : list string := Levels topology.

Definition getMissingNodeLabelsAgainstNodeLevels (node : Node) (topologyLevels : list string) : list string :=
  filter (fun nodeLevel => nodeLabels node !! nodeLevel = None) topologyLevels.

Definition hasMismatchNodeAgainstTopology (node : Node) (topology : Topology) : bool :=
  bool_decide (0 < length (getMissingNodeLabelsAgainstNodeLevels node (getNodeLevelsFromTopology topology))).

Definition getTopologyByName (topologyName : string) : kube (result (option Topology)) :=
  if topologyName ==? "" then Ret (inr None)
  else topology <-? call (Get KTopology ("", topologyName)) ;; Ret (inr (Some (topology : Topology))).

Definition getTopologyMismatchNodes (nodePool : NodePool) (nodes : list Node) : kube (result (list Node)) :=
  topology <-? getTopologyByName (PreferredNetworkTopologyName nodePool) ;;
  match topology with
  | None => Ret (inr [])
  | Some topology => Ret (inr (filter (fun node => hasMismatchNodeAgainstTopology node topology = true) nodes))
  end.

Definition updateNodesTopologyMismatch (mismatchNodes : list Node) (nodes : list NodeInNodePool) : list NodeInNodePool :=
  let nodeNames : gset string := list_to_set (nodeName <$> mismatchNodes) in
  (fun n => {| nipName := nipName n; nipStatus := nipStatus n;
               TopologyMismatch := bool_decide (nipName n ∈ nodeNames) |}) <$> nodes.

(** ** Projects that refer to a node pool *)

Definition maxProjectNamesInMessage := 10.

Definition getProjectsReferencingNodePool (nodePoolName : string) : kube (result (list string)) :=
  projects <-? call (List KProject listAll) ;;
  Ret (inr (sortStrings
    ((Name ∘ prjMeta) <$>
       filter (fun project : Project => existsb (fun queue => qcNodepool queue ==? nodePoolName) (prjQueues project) = true)
         (projects : list Project)))).

Definition getProjectsReferenceMessage (referencingProjects : list string) : string :=
  match referencingProjects with
  | [] => ""
  | _ =>
      let '(projectNames, suffix) :=
        if bool_decide (maxProjectNamesInMessage < length referencingProjects)
        then (take maxProjectNamesInMessage referencingProjects,
              sprintf " (and %d more)" [pretty (length referencingProjects - maxProjectNamesInMessage)%nat])
        else (referencingProjects, "") in
      sprintf ProjectsReferencingNodePoolMessage [String.concat ", " projectNames +:+ suffix]
  end.

(** ** The loop over the nodes of a list call

    [op] answers the node and the errors of the iteration. *)
Fixpoint overNodes (op : Node -> kube (Node * list error)) (nodes resultNodes : list Node) (errs : list error)
    : kube (list Node * list error) :=
  match nodes with
  | [] => Ret (resultNodes, errs)
  | node :: rest =>
      r <- op node ;;
      overNodes op rest (resultNodes ++ [r.1]) (foldl appendErr errs r.2)
  end.

Definition listed (r : list Node * list error) : list Node * result unit := (r.1, errorOf r.2).

(** The errors of an iteration that moves a node. *)
Definition moveErrors (node : Node) (outcome : bool * result unit) : list error :=
  match outcome.2 with inl innerErr => [innerErr] | inr _ => [] end
  ++ (if negb outcome.1 then [unschedulableErr node] else []).

Definition errorsOf (r : result unit) : list error := match r with inl e => [e] | inr _ => [] end.

Section Controller.
Context {L : LabelsLib} {M : MetaLib} {Sch : SchedulerAPI} {api : NodePoolAPI}.
Context (cfg : NodePoolControllerConfig) (params : NodePoolControllerParams).
(** Fields of the controller set at start-up. *)
Context (nrtEnabled serviceMonitorEnabled : bool).
(** The order in which Go ranges over a map, and the text of an error. *)
Context (rangeOrder : forall A, gmap string A -> list (string * A)) (errorText : error -> string).

(** ** Nodes of a node pool ([nodepool_handler.go]) *)

Definition listNodePoolsWithFieldSelector (field value : string) : kube (result (list NodePool)) :=
  call (List KNodePool {| loNamespace := ""; loLabelSelector := []; loMatchingLabels := ∅;
                          loFieldSelector := Some (field, value) |}).

Definition getAvailableNodePools : kube (result (list NodePool)) :=
  listNodePoolsWithFieldSelector IsDeletingPhaseField "false".

Definition findAndMove (oldNodePoolName : string) (nodePools : list NodePool) (node : Node) : kube (Node * list error) :=
  r <- findAndChangeNodePoolForNode cfg rangeOrder node oldNodePoolName nodePools ;;
  Ret (r.1, moveErrors r.1 r.2).

Definition moveTo (newNodePoolName oldNodePoolName : string) (node : Node) : kube (Node * list error) :=
  r <- ChangeNodePoolForNode cfg rangeOrder node newNodePoolName oldNodePoolName ;;
  Ret (r.1, moveErrors r.1 r.2).

Definition reconcileNodesMatchingNodePoolNameNoLabel (nodePool : NodePool) : kube (list Node * result unit) :=
  r <- getNodesMatchingNodePoolNameNoLabel cfg nodePool ;;
  match r with
  | inl err => Ret ([], inl err)
  | inr [] => Ret ([], inr tt)
  | inr nodes =>
      r <- getAvailableNodePools ;;
      match r with
      | inl err => Ret ([], inl err)
      | inr nodePools =>
          r <- overNodes (findAndMove (Name (npMeta nodePool)) nodePools) nodes [] [] ;; Ret (listed r)
      end
  end.

Definition reconcileNodesInDefaultNodePoolMatchingOtherNodePoolLabel (nodePool : NodePool)
    : kube (list Node * result unit) :=
  r <- getNodesInDefaultNodePoolMatchingOtherNodePoolLabel cfg nodePool ;;
  match r with
  | inl err => Ret ([], inl err)
  | inr nodes =>
      r <- overNodes (moveTo (Name (npMeta nodePool)) (DefaultNodepoolName cfg)) nodes [] [] ;; Ret (listed r)
  end.

Definition reconcileNodesMatchingNodePoolNameAndLabel (nodePool : NodePool) : kube (list Node * result unit) :=
  r <- getNodesMatchingNodePoolNameAndLabel cfg nodePool ;;
  match r with
  | inl err => Ret ([], inl err)
  | inr nodes =>
      r <- overNodes (fun node =>
             r <- validateNodeStatusInNodePoolWrapper cfg rangeOrder node (Name (npMeta nodePool)) ;;
             Ret (r.1, errorsOf r.2)) nodes [] [] ;;
      Ret (listed r)
  end.

(** One iteration of [reconcileNodesInDefaultNodePool]. *)
Definition keepOrMoveFromDefault (nodePools : list NodePool) (node : Node) : kube (Node * list error) :=
  let foundNodePoolName := findMatchingNodePoolFromList cfg node nodePools in
  if foundNodePoolName ==? DefaultNodepoolName cfg then
    r1 <- validateDefaultNodePoolLabel cfg node ;;
    r2 <- validateNodeStatusInNodePoolWrapper cfg rangeOrder r1.1 (DefaultNodepoolName cfg) ;;
    Ret (r2.1, errorsOf r1.2 ++ errorsOf r2.2)
  else moveTo foundNodePoolName (DefaultNodepoolName cfg) node.

Definition reconcileNodesInDefaultNodePool : kube (list Node * result unit) :=
  r <- getDefaultNodePoolNodes cfg ;;
  match r with
  | inl err => Ret ([], inl err)
  | inr [] => Ret ([], inr tt)
  | inr nodes =>
      r <- getAvailableNodePools ;;
      match r with
      | inl err => Ret ([], inl err)
      | inr nodePools => r <- overNodes (keepOrMoveFromDefault nodePools) nodes [] [] ;; Ret (listed r)
      end
  end.

(** The names that count as existing pools: the excluded one, the unmanaged
    partitions and the available pools. *)
Definition existingNodePools (unmanagedPartitionLabelValues : gset string) (nodePools : list NodePool) : gset string :=
  {[ExcludedNodepoolName cfg]} ∪ unmanagedPartitionLabelValues ∪ list_to_set (Name ∘ npMeta <$> nodePools).

Definition moveFromMissing (existing : gset string) (nodePools : list NodePool) (node : Node)
    : kube (Node * list error) :=
  let nodeAssignedNodePool := nodePoolNameOfLabels cfg (nodeLabels node) in
  if bool_decide (nodeAssignedNodePool ∈ existing) then Ret (node, [])
  else findAndMove nodeAssignedNodePool nodePools node.

Definition reconcileNodesNotInDefaultNodePool : kube (list Node * result unit) :=
  r <- getNodesNotInDefaultNodePool cfg ;;
  match r with
  | inl err => Ret ([], inl err)
  | inr [] => Ret ([], inr tt)
  | inr nodes =>
      r <- getAvailableNodePools ;;
      match r with
      | inl err => Ret ([], inl err)
      | inr nodePools =>
          r <- ListPartitionLabelValues ;;
          match r with
          | inl err => Ret ([], inl err)
          | inr unmanaged =>
              r <- overNodes (moveFromMissing (existingNodePools unmanaged nodePools) nodePools) nodes [] [] ;;
              Ret (listed r)
          end
      end
  end.

(** ** Annotations and health of the nodes ([node_handler.go]) *)

Definition getGPUNetworkAccelerationDetection (nodePool : NodePool) : string :=
  mapGet (Annotations (npMeta nodePool)) (AnnotationGPUNetworkAccelerationDetection).

Definition GetMNNVLLabelOtDefault (gpuNetworkAccelerationLabelKey : string) : string :=
  if gpuNetworkAccelerationLabelKey !=? "" then gpuNetworkAccelerationLabelKey
  else DefaultGPUNetworkAccelerationLabelKey.

Definition getGPUNetworkAccelerationLabelKey (nodePool : NodePool) : string :=
  GetMNNVLLabelOtDefault (mapGet (Annotations (npMeta nodePool)) (AnnotationGPUNetworkAccelerationLabelKey)).

Definition nvlinkAnnotationValue (nodePool : NodePool) : string :=
  if getGPUNetworkAccelerationDetection nodePool ==? AutoGPUNetworkAccelerationDetection
  then getGPUNetworkAccelerationLabelKey nodePool else "".

Definition desiredAnnotations (nvlink policy : string) : list (string * option string) :=
  [(GPUNetworkAccelerationLabelKey, nilIfEmpty nvlink); (AnnotationTopologyManagerPolicy, nilIfEmpty policy)].

Definition reconcileNodeAnnotations (node : Node) (nodePool : NodePool) : kube (Node * result unit) :=
  let nvlink := nvlinkAnnotationValue nodePool in
  r <- getTopologyManagerPolicyFromNodeNRT nrtEnabled node nodePool ;;
  match r with
  | inl err => Ret (node, inl err)
  | inr policy =>
      let desired := desiredAnnotations nvlink policy in
      if annotationsUpToDate node desired then Ret (node, inr tt)
      else patchNode node (node_with_meta (meta_with_annotations (mergePatchMap desired)) node)
  end.

Definition handleNodeOfNodePool (nodePool : NodePool) (node : Node) : kube (Node * list error) :=
  r1 <- reconcileNodeAnnotations node nodePool ;;
  r2 <- reconcileNrtHealthCondition nrtEnabled r1.1 nodePool ;;
  Ret (r2.1, errorsOf r1.2 ++ errorsOf r2.2).

Definition handleNodesOfNodePool (nodePool : NodePool) (alteredNodes : list Node) : kube (list Node * result unit) :=
  r <- overNodes (handleNodeOfNodePool nodePool) (filterNodePoolNodes cfg rangeOrder alteredNodes nodePool) [] [] ;;
  Ret (listed r).

(** ** [reconcileNodes] *)

Definition reconcileNodes (nodePool : NodePool) : kube (list Node * result unit) :=
  r <- (if Name (npMeta nodePool) !=? DefaultNodepoolName cfg then
          r1 <- reconcileNodesMatchingNodePoolNameNoLabel nodePool ;;
          r2 <- reconcileNodesInDefaultNodePoolMatchingOtherNodePoolLabel nodePool ;;
          r3 <- reconcileNodesMatchingNodePoolNameAndLabel nodePool ;;
          Ret (r1.1 ++ r2.1 ++ r3.1, AppendErrIfNotNil (AppendErrIfNotNil (AppendErrIfNotNil [] r1.2) r2.2) r3.2)
        else
          r1 <- reconcileNodesInDefaultNodePool ;;
          r2 <- reconcileNodesNotInDefaultNodePool ;;
          Ret (r1.1 ++ r2.1, AppendErrIfNotNil (AppendErrIfNotNil [] r1.2) r2.2)) ;;
  r4 <- handleNodesOfNodePool nodePool r.1 ;;
  Ret (r4.1, errorOf (AppendErrIfNotNil r.2 r4.2)).

(** ** Status ([nodepool_status_handler.go])

    A status patch names the whole status; the reply replaces the object. *)

Definition updateNodePoolStatus (nodePool : NodePool) : kube (NodePool * result unit) :=
  r <- call (PatchStatus KNodePool nodePool nodePool) ;;
  match r with inl err => Ret (nodePool, inl err) | inr stored => Ret ((stored : NodePool), inr tt) end.

Definition updateNodePoolStatusIfNeeded (nodePoolWithUpdatedStatus nodePool : NodePool) : kube (NodePool * result unit) :=
  if negb (isStatusEqual (npStatus nodePoolWithUpdatedStatus) (npStatus nodePool))
  then updateNodePoolStatus nodePoolWithUpdatedStatus
  else Ret (nodePoolWithUpdatedStatus, inr tt).

Definition getNodesStatusForNodePool (nodePool : NodePool) (nodePoolNodes : list Node) : NodePool :=
  nodePool_with_status (status_with_nodes (nodesInNodePool (getNodesSituation nodePoolNodes))) nodePool.

Definition setCondition (type_ reason message : string) (value : bool) (nodePool : NodePool) : NodePool :=
  nodePool_with_status (status_with_conditions (SetNodePoolCondition
    {| npcType := type_; npcStatus := SetConditionStatusValue value; npcReason := reason; npcMessage := message |}))
    nodePool.

Definition addOrUpdateNodePoolTopologyMismatchCondition (mismatchNodes : list Node) (nodePool : NodePool) : NodePool :=
  setCondition (NodeTopologyMismatchType) (NodeTopologyMismatchReason) ""
    (bool_decide (0 < length mismatchNodes)) nodePool.

Definition addOrUpdateProjectsReferenceCondition (referencingProjects : list string) (nodePool : NodePool) : NodePool :=
  let hasReferences := bool_decide (0 < length referencingProjects) in
  setCondition (ProjectReferencesExistType) (ProjectReferencesExistReason)
    (if hasReferences then getProjectsReferenceMessage referencingProjects else "") hasReferences nodePool.

Definition setNodePoolNrtHealthCondition (missingItems : list string) (nodePool : NodePool) : NodePool :=
  setCondition (NodePoolMissingNrtHealthyPrerequisiteType) (NodePoolMissingNrtHealthyPrerequisiteReason)
    (nrtNodePoolPrereqMessage missingItems) (bool_decide (0 < length missingItems)) nodePool.

Definition unschedulableByUs (node : Node) : bool :=
  bool_decide (is_Some (nodeLabels node !! UnschedulableLabelKey cfg)) && Unschedulable node.

(** Waiting for drain, unschedulable by this controller, not ready. *)
Definition getNodesFullSituationForFullPhaseMessage (nodePool : NodePool) (nodePoolNodes : list Node)
    : kube (result (list string * list string * list string)) :=
  waiting <-? getNodesAssignedToNodePoolWaitingForDrain cfg nodePool ;;
  let nodesUnschedulableByUs := nodeName <$> filter (fun n => unschedulableByUs n = true) nodePoolNodes in
  let nodesNotReady :=
    nodeName <$> filter (fun n => unschedulableByUs n = false /\ isNodeReady n = false) nodePoolNodes in
  let nodePoolNodeNames := nodeName <$> nodePoolNodes in
  Ret (inr (sortStrings (Difference waiting nodePoolNodeNames), sortStrings nodesUnschedulableByUs,
            sortStrings nodesNotReady)).

Definition phaseMessagePart (format : string) (names : list string) : list string :=
  match names with [] => [] | _ => [sprintf format [String.concat ", " names]] end.

Definition newline : string := String (Ascii.ascii_of_nat 10) "".

Definition fullStatusMessage (waiting unschedulable notReady : list string) : string :=
  String.concat (newline +:+ newline)
    (phaseMessagePart NodesAssignedToThisNodePoolWaitingForDrainMessage waiting
     ++ phaseMessagePart NodesAssignedToDifferentNodePoolWaitingForDrainMessage unschedulable
     ++ phaseMessagePart NodesNotReadyMessage notReady).

Definition getFullStatusMessageForNodePool (nodePool : NodePool) (nodePoolNodes : list Node) : kube string :=
  r <- getNodesFullSituationForFullPhaseMessage nodePool nodePoolNodes ;;
  match r with
  | inl _ => Ret ""
  | inr (waiting, unschedulable, notReady) => Ret (fullStatusMessage waiting unschedulable notReady)
  end.

Definition getNodePoolStatusByNodes (nodePool : NodePool) (nodePoolNodes : list Node) : kube (NodePool * result unit) :=
  let situation := getNodesSituation nodePoolNodes in
  let missing := missingNrtPrerequisiteItems situation in
  let phase := nodePoolPhaseForNodeSituation (atLeastOneNodeReady situation) (atLeastOneNodeUnschedulable situation)
                 (bool_decide (0 < length missing)) in
  message <- getFullStatusMessageForNodePool nodePool nodePoolNodes ;;
  let nodePool := nodePool_with_status (status_with_phase phase
                    (joinNodePoolStatusMessages [message; nrtNodePoolPrereqMessage missing])) nodePool in
  let nodePool := setNodePoolNrtHealthCondition missing nodePool in
  r <- getTopologyMismatchNodes nodePool nodePoolNodes ;;
  match r with
  | inl mismatchErr => Ret (nodePool_with_status (status_with_nodes (nodesInNodePool situation)) nodePool, inl mismatchErr)
  | inr mismatchNodes =>
      let nodePool := addOrUpdateNodePoolTopologyMismatchCondition mismatchNodes nodePool in
      Ret (nodePool_with_status
             (status_with_nodes (updateNodesTopologyMismatch mismatchNodes (nodesInNodePool situation))) nodePool, inr tt)
  end.

(** The node pool, and whether its scheduler is ready ([scheduler_handler.go]). *)
Definition getNodePoolStatusByScheduler (nodePool : NodePool) : kube (NodePool * result bool) :=
  r <- operandStatus cfg serviceMonitorEnabled nodePool ;;
  match r with
  | inl err => Ret (nodePool, inl (Wrapf "get status of scheduler for nodepool <%v> error: %w" [Name (npMeta nodePool)] err))
  | inr status =>
      let message := sprintf "%v, reason: %v" [SchedulerNotReadyMessage; String.concat ", " (Reasons status)] in
      Ret (if negb (Ready status)
           then nodePool_with_status (status_with_phase NodePoolUnschedulable message) nodePool else nodePool,
           inr (Ready status))
  end.

Definition calculateNodePoolStatus (nodePool : NodePool) (nodePoolNodes : list Node) : kube (NodePool * result unit) :=
  r <- getNodePoolStatusByScheduler nodePool ;;
  match r with
  | (nodePool, inl err) =>
      let message := match asUnresolvable err with
                     | Some unresolvable => sprintf "%v, reason: %v" [SchedulerNotReadyMessage; errorText unresolvable]
                     | None => SchedulerNotReadyMessage
                     end in
      Ret (getNodesStatusForNodePool (nodePool_with_status (status_with_phase NodePoolUnschedulable message) nodePool)
             nodePoolNodes, inr tt)
  | (nodePool, inr schedulerReady) =>
      if negb schedulerReady then Ret (getNodesStatusForNodePool nodePool nodePoolNodes, inr tt)
      else getNodePoolStatusByNodes nodePool nodePoolNodes
  end.

Definition hasMNNVLLabel (labels : gmap string string) (labelKey : string) : bool :=
  bool_decide (is_Some (labels !! labelKey)).

Definition calculateGPUNetworkAccelerationDetected (nodePool : NodePool) (nodes : list Node) : bool :=
  let labelKey := getGPUNetworkAccelerationLabelKey nodePool in
  if getGPUNetworkAccelerationDetection nodePool ==? UseGPUNetworkAcceleration then true
  else if getGPUNetworkAccelerationDetection nodePool ==? AutoGPUNetworkAccelerationDetection
       then existsb (fun node => hasMNNVLLabel (nodeLabels node) labelKey) nodes
  else false.

Definition formatBool (b : bool) : string := if b then "true" else "false".

Definition updateAnnotationStatusFields (nodePool : NodePool) (nodePoolNodes : list Node) : kube (result unit) :=
  if getGPUNetworkAccelerationDetection nodePool ==? "" then Ret (inr tt)
  else
    let detected := formatBool (calculateGPUNetworkAccelerationDetected nodePool nodePoolNodes) in
    if Annotations (npMeta nodePool) !! AnnotationGPUNetworkAccelerationDetected ==? Some detected then Ret (inr tt)
    else
      _ <-? call (Patch KNodePool nodePool (nodePool_with_meta (meta_with_annotations
                    <[AnnotationGPUNetworkAccelerationDetected := detected]>) nodePool)) ;;
      Ret (inr tt).

Definition reconcileNodePoolStatus (nodePool : NodePool) (nodePoolNodes : list Node) : kube (result unit) :=
  let nodePoolNodes := filterNodePoolNodes cfg rangeOrder nodePoolNodes nodePool in
  r1 <- calculateNodePoolStatus nodePool nodePoolNodes ;;
  r2 <- updateNodePoolStatusIfNeeded r1.1 nodePool ;;
  r3 <- updateAnnotationStatusFields r2.1 nodePoolNodes ;;
  Ret (errorOf (AppendErrIfNotNil (AppendErrIfNotNil (AppendErrIfNotNil [] r1.2) r2.2) r3)).

Definition reconcileNodePool (nodePool : NodePool) : kube (result unit) :=
  r1 <- reconcileNodes nodePool ;;
  r2 <- reconcileScheduler cfg params serviceMonitorEnabled nodePool ;;
  r3 <- reconcileNodePoolStatus nodePool r1.1 ;;
  Ret (errorOf (AppendErrIfNotNil (AppendErrIfNotNil (AppendErrIfNotNil [] r1.2) r2) r3)).

(** ** Deletion ([nodepool_handler.go], [finalizer.go]) *)

Definition reassignNodeForDeletingNodePool (nodePool : NodePool) : kube (list Node * result unit) :=
  let nodePoolName := Name (npMeta nodePool) in
  r <- getNodePoolNodes cfg nodePoolName ;;
  match r with
  | inl err => Ret ([], inl err)
  | inr [] => Ret ([], inr tt)
  | inr nodes =>
      r <- getAvailableNodePools ;;
      match r with
      | inl err => Ret ([], inl err)
      | inr nodePools =>
          let nodePools := DeleteFromNodePoolList nodePools nodePool in
          r <- overNodes (fun node =>
                 r <- findAndChangeNodePoolForNode cfg rangeOrder node nodePoolName nodePools ;;
                 Ret (r.1, errorsOf r.2.2)) nodes [] [] ;;
          Ret (listed r)
      end
  end.

Definition handleNodePoolDeletion := reassignNodeForDeletingNodePool.

Definition cleanupDeletedNodePool (nodePool : NodePool) : kube (result unit) :=
  r <- getNodePoolNodes cfg (Name (npMeta nodePool)) ;;
  match r with
  | inl err => Ret (inl err)
  | inr nodes =>
      r <- overNodes (fun node =>
             r <- UpdateNodeLabels node [] [NodePoolNameLabel cfg] ;; Ret (r.1, errorsOf r.2)) nodes [] [] ;;
      Ret (errorOf r.2)
  end.

Definition getNodePoolDeletionStatus (nodePool : NodePool) (nodePoolNodes : list Node)
    : kube (NodePool * result unit) :=
  let situation := getNodesSituation nodePoolNodes in
  r <- getProjectsReferencingNodePool (Name (npMeta nodePool)) ;;
  match r with
  | inl err => Ret (nodePool, inl err)
  | inr referencingProjects =>
      let nodePoolPhase :=
        if atLeastOneNodeUnschedulable situation || bool_decide (0 < length referencingProjects)
        then NodePoolDeleting else NodePoolEmpty in
      let nodePool := addOrUpdateProjectsReferenceCondition referencingProjects nodePool in
      let statusMessage := filter (fun m => m <> "")
        [getNodePoolDeletingMessage (unschedulableNodes situation); getProjectsReferenceMessage referencingProjects] in
      Ret (nodePool_with_status (status_with_nodes (nodesInNodePool situation))
             (nodePool_with_status (status_with_phase nodePoolPhase (String.concat newline statusMessage)) nodePool),
           inr tt)
  end.

(** The node pool, the phase and the error. *)
Definition updateNodePoolStatusOnDeletion (nodePool : NodePool) (nodePoolNodes : list Node)
    : kube (NodePool * (NodePoolPhase * result unit)) :=
  r1 <- getNodePoolDeletionStatus nodePool nodePoolNodes ;;
  let phase := npPhase r1.1 in
  r2 <- updateNodePoolStatusIfNeeded r1.1 nodePool ;;
  Ret (r2.1, (phase, errorOf (AppendErrIfNotNil (AppendErrIfNotNil [] r1.2) r2.2))).

(** The nodes are set on the node pool that is compared, not on the one that
    is written. *)
Definition updateNodePoolStatusOnDeletionError (nodePool : NodePool) (nodePoolNodes : list Node) : kube (result unit) :=
  let nodePoolWithUpdatedStatus :=
    nodePool_with_status (status_with_phase NodePoolDeleting ErrorDeletingMessage) nodePool in
  let nodePool := getNodesStatusForNodePool nodePool nodePoolNodes in
  r <- updateNodePoolStatusIfNeeded nodePoolWithUpdatedStatus nodePool ;;
  Ret r.2.

(** The finalizers are set on the object before the patch is sent. *)
Definition updateNodePoolFinalizers (nodePool : NodePool) (finalizers : list string) : kube (NodePool * result unit) :=
  let modified := nodePool_with_meta (meta_with_finalizers (fun _ => finalizers)) nodePool in
  r <- call (Patch KNodePool nodePool modified) ;;
  match r with inl err => Ret (modified, inl err) | inr stored => Ret ((stored : NodePool), inr tt) end.

Definition addControllerAsFinalizerIfNeeded (nodePool : NodePool) : kube (NodePool * result unit) :=
  if IsItemInList (Finalizers (npMeta nodePool)) (FinalizerName cfg) then Ret (nodePool, inr tt)
  else updateNodePoolFinalizers nodePool (Finalizers (npMeta nodePool) ++ [FinalizerName cfg]).

Definition deleteFinalizer (nodePool : NodePool) : kube (result unit) :=
  r <- updateNodePoolFinalizers nodePool (DeleteFromList (Finalizers (npMeta nodePool)) (FinalizerName cfg)) ;;
  match r.2 with
  | inl err => if negb (IsNotFound err) then Ret (inl err) else Ret (inr tt)
  | inr _ => Ret (inr tt)
  end.

Definition getOwnerResource (ref : UninstallDetectionRef) : kube (result (option Z)) :=
  call (GetUnstructured (refGroup ref) (refVersion ref) (refKind ref) (refKey ref)).

(** Whether the installing operator is going away: its resource is gone or is
    being deleted.  Any other failed read means no. *)
Definition ownerUninstalled : kube bool :=
  match UninstallDetection params with
  | None => Ret false
  | Some ref =>
      r <- getOwnerResource ref ;;
      match r with
      | inl err => Ret (IsNotFound err)
      | inr deletionTimestamp => Ret (bool_decide (is_Some deletionTimestamp))
      end
  end.

Definition handleNodePoolDeletionOnOwnerUninstall (nodePool : NodePool) : kube bool :=
  uninstalled <- ownerUninstalled ;;
  if negb uninstalled then Ret false
  else
    _ <- deleteFinalizer nodePool ;;
    _ <- cleanupDeletedNodePool nodePool ;;
    Ret true.

Definition finalize (nodePool : NodePool) : kube (result unit) :=
  if negb (IsItemInList (Finalizers (npMeta nodePool)) (FinalizerName cfg)) then Ret (inr tt)
  else
    isNodePoolDeleted <- handleNodePoolDeletionOnOwnerUninstall nodePool ;;
    if (isNodePoolDeleted : bool) then Ret (inr tt)
    else
      r <- handleNodePoolDeletion nodePool ;;
      match r with
      | (resultNodes, inl err) =>
          innerErr <- updateNodePoolStatusOnDeletionError nodePool resultNodes ;;
          let err := match innerErr with inl e => Joined (appendErr (appendErr [] err) e) | inr _ => err end in
          Ret (inl (Wrapf "errors encountered during deletion of nodepool <%v>, error: %w" [Name (npMeta nodePool)] err))
      | (resultNodes, inr _) =>
          r <- updateNodePoolStatusOnDeletion nodePool resultNodes ;;
          let '(nodePool, (phase, err)) := r in
          match err with
          | inl err =>
              Ret (inl (Textf "errors encountered during deletion of nodepool <%v>, error: %v"
                          [Name (npMeta nodePool)] err))
          | inr _ =>
              if phase !=? NodePoolDeleting then deleteFinalizer nodePool
              else Ret (inl (Joined (appendErr [] (Errorf "NodePool <%v> is in 'Deleting' phase" [Name (npMeta nodePool)]))))
          end
      end.

(** ** [NodePoolController.Reconcile] *)

Definition getNodePoolForRequest (req : NamespacedName) : kube (result (option NodePool)) :=
  r <- call (Get KNodePool req) ;;
  match r with
  | inr nodePool => Ret (inr (Some (nodePool : NodePool)))
  | inl err => if IsNotFound err then Ret (inr None) else Ret (inl err)
  end.

Definition Reconcile (req : NamespacedName) : kube (Result * result unit) :=
  r <- getNodePoolForRequest req ;;
  match r with
  | inl err => Ret ({| Requeue := false; RequeueAfter := 0 |}, inl err)
  | inr None => Ret ({| Requeue := false; RequeueAfter := 0 |}, inr tt)
  | inr (Some nodePool) =>
      err <- match DeletionTimestamp (npMeta nodePool) with
             | None =>
                 r <- addControllerAsFinalizerIfNeeded nodePool ;;
                 match r with
                 | (_, inl err) => Ret (inl err)
                 | (nodePool, inr _) => reconcileNodePool nodePool
                 end
             | Some _ => finalize nodePool
             end ;;
      Ret ({| Requeue := false; RequeueAfter := 0 |}, err)
  end.

(** ** Events ([nodepool_event_filter.go], [nodepool_controller.go]) *)

Definition FilterNodeUpdatesForNPController (nodeOld nodeNew : Node) : bool :=
  (nodePhase nodeOld !=? nodePhase nodeNew) || negb (Bool.eqb (Unschedulable nodeOld) (Unschedulable nodeNew))
  || (nodeLabels nodeOld !=? nodeLabels nodeNew).

Definition getProjectNodePoolRefs (project : Project) : gset string := list_to_set (qcNodepool <$> prjQueues project).

Definition filterUpdateEvents (K : Kind) : obj K -> obj K -> bool :=
  match K return obj K -> obj K -> bool with
  | KServiceMonitor | KSchedulingShard | KNodePool => fun _ _ => true
  | KNode => FilterNodeUpdatesForNPController
  | KProject => fun old new => getProjectNodePoolRefs old !=? getProjectNodePoolRefs new
  | _ => fun _ _ => false
  end.

Definition isDeletingPhase (nodePool : NodePool) : bool :=
  bool_decide (is_Some (DeletionTimestamp (npMeta nodePool))) || (npPhase nodePool ==? NodePoolDeleting).

Definition NodePoolIsDeletingPhaseIndexer (nodePool : NodePool) : list string := [formatBool (isDeletingPhase nodePool)].

Definition PodRunningWithKaiSchedulerNodeNameIndexer (pod : Pod) : list string :=
  [if (podSchedulerName pod ==? SchedulerName cfg) && isPodBoundToNode pod then podNodeName pod else ""].

Definition SchedulingShardPartitionIndexer (shard : SchedulingShard) : list string :=
  [PartitionLabelValue (shardSpec shard)].

(** [strings.Contains(s, substr)]. *)
Definition containsString (substr s : string) : bool :=
  match String.index 0 substr s with Some _ => true | None => false end.

Definition nodeNameWithSuffixesToSearchFor (name : string) : list string := (fun suffix => name +:+ suffix) <$> [" "; ","; "."].

Definition isNodeInNodepoolStatusMessage (nodeNameWithSuffixes : list string) (status : NodePoolStatus) : bool :=
  existsb (fun n => containsString n (npsMessage status)) nodeNameWithSuffixes.

(** Whether a node event also concerns this pool. *)
Definition isOtherDestNodePool (node : Node) (nodePoolAlreadyInRequests : string) (nodePool : NodePool) : bool :=
  if Name (npMeta nodePool) ==? nodePoolAlreadyInRequests then false
  else if negb (unschedulableByUs node)
          && isNodeInNodepoolStatusMessage (nodeNameWithSuffixesToSearchFor (nodeName node)) (npStatus nodePool) then true
  else if negb (unschedulableByUs node) then false
  else if (LabelKey nodePool ==? "") || (LabelValue nodePool ==? "")
          || bool_decide (is_Some (DeletionTimestamp (npMeta nodePool))) then false
  else mapGet (nodeLabels node) (LabelKey nodePool) ==? LabelValue nodePool.

(** Requests are the names of node pools. *)
Definition mapNodeToOtherDestNodePools (node : Node) (nodePoolAlreadyInRequests : string) : kube (list string) :=
  r <- call (List KNodePool listAll) ;;
  match r with
  | inl _ => Ret []
  | inr nodePools =>
      let requests := (Name ∘ npMeta) <$>
        filter (fun nodePool => isOtherDestNodePool node nodePoolAlreadyInRequests nodePool = true) (nodePools : list NodePool) in
      Ret (if unschedulableByUs node && (length requests ==? 0) then [DefaultNodepoolName cfg] else requests)
  end.

Definition MapNodeToNodePoolEvent (node : Node) : kube (list string) :=
  let nodePoolName := nodePoolNameOfLabels cfg (nodeLabels node) in
  if nodePoolName ==? ExcludedNodepoolName cfg then Ret []
  else
    r <- ListPartitionLabelValues ;;
    if match r with inl _ => false | inr unmanaged => bool_decide (nodePoolName ∈ unmanaged) end then Ret []
    else
      r <- call (Get KNodePool ("", nodePoolName)) ;;
      let nodePoolName := match r with inl _ => DefaultNodepoolName cfg | inr _ => nodePoolName end in
      others <- mapNodeToOtherDestNodePools node nodePoolName ;;
      Ret (nodePoolName :: others).

Definition MapNrtToNodePoolEvent (name : string) : kube (list string) :=
  r <- call (Get KNode ("", name)) ;;
  match r with
  | inl _ => Ret []
  | inr node => MapNodeToNodePoolEvent node
  end.

Definition MapProjectToNodePoolEvents : kube (list string) :=
  r <- listNodePoolsWithFieldSelector IsDeletingPhaseField "true" ;;
  match r with
  | inl _ => Ret []
  | inr deletingNodePools => Ret ((Name ∘ npMeta) <$> (deletingNodePools : list NodePool))
  end.

End Controller.
