(* ===== verification/NodePoolMetrics.v ===== *)
(** * Metrics of nodes and node pools

    [pkg/nodepool-controller/nodepool_controller/metrics_handler.go] and
    [metrics/metrics.go]: a gauge per node and node pool, 1 for the pool the
    node is in.  A read that fails ends the process ([log.Fatal]) and a wrong
    type assertion panics; both are errors here. *)

From stdpp Require Import base list gmap strings.
From S2P Require Import Prelude ApiTypes NodePoolUtils NodePoolCommon Nodes NodePools.

(** The gauge vector, by node and node pool. *)
Notation Gauges := (gmap (string * string) Z) (only parsing).

Definition SetNodeNodePool (nodeName nodePoolName : string) (g : Gauges) : Gauges := <[(nodeName, nodePoolName) := 1%Z]> g.
Definition RemoveNodeNodePool (nodeName nodePoolName : string) (g : Gauges) : Gauges := <[(nodeName, nodePoolName) := 0%Z]> g.

(** What an informer hands to its handlers: an object, or the tombstone of an
    object whose deletion was missed. *)
Inductive InformerObject := NodeObject (node : Node) | DeletedFinalStateUnknown (key : string).

Inductive InformerEvent :=
| AddFunc (object : InformerObject)
| DeleteFunc (object : InformerObject)
| UpdateFunc (oldObject newObject : InformerObject).

(** [object.( *corev1.Node )] *)
Definition assertNode (object : InformerObject) : result Node :=
  match object with
  | NodeObject node => inr node
  | DeletedFinalStateUnknown _ => inl (RuntimePanic "interface conversion")
  end.

Definition fatal (message : string) : error := Errorf message [].

Section Metrics.
Context (cfg : NodePoolControllerConfig).

Definition updateNodeMetrics (node : Node) (nodePools : list NodePool) (g : Gauges) : Gauges :=
  let currentNodePoolName := nodePoolNameOfLabels cfg (nodeLabels node) in
  foldl (fun g otherNodePool =>
           if Name (npMeta otherNodePool) !=? currentNodePoolName
           then RemoveNodeNodePool (nodeName node) (Name (npMeta otherNodePool)) g else g)
    (SetNodeNodePool (nodeName node) currentNodePoolName g) nodePools.

Definition removePreviousNodePoolInCaseItWasDeleted (oldEventNode : option Node) (newEventNode : Node)
    (nodePools : list NodePool) (g : Gauges) : Gauges :=
  match oldEventNode with
  | None => g
  | Some oldEventNode =>
      let previous := nodePoolNameOfLabels cfg (nodeLabels oldEventNode) in
      let current := nodePoolNameOfLabels cfg (nodeLabels newEventNode) in
      if previous ==? current then g
      else if existsb (fun nodePool => Name (npMeta nodePool) ==? previous) nodePools then g
      else RemoveNodeNodePool (nodeName newEventNode) previous g
  end.

Definition setMetricsOnAddUpdate (oldEventNode : option Node) (newEventNode : Node) (g : Gauges) : kube (result Gauges) :=
  r <- call (List KNode listAll) ;;
  match r with
  | inl _ => Ret (inl (fatal "error encountered during metrics update - get nodes, error: %v"))
  | inr nodes =>
      r <- call (List KNodePool listAll) ;;
      match r with
      | inl _ => Ret (inl (fatal "error encountered during metrics update - get nodepools, error: %v"))
      | inr nodePools =>
          let g := foldl (fun g node => updateNodeMetrics node nodePools g) g (nodes : list Node) in
          Ret (inr (removePreviousNodePoolInCaseItWasDeleted oldEventNode newEventNode nodePools g))
      end
  end.

Definition setMetricsOnDelete (node : Node) (g : Gauges) : kube (result Gauges) :=
  r <- call (List KNodePool listAll) ;;
  match r with
  | inl _ => Ret (inl (fatal "error encountered during metrics update - get nodepools, error: %v"))
  | inr nodePools =>
      Ret (inr (foldl (fun g nodePool => RemoveNodeNodePool (nodeName node) (Name (npMeta nodePool)) g) g
                  (nodePools : list NodePool)))
  end.

Inductive EventType := Added | Modified | Removed.

Definition handleNodeChange (oldNode : option Node) (newNode : Node) (eventType : EventType) (g : Gauges)
    : kube (result Gauges) :=
  match eventType with
  | Added => setMetricsOnAddUpdate None newNode g
  | Modified => setMetricsOnAddUpdate oldNode newNode g
  | Removed => setMetricsOnDelete newNode g
  end.

(** The event handlers that [Start] registers. *)
Definition handleEvent (e : InformerEvent) (g : Gauges) : kube (result Gauges) :=
  match e with
  | AddFunc object =>
      match assertNode object with
      | inl err => Ret (inl err)
      | inr node => handleNodeChange None node Added g
      end
  | DeleteFunc object =>
      match assertNode object with
      | inl err => Ret (inl err)
      | inr node => handleNodeChange None node Removed g
      end
  | UpdateFunc oldObject newObject =>
      match assertNode oldObject, assertNode newObject with
      | inr oldNode, inr newNode =>
          if negb (FilterNodeUpdatesForNPController oldNode newNode) then Ret (inr g)
          else handleNodeChange (Some oldNode) newNode Modified g
      | inl err, _ | _, inl err => Ret (inl err)
      end
  end.

End Metrics.
