(* ===== verification/NodeFacts.v ===== *)
(** * Properties of the nodes of a node pool

    A node changes its pool only after the check for running pods of its old
    pool found none; what that check sees and what it misses; the health
    condition of a node. *)

From stdpp Require Import base list gmap strings.
From S2P Require Import Prelude ApiTypes NodePoolUtils NodePoolCommon Shards Nodes NodePools.

(** The order in which Go ranges over a map is some order of its entries. *)
Definition isRangeOrder (rangeOrder : forall A, gmap string A -> list (string * A)) : Prop :=
  forall A (m : gmap string A), rangeOrder A m ≡ₚ map_to_list m.

Section MoveProps.
Context {L : LabelsLib} {LL : LabelsLaws L} {M : MetaLib} {Sch : SchedulerAPI} {api : NodePoolAPI}.
Context (cfg : NodePoolControllerConfig) (params : NodePoolControllerParams).
Context (nrtEnabled serviceMonitorEnabled : bool).
Context (rangeOrder : forall A, gmap string A -> list (string * A)) (errorText : error -> string).

(** A write that changes the pool label of a node, also by removing it: the name
    of the node. *)
Definition relabels (e : event KubeCall) : option string :=
  match ev_call e with
  | Patch KNode o m =>
      if nodeLabels m !! NodePoolNameLabel cfg ==? nodeLabels o !! NodePoolNameLabel cfg then None else Some (nodeName o)
  | Update KNode o | Create KNode o => Some (nodeName o)
  | _ => None
  end.

(** The pool a node is in, by its label. *)
Definition poolOfNode (node : Node) : string := nodePoolNameOfLabels cfg (nodeLabels node).

(** The API does not rename a node that is patched. *)
Definition keepsNodeName : forall X, KubeCall X -> X -> Prop := fun X c =>
  match c in KubeCall X return X -> Prop with
  | Patch K o _ | PatchStatus K o _ =>
      match K return obj K -> result (obj K) -> Prop with
      | KNode => fun o r => match r with inr n => nodeName n = nodeName o | inl _ => True end
      | _ => fun _ _ => True
      end o
  | _ => fun _ => True
  end.

Definition namesKept (tr : list (event KubeCall)) : Prop :=
  Forall (fun e => keepsNodeName _ (ev_call e) (ev_reply e)) tr.

(** A list of nodes is answered with nodes that its selector matches, and a node
    pool is answered with a name. *)
Definition answersAsked (e : event KubeCall) : Prop :=
  match e with
  | Event (List KNode opts) r =>
      match r with
      | inr nodes => forall node, node ∈ (nodes : list Node) ->
          Forall (fun requirement => Matches requirement (nodeLabels node) = true) (loLabelSelector opts)
      | inl _ => True
      end
  | Event (Get KNodePool _) r | Event (Patch KNodePool _ _) r =>
      match r with inr nodePool => Name (npMeta nodePool) <> "" | inl _ => True end
  | _ => True
  end.

Definition faithful (tr : list (event KubeCall)) : Prop := namesKept tr /\ Forall answersAsked tr.

(** The node was read in the run. *)
Definition readNode (node : Node) (e : event KubeCall) : Prop :=
  match e with
  | Event (List KNode _) r => match r with inr nodes => node ∈ (nodes : list Node) | inl _ => False end
  | Event (Get KNode _) r => r = inr node
  | _ => False
  end.
Definition wasRead (tr : list (event KubeCall)) (node : Node) : Prop := exists e, e ∈ tr /\ readNode node e.

Lemma faithful_app tr1 tr2 : faithful (tr1 ++ tr2) <-> faithful tr1 /\ faithful tr2.
Proof. unfold faithful, namesKept. rewrite !Forall_app. tauto. Qed.

Lemma wasRead_app tr1 tr2 node : wasRead (tr1 ++ tr2) node <-> wasRead tr1 node \/ wasRead tr2 node.
Proof.
  unfold wasRead. split.
  - intros (e & [He|He]%elem_of_app & Hr); eauto.
  - intros [(e & He & Hr)|(e & He & Hr)]; exists e; rewrite elem_of_app; auto.
Qed.

(** ** Programs that never move a node *)

(** No call of the program changes the pool label of a node. *)
Definition noMove : forall X, KubeCall X -> Prop := fun X c =>
  match c with
  | Patch KNode o m => nodeLabels m !! NodePoolNameLabel cfg = nodeLabels o !! NodePoolNameLabel cfg
  | Update KNode _ | Create KNode _ => False
  | _ => True
  end.

Lemma noMove_event e : noMove _ (ev_call e) -> relabels e = None.
Proof.
  unfold relabels. destruct (ev_call e) as [| | | | |K o|K o| |K o m| | | | |]; try done; destruct K; try done.
  simpl. intros H. by rewrite bool_decide_true.
Qed.

Lemma patchNode_noMove node modified :
  noMove _ (Patch KNode node modified) -> issues noMove (patchNode node modified).
Proof. intros H. apply issues_bind; [by apply issues_call|]. by intros [err|stored]. Qed.

Lemma patchNodeStatus_noMove node modified : issues noMove (patchNodeStatus node modified).
Proof. apply issues_bind; [by apply issues_call|]. by intros [err|stored]. Qed.

(** A merge patch leaves the keys alone that it does not name. *)
Lemma mergePatchMap_other changes m key : key ∉ changes.*1 -> mergePatchMap changes m !! key = m !! key.
Proof.
  unfold mergePatchMap. revert m. induction changes as [|[k v] changes IH]; intros m Hk; [done|].
  rewrite fmap_cons in Hk. apply not_elem_of_cons in Hk as [Hne Hk]. simpl in *. rewrite IH by done.
  destruct v; [by rewrite lookup_insert_ne|by rewrite lookup_delete_ne].
Qed.

Lemma updateNodeLabels_noMove node add remove :
  NodePoolNameLabel cfg ∉ add.*1 -> NodePoolNameLabel cfg ∉ remove -> issues noMove (UpdateNodeLabels node add remove).
Proof.
  intros Hadd Hrem. apply patchNode_noMove. apply mergePatchMap_other.
  rewrite fmap_app, elem_of_app, <- !list_fmap_compose, !list_elem_of_fmap.
  intros [(x & Hx & Hin)|(x & Hx & Hin)]; simpl in Hx; [|congruence].
  apply Hadd, list_elem_of_fmap. by exists x.
Qed.

Lemma patchNodeUnschedulable_noMove node b :
  UnschedulableLabelKey cfg <> NodePoolNameLabel cfg -> issues noMove (patchNodeUnschedulable cfg node b).
Proof.
  intros Hne. apply patchNode_noMove. cbn [noMove]. unfold nodeLabels. cbn [nodeMeta node_with_unschedulable node_with_meta Labels].
  apply mergePatchMap_other. cbn. rewrite list_elem_of_singleton. congruence.
Qed.

Hypothesis keysDiffer : UnschedulableLabelKey cfg <> NodePoolNameLabel cfg.

Lemma validateNodeLabeled_noMove node b : issues noMove (validateNodeLabeledWithUnschedulable cfg node b).
Proof.
  unfold validateNodeLabeledWithUnschedulable. destruct b; case_bool_decide; simpl; try done;
    apply updateNodeLabels_noMove; set_solver.
Qed.

Lemma updateNodeUnschedulable_noMove node b : issues noMove (updateNodeUnschedulableIfNeeded cfg node b).
Proof.
  unfold updateNodeUnschedulableIfNeeded. case_bool_decide.
  - apply issues_bind; [apply validateNodeLabeled_noMove|done].
  - destruct (negb b && _); [done|]. by apply patchNodeUnschedulable_noMove.
Qed.

Lemma filterGroups_reads groups filteredPods : reads_only (filterGroups cfg groups filteredPods).
Proof.
  revert filteredPods. induction groups as [|[g pods] groups IH]; intros filteredPods; [done|].
  apply reads_bind; [by apply reads_call|]. intros [err|pg]; apply IH.
Qed.

Lemma arePodsRunning_reads name pool same : reads_only (arePodsRunningWithNodePool cfg rangeOrder name pool same).
Proof.
  apply reads_try; [|by intros ?]. unfold getRunningPodsWithNodePoolOnNode.
  destruct (if same then _ else _) as [err|req]; [done|]. apply reads_bind; [by apply reads_call|].
  intros [err|pods]; [done|]. apply reads_bind; [apply filterGroups_reads|done].
Qed.

Lemma validateNodeStatus_noMove same node pool : issues noMove (validateNodeStatus cfg rangeOrder same node pool).
Proof.
  apply issues_bind.
  - apply issues_reads; [by intros X []|apply arePodsRunning_reads].
  - intros [err|[]]; [done| |]; (apply issues_bind; [apply updateNodeUnschedulable_noMove|by intros [? []]]).
Qed.

(** Structural proof that no call of a program moves a node. *)
Ltac noMove_step :=
  match goal with
  | |- issues noMove (prog_bind_ _ _) => apply issues_bind; [|intros ?]
  | |- issues noMove (try_bind _ _) => apply issues_try; [|intros ?]
  | |- issues noMove (call _) => apply issues_call; exact I
  | |- issues noMove (Ret _) => apply issues_ret
  | |- issues noMove (match ?x with _ => _ end) => destruct x
  | |- issues noMove (let '(_, _) := ?x in _) => destruct x
  end.
Ltac noMove_tac := repeat (cbv beta zeta; noMove_step).

Lemma resourcesForNodePool_noMove nodePool :
  issues noMove (resourcesForNodePool cfg params serviceMonitorEnabled nodePool).
Proof.
  unfold resourcesForNodePool, resourceFunctions, SchedulingShardForNodePool, ServiceMonitorForNodePool,
    shardNameForNodePool, resolveOwnedShardForNodePool, ResolveShardForNodePool, ListShardsWithPartitionLabelValue,
    GetOrInitShardNamedAfterNodePool.
  destruct serviceMonitorEnabled; cbn [callInTurn]; noMove_tac.
Qed.

Lemma reconcileScheduler_noMove nodePool :
  issues noMove (reconcileScheduler cfg params serviceMonitorEnabled nodePool).
Proof.
  apply wp_bind, wp_bind. eapply wp_mono; [|apply resourcesForNodePool_noMove].
  intros [err|resources] _; [done|]. apply issues_bind; [|intros []; simpl; noMove_tac].
  induction resources as [|resource resources IH]; [done|]. cbn [CreateOrUpdateResources].
  destruct (ownResource nodePool resource) as [err|owned]; [done|].
  apply issues_bind; [unfold CreateOrUpdateIfNeeded, createOrUpdateOf; noMove_tac|].
  intros [err|[]]; [|done]. by destruct (negb _).
Qed.

Lemma operandStatus_noMove nodePool : issues noMove (operandStatus cfg serviceMonitorEnabled nodePool).
Proof.
  unfold operandStatus, resourceStatusFunctions, SchedulingShardStatus, ServiceMonitorStatus, ServiceMonitorForNodePool,
    shardNameForNodePool, resolveOwnedShardForNodePool, ResolveShardForNodePool, ListShardsWithPartitionLabelValue.
  destruct serviceMonitorEnabled; cbn [callInTurn]; noMove_tac.
Qed.

Lemma listNodes_noMove requirements : issues noMove (listNodes requirements).
Proof.
  unfold listNodes. generalize (@nil Requirement) as built.
  induction requirements as [|[err|r] requirements IH]; intros built; [by apply issues_call|done|apply IH].
Qed.

Lemma updateStatusIfNeeded_noMove updated nodePool : issues noMove (updateNodePoolStatusIfNeeded updated nodePool).
Proof. unfold updateNodePoolStatusIfNeeded, updateNodePoolStatus. noMove_tac. Qed.

Lemma reconcileStatus_noMove nodePool nodes :
  issues noMove (reconcileNodePoolStatus cfg serviceMonitorEnabled rangeOrder errorText nodePool nodes).
Proof.
  apply issues_bind; [|intros r1; apply issues_bind; [apply updateStatusIfNeeded_noMove|intros r2]].
  - apply issues_bind; [apply issues_bind; [apply operandStatus_noMove|intros []; noMove_tac]|].
    intros [pool [err|ready]]; [noMove_tac|]. destruct (negb _); [done|]. apply issues_bind; [|intros message].
    + apply issues_bind; [|intros [err|[[] ?]]; done]. apply issues_try; [|done].
      apply issues_try; [apply listNodes_noMove|done].
    + unfold getTopologyMismatchNodes, getTopologyByName. noMove_tac.
  - unfold updateAnnotationStatusFields. noMove_tac.
Qed.

Lemma handleNode_noMove nodePool node : issues noMove (handleNodeOfNodePool nrtEnabled nodePool node).
Proof.
  apply issues_bind; [|intros [node1 r1]; apply issues_bind; [|done]].
  - unfold reconcileNodeAnnotations, getTopologyManagerPolicyFromNodeNRT, getNodeResourceTopology.
    apply issues_bind; [noMove_tac|]. intros [err|policy]; [done|]. destruct (annotationsUpToDate _ _); [done|].
    by apply patchNode_noMove.
  - unfold reconcileNrtHealthCondition, getNodeResourceTopology, removeNrtCondition, ensureNrtCondition, patchNodeStatus.
    noMove_tac.
Qed.

Lemma listPartitions_noMove : issues noMove ListPartitionLabelValues.
Proof. unfold ListPartitionLabelValues. noMove_tac. Qed.

Lemma deleteFinalizer_noMove nodePool : issues noMove (deleteFinalizer cfg nodePool).
Proof. unfold deleteFinalizer, updateNodePoolFinalizers. noMove_tac. Qed.

(** ** Moves after a drain *)

(** The check that found no running pod of the pool that the node was in when
    the run read it, before the event. *)
Definition drainedBefore (known : Node -> Prop) (tr : list (event KubeCall)) (e : event KubeCall) (name : string) : Prop :=
  exists node tr1 tr2 tr3, tr = tr1 ++ tr2 ++ tr3 /\ nodeName node = name /\ (known node \/ wasRead tr1 node) /\ e ∈ tr3 /\
    exec (arePodsRunningWithNodePool cfg rangeOrder name (poolOfNode node) true) tr2 (inr false).

Section Drained.
(** Relabelling that is excused by what the run has seen. *)
Context (excused : list (event KubeCall) -> event KubeCall -> Prop).
Context (excused_app : forall tr1 tr tr2 e, excused tr e -> excused (tr1 ++ tr ++ tr2) e).

(** Every change of the pool label is excused or comes after a drain check of
    the pool that the node is in; [known] are the nodes read before. *)
Definition drained (known : Node -> Prop) {A} (p : kube A) : Prop :=
  forall tr a e name, exec p tr a -> faithful tr -> e ∈ tr -> relabels e = Some name ->
    excused tr e \/ drainedBefore known tr e name.

Lemma drained_noMove known {A} (p : kube A) : issues noMove p -> drained known p.
Proof.
  intros Hp tr a e name Hex _ He Hm. apply (issues_exec _ _ _ _ Hp) in Hex. rewrite Forall_forall in Hex.
  specialize (Hex e He). apply noMove_event in Hex. congruence.
Qed.

Lemma drainedBefore_app (known known' : Node -> Prop) tr0 tr tr' e name :
  (forall node, known node -> known' node \/ wasRead tr0 node) ->
  drainedBefore known tr e name -> drainedBefore known' (tr0 ++ tr ++ tr') e name.
Proof.
  intros Hk (node & tr1 & tr2 & tr3 & -> & Hn & Hs & He & Hc). exists node, (tr0 ++ tr1), tr2, (tr3 ++ tr').
  rewrite <- !app_assoc. split; [done|]. split; [done|]. split; [|split; [apply elem_of_app; by left|done]].
  rewrite wasRead_app. destruct Hs as [[?|?]%Hk|?]; auto.
Qed.

(** What the first program read is known to the second. *)
Lemma drained_bind_exec known {A B} (p : kube A) (f : A -> kube B) :
  drained known p ->
  (forall tr a, exec p tr a -> faithful tr -> drained (fun node => known node \/ wasRead tr node) (f a)) ->
  drained known (x <- p ;; f x).
Proof.
  intros Hp Hf tr b e name (trp & trf & a & -> & Hexp & Hexf)%exec_bind_inv [Hnp Hnf]%faithful_app [He|He]%elem_of_app Hm.
  - destruct (Hp _ _ _ _ Hexp Hnp He Hm) as [H|H].
    + left. by apply (excused_app []).
    + right. apply (drainedBefore_app known known []); auto.
  - destruct (Hf _ _ Hexp Hnp _ _ _ _ Hexf Hnf He Hm) as [H|H].
    + left. rewrite <- (app_nil_r trf). by apply excused_app.
    + right. rewrite <- (app_nil_r trf). by eapply drainedBefore_app; [|exact H].
Qed.

Lemma drained_mono (known known' : Node -> Prop) {A} (p : kube A) :
  (forall node, known node -> known' node) -> drained known p -> drained known' p.
Proof.
  intros Hk Hp tr a e name Hex Hf He Hm. destruct (Hp _ _ _ _ Hex Hf He Hm) as [H|H]; [by left|right].
  rewrite <- (app_nil_r tr). apply (drainedBefore_app known known' []); auto.
Qed.

Lemma drained_bind known {A B} (p : kube A) (f : A -> kube B) :
  drained known p -> (forall a, drained known (f a)) -> drained known (x <- p ;; f x).
Proof. intros Hp Hf. apply drained_bind_exec; [done|]. intros tr a _ _. eapply drained_mono; [|apply Hf]. auto. Qed.

Lemma drained_reads known {A} (p : kube A) : reads_only p -> drained known p.
Proof. intros Hp. apply drained_noMove, issues_reads; [|done]. intros X c. by destruct c. Qed.

Lemma drained_ret known {A} (a : A) : drained known (Ret a).
Proof. by apply drained_reads. Qed.

Lemma drained_overNodes known op nodes resultNodes errs :
  Forall (fun node => drained known (op node)) nodes -> drained known (overNodes op nodes resultNodes errs).
Proof.
  intros Hop. revert resultNodes errs. induction Hop as [|node nodes Hn _ IH]; intros resultNodes errs.
  - apply drained_ret.
  - apply drained_bind; [done|]. intros [node' es]. apply IH.
Qed.

(** ** Moving one node *)

Definition sameName (node : Node) {A} (p : kube (Node * A)) : Prop :=
  wp (C := KubeCall) (fun _ _ => True) keepsNodeName p (fun r => nodeName r.1 = nodeName node).

Lemma sameName_exec {A} node (p : kube (Node * A)) tr r :
  sameName node p -> exec p tr r -> namesKept tr -> nodeName r.1 = nodeName node.
Proof. intros Hp Hex Hn. by destruct (wp_exec _ _ _ _ _ _ Hp Hex Hn). Qed.

Lemma patchNode_sameName node modified : sameName node (patchNode node modified).
Proof. apply wp_bind, wp_call; [done|]. by intros [err|stored]. Qed.

Lemma updateNodeUnschedulable_sameName node b : sameName node (updateNodeUnschedulableIfNeeded cfg node b).
Proof.
  unfold updateNodeUnschedulableIfNeeded. case_bool_decide.
  - apply wp_bind. unfold validateNodeLabeledWithUnschedulable.
    destruct b; case_bool_decide; cbn [negb]; try done; (eapply wp_mono; [|apply patchNode_sameName]); by intros [].
  - destruct (negb b && _); [done|]. apply patchNode_sameName.
Qed.

(** A node found schedulable has no running pods of the pool. *)
Lemma exec_validateNodeStatus_true same node pool tr node' :
  exec (validateNodeStatus cfg rangeOrder same node pool) tr (node', inr true) -> namesKept tr ->
  nodeName node' = nodeName node /\
  exists tr1 tr2, tr = tr1 ++ tr2 /\ exec (arePodsRunningWithNodePool cfg rangeOrder (nodeName node) pool same) tr1 (inr false).
Proof.
  intros (tr1 & tr2 & r & -> & Hr & H)%exec_bind_inv [Hn1 Hn2]%Forall_app.
  destruct r as [err|[]]; [by destruct H as [_ [= ->]]| |];
    apply exec_bind_inv in H as (tr3 & tr4 & [node2 r2] & -> & H3 & H4); apply Forall_app in Hn2 as [Hn3 _].
  - destruct r2 as [err|[]]; by destruct H4 as [_ [= ->]].
  - assert (nodeName node2 = nodeName node) as Hname.
    { by apply (sameName_exec _ _ _ _ (updateNodeUnschedulable_sameName node false) H3). }
    destruct r2 as [err|[]]; [by destruct H4 as [_ [= ->]]|]. destruct H4 as [-> [= ->]].
    split; [done|]. by exists tr1, (tr3 ++ []).
Qed.

Lemma exec_updateNodeWithNodePoolName node pool tr r e name :
  exec (updateNodeWithNodePoolNameIfNeeded cfg node pool) tr r -> e ∈ tr -> relabels e = Some name ->
  name = nodeName node.
Proof.
  unfold updateNodeWithNodePoolNameIfNeeded. intros H He Hm.
  assert (forall add remove, exec (UpdateNodeLabels node add remove) tr r -> name = nodeName node) as Hupd.
  { intros add remove (x & tr' & -> & H'). apply elem_of_cons in He as [->|He].
    - unfold relabels in Hm. simpl in Hm. repeat case_match; congruence.
    - assert (tr' = []) as -> by (by destruct x, H' as [-> _]). by apply elem_of_nil in He. }
  case_bool_decide.
  - destruct (nodeLabels node !! _); [eauto|]. destruct H as [-> _]. by apply elem_of_nil in He.
  - case_bool_decide; [|eauto]. destruct H as [-> _]. by apply elem_of_nil in He.
Qed.

Lemma changeNodePool_drained (known : Node -> Prop) node new old pools :
  known node -> old = poolOfNode node -> drained known (changeNodePoolForNodeGeneric cfg rangeOrder node new old pools).
Proof.
  intros Hk -> tr a e name (tr1 & tr2 & [node' r] & -> & H1 & H2)%exec_bind_inv [[Hn1 Hf1] [Hn2 _]]%faithful_app [He|He]%elem_of_app Hm.
  { destruct (drained_noMove known _ (validateNodeStatus_noMove true node _) _ _ _ _ H1 (conj Hn1 Hf1) He Hm) as [H|H].
    - left. by apply (excused_app []).
    - right. by apply (drainedBefore_app known known []); auto. }
  right. destruct r as [err|[]]; [destruct H2 as [-> _]; by apply elem_of_nil in He| |destruct H2 as [-> _]; by apply elem_of_nil in He].
  destruct (exec_validateNodeStatus_true _ _ _ _ _ H1 Hn1) as (Hname & t1 & t2 & -> & Hc).
  apply exec_bind_inv in H2 as (t3 & t4 & [n u] & -> & H3 & [-> _]). rewrite app_nil_r in *.
  apply exec_updateNodeWithNodePoolName with (e := e) (name := name) in H3; [|done..]. subst name.
  exists node, [], t1, (t2 ++ t3). rewrite <- app_assoc, Hname. split_and!; [done|done|by left|set_solver|done].
Qed.

(** ** The reconcile *)

Lemma findAndMove_drained (known : Node -> Prop) old pools node :
  known node -> old = poolOfNode node -> drained known (findAndMove cfg rangeOrder old pools node).
Proof. intros Hk Ho. apply drained_bind; [by apply changeNodePool_drained|]. intros. apply drained_ret. Qed.

Lemma moveTo_drained (known : Node -> Prop) new old node :
  known node -> old = poolOfNode node -> drained known (moveTo cfg rangeOrder new old node).
Proof. intros Hk Ho. apply drained_bind; [by apply changeNodePool_drained|]. intros. apply drained_ret. Qed.

Lemma wrapper_drained known node pool : drained known (validateNodeStatusInNodePoolWrapper cfg rangeOrder node pool).
Proof. apply drained_noMove, issues_bind; [apply validateNodeStatus_noMove|]. by intros [n []]. Qed.

(** What a list of nodes answers was read, and every requirement matches it. *)
Definition matched (requirements : list (result Requirement)) (node : Node) : Prop :=
  Forall (fun r => exists requirement, r = inr requirement /\ Matches requirement (nodeLabels node) = true) requirements.

Lemma listNodesFrom_exec requirements built tr nodes :
  exec (listNodesFrom requirements built) tr (inr nodes) -> faithful tr ->
  Forall (fun node => wasRead tr node /\ matched requirements node /\
            Forall (fun r => Matches r (nodeLabels node) = true) built) nodes.
Proof.
  revert built. induction requirements as [|[err|r] requirements IH]; intros built; cbn [listNodesFrom].
  - intros (x & t & -> & [-> <-]) [_ [Ha _]%Forall_cons]. cbn in Ha. apply Forall_forall. intros node Hn. split.
    + eexists. split; [left|done].
    + split; [by apply Forall_nil|by apply Ha].
  - by intros [_ ?].
  - intros Hex Hf. eapply Forall_impl; [by apply (IH (built ++ [r]))|]. cbn beta.
    intros node (Hr & Hm & [Hb [Hlast _]%Forall_cons]%Forall_app). split; [done|]. split; [|done].
    apply Forall_cons. by split; [exists r|].
Qed.

(** The pool of a node that a selector of a pool matches. *)
Lemma selected_pool node pool requirements :
  pool <> "" -> matched (nodePoolNameMatching cfg pool :: requirements) node -> pool = poolOfNode node.
Proof.
  intros Hne [(req & Hreq & Hm) _]%Forall_cons.
  unfold nodePoolNameMatching, RequirementNodePoolNameMatching, requirementNodePoolName, newRequirement in Hreq.
  cbn [negb] in Hreq. rewrite (matches_double_equals _ _ _ _ Hreq) in Hm. apply bool_decide_eq_true in Hm.
  unfold poolOfNode, nodePoolNameOfLabels, GetNodePoolNameFromLabels. by rewrite Hm, bool_decide_false.
Qed.

Lemma selected_default node requirements :
  matched (nodePoolLabelSelector cfg (DefaultNodepoolName cfg) :: requirements) node ->
  nodeLabels node !! NodePoolNameLabel cfg = None.
Proof.
  intros [(req & Hreq & Hm) _]%Forall_cons. revert Hreq. unfold nodePoolLabelSelector, GetNodePoolLabelSelector.
  rewrite bool_decide_true by done. unfold requirementNodePoolNameDoesNotExist, requirementNodePoolName, newRequirement.
  cbn [negb]. intros Hreq. rewrite (matches_does_not_exist _ _ _ Hreq) in Hm. by apply bool_decide_eq_true in Hm.
Qed.

Lemma unlabelled_pool node : nodeLabels node !! NodePoolNameLabel cfg = None -> DefaultNodepoolName cfg = poolOfNode node.
Proof. intros Hl. unfold poolOfNode, nodePoolNameOfLabels, GetNodePoolNameFromLabels. by rewrite Hl. Qed.

Lemma selected_in_pool node pool requirements :
  pool <> "" -> matched (nodePoolLabelSelector cfg pool :: requirements) node -> pool = poolOfNode node.
Proof.
  intros Hne Hm. destruct (decide (pool = DefaultNodepoolName cfg)) as [->|Hd].
  - by eapply unlabelled_pool, selected_default.
  - eapply selected_pool; [done|]. revert Hm. unfold nodePoolLabelSelector, GetNodePoolLabelSelector.
    rewrite bool_decide_false by done. done.
Qed.

Lemma drained_listNodes (known : Node -> Prop) requirements {B} (f : result (list Node) -> kube B) :
  (forall err, drained known (f (inl err))) ->
  (forall nodes, Forall (matched requirements) nodes -> drained (fun node => known node \/ node ∈ nodes) (f (inr nodes))) ->
  drained known (r <- listNodes requirements ;; f r).
Proof.
  intros Herr Hok. apply drained_bind_exec; [apply drained_noMove, listNodes_noMove|].
  intros tr [err|nodes] Hex Hf.
  - eapply drained_mono; [|apply Herr]. auto.
  - apply listNodesFrom_exec in Hex; [|done]. eapply drained_mono; [|apply Hok].
    + cbn beta. intros node [?|Hin]; [by left|right]. rewrite Forall_forall in Hex. by apply Hex.
    + eapply Forall_impl; [exact Hex|]. by intros node (_ & ? & _).
Qed.

Lemma drained_pools (known : Node -> Prop) {B} (f : result (list NodePool) -> kube B) :
  (forall r, drained known (f r)) -> drained known (r <- getAvailableNodePools ;; f r).
Proof. intros Hf. apply drained_bind; [|done]. apply drained_noMove. by apply issues_call. Qed.

(** Over the nodes that were listed. *)
Lemma drained_over_listed (known : Node -> Prop) requirements op nodes resultNodes errs :
  Forall (matched requirements) nodes ->
  (forall node, node ∈ nodes -> matched requirements node -> drained (fun n => known n \/ n ∈ nodes) (op node)) ->
  drained (fun node => known node \/ node ∈ nodes) (overNodes op nodes resultNodes errs).
Proof.
  intros Hm Hop. apply drained_overNodes, Forall_forall. intros node Hn. rewrite Forall_forall in Hm. auto.
Qed.

(** Lists nodes and pools, and handles the nodes one by one. *)
Ltac drained_step :=
  match goal with
  | |- drained _ (prog_bind_ _ (listNodes _)) => apply drained_listNodes; [intros ?|intros ? ?]
  | |- drained _ (prog_bind_ _ getAvailableNodePools) => apply drained_pools; intros ?
  | |- drained _ (prog_bind_ _ (overNodes _ _ _ _)) =>
      apply drained_bind; [eapply drained_over_listed; [eassumption|intros ? ? ?]|intros ?]
  | |- drained _ (Ret _) => apply drained_ret
  | |- drained _ (match ?x with _ => _ end) => destruct x
  end.
Ltac drained_tac := repeat (cbv beta zeta; drained_step).

Lemma reconcileNoLabel_drained known nodePool :
  Name (npMeta nodePool) <> "" ->
  drained known (reconcileNodesMatchingNodePoolNameNoLabel cfg rangeOrder nodePool).
Proof.
  intros Hname. unfold reconcileNodesMatchingNodePoolNameNoLabel, getNodesMatchingNodePoolNameNoLabel. drained_tac.
  apply findAndMove_drained; [by right|by eapply selected_pool].
Qed.

Lemma reconcileOtherLabel_drained known nodePool :
  drained known (reconcileNodesInDefaultNodePoolMatchingOtherNodePoolLabel cfg rangeOrder nodePool).
Proof.
  unfold reconcileNodesInDefaultNodePoolMatchingOtherNodePoolLabel, getNodesInDefaultNodePoolMatchingOtherNodePoolLabel.
  drained_tac. apply moveTo_drained; [by right|by eapply unlabelled_pool, selected_default].
Qed.

Lemma reconcileNameAndLabel_drained known nodePool :
  drained known (reconcileNodesMatchingNodePoolNameAndLabel cfg rangeOrder nodePool).
Proof.
  unfold reconcileNodesMatchingNodePoolNameAndLabel, getNodesMatchingNodePoolNameAndLabel. drained_tac.
  apply drained_bind; [apply wrapper_drained|intros; apply drained_ret].
Qed.

(** A node of the default pool carries no label to remove. *)
Lemma reconcileInDefault_drained known : drained known (reconcileNodesInDefaultNodePool cfg rangeOrder).
Proof.
  unfold reconcileNodesInDefaultNodePool, getDefaultNodePoolNodes, getNodePoolNodes. drained_tac.
  pose proof (selected_default _ _ H1) as Hnone. unfold keepOrMoveFromDefault. cbv zeta. case_bool_decide.
  - unfold validateDefaultNodePoolLabel, updateNodeWithNodePoolNameIfNeeded. rewrite bool_decide_true, Hnone by done.
    apply drained_bind; [apply drained_ret|]. intros r1.
    apply drained_bind; [apply wrapper_drained|intros; apply drained_ret].
  - apply moveTo_drained; [by right|by apply unlabelled_pool].
Qed.

Lemma reconcileNotInDefault_drained known : drained known (reconcileNodesNotInDefaultNodePool cfg rangeOrder).
Proof.
  unfold reconcileNodesNotInDefaultNodePool, getNodesNotInDefaultNodePool. drained_tac.
  apply drained_bind; [apply drained_noMove, listPartitions_noMove|]. intros r. drained_tac.
  unfold moveFromMissing. cbv zeta. case_bool_decide; [apply drained_ret|].
  apply findAndMove_drained; [by right|done].
Qed.

Lemma reconcileNodes_drained known nodePool :
  Name (npMeta nodePool) <> "" -> drained known (reconcileNodes cfg nrtEnabled rangeOrder nodePool).
Proof.
  intros Hname. unfold reconcileNodes. apply drained_bind; [destruct (negb _)|intros [nodes errs]].
  - apply drained_bind; [by apply reconcileNoLabel_drained|intros r1].
    apply drained_bind; [apply reconcileOtherLabel_drained|intros r2].
    apply drained_bind; [apply reconcileNameAndLabel_drained|intros; apply drained_ret].
  - apply drained_bind; [apply reconcileInDefault_drained|intros r1].
    apply drained_bind; [apply reconcileNotInDefault_drained|intros; apply drained_ret].
  - apply drained_bind; [|intros; apply drained_ret]. apply drained_bind; [|intros; apply drained_ret].
    apply drained_overNodes, Forall_forall. intros node _. apply drained_noMove, handleNode_noMove.
Qed.

Lemma reassign_drained known nodePool :
  Name (npMeta nodePool) <> "" -> drained known (reassignNodeForDeletingNodePool cfg rangeOrder nodePool).
Proof.
  intros Hname. unfold reassignNodeForDeletingNodePool, getNodePoolNodes. drained_tac.
  apply drained_bind; [|intros; apply drained_ret]. apply changeNodePool_drained; [by right|by eapply selected_in_pool].
Qed.

Lemma reconcileNodePool_drained known nodePool :
  Name (npMeta nodePool) <> "" ->
  drained known (reconcileNodePool cfg params nrtEnabled serviceMonitorEnabled rangeOrder errorText nodePool).
Proof.
  intros Hname. apply drained_bind; [by apply reconcileNodes_drained|]. intros r1.
  apply drained_bind; [apply drained_noMove, reconcileScheduler_noMove|]. intros r2.
  apply drained_bind; [apply drained_noMove, reconcileStatus_noMove|]. intros r3. apply drained_ret.
Qed.

End Drained.

(** ** The end of the installing operator

    Its resource is gone or is being deleted: then the labels of the nodes are
    removed at once. *)

Definition sawUninstall (e : event KubeCall) : Prop :=
  exists ref, UninstallDetection params = Some ref /\
    match e with
    | Event (GetUnstructured group version kind key) reply =>
        group = refGroup ref /\ version = refVersion ref /\ kind = refKind ref /\ key = refKey ref /\
        match reply with
        | inl err => IsNotFound err = true
        | inr deletionTimestamp => is_Some (deletionTimestamp : option Z)
        end
    | _ => False
    end.

(** The write only takes the label away. *)
Definition unlabels : forall X, KubeCall X -> Prop := fun X c =>
  match c with
  | Patch KNode o m => nodeLabels m !! NodePoolNameLabel cfg = None
  | Update KNode _ | Create KNode _ => False
  | _ => True
  end.

Definition uninstalled (tr : list (event KubeCall)) (e : event KubeCall) : Prop :=
  unlabels _ (ev_call e) /\ exists e', e' ∈ tr /\ sawUninstall e'.

Lemma uninstalled_app tr1 tr tr2 e : uninstalled tr e -> uninstalled (tr1 ++ tr ++ tr2) e.
Proof. intros [Hu (e' & He & Hs)]. split; [done|]. exists e'. split; [|done]. rewrite !elem_of_app. auto. Qed.

Lemma ownerUninstalled_sees tr : exec (ownerUninstalled params) tr true -> exists e, e ∈ tr /\ sawUninstall e.
Proof.
  unfold ownerUninstalled, sawUninstall. destruct (UninstallDetection params) as [ref|]; [|by intros [_ ?]].
  intros (reply & tr' & -> & H). eexists. split; [left|]. exists ref. split; [done|]. do 4 (split; [done|]).
  destruct reply as [err|ts]; destruct H as [_ H]; [done|]. symmetry in H. by apply bool_decide_eq_true in H.
Qed.

Lemma cleanup_unlabels nodePool : issues unlabels (cleanupDeletedNodePool cfg nodePool).
Proof.
  unfold cleanupDeletedNodePool, getNodePoolNodes, listNodes. cbn [listNodesFrom].
  destruct (nodePoolLabelSelector _ _) as [err|r]; [done|]. apply issues_bind; [by apply issues_call|].
  intros [err|nodes]; [done|]. apply issues_bind; [|done].
  generalize (@nil Node) as resultNodes, (@nil error) as errs.
  induction (nodes : list Node) as [|node rest IH]; intros resultNodes errs; [done|].
  apply issues_bind; [|by intros]. apply issues_bind; [|done].
  apply issues_bind; [apply issues_call|by intros []].
  unfold nodeLabels, mergePatchMap. cbn. apply lookup_delete_eq.
Qed.

Lemma uninstall_drained known nodePool :
  drained uninstalled known (handleNodePoolDeletionOnOwnerUninstall cfg params nodePool).
Proof.
  intros tr b e name (tr1 & tr2 & un & -> & H1 & H2)%exec_bind_inv [Hf1 Hf2]%faithful_app He Hm.
  assert (issues noMove (ownerUninstalled params)) as Hread by (unfold ownerUninstalled, getOwnerResource; noMove_tac).
  apply elem_of_app in He as [He|He].
  { destruct (drained_noMove uninstalled known _ Hread _ _ _ _ H1 Hf1 He Hm) as [H|H].
    - left. by apply (uninstalled_app []).
    - right. by apply (drainedBefore_app known known []); auto. }
  destruct un; cbn [negb] in H2; [|destruct H2 as [-> _]; by apply elem_of_nil in He].
  left. split.
  2: { apply ownerUninstalled_sees in H1 as (e' & He' & Hs). exists e'. by rewrite elem_of_app; auto. }
  apply exec_bind_inv in H2 as (t1 & t2 & r1 & -> & H3 & H4).
  apply exec_bind_inv in H4 as (t3 & t4 & r2 & -> & H4 & [-> _]). rewrite app_nil_r in He.
  apply elem_of_app in He as [He|He].
  - apply (issues_exec _ _ _ _ (deleteFinalizer_noMove nodePool)) in H3. rewrite Forall_forall in H3.
    specialize (H3 e He). apply noMove_event in H3. congruence.
  - apply (issues_exec _ _ _ _ (cleanup_unlabels nodePool)) in H4. rewrite Forall_forall in H4. by apply H4.
Qed.

Lemma finalize_drained known nodePool :
  Name (npMeta nodePool) <> "" ->
  drained uninstalled known (finalize cfg params rangeOrder nodePool).
Proof.
  pose proof uninstalled_app as Happ.
  intros Hname. unfold finalize. destruct (negb _); [by apply drained_ret|].
  apply drained_bind; [done|apply uninstall_drained|]. intros []; [by apply drained_ret|].
  apply drained_bind; [done|by apply reassign_drained|]. intros [nodes [err|[]]]; apply drained_noMove.
  - apply issues_bind; [|done]. apply issues_bind; [apply updateStatusIfNeeded_noMove|done].
  - unfold updateNodePoolStatusOnDeletion, getNodePoolDeletionStatus, getProjectsReferencingNodePool.
    apply issues_bind; [|intros [? [? [?|?]]]; [done|]; destruct (negb _); [apply deleteFinalizer_noMove|done]].
    apply issues_bind; [noMove_tac|]. intros r1. apply issues_bind; [apply updateStatusIfNeeded_noMove|done].
Qed.

Lemma addFinalizer_named nodePool tr nodePool' :
  exec (addControllerAsFinalizerIfNeeded cfg nodePool) tr (nodePool', inr tt) -> faithful tr ->
  Name (npMeta nodePool) <> "" -> Name (npMeta nodePool') <> "".
Proof.
  unfold addControllerAsFinalizerIfNeeded. destruct (IsItemInList _ _); [by intros [_ [= ->]]|].
  intros (reply & tr' & -> & H) [_ [Ha _]%Forall_cons] _. cbn in Ha. destruct reply as [err|np]; [by destruct H|].
  by destruct H as [_ [= ->]].
Qed.

(** The node pool of the request has a name. *)
Lemma getNodePool_named req tr nodePool :
  exec (getNodePoolForRequest req) tr (inr (Some nodePool)) -> faithful tr -> Name (npMeta nodePool) <> "".
Proof.
  intros (reply & tr' & -> & H) [_ [Ha _]%Forall_cons]. cbn in Ha. destruct reply as [err|np].
  - cbn in H. destruct (IsNotFound err); by destruct H.
  - by destruct H as [_ [= ->]].
Qed.

(** C3: Nodes are drained before they move.  Take any reconcile of any node pool,
    whatever the API answers (as long as a patch keeps the name of the node, the
    nodes of a list match its selector, and a node pool has a name).  Every write
    that changes the pool label of a node, also by removing it, comes after that
    node was read in this reconcile and then a check found no running pod of the
    pool that the node was in when it was read (its label, or the default pool
    without one).  The one exception is the end of the installing operator: its
    resource was read in this reconcile and is gone or being deleted, and the
    write only takes the label away. *)
Theorem reconcile_moves_drained_nodes req tr r e name :
  exec (Reconcile cfg params nrtEnabled serviceMonitorEnabled rangeOrder errorText req) tr r -> faithful tr ->
  e ∈ tr -> relabels e = Some name ->
  (unlabels _ (ev_call e) /\ exists e', e' ∈ tr /\ sawUninstall e') \/
  exists node tr1 tr2 tr3, tr = tr1 ++ tr2 ++ tr3 /\ nodeName node = name /\ wasRead tr1 node /\ e ∈ tr3 /\
    exec (arePodsRunningWithNodePool cfg rangeOrder name (poolOfNode node) true) tr2 (inr false).
Proof.
  pose proof uninstalled_app as Happ. intros Hex Hf He Hm.
  enough (drained uninstalled (fun _ => False)
            (Reconcile cfg params nrtEnabled serviceMonitorEnabled rangeOrder errorText req)) as H.
  { destruct (H _ _ _ _ Hex Hf He Hm) as [?|(node & tr1 & tr2 & tr3 & ? & ? & [[]|?] & ?)]; [by left|right].
    by exists node, tr1, tr2, tr3. }
  unfold Reconcile. apply drained_bind_exec; [done|apply drained_noMove; unfold getNodePoolForRequest; noMove_tac|].
  clear tr Hex Hf He. intros tr [err|[nodePool|]] Hget Hf; [by apply drained_ret| |by apply drained_ret].
  pose proof (getNodePool_named _ _ _ Hget Hf) as Hname.
  apply drained_bind; [done| |intros; by apply drained_ret].
  destruct (DeletionTimestamp _); [by apply finalize_drained|].
  apply drained_bind_exec; [done|apply drained_noMove; unfold addControllerAsFinalizerIfNeeded, updateNodePoolFinalizers; noMove_tac|].
  intros tr' [np [err|[]]] Hadd Hf'; [by apply drained_ret|].
  apply reconcileNodePool_drained; [done|by eapply addFinalizer_named].
Qed.

(** ** What the check for running pods sees *)

Definition groupOfPod (pod : Pod) : option string := Annotations (podMeta pod) !! PodGroupAnnotationForPod.

Lemma groupPods_lookup pods g :
  groupPods pods !! g = match filter (fun pod => groupOfPod pod = Some g) pods with [] => None | ps => Some ps end.
Proof.
  unfold groupPods. induction pods as [|pod pods IH] using rev_ind; [done|].
  rewrite foldl_snoc, filter_app. cbv beta.
  destruct (Annotations (podMeta pod) !! PodGroupAnnotationForPod) as [g'|] eqn:Hg.
  - destruct (decide (g' = g)) as [->|Hne].
    + rewrite lookup_insert_eq, IH, filter_cons_True by done. simpl.
      by destruct (filter _ pods).
    + rewrite lookup_insert_ne, IH by done. rewrite filter_cons_False by (unfold groupOfPod; congruence). by rewrite app_nil_r.
  - rewrite IH. rewrite filter_cons_False by (unfold groupOfPod; congruence). by rewrite app_nil_r.
Qed.

(** Every group was looked up, and a group that was found has no pod that
    agrees with it. *)
Lemma exec_filterGroups groups filteredPods tr res :
  exec (filterGroups cfg groups filteredPods) tr res ->
  exists found, res = filteredPods ++ found /\
    (found = [] -> forall g pod ps, (g, pod :: ps) ∈ groups ->
      exists reply, Event (Get KPodGroup (Namespace (podMeta pod), g)) reply ∈ tr /\
        forall pg, reply = inr pg -> correctPodsOfGroup cfg pg (pod :: ps) = []).
Proof.
  revert filteredPods tr. induction groups as [|[g0 ps0] groups IH]; intros filteredPods tr.
  - intros [-> ->]. exists []. split; [by rewrite app_nil_r|]. by intros _ g pod ps Hin%elem_of_nil.
  - intros (reply & tr' & -> & H).
    assert (exists now found, res = filteredPods ++ now ++ found /\
      (forall pg, reply = inr pg -> now = correctPodsOfGroup cfg pg ps0) /\
      (found = [] -> forall g pod ps, (g, pod :: ps) ∈ groups ->
        exists reply, Event (Get KPodGroup (Namespace (podMeta pod), g)) reply ∈ tr' /\
          forall pg, reply = inr pg -> correctPodsOfGroup cfg pg (pod :: ps) = [])) as (now & found & -> & Hnow & Hfound).
    { destruct reply as [err|pg]; apply IH in H as (found & -> & H).
      - by exists [], found.
      - exists (correctPodsOfGroup cfg pg ps0), found. rewrite <- app_assoc. by split; [|split; [intros ? [= ->]|]]. }
    exists (now ++ found). split; [done|]. intros [Hn Hf]%app_nil g pod ps Hin.
    apply elem_of_cons in Hin as [[= -> <-]|Hin].
    + exists reply. split; [left|]. intros pg Hr. by rewrite <- (Hnow pg Hr).
    + destruct (Hfound Hf g pod ps Hin) as (rep & He & Hc). exists rep. split; [by right|done].
Qed.

(** What a successful drain check has established.  The pods that run on the
    node were listed, and the pod group of every one of them was looked up; no
    pod carries the same pool label as its pod group, provided the pod group
    could be read and its name is not used in another namespace. *)
Theorem drain_check_meaning name pool same tr :
  isRangeOrder rangeOrder ->
  exec (arePodsRunningWithNodePool cfg rangeOrder name pool same) tr (inr false) ->
  exists opts pods, Event (List KPod opts) (inr pods) ∈ tr /\
    loFieldSelector opts = Some (PodRunningWithKaiSchedulerNodeNameField, name) /\
    forall pod g, pod ∈ (pods : list Pod) -> groupOfPod pod = Some g ->
      (forall pod', pod' ∈ (pods : list Pod) -> groupOfPod pod' = Some g ->
         Namespace (podMeta pod') = Namespace (podMeta pod)) ->
      exists reply, Event (Get KPodGroup (Namespace (podMeta pod), g)) reply ∈ tr /\
        forall pg, reply = inr pg ->
          Labels (podMeta pod) !! NodePoolNameLabel cfg <> Labels (pgMeta pg) !! NodePoolNameLabel cfg.
Proof.
  intros Hro (tr1 & tr2 & r & -> & H & Hr)%exec_bind_inv. destruct r as [err|running]; [by destruct Hr|].
  destruct Hr as [-> [= Hnone]]. rewrite app_nil_r.
  assert (running = []) as -> by (destruct running; [done|]; by rewrite bool_decide_true in Hnone by (simpl; lia)). clear Hnone.
  unfold getRunningPodsWithNodePoolOnNode in H. destruct (if same then _ else _) as [err|req]; [by destruct H|].
  destruct H as (reply & tr2 & -> & H). eexists. destruct reply as [err|pods]; [by destruct H|].
  exists pods. split; [left|]. split; [done|]. intros pod g Hpod Hg Hns.
  cbn [prog_bind_ call] in H. apply exec_bind_inv in H as (tr3 & tr4 & found & -> & H & [-> [= <-]]).
  apply exec_filterGroups in H as (found & [= <-] & H). change (obj KPod) with Pod in *.
  pose proof (groupPods_lookup pods g) as Hlook.
  destruct (filter (fun pod => groupOfPod pod = Some g) pods) as [|pod0 ps] eqn:Hf.
  { exfalso. assert (pod ∈ filter (fun pod => groupOfPod pod = Some g) pods) as Hin by (by apply list_elem_of_filter).
    rewrite Hf in Hin. by apply elem_of_nil in Hin. }
  assert (pod0 ∈ filter (fun pod => groupOfPod pod = Some g) pods) as [Hg0 Hin0]%list_elem_of_filter by (rewrite Hf; left).
  destruct (H eq_refl g pod0 ps) as (reply & He & Hc).
  { rewrite (Hro _ (groupPods pods)). by apply elem_of_map_to_list. }
  exists reply. rewrite <- (Hns pod0 Hin0 Hg0). split; [right; by apply elem_of_app; left|].
  intros pg Hpg Heq. specialize (Hc pg Hpg). unfold correctPodsOfGroup in Hc.
  assert (pod ∈ filter (fun pod => Labels (podMeta pod) !! NodePoolNameLabel cfg = Labels (pgMeta pg) !! NodePoolNameLabel cfg)
            (pod0 :: ps)) as Hin.
  { apply list_elem_of_filter. split; [done|]. rewrite <- Hf. by apply list_elem_of_filter. }
  rewrite Hc in Hin. by apply elem_of_nil in Hin.
Qed.

End MoveProps.

(** ** Patches of given nodes *)

Section Patched.
Context {L : LabelsLib} (cfg : NodePoolControllerConfig).
Context (rangeOrder : forall A, gmap string A -> list (string * A)).

(** Patches concern nodes of these names only. *)
Definition patchesOnly (names : string -> Prop) : forall X, KubeCall X -> Prop := fun X c =>
  match c with Patch KNode o _ => names (nodeName o) | _ => True end.

Definition touches (names : string -> Prop) {A} (p : kube A) : Prop :=
  wp (patchesOnly names) keepsNodeName p (fun _ => True).

Lemma touches_reads names {A} (p : kube A) Q :
  reads_only p -> wp (fun _ _ => True) keepsNodeName p Q -> wp (patchesOnly names) keepsNodeName p Q.
Proof.
  unfold reads_only. induction p as [a|X c k IH]; [done|]. intros [Hc Hk] [_ H]. split; [by destruct c|].
  intros x Hx. apply IH; auto. by apply Hk.
Qed.

Lemma touches_bind names {A B} (p : kube A) (f : A -> kube B) :
  touches names p -> (forall a, touches names (f a)) -> touches names (x <- p ;; f x).
Proof. intros Hp Hf. apply wp_bind. eapply wp_mono; [|exact Hp]. intros a _. apply Hf. Qed.

(** Operations on a node keep its name and patch only it. *)
Definition onNode (node : Node) {A} (p : kube (Node * A)) : Prop :=
  wp (patchesOnly (fun name => name = nodeName node)) keepsNodeName p (fun r => nodeName r.1 = nodeName node).

Lemma onNode_patch node modified : onNode node (patchNode node modified).
Proof. apply wp_bind, wp_call; [done|]. by intros [err|stored]. Qed.

Lemma onNode_bind node {A B} (p : kube (Node * A)) (f : Node * A -> kube (Node * B)) :
  onNode node p -> (forall r, nodeName r.1 = nodeName node -> onNode r.1 (f r)) -> onNode node (x <- p ;; f x).
Proof.
  intros Hp Hf. apply wp_bind. eapply wp_mono; [|exact Hp]. intros r Hr. specialize (Hf r Hr).
  unfold onNode in *. rewrite Hr in Hf. exact Hf.
Qed.

Lemma onNode_update node add remove : onNode node (UpdateNodeLabels node add remove).
Proof. apply onNode_patch. Qed.

Lemma onNode_unschedulable node b : onNode node (updateNodeUnschedulableIfNeeded cfg node b).
Proof.
  unfold updateNodeUnschedulableIfNeeded. case_bool_decide.
  - apply wp_bind. unfold validateNodeLabeledWithUnschedulable.
    destruct b; case_bool_decide; cbn [negb]; try done; (eapply wp_mono; [|apply onNode_patch]); by intros [].
  - destruct (negb b && _); [done|]. apply onNode_patch.
Qed.

Lemma onNode_change node new old pools : onNode node (changeNodePoolForNodeGeneric cfg rangeOrder node new old pools).
Proof.
  apply onNode_bind.
  - apply wp_bind. apply touches_reads; [apply arePodsRunning_reads|]. eapply wp_pre_mono; [done|].
    apply exec_wp. intros tr [err|[]] _ _; [done| |]; apply onNode_bind;
      try apply onNode_unschedulable; by intros [n []].
  - intros [n [err|[]]] Hn; [done| |done]. apply wp_bind.
    unfold updateNodeWithNodePoolNameIfNeeded.
    repeat case_match; try done; (eapply wp_mono; [|apply onNode_patch]; by intros []).
Qed.

Lemma touches_onNode (names : string -> Prop) node {A B} (p : kube (Node * A)) (f : Node * A -> kube B) :
  names (nodeName node) -> onNode node p -> (forall r, nodeName r.1 = nodeName node -> touches names (f r)) ->
  touches names (x <- p ;; f x).
Proof.
  intros Hn Hp Hf. apply wp_bind. eapply wp_mono; [exact Hf|]. eapply wp_pre_mono; [|exact Hp].
  intros X c. destruct c as [| | | | | | | |K o m| | | | |]; try done. destruct K; try done. simpl. by intros ->.
Qed.

Lemma touches_update (names : string -> Prop) node add remove {B} (f : Node * result unit -> kube B) :
  names (nodeName node) -> (forall r, touches names (f r)) ->
  touches names (x <- UpdateNodeLabels node add remove ;; f x).
Proof. intros Hn Hf. apply (touches_onNode _ node); auto. apply onNode_update. Qed.

(** The name of the node that an event patches. *)
Definition patchedNode (e : event KubeCall) : option string :=
  match ev_call e with Patch KNode o _ => Some (nodeName o) | _ => None end.

Lemma touches_exec (names : string -> Prop) {A} (p : kube A) tr a e name :
  touches names p -> exec p tr a -> namesKept tr -> e ∈ tr -> patchedNode e = Some name -> names name.
Proof.
  intros Hp Hex Hn He Hpatch. destruct (wp_exec _ _ _ _ _ _ Hp Hex Hn) as [Hall _]. rewrite Forall_forall in Hall.
  specialize (Hall e He). unfold patchedNode in Hpatch. destruct (ev_call e) as [| | | | | | | |K o m| | | | |]; try done.
  destruct K; try done. simpl in *. congruence.
Qed.

End Patched.

(** ** Examples and witnesses *)

#[export] Instance plainMeta : MetaLib := {|
  groupOf := fun _ => Some "kai"; kaiGroup := "kai";
  GetControllerOf := fun m => head (OwnerReferences m);
  IsControlledBy := fun m owner => existsb (fun o => OwnerUID o ==? UID owner) (OwnerReferences m);
  SetControllerReference := fun owner m =>
    inr (meta_with_owners (fun _ =>
      [{| OwnerAPIVersion := "kai/v1alpha1"; OwnerKind := "NodePool"; OwnerName := Name owner; OwnerUID := UID owner;
          OwnerController := Some true; OwnerBlockOwnerDeletion := Some true |}]) m) |}.

#[export] Instance plainScheduler : SchedulerAPI := {|
  ParseDuration := fun _ => None; windowTypeIsValid := fun _ => false; SlidingWindow := "sliding"; defaultWeight := 1;
  ConditionTypeDeployed := "Deployed"; ConditionTypeAvailable := "Available";
  argCPUWorkerNodeLabelKey := "cpu-worker"; argGPUWorkerNodeLabelKey := "gpu-worker"; argMIGWorkerNodeLabelKey := "mig" |}.

(** A condition that is true is added or replaced; a false one only replaces. *)
Definition setPlainCondition (c : NodePoolCondition) (cs : list NodePoolCondition) : list NodePoolCondition :=
  if existsb (fun c' => npcType c' ==? npcType c) cs
  then (fun c' => if npcType c' ==? npcType c then c else c') <$> cs
  else if npcStatus c ==? "True" then cs ++ [c] else cs.

#[export] Instance plainNodePoolAPI : NodePoolAPI := {|
  AnnotationTopologyManagerPolicy := "policy"; AnnotationGPUNetworkAccelerationDetection := "detection";
  AnnotationGPUNetworkAccelerationLabelKey := "label-key"; AnnotationGPUNetworkAccelerationDetected := "detected";
  DefaultGPUNetworkAccelerationLabelKey := "clique"; UseGPUNetworkAcceleration := "Use";
  AutoGPUNetworkAccelerationDetection := "Auto"; NodeTopologyMismatchType := "TopologyMismatch";
  NodeTopologyMismatchReason := "Mismatch"; NodePoolMissingNrtHealthyPrerequisiteType := "MissingNrt";
  NodePoolMissingNrtHealthyPrerequisiteReason := "MissingNrt"; ProjectReferencesExistType := "ProjectReferences";
  ProjectReferencesExistReason := "References"; SetConditionStatusValue := fun b => if b then "True" else "False";
  SetNodePoolCondition := setPlainCondition |}.

Definition demoNpcConfig : NodePoolControllerConfig := {|
  NodePoolNameLabel := "kai/node-pool"; DefaultNodepoolName := "default"; SchedulerName := "kai-scheduler";
  SchedulerNamespace := "kai"; CPUWorkerNodeLabelKey := "cpu"; GPUWorkerNodeLabelKey := "gpu";
  MIGWorkerNodeLabelKey := "mig"; MetricsNamespace := "kai"; FinalizerDomain := "kai.scheduler";
  ManagedNodesConfigName := "managed"; ExcludedNodepoolName := "excluded"; ShouldBeExcludedLabelKey := "to-exclude";
  UnschedulableLabelKey := "kai/unschedulable";
  GroveTopologyAnnotation := "grove-name"; GroveTopologyResourceVersionAnnotation := "grove-version" |}.

Definition demoParams : NodePoolControllerParams := {| SchedulingShardArgs := ∅; UninstallDetection := None |}.

Definition demoOrder (A : Type) (m : gmap string A) : list (string * A) := map_to_list m.

Lemma demoOrder_isRangeOrder : isRangeOrder demoOrder.
Proof. intros A m. reflexivity. Qed.

Definition demoNode (name : string) (labels : gmap string string) : Node :=
  {| nodeMeta := meta_with_labels (fun _ => labels) (named name); Unschedulable := false; nodePhase := "";
     nodeConditions := [{| ncType := "Ready"; ncStatus := "True"; ncReason := ""; ncMessage := "";
                           ncLastHeartbeatTime := 0; ncLastTransitionTime := 0 |}] |}.

Definition demoPod (ns name pool podGroup : string) : Pod :=
  {| podMeta := {| Name := name; Namespace := ns; UID := ""; Labels := {["kai/node-pool" := pool]};
                   Annotations := {[PodGroupAnnotationForPod := podGroup]}; OwnerReferences := []; Finalizers := [];
                   DeletionTimestamp := None; ResourceVersion := ""; Generation := 0 |};
     podNodeName := "n1"; podSchedulerName := "kai-scheduler"; podAffinity := None; podPhase := PodRunning |}.

Definition demoPodGroup (ns name pool : string) : PodGroup :=
  {| pgMeta := {| Name := name; Namespace := ns; UID := ""; Labels := {["kai/node-pool" := pool]}; Annotations := ∅;
                  OwnerReferences := []; Finalizers := []; DeletionTimestamp := None; ResourceVersion := ""; Generation := 0 |};
     pgMarkUnschedulable := None; pgSchedulingBackoff := None; pgQueue := "";
     pgTopologyConstraint := emptyTopologyConstraint; pgSchedulingConditions := [] |}.

(** A node of the default pool that belongs to pool a. *)
Definition moveStore : store :=
  store_add (K := KNodePool) (demoPool "a" NodePoolReady)
    (store_add (K := KNode) (demoNode "n1" {["gpu" := "a"]}) emptyStore).

Definition demoReconcile (name : string) : kube (Result * result unit) :=
  Reconcile demoNpcConfig demoParams false false demoOrder (fun _ => "") ("", name).

Definition demoMove : list (event KubeCall) := run_trace memServer (demoReconcile "a") moveStore.

(** [faithful] as a check. *)
Definition faithfulEvent (e : event KubeCall) : bool :=
  match e with
  | Event (List KNode opts) r =>
      match r with
      | inr nodes => forallb (fun node : Node => forallb (fun q => Matches q (nodeLabels node)) (loLabelSelector opts)) nodes
      | inl _ => true
      end
  | Event (Get KNodePool _) r | Event (Patch KNodePool _ _) r =>
      match r with inr nodePool => Name (npMeta nodePool) !=? "" | inl _ => true end
  | Event (Patch KNode o _) r | Event (PatchStatus KNode o _) r =>
      match r with inr n => nodeName n ==? nodeName o | inl _ => true end
  | _ => true
  end.

Lemma faithful_check tr : forallb faithfulEvent tr = true -> faithful tr.
Proof.
  rewrite forallb_forall. intros H. split; apply Forall_forall; intros [X c r] He%list_elem_of_In; specialize (H _ He);
    destruct c as [K ?|K|K|K|K|K|K|K|K| | | | |]; try done; destruct K; try done; destruct r as [err|x]; try done;
    cbn in H |- *.
  all: try by apply bool_decide_eq_true in H.
  all: try by (apply negb_true_iff, bool_decide_eq_false in H).
  intros node Hn. rewrite forallb_forall in H. apply list_elem_of_In in Hn. specialize (H node Hn). cbn in H.
  rewrite forallb_forall in H. apply Forall_forall. intros q Hq. by apply H, list_elem_of_In.
Qed.

Lemma reconcile_moves_drained_nodes_witness :
  exists e node tr1 tr2 tr3, demoMove = tr1 ++ tr2 ++ tr3 /\ nodeName node = "n1" /\ wasRead tr1 node /\ e ∈ tr3 /\
    exec (arePodsRunningWithNodePool demoNpcConfig demoOrder "n1" (poolOfNode demoNpcConfig node) true) tr2 (inr false).
Proof.
  assert (exists e, e ∈ demoMove /\ relabels demoNpcConfig e = Some "n1") as (e & He & Hm).
  { assert (existsb (fun e => relabels demoNpcConfig e ==? Some "n1") demoMove = true) as H by (vm_compute; reflexivity).
    apply existsb_exists in H as (e & Hin & Heq). exists e. split; [by apply list_elem_of_In|by apply bool_decide_eq_true in Heq]. }
  exists e. destruct (reconcile_moves_drained_nodes demoNpcConfig demoParams false false demoOrder (fun _ => ""))
    with (req := ("", "a")) (tr := demoMove) (r := (run memServer (demoReconcile "a") moveStore).1) (e := e) (name := "n1")
    as [(_ & e' & _ & ref & [=] & _)|H].
  - discriminate.
  - apply run_exec.
  - apply faithful_check. vm_compute. reflexivity.
  - exact He.
  - exact Hm.
  - exact H.
Defined.

Definition demoCheck : kube (result bool) := arePodsRunningWithNodePool demoNpcConfig demoOrder "n1" "a" true.

Lemma drain_check_meaning_witness :
  exists opts pods, Event (List KPod opts) (inr pods) ∈ run_trace memServer demoCheck emptyStore /\
    loFieldSelector opts = Some (PodRunningWithKaiSchedulerNodeNameField, "n1").
Proof.
  destruct (drain_check_meaning demoNpcConfig demoOrder "n1" "a" true (run_trace memServer demoCheck emptyStore))
    as (opts & pods & He & Hf & _).
  - apply demoOrder_isRangeOrder.
  - apply (run_exec memServer demoCheck emptyStore).
  - exists opts, pods. split; [exact He|exact Hf].
Defined.

(** Two pods of pool a run on n1; their pod groups have the same name in
    different namespaces, and the one of the first namespace is on pool b. *)
Definition collisionStore : store :=
  store_add (K := KPod) (demoPod "team-1" "p" "a" "job") (store_add (K := KPod) (demoPod "team-2" "p" "a" "job")
    (store_add (K := KPodGroup) (demoPodGroup "team-1" "job" "b") (store_add (K := KPodGroup) (demoPodGroup "team-2" "job" "a")
       emptyStore))).

(** The check for running pods groups pods by the name of their pod group
    alone.  With two pods of pool a on the node, in two namespaces, whose pod
    groups share a name, the check answers that no pod of pool a runs on the
    node, although the pod of the second namespace agrees with its pod group. *)
Theorem pod_group_name_collision :
  (run memServer demoCheck collisionStore).1 = inr false /\
  forall pod pg, pod = demoPod "team-2" "p" "a" "job" -> pg = demoPodGroup "team-2" "job" "a" ->
    collisionStore KPod !! ("team-2", "p") = Some pod /\ collisionStore KPodGroup !! ("team-2", "job") = Some pg /\
    correctPodsOfGroup demoNpcConfig pg [pod] = [pod].
Proof. split; [vm_compute; reflexivity|]. intros pod pg -> ->. by vm_compute. Qed.

(** ** The health condition of a node *)

Lemma findCondition_upsert c cs t :
  findCondition (upsertCondition c cs) t = if ncType c ==? t then Some c else findCondition cs t.
Proof.
  induction cs as [|c' cs IH]; simpl; [by case_bool_decide|].
  destruct (decide (ncType c' = ncType c)) as [Heq|Hne].
  - rewrite bool_decide_true by done. simpl. rewrite Heq. by case_bool_decide.
  - rewrite bool_decide_false by done. simpl. rewrite IH. repeat case_bool_decide; congruence.
Qed.

Lemma findCondition_None cs t : findCondition cs t = None <-> t ∉ ncType <$> cs.
Proof.
  induction cs as [|c cs IH]; simpl; [split; [intros _; apply not_elem_of_nil|done]|].
  rewrite not_elem_of_cons, <- IH. case_bool_decide; [split; [done|naive_solver]|naive_solver].
Qed.

Lemma findCondition_delete t cs t' :
  NoDup (ncType <$> cs) -> findCondition (deleteCondition t cs) t' = if t ==? t' then None else findCondition cs t'.
Proof.
  induction cs as [|c cs IH]; simpl; intros Hnd; [by case_bool_decide|].
  apply NoDup_cons in Hnd as [Hc Hnd]. destruct (decide (ncType c = t)) as [<-|Hne].
  - rewrite (bool_decide_true (ncType c = ncType c)) by done. case_bool_decide as Ht; [rewrite <- Ht; by apply findCondition_None|done].
  - rewrite bool_decide_false by done. simpl. rewrite IH by done. repeat case_bool_decide; congruence.
Qed.

(** The server stores the status it is sent. *)
Definition storesNodeStatus : forall X, KubeCall X -> X -> Prop := fun X c =>
  match c in KubeCall X return X -> Prop with
  | PatchStatus K _ m => fun r => match r with inr o => o = m | inl _ => True end
  | _ => fun _ => True
  end.

(** What is wrong with the topology of a node of the pool, if anything. *)
Definition nrtProblem (nrtEnabled : bool) (nodePool : NodePool) (nrt : option NodeResourceTopology)
    : option (string * string) :=
  if negb (isNumaEnabled nodePool) then None
  else if negb nrtEnabled then evaluateNrtHealth None else evaluateNrtHealth nrt.

(** The condition of the node reports the problem. *)
Definition reports (problem : option (string * string)) (node : Node) : Prop :=
  match problem with
  | None => findNodeCondition node NrtHealthyConditionType = None
  | Some (reason, message) => exists c, findNodeCondition node NrtHealthyConditionType = Some c /\
      ncStatus c = ConditionTrue /\ ncReason c = reason /\ ncMessage c = message
  end.

Definition othersKept (node node' : Node) : Prop :=
  forall t, t <> NrtHealthyConditionType -> findNodeCondition node' t = findNodeCondition node t.

Definition stored (tr : list (event KubeCall)) : Prop :=
  Forall (fun e => storesNodeStatus _ (ev_call e) (ev_reply e)) tr.

Lemma upserted_reports node c :
  ncType c = NrtHealthyConditionType -> ncStatus c = ConditionTrue ->
  reports (Some (ncReason c, ncMessage c)) (upsertNodeCondition (upsertNodeCondition node c) c) /\
  othersKept node (upsertNodeCondition (upsertNodeCondition node c) c).
Proof.
  intros Ht Hs. unfold reports, othersKept, findNodeCondition. simpl. split.
  - exists c. by rewrite findCondition_upsert, bool_decide_true.
  - intros t Hne. by rewrite !findCondition_upsert, bool_decide_false by congruence.
Qed.

Lemma exec_ensureNrtCondition node reason message tr node' :
  exec (ensureNrtCondition node reason message) tr (node', inr tt) -> stored tr ->
  reports (Some (reason, message)) node' /\ othersKept node node'.
Proof.
  unfold ensureNrtCondition. destruct (match findNodeCondition node _ with Some _ => _ | None => _ end) eqn:Hc.
  - destruct (findNodeCondition node NrtHealthyConditionType) as [c|] eqn:Hf; [|done].
    intros [-> [= ->]] _. rewrite !andb_true_iff, !bool_decide_eq_true in Hc. destruct Hc as [[Hs Hr] Hm].
    split; [by exists c|by intros t].
  - intros (now & tr1 & -> & H) [_ Hst]%Forall_cons. cbn [prog_bind_ call] in H.
    destruct H as (reply & tr2 & -> & H). apply Forall_cons in Hst as [Hrep _]. simpl in Hrep.
    destruct reply as [err|n]; [by destruct H|]. subst n. destruct H as [-> [= ->]]. by apply upserted_reports.
Qed.

Lemma NoDup_delete t cs : NoDup (ncType <$> cs) -> NoDup (ncType <$> deleteCondition t cs).
Proof.
  induction cs as [|c cs IH]; simpl; intros Hnd; [done|]. apply NoDup_cons in Hnd as [Hc Hnd]. case_bool_decide; [done|].
  simpl. apply NoDup_cons. split; [|by apply IH]. rewrite <- findCondition_None, findCondition_delete by done.
  rewrite bool_decide_false by done. by apply findCondition_None.
Qed.

Lemma exec_removeNrtCondition node tr node' :
  NoDup (ncType <$> nodeConditions node) ->
  exec (removeNrtCondition node) tr (node', inr tt) -> stored tr -> reports None node' /\ othersKept node node'.
Proof.
  intros Hnd. unfold removeNrtCondition. destruct (findNodeCondition node NrtHealthyConditionType) as [c|] eqn:Hf.
  - intros (reply & tr1 & -> & H) [Hrep _]%Forall_cons. simpl in Hrep. cbn [prog_bind_ call] in H.
    destruct reply as [err|n]; [by destruct H|]. subst n. destruct H as [-> [= ->]].
    assert (NoDup (ncType <$> deleteCondition NrtHealthyConditionType (nodeConditions node))) by (by apply NoDup_delete).
    split; [|intros t Ht]; unfold reports, findNodeCondition; simpl; rewrite !findCondition_delete by done.
    + by rewrite bool_decide_true.
    + by rewrite bool_decide_false by congruence.
  - intros [-> [= ->]] _. split; [done|]. by intros t.
Qed.

(** The health condition of a node is exact.  When the server stores what it
    is sent, a successful reconcile of the condition leaves on the node exactly
    the problem of its resource topology, as it was read in that reconcile:
    nothing if NUMA is not enabled for the pool or the topology is healthy, the
    reason and message otherwise; and no other condition of the node changes. *)
Theorem nrt_condition_exact nrtEnabled node nodePool tr node' :
  NoDup (ncType <$> nodeConditions node) ->
  exec (reconcileNrtHealthCondition nrtEnabled node nodePool) tr (node', inr tt) -> stored tr ->
  exists nrt,
    (isNumaEnabled nodePool = true -> nrtEnabled = true ->
     exists reply, Event (Get KNodeResourceTopology ("", nodeName node)) reply ∈ tr /\
       match reply with inr n => nrt = Some n | inl err => nrt = None /\ IsNotFound err = true end) /\
    reports (nrtProblem nrtEnabled nodePool nrt) node' /\ othersKept node node'.
Proof.
  intros Hnd. unfold reconcileNrtHealthCondition, nrtProblem.
  destruct (isNumaEnabled nodePool); simpl negb; cbn iota.
  2: { intros H Hst. exists None. split; [done|]. by eapply exec_removeNrtCondition. }
  destruct nrtEnabled; simpl negb; cbn iota.
  2: { intros H Hst. exists None. split; [done|]. by eapply exec_ensureNrtCondition. }
  intros (tr1 & tr2 & r & -> & H1 & H2)%exec_bind_inv [_ Hst]%Forall_app.
  destruct r as [err|nrt]; [by destruct H2|]. exists nrt. split.
  - intros _ _. destruct H1 as (reply & tr3 & -> & H1). exists reply. split; [left|].
    destruct reply as [err|n]; [|by destruct H1 as [_ [= ->]]].
    simpl in H1. destruct (IsNotFound err); by destruct H1 as [_ [= ->]].
  - destruct (evaluateNrtHealth nrt) as [[reason message]|]; [by eapply exec_ensureNrtCondition|by eapply exec_removeNrtCondition].
Qed.

Definition numaPool : NodePool :=
  {| npMeta := named "a"; LabelKey := "gpu"; LabelValue := "a"; PreferredNetworkTopologyName := "";
     npSchedulingShardConfig := Some
       {| cfgArgs := ∅; cfgPlacementStrategy := None; cfgQueueDepthPerAction := ∅; cfgMinRuntime := None;
          cfgPlugins := {["numa" := {| pluginEnabled := Some true; pluginRest := "" |}]}; cfgActions := ∅;
          cfgTimeBasedFairShare := None |};
     npStatus := npStatus (demoPool "a" NodePoolReady) |}.

Definition demoHealth : kube (Node * result unit) := reconcileNrtHealthCondition true (demoNode "n1" ∅) numaPool.

Definition oneNodeStore : store := store_add (K := KNode) (demoNode "n1" ∅) emptyStore.

Lemma nrt_condition_exact_witness :
  reports (Some (NrtHealthReasonMissing, nrtPrereqMessage NrtMissingItemNoObject)) (run memServer demoHealth oneNodeStore).1.1 /\
  othersKept (demoNode "n1" ∅) (run memServer demoHealth oneNodeStore).1.1.
Proof.
  split; [vm_compute; eexists; repeat split|].
  destruct (nrt_condition_exact true (demoNode "n1" ∅) numaPool (run_trace memServer demoHealth oneNodeStore)
              (run memServer demoHealth oneNodeStore).1.1) as (nrt & _ & _ & H).
  - apply (bool_decide_unpack _). vm_compute. exact I.
  - apply (run_exec memServer demoHealth oneNodeStore).
  - unfold stored. vm_compute; repeat (apply Forall_cons; split); try apply Forall_nil; done.
  - exact H.
Defined.
