(* ===== verification/ManagedNodesFacts.v ===== *)
(** * Properties of the managed nodes configuration

    Nodes leave and enter the scheduler drained; a node that is where the
    configuration wants it is left alone; what the status says, and what it
    misses. *)

From stdpp Require Import base list gmap strings pretty.
From S2P Require Import Prelude ApiTypes ControllerRuntime NodePoolUtils NodePoolCommon Shards Nodes NodePools ManagedNodes NodeFacts.

(** ** Names of the nodes in the status *)

Lemma appendNodeNames_spec total i nodes :
  i <= maxNodeNamesInMessage -> total = i + length nodes ->
  appendNodeNames total i nodes =
  String.concat "" ((fun node => "," +:+ nodeName node) <$> take (maxNodeNamesInMessage - i) nodes)
  +:+ (if bool_decide (maxNodeNamesInMessage < total)
       then sprintf " and %d more" [pretty (total - maxNodeNamesInMessage)%nat] else "").
Proof.
  revert i. induction nodes as [|node nodes IH]; intros i Hi Htotal.
  - rewrite take_nil. simpl in *. rewrite bool_decide_false by lia. done.
  - cbn [appendNodeNames]. destruct (decide (i = maxNodeNamesInMessage)) as [->|Hmax].
    + rewrite (bool_decide_true (_ = _)) by done. rewrite Nat.sub_diag. cbn [length] in Htotal. by rewrite bool_decide_true by lia.
    + rewrite (bool_decide_false (_ = _)) by done.
      assert (exists k, maxNodeNamesInMessage - i = S k /\ maxNodeNamesInMessage - S i = k) as (k & -> & Hk)
        by (exists (maxNodeNamesInMessage - S i); lia).
      simpl in Htotal. rewrite (IH (S i)), Hk by lia. cbn [take].
      by rewrite fmap_cons, concat_empty_cons, !append_assoc_string.
Qed.

(** C37: The status names at most five of the nodes that wait for a drain: their
    names joined by commas and, exactly when there are more than five nodes,
    the number of the others. *)
Theorem toBeExcludedMessage_bounded node nodes :
  toBeExcludedMessage (node :: nodes) =
  sprintf "Some nodes need to be drained before gracefull exclusion: %s"
    [String.concat "," (take 5 (nodeName <$> node :: nodes))
     +:+ (if bool_decide (5 < S (length nodes)) then sprintf " and %d more" [pretty (S (length nodes) - 5)%nat] else "")].
Proof.
  apply (f_equal (fun s => sprintf "Some nodes need to be drained before gracefull exclusion: %s" [s])).
  rewrite (appendNodeNames_spec _ 0) by (unfold maxNodeNamesInMessage; simpl; lia).
  unfold maxNodeNamesInMessage. cbn [Nat.sub take length]. rewrite !fmap_cons, concat_empty_cons. cbn [take].
  rewrite concat_separator, <- fmap_take, <- list_fmap_compose, !append_assoc_string. done.
Qed.

Section Patches.
Context {L : LabelsLib} {M : MetaLib} (cfg : NodePoolControllerConfig).
Context (rangeOrder : forall A, gmap string A -> list (string * A)).
Context (MatchNodeSelectorTerms : Node -> NodeSelector -> result bool).

(** Without terms every node is included. *)
Definition meetsCriteria (mnc : ManagedNodesConfig) (node : Node) : bool :=
  match NodeSelectorTerms (InclusionCriteria mnc) with
  | [] => true
  | _ => nodeMatches MatchNodeSelectorTerms (InclusionCriteria mnc) node
  end.

Lemma filterNodes_spec mnc nodes keep :
  filterNodesBasedOnNodeSelector MatchNodeSelectorTerms nodes (InclusionCriteria mnc) keep =
  filter (fun node => meetsCriteria mnc node = keep) nodes.
Proof.
  unfold filterNodesBasedOnNodeSelector, meetsCriteria. destruct (NodeSelectorTerms _); [|done].
  destruct keep; induction nodes as [|n nodes IH]; try done. by rewrite filter_cons_True, <- IH.
Qed.

Definition poolLabel (node : Node) : string := mapGet (nodeLabels node) (NodePoolNameLabel cfg).
Definition isExcluded (node : Node) : bool := poolLabel node ==? ExcludedNodepoolName cfg.
Definition isMarked (node : Node) : bool := bool_decide (is_Some (nodeLabels node !! ShouldBeExcludedLabelKey cfg)).

(** The configuration wants the node changed: it is on the wrong side of the
    criteria, or marked although it stays. *)
Definition wantsChange (mnc : ManagedNodesConfig) (node : Node) : bool :=
  (eqb (isExcluded node) (meetsCriteria mnc node)) || isMarked node.

Lemma touches_exclude (names : string -> Prop) nodes errs acc :
  Forall (fun node => names (nodeName node)) nodes -> touches names (excludeNodes cfg rangeOrder nodes errs acc).
Proof.
  revert errs acc. induction nodes as [|node nodes IH]; intros errs acc Hall; [done|].
  apply Forall_cons in Hall as [Hn Hall]. apply touches_bind; [|intros r; by apply IH].
  apply (touches_onNode _ node); [done|apply onNode_change|]. intros [n [s innerErr]] Hname. simpl in Hname.
  destruct (AppendErrIfNotNil errs innerErr); [|done].
  destruct (negb s); [|destruct (nodeLabels n !! _); [|done]]; apply touches_update; congruence || done.
Qed.

Lemma touches_include (names : string -> Prop) nodes errs :
  Forall (fun node => names (nodeName node)) nodes -> touches names (includeNodes cfg rangeOrder nodes errs).
Proof.
  revert errs. induction nodes as [|node nodes IH]; intros errs Hall; [done|].
  apply Forall_cons in Hall as [Hn Hall]. apply touches_bind; [|intros r; by apply IH].
  apply (touches_onNode _ node); [done|apply onNode_change|]. intros [n [s innerErr]] Hname. simpl in Hname.
  destruct (nodeLabels n !! _); [|done]. apply touches_update; congruence || done.
Qed.

Lemma touches_unmark (names : string -> Prop) nodes errs :
  Forall (fun node => isMarked node = true -> names (nodeName node)) nodes -> touches names (unmarkNodes cfg nodes errs).
Proof.
  revert errs. induction nodes as [|node nodes IH]; intros errs Hall; [done|].
  apply Forall_cons in Hall as [Hn Hall]. cbn [unmarkNodes]. unfold isMarked in Hn.
  destruct (nodeLabels node !! _); [|by apply IH].
  apply touches_update; [by apply Hn, bool_decide_true|]. intros r. by apply IH.
Qed.

Lemma touches_status names req mnc nodes : touches names (reconcileStatus cfg req mnc nodes).
Proof.
  unfold reconcileStatus. case_bool_decide; [done|].
  apply touches_bind.
  - unfold calculateStatus, statusNodes, ListNodesWithRequirements.
    apply touches_bind; [destruct (isNode req); [destruct (NewRequirement _ _ _)|]; done|].
    intros [err|ns]; [done|]. apply touches_bind; [done|]. intros now. by destruct (setCondition _ _).
  - intros [err|[mnc' []]]; [done| |done]. apply touches_bind; [done|]. by intros [].
Qed.

(** The nodes a reconcile looks at. *)
Definition readNodes (req : MNCReconcileRequest) : kube (result (list Node)) :=
  if isNode req then node <-? call (Get KNode ("", reqName req)) ;; Ret (inr [node : Node])
  else ListNodesWithRequirements [].

(** The node was looked at, is in no unmanaged partition, and is to change. *)
Definition justified (req : MNCReconcileRequest) (mnc : ManagedNodesConfig) (tr : list (event KubeCall)) (name : string) : Prop :=
  exists t1 t2 t3 nodes unmanaged node, tr = t1 ++ t2 ++ t3 /\
    exec (readNodes req) t1 (inr nodes) /\ exec ListPartitionLabelValues t2 (inr unmanaged) /\
    node ∈ nodes /\ nodeName node = name /\ poolLabel node ∉ (unmanaged : gset string) /\ wantsChange mnc node = true.

Lemma reads_noPatch {A} (p : kube A) tr a e name : reads_only p -> exec p tr a -> e ∈ tr -> patchedNode e <> Some name.
Proof.
  intros Hp Hex He. destruct (wp_exec_any _ _ _ _ _ Hp Hex) as [Hall _]. rewrite Forall_forall in Hall.
  specialize (Hall e He). unfold patchedNode. by destruct (ev_call e).
Qed.

(** What the two lists hold. *)
Lemma exec_split nodes tr included excluded :
  exec (splitNodeToIncludedExcluded cfg nodes) tr (inr (included, excluded)) ->
  exists unmanaged, exec ListPartitionLabelValues tr (inr unmanaged) /\
    (forall node, node ∈ included -> node ∈ nodes /\ poolLabel node ∉ (unmanaged : gset string) /\ isExcluded node = false) /\
    (forall node, node ∈ excluded -> node ∈ nodes /\ poolLabel node ∉ (unmanaged : gset string) /\ isExcluded node = true).
Proof.
  intros (tr1 & tr2 & [err|unmanaged] & -> & H1 & H2)%exec_bind_inv; destruct H2 as [-> [= -> ->]]. rewrite app_nil_r.
  exists unmanaged. split; [done|]. unfold isExcluded.
  split; intros node; rewrite !list_elem_of_filter; [rewrite bool_decide_eq_false|rewrite bool_decide_eq_true]; tauto.
Qed.

Lemma partition_reads : reads_only ListPartitionLabelValues.
Proof. apply reads_bind; [by apply reads_call|]. by intros [err|shards]. Qed.

Lemma split_reads nodes : reads_only (splitNodeToIncludedExcluded cfg nodes).
Proof. apply reads_try; [apply partition_reads|done]. Qed.

(** The nodes that each step takes up are to change. *)
Lemma exclude_wanted mnc included (names : string -> Prop) :
  (forall node, node ∈ included -> isExcluded node = false /\ (wantsChange mnc node = true -> names (nodeName node))) ->
  touches names (reconcileIncludedNodesThatShouldBeExcluded cfg rangeOrder MatchNodeSelectorTerms mnc included).
Proof.
  intros H. apply touches_bind; [|done]. apply touches_exclude. unfold getNodesMatchingExcludingNodeConfigAndNoLabel.
  rewrite filterNodes_spec, Forall_forall. intros node [Hm Hin]%list_elem_of_filter.
  destruct (H node Hin) as [Hx Hw]. apply Hw. unfold wantsChange. by rewrite Hx, Hm.
Qed.

Lemma include_wanted mnc excluded (names : string -> Prop) :
  (forall node, node ∈ excluded -> isExcluded node = true /\ (wantsChange mnc node = true -> names (nodeName node))) ->
  touches names (reconcileExcludedNodesThatShouldBeIncluded cfg rangeOrder MatchNodeSelectorTerms mnc excluded).
Proof.
  intros H. apply touches_bind; [|done]. apply touches_include. unfold getNodesNotMatchingExcludingNodeConfigAndWithLabel.
  rewrite filterNodes_spec, Forall_forall. intros node [Hm Hin]%list_elem_of_filter.
  destruct (H node Hin) as [Hx Hw]. apply Hw. unfold wantsChange. by rewrite Hx, Hm.
Qed.

Lemma unmark_wanted mnc included (names : string -> Prop) :
  (forall node, node ∈ included -> wantsChange mnc node = true -> names (nodeName node)) ->
  touches names (reconcileMarkedToBeExcludedAndRevertedToBeIncluded cfg MatchNodeSelectorTerms mnc included).
Proof.
  intros H. apply touches_bind; [|done]. apply touches_unmark. unfold getNodesNotMatchingExcludingNodeConfigAndWithLabel.
  rewrite filterNodes_spec, Forall_forall. intros node [Hm Hin]%list_elem_of_filter Hmark.
  apply H; [done|]. unfold wantsChange. rewrite Hmark. apply orb_true_r.
Qed.

(** The part of a reconcile that reads nodes and acts on them. *)
Definition reconcileBody (req : MNCReconcileRequest) (mnc : ManagedNodesConfig) : kube (list Node * result unit) :=
  if isNode req then err <- reconcileNode cfg rangeOrder MatchNodeSelectorTerms req mnc ;; Ret ([], err)
  else reconcileManagedNodesConfig cfg rangeOrder MatchNodeSelectorTerms mnc.

Lemma justified_app req mnc tr tr' name : justified req mnc tr name -> justified req mnc (tr ++ tr') name.
Proof.
  intros (t1 & t2 & t3 & nodes & u & node & -> & H). exists t1, t2, (t3 ++ tr'), nodes, u, node. by rewrite <- !app_assoc.
Qed.

(** The reads of a reconcile and what they say of the two lists. *)
Lemma justified_split req mnc nodes t1 t2 t3 included excluded (names := justified req mnc (t1 ++ t2 ++ t3)) :
  exec (readNodes req) t1 (inr nodes) -> exec (splitNodeToIncludedExcluded cfg nodes) t2 (inr (included, excluded)) ->
  (forall node, node ∈ included -> isExcluded node = false /\ (wantsChange mnc node = true -> names (nodeName node))) /\
  (forall node, node ∈ excluded -> isExcluded node = true /\ (wantsChange mnc node = true -> names (nodeName node))).
Proof.
  intros H1 (u & Hu & Hin & Hex)%exec_split.
  split; intros node Hnode; [destruct (Hin node Hnode) as (Hl & Hp & Hx)|destruct (Hex node Hnode) as (Hl & Hp & Hx)];
    (split; [done|]; intros Hw; by exists t1, t2, t3, nodes, u, node).
Qed.

(** A patch comes after the reads. *)
Lemma patch_after_read {A} (p : kube A) t1 t2 a e name :
  exec p t1 a -> e ∈ t1 ++ t2 -> patchedNode e = Some name -> reads_only p -> e ∈ t2.
Proof.
  intros Hex [He|He]%elem_of_app Hpatch Hp; [|done]. by apply (reads_noPatch _ _ _ _ name Hp Hex) in He.
Qed.

(** What is done after the reads. *)
Lemma acted_justified {A} req mnc nodes t1 tr (fail : error -> A) (act : list Node * list Node -> kube A) a e name :
  exec (readNodes req) t1 (inr nodes) ->
  exec (r <- splitNodeToIncludedExcluded cfg nodes ;; match r with inl err => Ret (fail err) | inr s => act s end) tr a ->
  (forall names split,
     (forall node, node ∈ split.1 -> isExcluded node = false /\ (wantsChange mnc node = true -> names (nodeName node))) ->
     (forall node, node ∈ split.2 -> isExcluded node = true /\ (wantsChange mnc node = true -> names (nodeName node))) ->
     touches names (act split)) ->
  namesKept tr -> e ∈ tr -> patchedNode e = Some name -> justified req mnc (t1 ++ tr) name.
Proof.
  intros H1 (t2 & t3 & r & -> & H2 & H)%exec_bind_inv Hact [_ Hn]%Forall_app He Hp.
  apply (patch_after_read _ _ _ _ _ _ H2 He) in Hp as He'; [|apply split_reads].
  destruct r as [err|[included excluded]]; [destruct H as [-> _]; by apply elem_of_nil in He'|].
  destruct (justified_split req mnc nodes t1 t2 t3 included excluded H1 H2) as [Hin Hex].
  eapply (touches_exec (justified req mnc (t1 ++ t2 ++ t3))); [|exact H|exact Hn|exact He'|exact Hp]. by apply Hact.
Qed.

Lemma body_justified req mnc tr r e name :
  exec (reconcileBody req mnc) tr r -> namesKept tr -> e ∈ tr -> patchedNode e = Some name -> justified req mnc tr name.
Proof.
  unfold reconcileBody. destruct (isNode req) eqn:Hnode; intros H Hn He Hp.
  - apply exec_bind_inv in H as (tr1 & tr2 & err & -> & H & [-> _]). rewrite app_nil_r in *.
    apply exec_bind_inv in H as (t1 & t2 & r1 & -> & H1 & H). apply Forall_app in Hn as [_ Hn].
    apply (patch_after_read _ _ _ _ _ _ H1 He) in Hp as He'; [|by apply reads_call].
    destruct r1 as [er|node]; [destruct H as [-> _]; by apply elem_of_nil in He'|].
    eapply (acted_justified _ _ [node : Node]); [|exact H| |exact Hn|exact He'|exact Hp].
    + unfold readNodes. rewrite Hnode, <- (app_nil_r t1). eapply exec_bind; [exact H1|done].
    + intros names [included excluded] Hin Hex. apply touches_bind; [by apply exclude_wanted|intros r1].
      apply touches_bind; [by apply include_wanted|done].
  - apply exec_bind_inv in H as (t1 & t2 & r1 & -> & H1 & H). apply Forall_app in Hn as [_ Hn].
    apply (patch_after_read _ _ _ _ _ _ H1 He) in Hp as He'; [|by apply reads_call].
    destruct r1 as [er|nodes]; [destruct H as [-> _]; by apply elem_of_nil in He'|].
    eapply (acted_justified _ _ nodes _ _ (fun err => ([], inl err)) (fun '(included, excluded) => _));
      [|exact H| |exact Hn|exact He'|exact Hp].
    + unfold readNodes. by rewrite Hnode.
    + intros names [included excluded] Hin Hex. apply touches_bind; [by apply exclude_wanted|intros r1].
      apply touches_bind; [by apply include_wanted|intros r2]. apply touches_bind; [|done].
      apply unmark_wanted. intros node Hnode'. by apply Hin.
Qed.

(** A node that is where the configuration wants it is left alone.  Every
    patch of a node by a reconcile, whatever the API answers, concerns a node
    that the reconcile read, that is in no unmanaged partition, and that is on
    the wrong side of the inclusion criteria or still carries the mark of a
    pending exclusion. *)
Theorem managed_nodes_patches_justified req tr r e name :
  exec (ManagedNodes.Reconcile cfg rangeOrder MatchNodeSelectorTerms req) tr r -> namesKept tr ->
  e ∈ tr -> patchedNode e = Some name ->
  exists t0 t1 mnc, tr = t0 ++ t1 /\ exec (getManagedNodesConfig cfg) t0 (inr mnc) /\ justified req mnc t1 name.
Proof.
  intros H Hn He Hp. apply exec_bind_inv in H as (t0 & t1 & [err|mnc] & -> & H0 & H).
  all: apply (patch_after_read _ _ _ _ _ _ H0 He) in Hp as He'; [|apply reads_bind; [by apply reads_call|by intros []]].
  all: clear He; rename He' into He.
  { destruct H as [-> _]. by apply elem_of_nil in He. }
  exists t0, t1, mnc. split; [done|]. split; [done|]. apply Forall_app in Hn as [_ Hn].
  apply exec_bind_inv in H as (t2 & t3 & r1 & -> & H1 & H2). apply justified_app.
  apply Forall_app in Hn as [Hn1 Hn2].
  apply elem_of_app in He as [He|He]; [by apply (body_justified _ _ _ _ _ _ H1 Hn1 He)|].
  exfalso. eapply (touches_exec (fun _ => False)); [|exact H2|exact Hn2|exact He|exact Hp].
  apply touches_bind; [apply touches_status|done].
Qed.

End Patches.

(** ** Draining *)

Section Drained.
Context {L : LabelsLib} {LL : LabelsLaws L} {M : MetaLib} (cfg : NodePoolControllerConfig).
Context (rangeOrder : forall A, gmap string A -> list (string * A)).
Context (MatchNodeSelectorTerms : Node -> NodeSelector -> result bool).
Hypothesis keysDiffer : UnschedulableLabelKey cfg <> NodePoolNameLabel cfg.
Hypothesis markDiffers : ShouldBeExcludedLabelKey cfg <> NodePoolNameLabel cfg.

Hypothesis excludedNamed : ExcludedNodepoolName cfg <> "".

(** No move is excused here. *)
Notation drained known p := (drained cfg rangeOrder (fun _ _ => False) known p).

Ltac bind := apply drained_bind; [done| |].
Ltac ret := intros; by apply drained_ret.

Lemma update_drained known node add remove :
  NodePoolNameLabel cfg ∉ add.*1 -> NodePoolNameLabel cfg ∉ remove -> drained known (UpdateNodeLabels node add remove).
Proof. intros. by apply drained_noMove, updateNodeLabels_noMove. Qed.

Lemma mark_drained known node : drained known (UpdateNodeLabels node [(ShouldBeExcludedLabelKey cfg, "true")] []).
Proof. apply update_drained; cbn; [rewrite list_elem_of_singleton; congruence|apply not_elem_of_nil]. Qed.

Lemma unmark_drained known node : drained known (UpdateNodeLabels node [] [ShouldBeExcludedLabelKey cfg]).
Proof. apply update_drained; cbn; [apply not_elem_of_nil|rewrite list_elem_of_singleton; congruence]. Qed.

Lemma exclude_drained (known : Node -> Prop) nodes errs acc :
  Forall known nodes -> drained known (excludeNodes cfg rangeOrder nodes errs acc).
Proof.
  intros Hk. revert errs acc. induction Hk as [|node nodes Hn _ IH]; intros errs acc; [by apply drained_ret|].
  bind; [|intros; apply IH]. bind; [by apply changeNodePool_drained|].
  intros [n [s innerErr]]. destruct (AppendErrIfNotNil errs innerErr); [|ret].
  destruct (negb s); [|destruct (nodeLabels n !! _); [|ret]].
  - bind; [apply mark_drained|ret].
  - bind; [apply unmark_drained|ret].
Qed.

(** A node whose label is the excluded pool is in that pool. *)
Definition excludedNode (node : Node) : Prop := mapGet (nodeLabels node) (NodePoolNameLabel cfg) = ExcludedNodepoolName cfg.

Lemma excludedNode_pool node : excludedNode node -> ExcludedNodepoolName cfg = poolOfNode cfg node.
Proof.
  unfold excludedNode, poolOfNode, nodePoolNameOfLabels, GetNodePoolNameFromLabels, mapGet.
  destruct (nodeLabels node !! NodePoolNameLabel cfg) as [pool|]; simpl; intros Hp; [|congruence].
  rewrite bool_decide_false by congruence. done.
Qed.

Lemma include_drained (known : Node -> Prop) nodes errs :
  Forall known nodes -> Forall excludedNode nodes -> drained known (includeNodes cfg rangeOrder nodes errs).
Proof.
  intros Hk He. revert errs. induction Hk as [|node nodes Hn _ IH]; intros errs; [by apply drained_ret|].
  apply Forall_cons in He as [He1 He]. bind; [|intros; by apply IH].
  bind; [apply changeNodePool_drained; [done|done|done|by apply excludedNode_pool]|].
  intros [n [s innerErr]]. destruct (nodeLabels n !! _); [|ret]. bind; [apply unmark_drained|ret].
Qed.

Lemma unmarkNodes_drained known nodes errs : drained known (unmarkNodes cfg nodes errs).
Proof.
  revert errs. induction nodes as [|node nodes IH]; intros errs; [by apply drained_ret|].
  cbn [unmarkNodes]. destruct (nodeLabels node !! _); [|apply IH]. bind; [apply unmark_drained|intros; apply IH].
Qed.

Lemma status_drained known req mnc nodes : drained known (reconcileStatus cfg req mnc nodes).
Proof.
  apply drained_noMove. unfold reconcileStatus. case_bool_decide; [done|]. apply issues_try.
  - unfold calculateStatus, statusNodes, ListNodesWithRequirements. apply issues_try.
    + destruct (isNode req); [destruct (NewRequirement _ _ _)|]; done.
    + intros ns. apply issues_bind; [done|]. intros now. by destruct (setCondition _ _).
  - intros [mnc' []]; [|done]. by apply issues_try.
Qed.

(** The selections and the two lists keep the nodes that were read. *)
Lemma filtered_known (known P : Node -> Prop) `{forall n, Decision (P n)} nodes :
  Forall known nodes -> Forall known (filter P nodes).
Proof. rewrite !Forall_forall. intros Hk n [_ Hn]%list_elem_of_filter. auto. Qed.

Lemma selected_known (known : Node -> Prop) nodes terms keep :
  Forall known nodes -> Forall known (filterNodesBasedOnNodeSelector MatchNodeSelectorTerms nodes terms keep).
Proof.
  intros Hk. unfold filterNodesBasedOnNodeSelector. destruct (NodeSelectorTerms terms); [by destruct keep|].
  by apply filtered_known.
Qed.

Lemma split_drained (known : Node -> Prop) nodes {B} (f : result (list Node * list Node) -> kube B) :
  Forall known nodes ->
  (forall err, drained known (f (inl err))) ->
  (forall included excluded, Forall known included -> Forall known excluded -> Forall excludedNode excluded ->
     drained known (f (inr (included, excluded)))) ->
  drained known (r <- splitNodeToIncludedExcluded cfg nodes ;; f r).
Proof.
  intros Hk Herr Hok. apply drained_bind_exec; [done|by apply drained_reads, split_reads|].
  assert (forall r, drained known (f r) -> forall tr, drained (fun node => known node \/ wasRead tr node) (f r)) as Hmono
    by (intros r Hr tr; eapply drained_mono; [|exact Hr]; auto).
  intros tr r (tr1 & tr2 & [err|unmanaged] & -> & _ & H)%exec_bind_inv _; apply Hmono.
  - by destruct H as [_ ->].
  - destruct H as [_ ->]. apply Hok; [by apply filtered_known, filtered_known..|].
    apply Forall_forall. by intros node [? _]%list_elem_of_filter.
Qed.

Lemma excludeAll_drained (known : Node -> Prop) mnc nodes :
  Forall known nodes ->
  drained known (reconcileIncludedNodesThatShouldBeExcluded cfg rangeOrder MatchNodeSelectorTerms mnc nodes).
Proof. intros Hk. bind; [by apply exclude_drained, selected_known|ret]. Qed.

Lemma includeAll_drained (known : Node -> Prop) mnc nodes :
  Forall known nodes -> Forall excludedNode nodes ->
  drained known (reconcileExcludedNodesThatShouldBeIncluded cfg rangeOrder MatchNodeSelectorTerms mnc nodes).
Proof. intros Hk He. bind; [apply include_drained; by apply selected_known|ret]. Qed.

(** C28: Nodes are drained before they are excluded or included again.  Take any
    reconcile of the configuration, or of a node, whatever the API answers (as
    long as a patch keeps the name of the node, the nodes of a list match its
    selector, and a node pool has a name), in a configuration whose keys differ
    and whose excluded pool has a name.  Every write that changes the pool
    label of a node, also by removing it, comes after that node was read in this
    reconcile and then a check found no running pod of the pool that the node was
    in when it was read (its label, or the default pool without one). *)
Theorem exclusion_moves_drained_nodes req tr r e name :
  exec (ManagedNodes.Reconcile cfg rangeOrder MatchNodeSelectorTerms req) tr r -> faithful tr ->
  e ∈ tr -> relabels cfg e = Some name ->
  exists node tr1 tr2 tr3, tr = tr1 ++ tr2 ++ tr3 /\ nodeName node = name /\ wasRead tr1 node /\ e ∈ tr3 /\
    exec (arePodsRunningWithNodePool cfg rangeOrder name (poolOfNode cfg node) true) tr2 (inr false).
Proof.
  intros Hex Hf He Hm.
  enough (drained (fun _ => False) (ManagedNodes.Reconcile cfg rangeOrder MatchNodeSelectorTerms req)) as H.
  { destruct (H _ _ _ _ Hex Hf He Hm) as [[]|(node & tr1 & tr2 & tr3 & ? & ? & [[]|?] & ?)]. by exists node, tr1, tr2, tr3. }
  bind; [by apply drained_reads, reads_bind; [by apply reads_call|by intros []]|].
  intros [err|mnc]; [ret|]. bind; [|intros r1; bind; [by apply status_drained|ret]].
  destruct (isNode req); [bind; [|ret]|].
  - apply drained_bind_exec; [done|by apply drained_reads, reads_call|].
    clear tr Hex Hf He. intros tr [er|node] (reply & tr' & -> & [-> <-]) _; [ret|].
    assert (Forall (fun n => False \/ wasRead [Event (Get KNode ("", reqName req)) (inr node)] n) [node : Node]) as Hk.
    { apply Forall_singleton. right. eexists. split; [left|done]. }
    apply split_drained; [exact Hk|ret|]. intros included excluded Hi Hx Hl.
    bind; [by apply excludeAll_drained|]. intros r1. bind; [by apply includeAll_drained|ret].
  - apply drained_bind_exec; [done|by apply drained_reads, reads_call|].
    clear tr Hex Hf He. intros tr [er|nodes] (reply & tr' & -> & [-> <-]) _; [ret|].
    apply split_drained; [|ret|].
    { apply Forall_forall. intros n Hn. right. eexists. split; [left|exact Hn]. }
    intros included excluded Hi Hx Hl.
    bind; [by apply excludeAll_drained|]. intros r1. bind; [by apply includeAll_drained|]. intros r2.
    bind; [bind; [by apply unmarkNodes_drained|ret]|ret].
Qed.

End Drained.

(** ** Status *)

Definition findMetaCondition (t : string) (conditions : list MetaCondition) : option MetaCondition :=
  list_find (fun c => mcType c = t) conditions ≫= fun p => Some p.2.

Lemma findMetaCondition_cons t c cs :
  findMetaCondition t (c :: cs) = if decide (mcType c = t) then Some c else findMetaCondition t cs.
Proof.
  unfold findMetaCondition. simpl. destruct (decide _); [done|]. by destruct (list_find _ cs) as [[i x]|].
Qed.

Lemma replaceMetaCondition_spec condition cs :
  match replaceMetaCondition condition cs with
  | Some (c, cs') => findMetaCondition (mcType condition) cs = Some c /\
      forall t, findMetaCondition t cs' = if decide (t = mcType condition) then Some condition else findMetaCondition t cs
  | None => findMetaCondition (mcType condition) cs = None
  end.
Proof.
  induction cs as [|c cs IH]; [done|]. simpl. case_bool_decide as Hc.
  - rewrite findMetaCondition_cons, decide_True by done. split; [done|]. intros t. rewrite !findMetaCondition_cons.
    repeat case_decide; congruence.
  - destruct (replaceMetaCondition condition cs) as [[c' cs']|].
    + rewrite findMetaCondition_cons, decide_False by done. destruct IH as [IH1 IH2]. split; [done|].
      intros t. rewrite !findMetaCondition_cons, IH2. repeat case_decide; congruence.
    + by rewrite findMetaCondition_cons, decide_False.
Qed.

Lemma findMetaCondition_snoc t cs c :
  findMetaCondition (mcType c) cs = None ->
  findMetaCondition t (cs ++ [c]) = if decide (t = mcType c) then Some c else findMetaCondition t cs.
Proof.
  induction cs as [|c' cs IH]; simpl; rewrite !findMetaCondition_cons.
  - intros _. repeat case_decide; congruence.
  - destruct (decide (mcType c' = mcType c)); [done|]. intros H. rewrite IH by done. repeat case_decide; congruence.
Qed.

(** The conditions after [setCondition]. *)
Lemma setCondition_spec mnc condition mnc' changed :
  setCondition mnc condition = (mnc', changed) ->
  mncMeta mnc' = mncMeta mnc /\ mncObservedGeneration mnc' = mncObservedGeneration mnc /\
  (forall t, findMetaCondition t (mncConditions mnc') =
             if decide (t = mcType condition) then Some condition else findMetaCondition t (mncConditions mnc)) /\
  changed = match findMetaCondition (mcType condition) (mncConditions mnc) with
            | Some c => negb (bool_decide (mcReason c = mcReason condition)) || negb (bool_decide (mcStatus c = mcStatus condition))
            | None => true
            end.
Proof.
  unfold setCondition. pose proof (replaceMetaCondition_spec condition (mncConditions mnc)) as H.
  destruct (replaceMetaCondition _ _) as [[c cs]|]; intros [= <- <-]; simpl.
  - destruct H as [-> Hcs]. done.
  - rewrite H. split; [done|]. split; [done|]. split; [|done]. intros t. by rewrite findMetaCondition_snoc.
Qed.

Definition MNCConditionReason (nodes : list Node) : string :=
  match nodes with [] => MNCConditionReasonAllNodesIncludedCorrectly | _ => MNCConditionReasonToBeExcludedNodes end.
Definition MNCConditionStatus (nodes : list Node) : string :=
  match nodes with [] => MetaConditionTrue | _ => MetaConditionFalse end.

(** The stored status agrees on the reason, the status and the generation. *)
Definition statusUpToDate (mnc : ManagedNodesConfig) (nodes : list Node) : bool :=
  match findMetaCondition MNCConditionTypeApplied (mncConditions mnc) with
  | Some c => (mcReason c ==? MNCConditionReason nodes) && (mcStatus c ==? MNCConditionStatus nodes)
  | None => false
  end && (mncObservedGeneration mnc ==? Generation (mncMeta mnc)).

Section Status.
Context {L : LabelsLib} {M : MetaLib} (cfg : NodePoolControllerConfig).
Context (rangeOrder : forall A, gmap string A -> list (string * A)).
Context (MatchNodeSelectorTerms : Node -> NodeSelector -> result bool).

(** The status of the configuration is written exactly when the stored one
    differs in the reason or the status of its condition, or in the observed
    generation.  What is written is the condition for the nodes that wait for a
    drain, with the other conditions kept and the generation observed.  The
    message is not compared: when other nodes wait than before, the status
    keeps naming the old ones. *)
Theorem mnc_status_exact name mnc nodes tr r :
  Name (mncMeta mnc) <> "" ->
  exec (reconcileStatus cfg {| reqName := name; isNode := false |} mnc nodes) tr r ->
  exists now,
    if statusUpToDate mnc nodes then tr = [Event Now now] /\ r = inr tt
    else exists mnc' reply, tr = [Event Now now; Event (UpdateStatus KManagedNodesConfig mnc') reply] /\
      mncMeta mnc' = mncMeta mnc /\ mncObservedGeneration mnc' = Generation (mncMeta mnc) /\
      (forall t, findMetaCondition t (mncConditions mnc') =
                 if decide (t = MNCConditionTypeApplied) then Some (appliedCondition nodes now)
                 else findMetaCondition t (mncConditions mnc)) /\
      (r = inr tt <-> exists stored, reply = inr stored).
Proof.
  intros Hname. unfold reconcileStatus. rewrite bool_decide_false by done.
  intros (tr1 & tr2 & r1 & -> & (now & tr3 & -> & H1) & H2)%exec_bind_inv. exists now.
  destruct (setCondition mnc (appliedCondition nodes now)) as [mnc1 changed] eqn:Hset.
  cbn [prog_bind_ call exec] in H1. rewrite Hset in H1. destruct H1 as [-> ->].
  destruct (setCondition_spec _ _ _ _ Hset) as (Hmeta & Hgen & Hfind & ->). rewrite Hmeta, Hgen in H2.
  assert (mcType (appliedCondition nodes now) = MNCConditionTypeApplied) as Htype by (by destruct nodes).
  assert (mcReason (appliedCondition nodes now) = MNCConditionReason nodes) as Hreason by (by destruct nodes).
  assert (mcStatus (appliedCondition nodes now) = MNCConditionStatus nodes) as Hstatus by (by destruct nodes).
  rewrite Htype, Hreason, Hstatus in *. unfold statusUpToDate. cbn [app].
  assert (forall mnc', exec (updateStatus mnc') tr2 r -> exists reply,
    tr2 = [Event (UpdateStatus KManagedNodesConfig mnc') reply] /\ (r = inr tt <-> exists stored, reply = inr stored)) as Hupd.
  { intros mnc' (reply & tr4 & -> & H). exists reply. destruct reply as [err|stored]; destruct H as [-> ->]; naive_solver. }
  clear Hset. set (same := match findMetaCondition _ _ with Some c => _ | None => false end).
  replace (match findMetaCondition _ _ with Some c => _ | None => true end) with (negb same) in H2
    by (unfold same; destruct (findMetaCondition _ _); [by rewrite negb_andb|done]).
  destruct (bool_decide (mncObservedGeneration mnc = Generation (mncMeta mnc))) eqn:Hobs; cbn [negb] in H2;
    [rewrite andb_true_r; apply bool_decide_eq_true in Hobs; destruct same; cbn [negb] in H2|rewrite andb_false_r].
  - by destruct H2 as [-> ->].
  - destruct (Hupd _ H2) as (reply & -> & Hr). exists mnc1, reply. rewrite Hmeta, Hgen. done.
  - destruct (Hupd _ H2) as (reply & -> & Hr). eexists _, reply. split; [done|]. simpl. done.
Qed.

(** The answer to a read of the node. *)
Definition nodeRead (name : string) (e : event KubeCall) : option (result Node) :=
  match ev_call e in KubeCall X return X -> option (result Node) with
  | Get K key =>
      match K return result (obj K) -> option (result Node) with
      | KNode => fun r => if key ==? ("", name) then Some r else None
      | _ => fun _ => None
      end
  | _ => fun _ => None
  end (ev_reply e).

(** A deleted node is reconciled forever.  The deletion of a node is an event
    of the controller, and as long as the node cannot be read the reconcile of
    its request fails, so the request is retried. *)
Theorem deleted_node_is_retried node tr r :
  NodePredicate (Deleted node) = true /\
  forall req, req ∈ MapNodeToManagedNodesConfigEvent node ->
  exec (ManagedNodes.Reconcile cfg rangeOrder MatchNodeSelectorTerms req) tr r ->
  Forall (fun e => forall reply, nodeRead (nodeName node) e = Some reply -> exists err, reply = inl err) tr ->
  exists err, r = inl err.
Proof.
  split; [done|]. intros req [->|Hreq]%elem_of_cons; [|by apply elem_of_nil in Hreq].
  intros (t0 & t1 & [err|mnc] & -> & H0 & H)%exec_bind_inv Hget; [destruct H as [_ ->]; by eexists|].
  apply exec_bind_inv in H as (t2 & t3 & r1 & -> & H1 & H2). cbn [isNode] in H1.
  apply exec_bind_inv in H1 as (t4 & t5 & err & -> & (reply & t6 & -> & H1) & [-> ->]).
  apply Forall_app in Hget as [_ [[[Hreply _]%Forall_cons _]%Forall_app _]%Forall_app].
  destruct (Hreply reply) as [er ->]; [unfold nodeRead; simpl; by rewrite bool_decide_true|]. cbn [try_bind prog_bind_ call] in H1. destruct H1 as [_ ->].
  apply exec_bind_inv in H2 as (t7 & t8 & innerErr & -> & _ & [_ ->]). unfold joinErrors. simpl. by destruct innerErr; eexists.
Qed.

End Status.

(** ** Examples *)

Definition demoMatch (node : Node) (_ : NodeSelector) : result bool := inr (nodeLabels node !! "managed" ==? Some "yes").

Definition demoMnc : ManagedNodesConfig :=
  {| mncMeta := named "managed";
     InclusionCriteria := {| NodeSelectorTerms := [{| MatchExpressions := []; MatchFields := [] |}] |};
     mncConditions := []; mncObservedGeneration := 0 |}.

(** A node of the default pool that the criteria exclude. *)
Definition excludeStore : store :=
  store_add (K := KManagedNodesConfig) demoMnc (store_add (K := KNode) (demoNode "n1" ∅) emptyStore).

Definition demoMncRequest : MNCReconcileRequest := {| reqName := "managed"; isNode := false |}.
Definition demoMncReconcile (req : MNCReconcileRequest) : kube (result unit) :=
  ManagedNodes.Reconcile demoNpcConfig demoOrder demoMatch req.
Definition demoExclusion : list (event KubeCall) := run_trace memServer (demoMncReconcile demoMncRequest) excludeStore.

Lemma demoExclusion_namesKept : namesKept demoExclusion.
Proof. unfold namesKept. vm_compute; repeat (apply Forall_cons; split); try apply Forall_nil; done. Qed.

Lemma exclusion_moves_drained_nodes_witness :
  exists e node tr1 tr2 tr3, demoExclusion = tr1 ++ tr2 ++ tr3 /\ nodeName node = "n1" /\ wasRead tr1 node /\ e ∈ tr3 /\
    exec (arePodsRunningWithNodePool demoNpcConfig demoOrder "n1" (poolOfNode demoNpcConfig node) true) tr2 (inr false).
Proof.
  assert (exists e, e ∈ demoExclusion /\ relabels demoNpcConfig e = Some "n1") as (e & He & Hm).
  { assert (existsb (fun e => relabels demoNpcConfig e ==? Some "n1") demoExclusion = true) as H by (vm_compute; reflexivity).
    apply existsb_exists in H as (e & Hin & Heq). exists e. split; [by apply list_elem_of_In|by apply bool_decide_eq_true in Heq]. }
  exists e. apply (exclusion_moves_drained_nodes demoNpcConfig demoOrder demoMatch) with
    (req := demoMncRequest) (r := (run memServer (demoMncReconcile demoMncRequest) excludeStore).1).
  - discriminate.
  - discriminate.
  - discriminate.
  - apply run_exec.
  - apply faithful_check. vm_compute. reflexivity.
  - exact He.
  - exact Hm.
Defined.

Lemma managed_nodes_patches_justified_witness :
  exists t0 t1 mnc, demoExclusion = t0 ++ t1 /\ exec (getManagedNodesConfig demoNpcConfig) t0 (inr mnc) /\
    justified demoNpcConfig demoMatch demoMncRequest mnc t1 "n1".
Proof.
  assert (exists e, e ∈ demoExclusion /\ patchedNode e = Some "n1") as (e & He & Hp).
  { assert (existsb (fun e => patchedNode e ==? Some "n1") demoExclusion = true) as H by (vm_compute; reflexivity).
    apply existsb_exists in H as (e & Hin & Heq). exists e. split; [by apply list_elem_of_In|by apply bool_decide_eq_true in Heq]. }
  apply (managed_nodes_patches_justified demoNpcConfig demoOrder demoMatch demoMncRequest demoExclusion
           (run memServer (demoMncReconcile demoMncRequest) excludeStore).1 e "n1").
  - apply run_exec.
  - apply demoExclusion_namesKept.
  - exact He.
  - exact Hp.
Defined.

(** The status named a node; now another one waits. *)
Definition staleMnc : ManagedNodesConfig :=
  mnc_with_status [appliedCondition [demoNode "old" ∅] 0] 0 demoMnc.

Definition demoMncStatus : kube (result unit) := reconcileStatus demoNpcConfig demoMncRequest staleMnc [demoNode "new" ∅].

Lemma mnc_status_exact_witness :
  exists now, run_trace memServer demoMncStatus excludeStore = [Event Now now] /\
    (run memServer demoMncStatus excludeStore).1 = inr tt.
Proof.
  apply (mnc_status_exact demoNpcConfig "managed" staleMnc [demoNode "new" ∅]
           (run_trace memServer demoMncStatus excludeStore) (run memServer demoMncStatus excludeStore).1).
  - discriminate.
  - apply (run_exec memServer demoMncStatus excludeStore).
Defined.

Definition demoGone : MNCReconcileRequest := {| reqName := "gone"; isNode := true |}.

Lemma deleted_node_is_retried_witness :
  exists err, (run memServer (demoMncReconcile demoGone) excludeStore).1 = inl err.
Proof.
  apply (deleted_node_is_retried demoNpcConfig demoOrder demoMatch (demoNode "gone" ∅)
           (run_trace memServer (demoMncReconcile demoGone) excludeStore)) with (req := demoGone).
  - apply list_elem_of_singleton. reflexivity.
  - apply run_exec.
  - vm_compute. repeat (apply Forall_cons; split); try apply Forall_nil; try exact I; intros reply H; inversion H. eexists. reflexivity.
Defined.
