(* ===== verification/NodePoolWebhookFacts.v ===== *)
(** * Properties of the webhooks of node pools and scheduling shards

    The clusters that the webhooks admit, as the states reached from an empty
    one by admitted requests, one at a time. *)

From stdpp Require Import base list gmap strings relations.
From S2P Require Import Prelude ApiTypes NodePoolUtils NodePoolCommon Shards Nodes NodePools NodePoolWebhooks NodeFacts.

Notation shards := (gmap string SchedulingShard) (only parsing).
Notation pools := (gmap string NodePool) (only parsing).

Definition partitionOf (shard : SchedulingShard) : string := PartitionLabelValue (shardSpec shard).

(** ** Scheduling shards *)

Section ShardInvariant.
Context {M : MetaLib} (cfg : NodePoolControllerConfig).

(** A list by the partition index answers with the shards of the partition. *)
Definition shardsAnswer (s : shards) (e : event KubeCall) : Prop :=
  match ev_call e in KubeCall X return X -> Prop with
  | List K opts =>
      match K return result (list (obj K)) -> Prop with
      | KSchedulingShard => fun r =>
          match r, loFieldSelector opts with
          | inr l, Some (field, value) =>
              field = SchedulingShardPartitionField ->
              forall shard, shard ∈ (l : list SchedulingShard) <-> s !! Name (shardMeta shard) = Some shard /\ partitionOf shard = value
          | _, _ => True
          end
      | _ => fun _ => True
      end
  | _ => fun _ => True
  end (ev_reply e).

Inductive shardStep : relation shards :=
| shard_created (s : shards) shard tr :
    s !! Name (shardMeta shard) = None ->
    exec (ShardValidator.ValidateCreate cfg shard) tr (inr tt) -> Forall (shardsAnswer s) tr ->
    shardStep s (<[Name (shardMeta shard) := shard]> s)
| shard_updated (s : shards) old new :
    s !! Name (shardMeta new) = Some old ->
    ShardValidator.ValidateUpdate old new = inr tt ->
    shardStep s (<[Name (shardMeta new) := new]> s)
| shard_deleted (s : shards) shard :
    s !! Name (shardMeta shard) = Some shard ->
    ShardValidator.ValidateDelete shard = inr tt ->
    shardStep s (delete (Name (shardMeta shard)) s).

(** Shards are stored under their names, and a partition has one shard. *)
Definition partitionsUnique (s : shards) : Prop :=
  map_Forall (fun name shard => Name (shardMeta shard) = name) s /\
  forall n1 n2 s1 s2, s !! n1 = Some s1 -> s !! n2 = Some s2 -> partitionOf s1 = partitionOf s2 -> n1 = n2.

Lemma findOther_None shard others :
  ShardValidator.findOther shard others = None -> forall other, other ∈ others -> Name (shardMeta other) = Name (shardMeta shard).
Proof.
  induction others as [|o others IH]; simpl; intros H other; [by intros ?%elem_of_nil|].
  case_bool_decide; [|done]. intros [->|Hin]%elem_of_cons; auto.
Qed.

(** An accepted shard is alone in its partition. *)
Lemma created_alone s shard tr :
  map_Forall (fun name shard => Name (shardMeta shard) = name) s ->
  exec (ShardValidator.ValidateCreate cfg shard) tr (inr tt) -> Forall (shardsAnswer s) tr ->
  forall n other, s !! n = Some other -> partitionOf other = partitionOf shard -> n = Name (shardMeta shard).
Proof.
  intros Hnames H Hans n other Hn Hp.
  apply exec_bind_inv in H as (t1 & t2 & r & -> & (reply & t3 & -> & H1) & H2).
  cbn [prog_bind_ call] in H1. apply Forall_app in Hans as [[Hans _]%Forall_cons _]. unfold shardsAnswer in Hans. simpl in Hans.
  destruct reply as [err|others]; destruct H1 as [-> ->]; [by destruct H2|].
  destruct (ShardValidator.findOther shard others) eqn:Hf; [by destruct H2|].
  specialize (Hnames n other Hn). simpl in Hnames. rewrite <- Hnames. apply (findOther_None _ _ Hf).
  apply Hans; [done|]. by rewrite Hnames.
Qed.

Lemma partitionsUnique_insert (s : shards) new :
  partitionsUnique s ->
  (forall n other, s !! n = Some other -> partitionOf other = partitionOf new -> n = Name (shardMeta new)) ->
  partitionsUnique (<[Name (shardMeta new) := new]> s).
Proof.
  intros [Hnames Huniq] Hnew. split; [by apply map_Forall_insert_2|].
  intros n1 n2 s1 s2 [[<- <-]|[Hn1 H1]]%lookup_insert_Some [[<- <-]|[Hn2 H2]]%lookup_insert_Some Hp; [done| | |eauto].
  - symmetry. by eapply Hnew.
  - by eapply Hnew.
Qed.

Lemma shardStep_unique s s' : shardStep s s' -> partitionsUnique s -> partitionsUnique s'.
Proof.
  intros [s1 shard tr Hnone Hex Hans|s1 old new Hold Hupd|s1 shard Hs Hdel] Hinv.
  - apply partitionsUnique_insert; [done|]. apply (created_alone s1 shard tr); [apply Hinv|done..].
  - apply partitionsUnique_insert; [done|]. intros n other Hn Hp. destruct Hinv as [_ Huniq].
    apply (Huniq n _ other old); [done..|]. rewrite Hp. unfold ShardValidator.ValidateUpdate in Hupd.
    unfold partitionOf. case_bool_decide; [done|discriminate].
  - destruct Hinv as [Hnames Huniq]. split; [by apply map_Forall_delete|].
    intros n1 n2 s2 s3 [_ H1]%lookup_delete_Some [_ H2]%lookup_delete_Some. eauto.
Qed.

(** C27: Under the webhook no two scheduling shards ever serve one partition: in
    every cluster reached by admitted creations, updates and deletions, taken
    one at a time, shards of equal partition are the same shard. *)
Theorem shard_partitions_stay_unique s :
  rtc shardStep ∅ s ->
  forall n1 n2 s1 s2, s !! n1 = Some s1 -> s !! n2 = Some s2 -> partitionOf s1 = partitionOf s2 -> n1 = n2.
Proof.
  intros H. enough (partitionsUnique s) as [_ Hu] by exact Hu.
  assert (partitionsUnique ∅) as Hinit by (split; [apply map_Forall_empty|by intros ? ? ? ? ?%lookup_empty_Some]).
  revert Hinit. induction H as [|s s' s'' Hstep _ IH]; [done|]. intros Hinv. apply IH. by eapply shardStep_unique.
Qed.

End ShardInvariant.

(** ** Node pools *)

Section PoolInvariant.
Context {M : MetaLib} (cfg : NodePoolControllerConfig).

(** A list answers with the stored pools. *)
Definition poolsAnswer (s : pools) (e : event KubeCall) : Prop :=
  match ev_call e in KubeCall X return X -> Prop with
  | List K _ =>
      match K return result (list (obj K)) -> Prop with
      | KNodePool => fun r =>
          match r with
          | inr l => forall pool, s !! Name (npMeta pool) = Some pool -> pool ∈ (l : list NodePool)
          | inl _ => True
          end
      | _ => fun _ => True
      end
  | _ => fun _ => True
  end (ev_reply e).

Inductive poolStep : relation pools :=
| pool_created (s : pools) pool tr :
    s !! Name (npMeta pool) = None ->
    exec (NodePoolValidator.ValidateCreate cfg pool) tr (inr tt) -> Forall (poolsAnswer s) tr ->
    poolStep s (<[Name (npMeta pool) := pool]> s)
(** the CRD makes the label pair immutable *)
| pool_updated (s : pools) old new :
    s !! Name (npMeta new) = Some old ->
    LabelKey new = LabelKey old -> LabelValue new = LabelValue old ->
    NodePoolValidator.ValidateUpdate old new = inr tt ->
    poolStep s (<[Name (npMeta new) := new]> s)
| pool_deleted (s : pools) pool :
    s !! Name (npMeta pool) = Some pool ->
    NodePoolValidator.ValidateDelete cfg pool = inr tt ->
    poolStep s (delete (Name (npMeta pool)) s).

(** The label pair of a pool is what its name allows. *)
Definition pairAllowed (pool : NodePool) : Prop :=
  if decide (Name (npMeta pool) = DefaultNodepoolName cfg)
  then LabelKey pool = "" /\ LabelValue pool = ""
  else LabelKey pool <> "" /\ LabelValue pool <> "".

Definition poolsWellFormed (s : pools) : Prop :=
  map_Forall (fun name pool => Name (npMeta pool) = name /\ pairAllowed pool) s /\
  forall n1 n2 p1 p2, s !! n1 = Some p1 -> s !! n2 = Some p2 ->
    LabelKey p1 = LabelKey p2 -> LabelValue p1 = LabelValue p2 -> n1 = n2.

Lemma findDuplicate_None pool others :
  NodePoolValidator.findDuplicate pool others = None ->
  forall other, other ∈ others -> LabelKey other = LabelKey pool -> LabelValue other = LabelValue pool ->
    Name (npMeta other) = Name (npMeta pool).
Proof.
  induction others as [|o others IH]; simpl; intros H other; [by intros ?%elem_of_nil|].
  intros [->|Hin]%elem_of_cons Hk Hv.
  - case_bool_decide; [done|]. by rewrite !bool_decide_true in H by done.
  - apply IH; [|done..]. repeat (case_bool_decide; simpl in *; try done).
Qed.

(** The webhook accepts a pool only with an allowed pair of its own. *)
Lemma pool_created_ok s pool tr :
  map_Forall (fun name pool => Name (npMeta pool) = name /\ pairAllowed pool) s ->
  exec (NodePoolValidator.ValidateCreate cfg pool) tr (inr tt) -> Forall (poolsAnswer s) tr ->
  pairAllowed pool /\ forall n other, s !! n = Some other -> LabelKey other = LabelKey pool -> LabelValue other = LabelValue pool ->
    n = Name (npMeta pool).
Proof.
  intros Hnames H Hans. apply exec_bind_inv in H as (t1 & t2 & r & -> & H1 & H2). apply Forall_app in Hans as [Hans _].
  destruct r as [err|[]]; [by destruct H2|]. clear H2. unfold NodePoolValidator.validateLabels in H1. unfold pairAllowed.
  destruct (decide (Name (npMeta pool) = DefaultNodepoolName cfg)) as [Hd|Hd];
    [rewrite bool_decide_true in H1 by done|rewrite bool_decide_false in H1 by done].
  - destruct (bool_decide (LabelKey pool = "")) eqn:Hk; [|by destruct H1].
    destruct (bool_decide (LabelValue pool = "")) eqn:Hv; [|by destruct H1].
    apply bool_decide_eq_true in Hk, Hv. split; [done|]. intros n other Hn Hko Hvo.
    destruct (Hnames n other Hn) as [<- Hpair]. unfold pairAllowed in Hpair. case_decide; [congruence|]. destruct Hpair. congruence.
  - destruct (bool_decide (LabelKey pool = "")) eqn:Hk; [by destruct H1|].
    destruct (bool_decide (LabelValue pool = "")) eqn:Hv; [by destruct H1|].
    apply bool_decide_eq_false in Hk, Hv. split; [done|]. intros n other Hn Hko Hvo.
    destruct H1 as (reply & t3 & -> & H1). apply Forall_cons in Hans as [Hans _]. unfold poolsAnswer in Hans. simpl in Hans.
    cbn [prog_bind_ call] in H1. destruct reply as [err|l]; [by destruct H1|].
    destruct (NodePoolValidator.findDuplicate pool l) eqn:Hf; [by destruct H1|].
    destruct (Hnames n other Hn) as [Hname _]. simpl in Hname. rewrite <- Hname. apply (findDuplicate_None _ _ Hf); [|done..].
    apply Hans. by rewrite Hname.
Qed.

Lemma poolsWellFormed_insert (s : pools) new :
  poolsWellFormed s -> pairAllowed new ->
  (forall n other, s !! n = Some other -> LabelKey other = LabelKey new -> LabelValue other = LabelValue new ->
     n = Name (npMeta new)) ->
  poolsWellFormed (<[Name (npMeta new) := new]> s).
Proof.
  intros [Hnames Huniq] Hpair Hnew. split; [by apply map_Forall_insert_2|].
  intros n1 n2 p1 p2 [[<- <-]|[Hn1 H1]]%lookup_insert_Some [[<- <-]|[Hn2 H2]]%lookup_insert_Some Hk Hv; [done| | |eauto].
  - symmetry. by eapply Hnew.
  - by eapply Hnew.
Qed.

Lemma poolStep_wellFormed s s' :
  poolStep s s' -> poolsWellFormed s ->
  poolsWellFormed s' /\ (is_Some (s !! DefaultNodepoolName cfg) -> is_Some (s' !! DefaultNodepoolName cfg)).
Proof.
  intros [s1 pool tr Hnone Hex Hans|s1 old new Hold Hk Hv Hupd|s1 pool Hs Hdel] Hinv.
  - destruct (pool_created_ok s1 pool tr) as [Hpair Hnew]; [apply Hinv|done..|].
    split; [by apply poolsWellFormed_insert|]. rewrite lookup_insert_is_Some'. auto.
  - destruct Hinv as [Hnames Huniq]. destruct (Hnames _ _ Hold) as [Hname Hpair].
    split; [|rewrite lookup_insert_is_Some'; auto]. apply poolsWellFormed_insert; [done| |].
    + unfold pairAllowed in *. by rewrite Hk, Hv, <- Hname.
    + intros n other Hn Hko Hvo. eapply Huniq; [exact Hn|exact Hold|congruence..].
  - destruct Hinv as [Hnames Huniq]. split.
    + split; [by apply map_Forall_delete|]. intros n1 n2 s2 s3 [_ H1]%lookup_delete_Some [_ H2]%lookup_delete_Some. eauto.
    + unfold NodePoolValidator.ValidateDelete in Hdel. case_bool_decide as Hd; [discriminate|].
      rewrite lookup_delete_is_Some. auto.
Qed.

(** C30: The node pools stay well formed: starting from well-formed ones (from none,
    for instance), admitted creations, updates and deletions keep every pool but
    the default one with a non-empty label pair, the default pool with none, no
    pair in two pools, and an existing default pool is never deleted. *)
Theorem node_pools_stay_well_formed s s' :
  poolsWellFormed s -> rtc poolStep s s' ->
  poolsWellFormed s' /\ (is_Some (s !! DefaultNodepoolName cfg) -> is_Some (s' !! DefaultNodepoolName cfg)).
Proof.
  intros Hinv H. induction H as [|s1 s2 s3 Hstep _ IH]; [done|].
  destruct (poolStep_wellFormed _ _ Hstep Hinv) as [Hinv2 Hd]. destruct (IH Hinv2) as [Hinv3 Hd3]. auto.
Qed.

(** ** What the controller can reconcile *)

(** The webhook admits node pools that the controller then refuses.  When the
    one shard of the partition is neither excluded nor made by a node pool, the
    webhook accepts the node pool, while the controller, given the same
    answers, does not take the shard over and reports an error. *)
Theorem admitted_pool_refused_by_controller {S} (h : handler KubeCall S) (s : S) nodePool shard :
  h _ (List KSchedulingShard
         {| loNamespace := ""; loLabelSelector := []; loMatchingLabels := ∅;
            loFieldSelector :=
              Some (SchedulingShardPartitionField, PartitionLabelValueForNodePool cfg (Name (npMeta nodePool))) |}) s
    = (inr [shard], s) ->
  IsUnmanaged shard = false -> OwningNodePoolName shard = "" -> IsControlledBy (shardMeta shard) (npMeta nodePool) = false ->
  (run h (NodePoolValidator.validatePartitionLabelValue cfg nodePool) s).1 = inr tt /\
  exists err, (run h (resolveOwnedShardForNodePool cfg nodePool) s).1 = inl err /\ asUnresolvable err = Some err.
Proof.
  intros Hh Hm Ho Hc. cbn [obj] in Hh. unfold NodePoolValidator.validatePartitionLabelValue, resolveOwnedShardForNodePool.
  rewrite run_bind, run_try. unfold ResolveShardForNodePool, ListShardsWithPartitionLabelValue.
  cbv zeta. rewrite !run_bind. cbn [run call]. rewrite Hh. cbn [run]. unfold resolveShards. rewrite Hm.
  rewrite Ho, Hc. cbn [run]. rewrite bool_decide_true by done. split; [done|]. eexists. split; [done|]. done.
Qed.

End PoolInvariant.

(** ** Examples *)

Definition labelledPool (name key value : string) : NodePool :=
  {| npMeta := named name; LabelKey := key; LabelValue := value; PreferredNetworkTopologyName := "";
     npSchedulingShardConfig := None;
     npStatus := {| npsPhase := NodePoolReady; npsMessage := ""; npsNodes := []; npsConditions := [] |} |}.

Definition poolsStore (s : pools) : store := store_update emptyStore KNodePool (fun _ => kmap (fun n => ("", n)) s).

(** A pool whose validation succeeds on the stored pools is admitted. *)
Lemma pool_admitted (s : pools) pool :
  s !! Name (npMeta pool) = None ->
  (run memServer (NodePoolValidator.ValidateCreate demoNpcConfig pool) (poolsStore s)).1 = inr tt ->
  Forall (poolsAnswer s) (run_trace memServer (NodePoolValidator.ValidateCreate demoNpcConfig pool) (poolsStore s)) ->
  poolStep demoNpcConfig s (<[Name (npMeta pool) := pool]> s).
Proof. intros Hn Hr Ha. eapply pool_created; [done| |exact Ha]. rewrite <- Hr. apply run_exec. Qed.

Definition gpuPool := labelledPool "gpu-nodes" "gpu" "yes".
Definition zonePool := labelledPool "zone-nodes" "zone" "b".
Definition onePool : pools := {["gpu-nodes" := gpuPool]}.
Definition twoPools : pools := <["zone-nodes" := zonePool]> onePool.

Lemma twoPools_admitted : rtc (poolStep demoNpcConfig) ∅ twoPools.
Proof.
  eapply rtc_l; [apply (pool_admitted ∅ gpuPool)|]; [done|by vm_compute| |].
  { repeat (apply Forall_cons; split); try apply Forall_nil; try exact I. intros pool H. by rewrite lookup_empty in H. }
  eapply rtc_l; [apply (pool_admitted onePool zonePool)|apply rtc_refl]; [done|by vm_compute|].
  repeat (apply Forall_cons; split); try apply Forall_nil; try exact I.
  intros pool H. unfold onePool in H. apply lookup_singleton_Some in H as [_ <-]. vm_compute. left.
Qed.

Definition bothLabels : Node := demoNode "n1" {["gpu" := "yes"; "zone" := "b"]}.

(** The rule on label pairs does not keep a node in one pool: the webhook admits
    pools of different keys, and a node that carries both labels is selected by
    both. *)
Theorem node_selected_by_two_pools :
  rtc (poolStep demoNpcConfig) ∅ twoPools /\
  forall name pool, twoPools !! name = Some pool -> nodeLabels bothLabels !! LabelKey pool = Some (LabelValue pool).
Proof.
  split; [apply twoPools_admitted|]. unfold twoPools, onePool. intros name pool [[<- <-]|[_ [<- <-]%lookup_singleton_Some]]%lookup_insert_Some; done.
Qed.

Lemma node_pools_stay_well_formed_witness :
  poolsWellFormed demoNpcConfig twoPools /\
  (is_Some ((∅ : pools) !! "default") -> is_Some (twoPools !! "default")).
Proof.
  apply (node_pools_stay_well_formed demoNpcConfig ∅ twoPools).
  - split; [apply map_Forall_empty|]. intros n1 n2 p1 p2 H. by rewrite lookup_empty in H.
  - apply twoPools_admitted.
Defined.

Definition partitionShard (name partition : string) (labels : gmap string string) : SchedulingShard :=
  {| shardMeta := meta_with_labels (fun _ => labels) (named name);
     shardSpec := {| ssArgs := ∅; ssPlacementStrategy := None; PartitionLabelValue := partition; ssQueueDepthPerAction := ∅;
                     ssMinRuntime := None; ssKValue := None; ssUsageDBConfig := None; ssPlugins := ∅; ssActions := ∅;
                     ssOther := "" |};
     shardConditions := [] |}.

Definition foreignShard := partitionShard "s1" "a" {[IgnoreShardLabelKey := "true"]}.

Lemma foreignShard_admitted : rtc (shardStep demoNpcConfig) ∅ {["s1" := foreignShard]}.
Proof.
  apply rtc_once, (shard_created demoNpcConfig ∅ foreignShard
           (run_trace memServer (ShardValidator.ValidateCreate demoNpcConfig foreignShard) emptyStore)); [done| |].
  - change (inr tt) with ((run memServer (ShardValidator.ValidateCreate demoNpcConfig foreignShard) emptyStore).1). apply run_exec.
  - repeat (apply Forall_cons; split); try apply Forall_nil; try exact I. intros _ shard. split; [by intros ?%elem_of_nil|].
    intros [H _]. by rewrite lookup_empty in H.
Qed.

Lemma shard_partitions_stay_unique_witness :
  rtc (shardStep demoNpcConfig) ∅ {["s1" := foreignShard]} /\
  forall n1 n2 s1 s2, ({["s1" := foreignShard]} : shards) !! n1 = Some s1 -> ({["s1" := foreignShard]} : shards) !! n2 = Some s2 ->
    partitionOf s1 = partitionOf s2 -> n1 = n2.
Proof.
  split; [apply foreignShard_admitted|].
  apply (shard_partitions_stay_unique demoNpcConfig {["s1" := foreignShard]} foreignShard_admitted).
Defined.

(** A server with one shard of partition a, which nothing owns. *)
Definition orphanShard := partitionShard "s1" "a" ∅.
Definition orphanStore : store := store_add (K := KSchedulingShard) orphanShard emptyStore.

Lemma admitted_pool_refused_by_controller_witness :
  (run memServer (NodePoolValidator.validatePartitionLabelValue demoNpcConfig (labelledPool "a" "gpu" "a")) orphanStore).1 = inr tt /\
  exists err, (run memServer (resolveOwnedShardForNodePool demoNpcConfig (labelledPool "a" "gpu" "a")) orphanStore).1 = inl err /\
    asUnresolvable err = Some err.
Proof.
  apply (admitted_pool_refused_by_controller demoNpcConfig memServer orphanStore (labelledPool "a" "gpu" "a") orphanShard).
  - vm_compute. reflexivity.
  - vm_compute. reflexivity.
  - vm_compute. reflexivity.
  - vm_compute. reflexivity.
Defined.
