(* ===== verification/TopologyFacts.v ===== *)
(** * Properties of the topology controller *)

From stdpp Require Import base list gmap strings.
From S2P Require Import Prelude ApiTypes NodePoolUtils NodePoolCommon Shards Nodes NodePools TopologyController NodeFacts.

(** What the annotations should say: the name and the version of the first Grove
    topology that refers to the topology, if any. *)
Definition wantedAnnotation (cfg : NodePoolControllerConfig) (grove : option ClusterTopologyBinding) (key : string) : option string :=
  match grove with
  | None => None
  | Some g => if key ==? GroveTopologyResourceVersionAnnotation cfg then Some (ResourceVersion (ctbMeta g))
              else Some (Name (ctbMeta g))
  end.

(** The first binding whose status for the scheduler names the topology. *)
Lemma findGrove_spec name groves :
  findGrove name groves = list_find (fun g => groveToKaiTopologyName (Some g) = name) groves ≫= fun p => Some p.2.
Proof.
  induction groves as [|g groves IH]; [done|]. cbn [findGrove list_find]. case_bool_decide as Hg; case_decide; try done.
  rewrite IH. by destruct (list_find _ groves) as [[i x]|].
Qed.

Section TopologyProps.
Context (cfg : NodePoolControllerConfig).
Hypothesis keysDiffer : GroveTopologyAnnotation cfg <> GroveTopologyResourceVersionAnnotation cfg.

Definition ownKey (key : string) : bool :=
  (key ==? GroveTopologyAnnotation cfg) || (key ==? GroveTopologyResourceVersionAnnotation cfg).

(** The annotations agree with what is wanted, read as the controller reads them:
    an absent annotation is an empty one when a Grove topology is there. *)
Definition annotationsSynced (grove : option ClusterTopologyBinding) (m : gmap string string) : Prop :=
  forall key, ownKey key = true ->
    match grove with
    | None => m !! key = None
    | Some _ => mapGet m key = default "" (wantedAnnotation cfg grove key)
    end.

Lemma ownKey_cases key : ownKey key = true <-> key = GroveTopologyAnnotation cfg \/ key = GroveTopologyResourceVersionAnnotation cfg.
Proof. unfold ownKey. by rewrite orb_true_iff, !bool_decide_eq_true. Qed.

(** A successful reconcile leaves the annotations of a topology in sync with
    Grove.  For the topology that was read and the bindings that were listed,
    either nothing is written and the annotations already agree, or one patch is
    sent whose result agrees; annotations of other keys are never touched. *)
Theorem topology_annotations_synced name tr :
  exec (TopologyController.Reconcile cfg name) tr (inr tt) ->
  (exists err, tr = [Event (Get KTopology ("", name)) (inl err)] /\ IsNotFound err = true) \/
  exists t groves,
    (tr = [Event (Get KTopology ("", name)) (inr t); Event (List KClusterTopologyBinding listAll) (inr groves)] /\
     annotationsSynced (findGrove name groves) (Annotations (topoMeta t))) \/
    (exists t' stored,
       tr = [Event (Get KTopology ("", name)) (inr t); Event (List KClusterTopologyBinding listAll) (inr groves);
             Event (Patch KTopology t t') (inr stored)] /\
       annotationsSynced (findGrove name groves) (Annotations (topoMeta t')) /\
       (forall key, ownKey key = false -> Annotations (topoMeta t') !! key = Annotations (topoMeta t) !! key)).
Proof.
  intros (reply & tr1 & -> & H). cbn [prog_bind_ call] in H. destruct reply as [err|t].
  { left. exists err. destruct H as [-> H]. by destruct (IsNotFound err). }
  right. destruct H as (lreply & tr2 & -> & H). cbn [prog_bind_ call try_bind] in H.
  destruct lreply as [err|groves]; [by destruct H|]. exists t, groves. cbn [prog_bind_ call try_bind] in H.
  destruct (findGrove name groves) as [g|].
  - unfold setAnnotations in H. destruct (_ && _) eqn:Hsame in H.
    + left. destruct H as [-> _]. split; [done|]. apply andb_true_iff in Hsame as [H1 H2]. apply bool_decide_eq_true in H1, H2.
      intros key [->| ->]%ownKey_cases; simpl; [rewrite bool_decide_false by done|rewrite bool_decide_true by done]; done.
    + right. destruct H as (preply & tr3 & -> & H). destruct preply as [err|stored]; [by destruct H|]. destruct H as [-> _].
      eexists _, stored. split; [done|]. simpl. split.
      * intros key [->| ->]%ownKey_cases; unfold mapGet; simpl;
          [rewrite bool_decide_false, lookup_insert_ne, lookup_insert_eq by done
          |rewrite bool_decide_true, lookup_insert_eq by done]; done.
      * intros key Hk. unfold ownKey in Hk. apply orb_false_iff in Hk as [Hk1 Hk2]. apply bool_decide_eq_false in Hk1, Hk2.
        by rewrite !lookup_insert_ne by done.
  - unfold removeAnnotations in H.
    destruct (Annotations (topoMeta t) !! GroveTopologyAnnotation cfg) eqn:H1;
      [|destruct (Annotations (topoMeta t) !! GroveTopologyResourceVersionAnnotation cfg) eqn:H2].
    1, 2: right; destruct H as (preply & tr3 & -> & H); destruct preply as [err|stored]; [by destruct H|]; destruct H as [-> _];
      eexists _, stored; split; [done|]; simpl; split;
        [intros key [->| ->]%ownKey_cases; [by rewrite lookup_delete_ne, lookup_delete_eq|by rewrite lookup_delete_eq]
        |intros key Hk; unfold ownKey in Hk; apply orb_false_iff in Hk as [Hk1 Hk2]; apply bool_decide_eq_false in Hk1, Hk2;
         by rewrite !lookup_delete_ne].
    left. destruct H as [-> _]. split; [done|]. by intros key [->| ->]%ownKey_cases.
Qed.

End TopologyProps.

(** ** Example *)

Definition demoTopology : Topology := {| topoMeta := named "rack"; Levels := ["rack"] |}.
Definition demoBinding : ClusterTopologyBinding :=
  {| ctbMeta := named "grove-rack"; SchedulerTopologyStatuses := [("other", "x"); (kaiSchedulerName, "rack")] |}.
Definition groveStore : store :=
  store_add (K := KTopology) demoTopology (store_add (K := KClusterTopologyBinding) demoBinding emptyStore).
Definition demoSync : kube (result unit) := TopologyController.Reconcile demoNpcConfig "rack".

Lemma topology_annotations_synced_witness :
  exists t groves t' stored,
    run_trace memServer demoSync groveStore =
      [Event (Get KTopology ("", "rack")) (inr t); Event (List KClusterTopologyBinding listAll) (inr groves);
       Event (Patch KTopology t t') (inr stored)] /\
    annotationsSynced demoNpcConfig (findGrove "rack" groves) (Annotations (topoMeta t')).
Proof.
  destruct (topology_annotations_synced demoNpcConfig ltac:(discriminate) "rack" (run_trace memServer demoSync groveStore))
    as [(err & H & _)|(t & groves & [[H _]|(t' & stored & H & Hs & _)])].
  - change (inr tt) with ((run memServer demoSync groveStore).1). apply run_exec.
  - apply (f_equal length) in H. vm_compute in H. discriminate.
  - apply (f_equal length) in H. vm_compute in H. discriminate.
  - exists t, groves, t', stored. split; [exact H|exact Hs].
Defined.
