(* ===== verification/NodePoolMetricFacts.v ===== *)
(** * Properties of the node pool metrics

    The specification is the placement of the nodes: which pool each node is in.
    The gauges implement it when exactly the gauges of the placement are 1. *)

From stdpp Require Import base list gmap strings.
From S2P Require Import Prelude ApiTypes NodePoolUtils NodePoolCommon Shards Nodes NodePools NodePoolMetrics NodeFacts.

Section MetricProps.
Context (cfg : NodePoolControllerConfig).

Definition poolOf (node : Node) : string := nodePoolNameOfLabels cfg (nodeLabels node).

(** ** The specification *)

Notation placement := (gmap string string) (only parsing).

(** What an event of a node does to the placement. *)
Inductive placementStep (pl : placement) : InformerEvent -> placement -> Prop :=
| placed node : pl !! nodeName node = None ->
    placementStep pl (AddFunc (NodeObject node)) (<[nodeName node := poolOf node]> pl)
| moved old new : nodeName old = nodeName new -> pl !! nodeName new = Some (poolOf old) ->
    placementStep pl (UpdateFunc (NodeObject old) (NodeObject new)) (<[nodeName new := poolOf new]> pl)
| gone node : pl !! nodeName node = Some (poolOf node) ->
    placementStep pl (DeleteFunc (NodeObject node)) (delete (nodeName node) pl).

(** The gauges that are 1 are those of the placement. *)
Definition implements (g : Gauges) (pl : placement) : Prop :=
  forall n p, g !! (n, p) = Some 1%Z <-> pl !! n = Some p.

(** The lists that the handler reads: the nodes as placed, and the pools. *)
Definition listAnswer (pl : placement) (names : list string) (e : event KubeCall) : Prop :=
  match ev_call e in KubeCall X return X -> Prop with
  | List K _ =>
      match K return result (list (obj K)) -> Prop with
      | KNode => fun r =>
          match r with
          | inr l => forall n p, pl !! n = Some p <-> exists node, node ∈ (l : list Node) /\ nodeName node = n /\ poolOf node = p
          | inl _ => True
          end
      | KNodePool => fun r => match r with inr l => Name ∘ npMeta <$> (l : list NodePool) = names | inl _ => True end
      | _ => fun _ => True
      end
  | _ => fun _ => True
  end (ev_reply e).

(** ** The gauges after the updates *)

Definition poolNames (nodePools : list NodePool) : list string := Name ∘ npMeta <$> nodePools.

Lemma removeAll_lookup name (keep : string -> bool) (nodePools : list NodePool) g n p :
  foldl (fun g nodePool => if negb (keep (Name (npMeta nodePool))) then RemoveNodeNodePool name (Name (npMeta nodePool)) g else g)
    g nodePools !! (n, p) =
  if decide (n = name /\ p ∈ poolNames nodePools /\ keep p = false) then Some 0%Z else g !! (n, p).
Proof.
  unfold poolNames. induction nodePools as [|np nodePools IH] using rev_ind; simpl.
  - case_decide as H; [|done]. destruct H as (_ & H & _). by apply elem_of_nil in H.
  - rewrite foldl_snoc, fmap_app. change (Name ∘ npMeta <$> [np]) with [Name (npMeta np)].
    destruct (keep (Name (npMeta np))) eqn:Hk; cbn [negb].
    + rewrite IH. apply decide_ext. rewrite elem_of_app, list_elem_of_singleton. intuition congruence.
    + unfold RemoveNodeNodePool at 1. destruct (decide ((name, Name (npMeta np)) = (n, p))) as [[= <- <-]|Hne].
      * rewrite lookup_insert_eq, decide_True; [done|]. split; [done|]. split; [|done]. apply elem_of_app. right. by left.
      * rewrite lookup_insert_ne, IH by done. apply decide_ext. rewrite elem_of_app, list_elem_of_singleton. intuition congruence.
Qed.

(** One node: its own pool is 1, the other listed pools are 0. *)
Lemma updateNodeMetrics_lookup node nodePools g n p :
  updateNodeMetrics cfg node nodePools g !! (n, p) =
  if decide (n = nodeName node) then
    if decide (p = poolOf node) then Some 1%Z
    else if decide (p ∈ poolNames nodePools) then Some 0%Z else g !! (n, p)
  else g !! (n, p).
Proof.
  etrans; [apply (removeAll_lookup (nodeName node) (fun x => @bool_decide (x = poolOf node) (decide_rel eq x (poolOf node))) nodePools)|].
  unfold SetNodeNodePool. fold (poolOf node). case_decide as Hd.
  - destruct Hd as (-> & Hin & Hb%bool_decide_eq_false). by rewrite decide_True, decide_False, decide_True.
  - destruct (decide (n = nodeName node)) as [->|Hn]; [|by rewrite lookup_insert_ne by congruence].
    destruct (decide (p = poolOf node)) as [->|Hp]; [by rewrite lookup_insert_eq|].
    rewrite lookup_insert_ne by congruence. rewrite decide_False; [done|]. intros Hin. apply Hd.
    split; [done|]. split; [done|]. by apply bool_decide_eq_false.
Qed.

(** All nodes. *)
Lemma updateAll_lookup nodes nodePools g n p :
  (forall n1 n2, n1 ∈ nodes -> n2 ∈ nodes -> nodeName n1 = nodeName n2 -> poolOf n1 = poolOf n2) ->
  foldl (fun g node => updateNodeMetrics cfg node nodePools g) g nodes !! (n, p) =
  match list_find (fun node => nodeName node = n) nodes with
  | Some (_, node) =>
      if decide (p = poolOf node) then Some 1%Z
      else if decide (p ∈ poolNames nodePools) then Some 0%Z else g !! (n, p)
  | None => g !! (n, p)
  end.
Proof.
  revert g. induction nodes as [|node nodes IH]; intros g Hone; [done|]. cbn [foldl list_find].
  rewrite IH by (intros; apply Hone; [by right..|done]).
  destruct (decide (nodeName node = n)) as [<-|Hn].
  - destruct (list_find _ nodes) as [[i node']|] eqn:Hf.
    + apply list_find_Some in Hf as (Hi & Hn' & _). apply list_elem_of_lookup_2 in Hi.
      rewrite (Hone node' node) by (by left || by right || congruence). rewrite updateNodeMetrics_lookup.
      by repeat case_decide.
    + rewrite updateNodeMetrics_lookup. by repeat case_decide.
  - destruct (list_find _ nodes) as [[i node']|]; simpl; rewrite updateNodeMetrics_lookup; by repeat case_decide.
Qed.

(** ** The gauges after one event *)

Lemma listed_once (nodes : list Node) (pl : gmap string string) :
  (forall n p, pl !! n = Some p <-> exists node, node ∈ nodes /\ nodeName node = n /\ poolOf node = p) ->
  forall n1 n2, n1 ∈ nodes -> n2 ∈ nodes -> nodeName n1 = nodeName n2 -> poolOf n1 = poolOf n2.
Proof.
  intros Hpl n1 n2 H1 H2 Hn. assert (pl !! nodeName n2 = Some (poolOf n1)) as E1 by (apply Hpl; eauto).
  assert (pl !! nodeName n2 = Some (poolOf n2)) as E2 by (apply Hpl; eauto). congruence.
Qed.

(** The update of all nodes, when the nodes are listed as placed. *)
Lemma updateAll_placed nodes nodePools (pl : gmap string string) g n p :
  (forall n p, pl !! n = Some p <-> exists node, node ∈ nodes /\ nodeName node = n /\ poolOf node = p) ->
  foldl (fun g node => updateNodeMetrics cfg node nodePools g) g nodes !! (n, p) =
  match pl !! n with
  | Some q => if decide (p = q) then Some 1%Z else if decide (p ∈ poolNames nodePools) then Some 0%Z else g !! (n, p)
  | None => g !! (n, p)
  end.
Proof.
  intros Hpl. rewrite updateAll_lookup by (by apply (listed_once _ pl)).
  destruct (list_find (fun node => nodeName node = n) nodes) as [[i node]|] eqn:Hf.
  - apply list_find_Some in Hf as (Hi & Hn & _). apply list_elem_of_lookup_2 in Hi.
    assert (pl !! n = Some (poolOf node)) as -> by (apply Hpl; eauto). done.
  - destruct (pl !! n) as [q|] eqn:E; [|done]. apply Hpl in E as (node & Hin & Hn & _).
    apply list_find_None in Hf. rewrite Forall_forall in Hf. by apply Hf in Hin.
Qed.

(** The pool that the node of an event leaves is reset when it is not listed. *)
Lemma removePrevious_lookup old new nodePools g n p :
  removePreviousNodePoolInCaseItWasDeleted cfg old new nodePools g !! (n, p) =
  if decide (n = nodeName new /\ (poolOf <$> old) = Some p /\ p <> poolOf new /\ p ∉ poolNames nodePools)
  then Some 0%Z else g !! (n, p).
Proof.
  unfold removePreviousNodePoolInCaseItWasDeleted. destruct old as [old|]; simpl; [|by rewrite decide_False by naive_solver].
  fold (poolOf old) (poolOf new). case_bool_decide as Hsame; [by rewrite decide_False by naive_solver|].
  destruct (existsb _ nodePools) eqn:Hex.
  - rewrite decide_False; [done|]. intros (_ & [= <-] & _ & Hno). apply Hno.
    apply existsb_exists in Hex as (np & Hin%list_elem_of_In & Hnp%bool_decide_eq_true). apply list_elem_of_fmap. by exists np.
  - assert (poolOf old ∉ poolNames nodePools) as Hno.
    { intros (np & Hnp & Hin)%list_elem_of_fmap. apply not_true_iff_false in Hex. apply Hex, existsb_exists. exists np.
      split; [by apply list_elem_of_In|by apply bool_decide_eq_true]. }
    unfold RemoveNodeNodePool. case_decide as Hd.
    + destruct Hd as (-> & [= <-] & _). by rewrite lookup_insert_eq.
    + rewrite lookup_insert_ne; [done|]. intros [= <- <-]. by apply Hd.
Qed.

Lemma exec_setMetricsOnAddUpdate old new g tr g' (pl : gmap string string) names :
  exec (setMetricsOnAddUpdate cfg old new g) tr (inr g') -> Forall (listAnswer pl names) tr ->
  forall n p, g' !! (n, p) =
    if decide (n = nodeName new /\ (poolOf <$> old) = Some p /\ p <> poolOf new /\ p ∉ names) then Some 0%Z
    else match pl !! n with
         | Some q => if decide (p = q) then Some 1%Z else if decide (p ∈ names) then Some 0%Z else g !! (n, p)
         | None => g !! (n, p)
         end.
Proof.
  intros (r1 & tr1 & -> & H) Hans n p. cbn [prog_bind_ call] in H. destruct r1 as [err|nodes]; [by destruct H|].
  destruct H as (r2 & tr2 & -> & H). cbn [prog_bind_ call] in H. destruct r2 as [err|nodePools]; [by destruct H|].
  apply Forall_cons in Hans as [Hnodes [Hpools _]%Forall_cons]. unfold listAnswer in Hnodes, Hpools. simpl in Hnodes, Hpools.
  destruct H as [_ [= ->]]. subst names. fold (poolNames nodePools).
  by rewrite removePrevious_lookup, (updateAll_placed _ _ pl).
Qed.

Lemma exec_setMetricsOnDelete node g tr g' (pl : gmap string string) names :
  exec (setMetricsOnDelete node g) tr (inr g') -> Forall (listAnswer pl names) tr ->
  forall n p, g' !! (n, p) = if decide (n = nodeName node /\ p ∈ names) then Some 0%Z else g !! (n, p).
Proof.
  intros (r1 & tr1 & -> & H) Hans n p. cbn [prog_bind_ call] in H. destruct r1 as [err|nodePools]; [by destruct H|].
  apply Forall_cons in Hans as [Hpools _]. unfold listAnswer in Hpools. simpl in Hpools. destruct H as [_ [= ->]].
  rewrite (removeAll_lookup (nodeName node) (fun _ => false)). fold (poolNames nodePools) in Hpools. rewrite Hpools.
  apply decide_ext. naive_solver.
Qed.

(** An event that the handler acts on. *)
Definition concerns (e : InformerEvent) (n : string) : Prop :=
  match e with
  | AddFunc (NodeObject node) | DeleteFunc (NodeObject node) => nodeName node = n
  | UpdateFunc (NodeObject old) (NodeObject node) => nodeName node = n /\ FilterNodeUpdatesForNPController old node = true
  | _ => False
  end.

Lemma concerns_dec e n : concerns e n \/ ~ concerns e n.
Proof.
  destruct e as [[node|key]|[node|key]|[old|key] [node|key']]; simpl; try (right; by intros []).
  - destruct (decide (nodeName node = n)); [by left|by right].
  - destruct (decide (nodeName node = n)); [by left|by right].
  - destruct (decide (nodeName node = n)); [|right; naive_solver].
    destruct (FilterNodeUpdatesForNPController old node); [by left|right; naive_solver].
Qed.

(** The node leaves a pool for another one. *)
Definition leaves (e : InformerEvent) (n p : string) : Prop :=
  exists old new, e = UpdateFunc (NodeObject old) (NodeObject new) /\ nodeName new = n /\ poolOf old = p /\ poolOf new <> p.

Lemma filtered_same_pool old new : FilterNodeUpdatesForNPController old new = false -> poolOf new = poolOf old.
Proof.
  unfold FilterNodeUpdatesForNPController. rewrite !orb_false_iff. intros [_ Hl%negb_false_iff%bool_decide_eq_true].
  unfold poolOf. by rewrite Hl.
Qed.

Lemma leaves_concerns e n p : leaves e n p -> concerns e n.
Proof.
  intros (old & new & -> & Hn & Ho & Hne). split; [done|]. destruct (FilterNodeUpdatesForNPController old new) eqn:Hf; [done|].
  by rewrite (filtered_same_pool _ _ Hf), Ho in Hne.
Qed.

(** What one event does to the gauges.  [plj] is the placement that is read, [pl']
    the one after the event.  A gauge of a pool without a node pool is set only
    when the node is read to be there, and cleared when the node leaves the pool;
    a node that the event does not concern keeps right gauges; a node that it
    concerns gets right ones, apart from those of pools without a node pool. *)
Definition effectOk (names : list string) (e : InformerEvent) (g g' : gmap (string * string) Z)
    (plj pl' : gmap string string) : Prop :=
  (forall n p, p ∉ names -> g' !! (n, p) = Some 1%Z -> (g !! (n, p) = Some 1%Z /\ ~ leaves e n p) \/ plj !! n = Some p) /\
  (forall n, ~ concerns e n -> (forall p, g !! (n, p) = Some 1%Z <-> plj !! n = Some p) ->
     forall p, g' !! (n, p) = Some 1%Z <-> plj !! n = Some p) /\
  (forall n, concerns e n -> plj !! n = pl' !! n ->
     (forall p, p ∈ names -> g' !! (n, p) = Some 1%Z -> pl' !! n = Some p) /\
     (forall p, pl' !! n = Some p -> g' !! (n, p) = Some 1%Z)).

Lemma addUpdate_effect e old new g tr g' (pl plj : gmap string string) names :
  exec (setMetricsOnAddUpdate cfg old new g) tr (inr g') -> Forall (listAnswer plj names) tr ->
  (forall n, concerns e n <-> nodeName new = n) ->
  (forall n p, leaves e n p -> nodeName new = n /\ (poolOf <$> old) = Some p /\ p <> poolOf new) ->
  effectOk names e g g' plj (<[nodeName new := poolOf new]> pl).
Proof.
  intros Hex Hans Hc Hl. pose proof (exec_setMetricsOnAddUpdate _ _ _ _ _ _ _ Hex Hans) as Hg. split_and!.
  - intros n p Hno. rewrite Hg. case_decide as Hd; [done|]. destruct (plj !! n) as [q|] eqn:Hq.
    + case_decide as Hpq; [subst q; by right|]. rewrite decide_False by done. intros Hold. left. split; [done|].
      intros (Hn & Ho & Hne)%Hl. by apply Hd.
    + intros Hold. left. split; [done|]. intros (Hn & Ho & Hne)%Hl. by apply Hd.
  - intros n Hn Hok p. rewrite Hg, decide_False by (intros [-> _]; by apply Hn, Hc). specialize (Hok p).
    destruct (plj !! n) as [q|]; [|done]. repeat case_decide; naive_solver.
  - intros n <-%Hc. rewrite lookup_insert_eq. intros Hq. split.
    + intros p Hin. rewrite Hg, Hq. case_decide; [done|]. case_decide as Hp; [by rewrite Hp|]. by rewrite decide_True.
    + intros p [= <-]. rewrite Hg, Hq, decide_False by naive_solver. by rewrite decide_True.
Qed.

Lemma event_effect (pl plj pl' : gmap string string) names e g tr g' :
  placementStep pl e pl' -> exec (handleEvent cfg e g) tr (inr g') -> Forall (listAnswer plj names) tr ->
  effectOk names e g g' plj pl'.
Proof.
  intros [node Hnone|old new Hname Hold|node Hnode] H Hans; simpl in H.
  - eapply (addUpdate_effect _ None node); [exact H|exact Hans|done|]. by intros n p (? & ? & ? & _).
  - destruct (FilterNodeUpdatesForNPController old new) eqn:Hf; cbn [negb] in H.
    + eapply (addUpdate_effect _ (Some old) new); [exact H|exact Hans| |].
      * intros n. simpl. rewrite Hf. tauto.
      * intros n p (o & x & [= <- <-] & Hn & Ho & Hne). simpl. split; [done|]. split; [by rewrite Ho|]. by intros ->.
    + destruct H as [_ [= ->]]. split_and!.
      * intros n p _ Hg. left. split; [done|]. intros [_ Hl]%leaves_concerns. congruence.
      * done.
      * intros n [_ Hc]. congruence.
  - pose proof (exec_setMetricsOnDelete _ _ _ _ _ _ H Hans) as Hg. split_and!.
    + intros n p Hno. rewrite Hg, decide_False by tauto. intros Hold. left. split; [done|]. by intros (? & ? & ? & _).
    + intros n Hn Hok p. rewrite Hg, decide_False; [done|]. intros [-> _]. by apply Hn.
    + intros n Hn. simpl in Hn. subst n. rewrite lookup_delete_eq. intros _. split; [|done].
      intros p Hin. by rewrite Hg, decide_True.
Qed.

(** ** Histories *)

Section History.
Context (es : list InformerEvent) (states : nat -> gmap string string) (names : list string).

(** The placements before and after the events of a history; a node that is
    deleted was in a pool that has a node pool. *)
Definition history : Prop :=
  states 0%nat = ∅ /\ forall i e, es !! i = Some e ->
    placementStep (states i) e (states (S i)) /\ forall node, e = DeleteFunc (NodeObject node) -> poolOf node ∈ names.

(** The gauges after the handler ran for the first [k] events, in their order.
    Nodes are read from the cache, which has at least the event that is handled
    and may be any number of events ahead of it. *)
Inductive handled : nat -> gmap (string * string) Z -> Prop :=
| nothing_handled : handled 0 ∅
| event_handled k g e j tr g' : handled k g -> es !! k = Some e ->
    (k < j <= length es)%nat -> Forall (listAnswer (states j) names) tr ->
    exec (handleEvent cfg e g) tr (inr g') -> handled (S k) g'.

Hypothesis Hhistory : history.

Lemma state_kept i e n : es !! i = Some e -> ~ concerns e n -> states (S i) !! n = states i !! n.
Proof.
  intros Hi Hno. destruct Hhistory as [_ Hs]. destruct (Hs i e Hi) as [Hstep _].
  destruct Hstep as [node Hnone|old new Hname Hold|node Hnode]; simpl in Hno.
  - by rewrite lookup_insert_ne.
  - destruct (decide (nodeName new = n)) as [<-|Hn]; [|by rewrite lookup_insert_ne].
    rewrite lookup_insert_eq. destruct (FilterNodeUpdatesForNPController old new) eqn:Hf; [by destruct Hno|].
    by rewrite (filtered_same_pool _ _ Hf).
  - by rewrite lookup_delete_ne.
Qed.

(** A node that no later event concerns is where it will be in the end. *)
Lemma state_settled j n :
  (j <= length es)%nat -> (forall i e, (j <= i)%nat -> es !! i = Some e -> ~ concerns e n) ->
  states j !! n = states (length es) !! n.
Proof.
  intros Hj. remember (length es - j)%nat as d eqn:Hd. revert j Hj Hd. induction d as [|d IH]; intros j Hj Hd Hno.
  - by replace j with (length es) by lia.
  - destruct (lookup_lt_is_Some_2 es j ltac:(lia)) as [e He].
    rewrite <- (state_kept j e n He) by (by apply (Hno j)). apply IH; [lia..|]. intros i e' Hi. apply Hno. lia.
Qed.

(** A node is in a pool without a node pool for good, or leaves it. *)
Lemma unlisted_pool_left j n p :
  (j <= length es)%nat -> states j !! n = Some p -> p ∉ names ->
  states (length es) !! n = Some p \/ exists i e, (j <= i)%nat /\ es !! i = Some e /\ leaves e n p.
Proof.
  intros Hj. remember (length es - j)%nat as d eqn:Hd. revert j Hj Hd. induction d as [|d IH]; intros j Hj Hd Hp Hno.
  - left. by replace (length es) with j by lia.
  - destruct (lookup_lt_is_Some_2 es j ltac:(lia)) as [e He].
    destruct (decide (states (S j) !! n = Some p)) as [Hs|Hs].
    { destruct (IH (S j) ltac:(lia) ltac:(lia) Hs Hno) as [?|(i & e' & Hi & ?)]; [by left|]. right. exists i, e'. split; [lia|done]. }
    right. exists j, e. split; [done|]. split; [done|]. destruct Hhistory as [_ Hst]. destruct (Hst j e He) as [Hstep Hdel].
    inversion Hstep as [node Hnone Heq Hs'|old new Hname Hold Heq Hs'|node Hnode Heq Hs']; subst e; rewrite <- Hs' in Hs.
    + destruct (decide (nodeName node = n)) as [<-|Hn]; [congruence|by rewrite lookup_insert_ne in Hs].
    + destruct (decide (nodeName new = n)) as [<-|Hn]; [|by rewrite lookup_insert_ne in Hs].
      rewrite lookup_insert_eq in Hs. rewrite Hold in Hp. injection Hp as <-. exists old, new.
      do 3 (split; [done|]). intros Heqp. apply Hs. by rewrite Heqp.
    + destruct (decide (nodeName node = n)) as [<-|Hn]; [|by rewrite lookup_delete_ne in Hs].
      specialize (Hdel node eq_refl). rewrite Hnode in Hp. injection Hp as <-. by destruct Hno.
Qed.

(** What holds of the gauges between two events: a gauge of a pool without a node
    pool is of the final placement or of a pool that the node leaves in an event
    to come; and the gauges of a node that no event to come concerns are right. *)
Definition gaugesOk (k : nat) (g : gmap (string * string) Z) : Prop :=
  forall n,
    (forall p, p ∉ names -> g !! (n, p) = Some 1%Z ->
       states (length es) !! n = Some p \/ exists i e, (k <= i)%nat /\ es !! i = Some e /\ leaves e n p) /\
    ((forall i e, (k <= i)%nat -> es !! i = Some e -> ~ concerns e n) ->
       forall p, g !! (n, p) = Some 1%Z <-> states (length es) !! n = Some p).

Lemma gaugesOk_start : gaugesOk 0 ∅.
Proof.
  intros n. split; [intros p _; by rewrite lookup_empty|]. intros Hno p. rewrite lookup_empty.
  rewrite <- (state_settled 0 n) by (done || lia). destruct Hhistory as [-> _]. by rewrite lookup_empty.
Qed.

Lemma gaugesOk_step k j e g g' :
  es !! k = Some e -> (k < j <= length es)%nat -> gaugesOk k g -> effectOk names e g g' (states j) (states (S k)) ->
  gaugesOk (S k) g'.
Proof.
  intros He Hj Hok (Hunlisted & Hother & Hconcerned).
  assert (forall n p, p ∉ names -> g' !! (n, p) = Some 1%Z ->
    states (length es) !! n = Some p \/ exists i e, (S k <= i)%nat /\ es !! i = Some e /\ leaves e n p) as HA.
  { intros n p Hno Hg. destruct (Hunlisted n p Hno Hg) as [[Hold Hstays]|Hp].
    - destruct (Hok n) as [HA _]. destruct (HA p Hno Hold) as [?|(i & e' & Hi & He' & Hl)]; [by left|].
      right. exists i, e'. split; [|done]. destruct (decide (i = k)) as [->|]; [|lia]. rewrite He in He'. injection He' as <-. by destruct Hstays.
    - destruct (unlisted_pool_left j n p) as [?|(i & e' & Hi & ?)]; [lia|done|done|by left|].
      right. exists i, e'. split; [lia|done]. }
  intros n. split; [apply HA|]. intros Hno.
  assert (states j !! n = states (length es) !! n) as Hsj by (apply state_settled; [lia|intros i e' Hi; apply Hno; lia]).
  assert (states (S k) !! n = states (length es) !! n) as Hsk by (apply state_settled; [lia|apply Hno]).
  destruct (concerns_dec e n) as [Hc|Hc].
  - destruct (Hconcerned n Hc ltac:(congruence)) as [Hto Hfrom]. rewrite Hsk in Hto, Hfrom. intros p. split; [|apply Hfrom].
    intros Hg. destruct (decide (p ∈ names)) as [Hin|Hin]; [by apply Hto|].
    destruct (HA n p Hin Hg) as [?|(i & e' & Hi & He' & Hl%leaves_concerns)]; [done|]. by destruct (Hno i e' Hi He').
  - rewrite <- Hsj. apply Hother; [done|]. rewrite Hsj. apply Hok. intros i e' Hi He'.
    destruct (decide (i = k)) as [->|]; [by simplify_eq|]. apply (Hno i e'); [lia|done].
Qed.

Lemma handled_ok k g : handled k g -> gaugesOk k g.
Proof.
  induction 1 as [|k g e j tr g' Hh IH He Hj Hans Hex]; [apply gaugesOk_start|].
  apply (gaugesOk_step k j e g g' He Hj IH). destruct Hhistory as [_ Hs]. destruct (Hs k e He) as [Hstep _].
  by apply (event_effect (states k) _ _ names e g tr).
Qed.

(** C29: The gauges refine the placement of the nodes.  Take the events of any
    history of nodes that are added, moved, changed and deleted, handled in their
    order, each while the cache of nodes is any number of events ahead of it (at
    the start it has all the nodes whose additions are still to come).  When all
    of them have been handled, exactly the gauges of the final placement are 1.
    The set of node pools does not change meanwhile, and a node that is deleted is
    in a pool that has a node pool (otherwise its gauge stays:
    [deleted_node_gauge_stays]); a history has no tombstone, which ends the
    process ([tombstone_panics]). *)
Theorem metrics_refine_placement g : handled (length es) g -> implements g (states (length es)).
Proof.
  intros Hh n p. apply (handled_ok _ _ Hh). intros i e Hi He. apply lookup_lt_Some in He. lia.
Qed.

End History.

(** The gauge of a node that is deleted while it is in a pool without a node
    pool object, the excluded pool for instance, stays at 1: the handler only
    resets the gauges of the listed pools. *)
Theorem deleted_node_gauge_stays node g tr g' nodePools :
  exec (handleEvent cfg (DeleteFunc (NodeObject node)) g) tr (inr g') ->
  Forall (listAnswer ∅ (poolNames nodePools)) tr -> poolOf node ∉ poolNames nodePools ->
  g' !! (nodeName node, poolOf node) = g !! (nodeName node, poolOf node).
Proof.
  intros (r1 & tr1 & -> & H) Hans Hno. cbn [prog_bind_ call] in H. destruct r1 as [err|l]; [by destruct H|].
  apply Forall_cons in Hans as [Hpools _]. unfold listAnswer in Hpools. simpl in Hpools. destruct H as [_ [= ->]].
  rewrite (removeAll_lookup (nodeName node) (fun _ => false)), decide_False; [done|].
  intros (_ & Hin & _). apply Hno. by rewrite <- Hpools.
Qed.

(** The tombstone of a deletion that the watch missed makes the handler panic. *)
Theorem tombstone_panics key g :
  handleEvent cfg (DeleteFunc (DeletedFinalStateUnknown key)) g = Ret (inl (RuntimePanic "interface conversion")).
Proof. done. Qed.

End MetricProps.

(** ** Examples *)

Definition metricsStore : store :=
  store_add (K := KNodePool) (demoPool "a" NodePoolReady)
    (store_add (K := KNode) (demoNode "n1" {["kai/node-pool" := "a"]}) emptyStore).

Definition demoGauges : gmap (string * string) Z := {[("n1", "excluded") := 1%Z]}.

Definition isAnswered {A} (r : result A) : bool := match r with inr _ => true | inl _ => false end.
Lemma answered_inr {A} (r : result A) : isAnswered r = true -> exists a, r = inr a.
Proof. destruct r as [|a]; [done|]. by exists a. Qed.

(** Two nodes are added; the first one, which was excluded, moves to pool "a"; the
    second one is deleted.  At the start both additions are in the cache, and the
    move is handled when the deletion is in the cache already. *)
Definition n1Excluded : Node := demoNode "n1" {["kai/node-pool" := "excluded"]}.
Definition n1Moved : Node := demoNode "n1" {["kai/node-pool" := "a"]}.
Definition n2Placed : Node := demoNode "n2" {["kai/node-pool" := "a"]}.
Definition demoEvents : list InformerEvent :=
  [AddFunc (NodeObject n1Excluded); AddFunc (NodeObject n2Placed);
   UpdateFunc (NodeObject n1Excluded) (NodeObject n1Moved); DeleteFunc (NodeObject n2Placed)].
Definition demoNodes (i : nat) : list Node :=
  match i with
  | 0%nat => []
  | 1%nat => [n1Excluded]
  | 2%nat => [n1Excluded; n2Placed]
  | 3%nat => [n1Moved; n2Placed]
  | _ => [n1Moved]
  end.
Definition demoPlacement (i : nat) : gmap string string :=
  list_to_map ((fun node => (nodeName node, poolOf demoNpcConfig node)) <$> demoNodes i).
Definition demoCache (i : nat) : store :=
  foldr (fun node s => store_add (K := KNode) node s) (store_add (K := KNodePool) (demoPool "a" NodePoolReady) emptyStore) (demoNodes i).
Definition demoHandle (e : InformerEvent) (j : nat) (g : gmap (string * string) Z) : result (gmap (string * string) Z) :=
  (run memServer (handleEvent demoNpcConfig e g) (demoCache j)).1.
Definition demoAfter (e : InformerEvent) (j : nat) (g : gmap (string * string) Z) : gmap (string * string) Z :=
  match demoHandle e j g with inr g' => g' | inl _ => g end.

Lemma nodes_placed (nodes : list Node) :
  NoDup (nodeName <$> nodes) ->
  forall n p, (list_to_map ((fun node => (nodeName node, poolOf demoNpcConfig node)) <$> nodes) : gmap string string) !! n = Some p
    <-> exists node, node ∈ nodes /\ nodeName node = n /\ poolOf demoNpcConfig node = p.
Proof.
  intros Hnodup n p. rewrite <- elem_of_list_to_map by (by rewrite <- list_fmap_compose). rewrite list_elem_of_fmap. split.
  - intros (node & [= -> ->] & Hin). by exists node.
  - intros (node & Hin & <- & <-). by exists node.
Qed.

Lemma demo_answers j : (j <= 4)%nat ->
  listAnswer demoNpcConfig (demoPlacement j) ["a"] (Event (List KNode listAll) (inr (demoNodes j))).
Proof.
  intros Hj. intros n p. apply nodes_placed. apply (bool_decide_unpack _).
  do 5 (destruct j as [|j]; [vm_compute; exact I|]). lia.
Qed.

Lemma demo_handled k g e j (nodes : bool) :
  handled demoNpcConfig demoEvents demoPlacement ["a"] k g -> demoEvents !! k = Some e -> (k < j <= 4)%nat ->
  run_trace memServer (handleEvent demoNpcConfig e g) (demoCache j) =
    (if nodes then [Event (List KNode listAll) (inr (demoNodes j))] else [])
    ++ [Event (List KNodePool listAll) (inr [demoPool "a" NodePoolReady])] ->
  isAnswered (demoHandle e j g) = true ->
  handled demoNpcConfig demoEvents demoPlacement ["a"] (S k) (demoAfter e j g).
Proof.
  intros Hh He Hj Htr Hans. apply answered_inr in Hans as [g' Hg'].
  assert (demoAfter e j g = g') as Hafter by (unfold demoAfter; by rewrite Hg'). rewrite Hafter.
  apply (event_handled _ _ _ _ k g e j (run_trace memServer (handleEvent demoNpcConfig e g) (demoCache j)) g' Hh He Hj).
  - rewrite Htr. apply Forall_app. split; [|by constructor]. destruct nodes; [|constructor].
    constructor; [|constructor]. apply demo_answers. lia.
  - rewrite <- Hg'. apply run_exec.
Qed.

Definition demoGauges1 := demoAfter (AddFunc (NodeObject n1Excluded)) 2 ∅.
Definition demoGauges2 := demoAfter (AddFunc (NodeObject n2Placed)) 2 demoGauges1.
Definition demoGauges3 := demoAfter (UpdateFunc (NodeObject n1Excluded) (NodeObject n1Moved)) 4 demoGauges2.
Definition demoGauges4 := demoAfter (DeleteFunc (NodeObject n2Placed)) 4 demoGauges3.

Lemma demo_history : history demoNpcConfig demoEvents demoPlacement ["a"].
Proof.
  split; [reflexivity|]. intros i e He.
  assert (forall pl e pl' pl'', placementStep demoNpcConfig pl e pl' -> pl' = pl'' -> placementStep demoNpcConfig pl e pl'') as Hto
    by (by intros ? ? ? ? ? <-).
  destruct i as [|[|[|[|i]]]]; simpl in He; try (by destruct i); injection He as <-; (split; [|intros node Hd; try discriminate Hd]).
  - eapply Hto; [apply placed; vm_compute; reflexivity|]. apply (bool_decide_unpack _). vm_compute. exact I.
  - eapply Hto; [apply placed; vm_compute; reflexivity|]. apply (bool_decide_unpack _). vm_compute. exact I.
  - eapply Hto; [apply moved; vm_compute; reflexivity|]. apply (bool_decide_unpack _). vm_compute. exact I.
  - eapply Hto; [apply gone; vm_compute; reflexivity|]. apply (bool_decide_unpack _). vm_compute. exact I.
  - injection Hd as <-. vm_compute. left.
Qed.

Lemma metrics_refine_placement_witness :
  demoGauges1 !! ("n2", "a") = Some 1%Z /\ implements demoGauges4 {["n1" := "a"]}.
Proof.
  split; [vm_compute; reflexivity|].
  apply (metrics_refine_placement demoNpcConfig demoEvents demoPlacement ["a"] demo_history demoGauges4).
  apply (demo_handled 3 demoGauges3 _ 4 false); [|reflexivity|lia|vm_compute; reflexivity|vm_compute; reflexivity].
  apply (demo_handled 2 demoGauges2 _ 4 true); [|reflexivity|lia|vm_compute; reflexivity|vm_compute; reflexivity].
  apply (demo_handled 1 demoGauges1 _ 2 true); [|reflexivity|lia|vm_compute; reflexivity|vm_compute; reflexivity].
  apply (demo_handled 0 ∅ _ 2 true); [|reflexivity|lia|vm_compute; reflexivity|vm_compute; reflexivity].
  apply nothing_handled.
Defined.

Definition leaveEvent : InformerEvent := DeleteFunc (NodeObject (demoNode "n1" {["kai/node-pool" := "excluded"]})).
Definition demoLeave : kube (result (gmap (string * string) Z)) := handleEvent demoNpcConfig leaveEvent demoGauges.

Lemma deleted_node_gauge_stays_witness :
  exists g', (run memServer demoLeave metricsStore).1 = inr g' /\
    g' !! ("n1", poolOf demoNpcConfig (demoNode "n1" {["kai/node-pool" := "excluded"]})) =
    demoGauges !! ("n1", poolOf demoNpcConfig (demoNode "n1" {["kai/node-pool" := "excluded"]})).
Proof.
  destruct (answered_inr _ (eq_refl true <: isAnswered (run memServer demoLeave metricsStore).1 = true)) as [g' Hg'].
  exists g'. split; [exact Hg'|].
  apply (deleted_node_gauge_stays demoNpcConfig (demoNode "n1" {["kai/node-pool" := "excluded"]}) demoGauges
           (run_trace memServer demoLeave metricsStore) g' [demoPool "a" NodePoolReady]).
  - rewrite <- Hg'. apply run_exec.
  - apply Forall_cons; split; [reflexivity|apply Forall_nil; exact I].
  - apply (bool_decide_unpack _). vm_compute. exact I.
Defined.
