(* ===== verification/CachedClient.v ===== *)
(** * The client of the node pool metrics

    [pkg/nodepool-controller/cachedclient]: a client whose reads are answered by
    the cache of the informers and whose other operations go to the client of the
    manager.  The start of the informers is in [Mains]. *)

From stdpp Require Import base list gmap strings.
From S2P Require Import Prelude ApiTypes NodePoolCommon NodePoolMetrics.

Section Client.
(** The cache and the client of the manager, each with its own state. *)
Context {S T : Type} (cachedClient : handler KubeCall S) (writerClient : handler KubeCall T).

(** [Get] and [List], also of unstructured objects; a read that bypasses the
    cache is none of this client. *)
Definition isCachedRead {X} (c : KubeCall X) : bool :=
  match c with
  | Get _ _ | List _ _ | GetUnstructured _ _ _ _ | ListUnstructured _ _ _ _ => true
  | _ => false
  end.

Definition NodePoolControllerCachedClient : handler KubeCall (S * T) := fun X c st =>
  if isCachedRead c then let '(x, s) := cachedClient X c st.1 in (x, (s, st.2))
  else let '(x, t) := writerClient X c st.2 in (x, (st.1, t)).

(** A program of cached reads does not reach the client of the manager: it runs
    as against the cache alone. *)
Lemma cached_reads_stay_in_cache {A} (p : kube A) s t :
  issues (fun _ c => isCachedRead c = true) p ->
  run NodePoolControllerCachedClient p (s, t) = let '(a, s') := run cachedClient p s in (a, (s', t)).
Proof.
  revert s. induction p as [a|X c k IH]; intros s; [done|]. intros [Hc Hk]. simpl in Hc. cbn [run].
  unfold NodePoolControllerCachedClient at 1. rewrite Hc. cbn [fst snd].
  destruct (cachedClient X c s) as [x s']. by apply IH, Hk.
Qed.

(** A program that reads nothing leaves the cache alone. *)
Lemma writes_pass_the_cache {A} (p : kube A) s t :
  issues (fun _ c => isCachedRead c = false) p ->
  run NodePoolControllerCachedClient p (s, t) = let '(a, t') := run writerClient p t in (a, (s, t')).
Proof.
  revert t. induction p as [a|X c k IH]; intros t; [done|]. intros [Hc Hk]. simpl in Hc. cbn [run].
  unfold NodePoolControllerCachedClient at 1. rewrite Hc. cbn [fst snd].
  destruct (writerClient X c t) as [x t']. by apply IH, Hk.
Qed.

(** The metrics of the node pools are computed from the cache alone: whatever
    state the API server is in, the gauges after an event are those of a run
    against the cache, and the server is not called. *)
Theorem metrics_only_read_the_cache cfg e g s t :
  run NodePoolControllerCachedClient (handleEvent cfg e g) (s, t) =
  let '(r, s') := run cachedClient (handleEvent cfg e g) s in (r, (s', t)).
Proof.
  apply cached_reads_stay_in_cache.
  destruct e; cbn [handleEvent]; repeat case_match; try done; cbn [handleNodeChange];
    unfold setMetricsOnAddUpdate, setMetricsOnDelete;
    repeat first [done | case_match | apply issues_bind; [by apply issues_call|intros ?]].
Qed.

End Client.

(** A write is not seen by a read before an informer delivers it. *)
Lemma own_write_is_not_read (node relabelled : Node) s :
  objKey (K := KNode) relabelled = objKey (K := KNode) node ->
  (run (NodePoolControllerCachedClient memServer memServer)
     (_ <- call (Update KNode relabelled) ;; call (Get KNode (objKey (K := KNode) node)))
     (store_add (K := KNode) node s, store_add (K := KNode) node s)).1 = inr node.
Proof.
  intros Hkey. cbn -[store_add objKey]. rewrite Hkey.
  assert (store_add (K := KNode) node s KNode !! objKey (K := KNode) node = Some node) as Hs.
  { unfold store_add, store_update. cbn -[objKey]. apply lookup_insert_eq. }
  do 2 (match goal with |- context [?m !! ?k] => replace (m !! k) with (Some node) by (symmetry; exact Hs) end; cbn -[store_add objKey]).
  done.
Qed.
