(* ===== verification/ShardFacts.v ===== *)
(** * Properties of scheduling shards

    A node pool only writes the shard it owns; the arguments of a shard that
    others set are kept while those the controller set are tracked; the desired
    shard is stable. *)

From stdpp Require Import base list gmap strings.
From S2P Require Import Prelude ApiTypes NodePoolUtils NodePoolCommon Shards Nodes NodePools NodeFacts.

(** ** The list of managed arguments *)

Definition comma : Ascii.ascii := Ascii.ascii_of_nat 44.

Fixpoint hasChar (c : Ascii.ascii) (s : string) : bool :=
  match s with EmptyString => false | String c' rest => (c' ==? c) || hasChar c rest end.

Lemma splitOn_plain sep s : hasChar sep s = false -> splitOn sep s = [s].
Proof.
  induction s as [|c s IH]; simpl; [done|]. case_bool_decide as Hc; simpl; [done|]. intros H.
  rewrite decide_False by done. by rewrite IH.
Qed.

Lemma splitOn_cons sep s rest :
  hasChar sep s = false -> splitOn sep (s +:+ String sep rest) = s :: splitOn sep rest.
Proof.
  induction s as [|c s IH]; simpl; [by rewrite decide_True|]. case_bool_decide as Hc; simpl; [done|]. intros H.
  rewrite decide_False by done. change (match splitOn sep (s +:+ String sep rest) with
    | [] => [String c ""] | w :: ws => String c w :: ws end = String c s :: splitOn sep rest). by rewrite IH.
Qed.

(** Splitting the joined keys gives the keys back. *)
Lemma splitOn_concat sep ks :
  ks <> [] -> Forall (fun k => hasChar sep k = false) ks -> splitOn sep (String.concat (String sep "") ks) = ks.
Proof.
  intros Hne Hall. induction Hall as [|k ks Hk Hall IH]; [done|]. destruct ks as [|k' ks]; [by apply splitOn_plain|].
  change (splitOn sep (k +:+ String sep (String.concat (String sep "") (k' :: ks))) = k :: k' :: ks).
  rewrite splitOn_cons by done. by rewrite IH.
Qed.

Lemma insertSorted_elem {A} (key : A -> string) x l y : y ∈ insertSorted key x l <-> y = x \/ y ∈ l.
Proof.
  induction l as [|z l IH]; simpl; [set_solver|]. destruct (stringLeb _ _); [set_solver|].
  rewrite !elem_of_cons, IH. tauto.
Qed.

Lemma sortStrings_elem l y : y ∈ sortStrings l <-> y ∈ l.
Proof.
  unfold sortStrings, sortBy. induction l as [|x l IH]; simpl; [done|]. rewrite insertSorted_elem, IH, elem_of_cons. done.
Qed.

Definition plainKeys (m : gmap string string) : Prop := forall k, is_Some (m !! k) -> hasChar comma k = false.

(** The set of keys read back from the annotation. *)
Lemma managedKeys_read m k :
  m <> ∅ -> plainKeys m -> k ∈ (list_to_set (splitOn comma (managedKeys m)) : gset string) <-> is_Some (m !! k).
Proof.
  intros Hne Hplain. unfold managedKeys.
  assert (forall k, k ∈ sortStrings (fst <$> map_to_list m) <-> is_Some (m !! k)) as Hin.
  { intros k'. rewrite sortStrings_elem, list_elem_of_fmap. split.
    - intros ([k'' v] & -> & Hv%elem_of_map_to_list). by exists v.
    - intros [v Hv]. exists (k', v). split; [done|]. by apply elem_of_map_to_list. }
  change "," with (String comma ""). rewrite splitOn_concat.
  - by rewrite elem_of_list_to_set, Hin.
  - intros Hnil. destruct (map_choose m Hne) as (k' & v & Hk').
    assert (k' ∈ sortStrings (fst <$> map_to_list m)) as Hx by (apply Hin; by exists v).
    rewrite Hnil in Hx. by apply elem_of_nil in Hx.
  - apply Forall_forall. intros k' Hk'%Hin. by apply Hplain.
Qed.

Section ShardProps.
Context {M : MetaLib} {Sch : SchedulerAPI}.
Context (cfg : NodePoolControllerConfig) (params : NodePoolControllerParams).

Definition wantedArgs (nodePool : NodePool) : gmap string string :=
  buildShardArgs cfg params (npSchedulingShardConfig nodePool).

Definition shardArgs (shard : SchedulingShard) : gmap string string := ssArgs (shardSpec shard).

Definition managedAnnotation (shard : SchedulingShard) : option string :=
  Annotations (shardMeta shard) !! managedShardArgsAnnotation.

Lemma wantedArgs_nonempty nodePool : wantedArgs nodePool <> ∅.
Proof. unfold wantedArgs, buildShardArgs. apply insert_non_empty. Qed.

Lemma desiredShard_args nodePool shard k :
  shardArgs (desiredShard cfg params nodePool shard) !! k =
  match wantedArgs nodePool !! k with
  | Some v => Some v
  | None =>
      match managedAnnotation shard with
      | Some managed => if decide (k ∈ (list_to_set (splitOn comma managed) : gset string)) then None
                        else shardArgs shard !! k
      | None => None
      end
  end.
Proof.
  unfold shardArgs, desiredShard, mergeShardArgs, mapsCopy, managedAnnotation. simpl. fold (wantedArgs nodePool).
  rewrite lookup_union. destruct (wantedArgs nodePool !! k) as [v|]; [by destruct (_ !! k)|].
  rewrite (left_id_L None _). destruct (Annotations _ !! _) as [managed|]; [|apply lookup_empty].
  case_decide as Hk.
  - apply map_lookup_filter_None. right. intros v _. simpl. tauto.
  - destruct (ssArgs (shardSpec shard) !! k) as [v|] eqn:Hv.
    + apply map_lookup_filter_Some. by split.
    + apply map_lookup_filter_None. by left.
Qed.

Lemma desiredShard_tracked nodePool shard previous k :
  previous <> ∅ -> plainKeys previous -> managedAnnotation shard = Some (managedKeys previous) ->
  shardArgs (desiredShard cfg params nodePool shard) !! k =
    match wantedArgs nodePool !! k with
    | Some v => Some v
    | None => match previous !! k with Some _ => None | None => shardArgs shard !! k end
    end.
Proof.
  intros Hne Hplain Hann. rewrite desiredShard_args, Hann. destruct (wantedArgs nodePool !! k); [done|].
  pose proof (managedKeys_read previous k Hne Hplain) as Hread.
  destruct (previous !! k) as [v|] eqn:Hk.
  - rewrite decide_True; [done|]. apply Hread. by exists v.
  - rewrite decide_False; [done|]. intros [v Hv]%Hread. done.
Qed.

Lemma desiredShard_annotation nodePool shard :
  managedAnnotation (desiredShard cfg params nodePool shard) = Some (managedKeys (wantedArgs nodePool)).
Proof. unfold managedAnnotation, desiredShard, mergeShardArgs. simpl. apply lookup_insert_eq. Qed.

(** The arguments of a shard.  For a shard whose annotation lists the
    arguments of an earlier reconcile, an argument gets the wanted value; an
    argument that was set by the earlier reconcile and is no longer wanted is
    removed; an argument that somebody else set is kept; and the annotation
    then lists the wanted arguments. *)
Theorem shard_args_exact nodePool shard previous k :
  previous <> ∅ -> plainKeys previous -> managedAnnotation shard = Some (managedKeys previous) ->
  shardArgs (desiredShard cfg params nodePool shard) !! k =
    match wantedArgs nodePool !! k with
    | Some v => Some v
    | None => match previous !! k with Some _ => None | None => shardArgs shard !! k end
    end /\
  managedAnnotation (desiredShard cfg params nodePool shard) = Some (managedKeys (wantedArgs nodePool)).
Proof. intros. split; [by apply desiredShard_tracked|apply desiredShard_annotation]. Qed.

Lemma desiredShard_spec nodePool shard :
  shardSpec (desiredShard cfg params nodePool shard) =
  shardSpecForNodePool cfg nodePool (shardArgs (desiredShard cfg params nodePool shard)) (shardSpec shard).
Proof. reflexivity. Qed.

(** The desired shard is stable: computed again from itself it does not
    change, so a shard that was written is not written again. *)
Theorem desiredShard_stable nodePool shard :
  plainKeys (wantedArgs nodePool) ->
  specsDiffer KSchedulingShard (desiredShard cfg params nodePool shard)
    (desiredShard cfg params nodePool (desiredShard cfg params nodePool shard)) = false.
Proof.
  intros Hplain. unfold specsDiffer. apply negb_false_iff, bool_decide_eq_true.
  assert (shardArgs (desiredShard cfg params nodePool (desiredShard cfg params nodePool shard)) =
          shardArgs (desiredShard cfg params nodePool shard)) as Hargs.
  { apply map_eq. intros k.
    rewrite (desiredShard_tracked nodePool (desiredShard cfg params nodePool shard) (wantedArgs nodePool) k)
      by (apply wantedArgs_nonempty || apply desiredShard_annotation || done).
    destruct (wantedArgs nodePool !! k) as [v|] eqn:Hk; [|done]. by rewrite desiredShard_args, Hk. }
  rewrite (desiredShard_spec nodePool (desiredShard cfg params nodePool shard)), Hargs. reflexivity.
Qed.

(** ** Which shards are written *)

(** The shard a call writes. *)
Definition writtenShard (e : event KubeCall) : option SchedulingShard :=
  match ev_call e with
  | Create KSchedulingShard s | Update KSchedulingShard s | Patch KSchedulingShard _ s => Some s
  | _ => None
  end.

(** A name under which the node pool may write a shard: that of the only shard
    listed for its partition, which it controls, or that of the shard read under
    its own name, which it controls, or its own name when no shard has it. *)
Definition mayWriteShard (nodePool : NodePool) (tr : list (event KubeCall)) (name : string) : Prop :=
  (exists opts shard, Event (List KSchedulingShard opts) (inr [shard]) ∈ tr /\
     loFieldSelector opts =
       Some (SchedulingShardPartitionField, PartitionLabelValueForNodePool cfg (Name (npMeta nodePool))) /\
     IsControlledBy (shardMeta shard) (npMeta nodePool) = true /\ name = Name (shardMeta shard)) \/
  (exists shard, Event (Get KSchedulingShard ("", Name (npMeta nodePool))) (inr shard) ∈ tr /\
     IsControlledBy (shardMeta shard) (npMeta nodePool) = true /\ name = Name (shardMeta shard)) \/
  (exists err, Event (Get KSchedulingShard ("", Name (npMeta nodePool))) (inl err) ∈ tr /\ IsNotFound err = true /\
     name = Name (npMeta nodePool)).

Lemma mayWriteShard_app nodePool tr1 tr2 name : mayWriteShard nodePool tr1 name -> mayWriteShard nodePool (tr1 ++ tr2) name.
Proof.
  intros [(opts & shard & He & H)|[(shard & He & H)|(err & He & H)]].
  - left. exists opts, shard. rewrite elem_of_app. auto.
  - right. left. exists shard. rewrite elem_of_app. auto.
  - right. right. exists err. rewrite elem_of_app. auto.
Qed.

(** Every shard the program writes is under the name and of the partition. *)
Definition writesShard (name partition : string) : forall X, KubeCall X -> Prop := fun X c =>
  match c with
  | Create KSchedulingShard s | Update KSchedulingShard s | Patch KSchedulingShard _ s =>
      Name (shardMeta s) = name /\ PartitionLabelValue (shardSpec s) = partition
  | _ => True
  end.

Lemma writesShard_event name partition e s :
  writesShard name partition _ (ev_call e) -> writtenShard e = Some s ->
  Name (shardMeta s) = name /\ PartitionLabelValue (shardSpec s) = partition.
Proof.
  unfold writtenShard. destruct (ev_call e) as [| | | | |K o|K o| |K o m| | | | |]; try done;
    destruct K; try done; simpl; congruence.
Qed.

Lemma read_writes_no_shard e : is_write (ev_call e) = false -> writtenShard e = None.
Proof. unfold writtenShard. by destruct (ev_call e). Qed.

Lemma exec_resolveOwned nodePool tr shard :
  exec (resolveOwnedShardForNodePool cfg nodePool) tr (inr (Some shard)) ->
  mayWriteShard nodePool tr (Name (shardMeta shard)).
Proof.
  intros (tr1 & tr2 & r & -> & H1 & H2)%exec_bind_inv. destruct r as [err|[s|]]; [by destruct H2| |by destruct H2].
  destruct (IsControlledBy (shardMeta s) (npMeta nodePool)) eqn:Hc;
    [|cbv zeta in H2; case_bool_decide; by destruct H2]. destruct H2 as [-> [= ->]]. rewrite app_nil_r.
  destruct H1 as (reply & tr2 & -> & H). cbn [prog_bind_ call] in H.
  destruct reply as [err|shards]; [by destruct H|]. destruct H as [-> H]. left.
  destruct shards as [|s0 [|]]; simpl in H; [done| |done]. destruct (IsUnmanaged s0); [done|]. injection H as ->.
  eexists. exists s0. split; [left|]. done.
Qed.

Lemma exec_schedulingShard nodePool tr shard :
  exec (SchedulingShardForNodePool cfg params nodePool) tr (inr shard) ->
  mayWriteShard nodePool tr (Name (shardMeta shard)) /\
  PartitionLabelValue (shardSpec shard) = PartitionLabelValueForNodePool cfg (Name (npMeta nodePool)).
Proof.
  intros (tr1 & tr2 & r & -> & H1 & H2)%exec_bind_inv. destruct r as [err|resolved]; [by destruct H2|].
  apply exec_bind_inv in H2 as (tr3 & tr4 & r & -> & H3 & H4). destruct r as [err|s0]; [by destruct H4|].
  destruct H4 as [-> [= ->]]. split; [|done]. change (Name _) with (Name (shardMeta s0)).
  destruct resolved as [s|].
  - destruct H3 as [-> [= ->]]. rewrite !app_nil_r. by apply exec_resolveOwned.
  - destruct H3 as (reply & tr5 & -> & H3). cbn [prog_bind_ call] in H3. right. destruct reply as [err|s].
    + destruct (IsNotFound err) eqn:Hnf; [|by destruct H3]. destruct H3 as [-> [= ->]]. right. exists err.
      split; [|done]. rewrite elem_of_app. right. left.
    + destruct (IsControlledBy (shardMeta s) (npMeta nodePool)) eqn:Hc; cbn [negb] in H3; [|by destruct H3].
      destruct H3 as [-> [= ->]]. left. exists s. split; [|done]. rewrite elem_of_app. right. left.
Qed.

(** [SetControllerReference] only changes the owners of an object. *)
Hypothesis ownerKeepsName : forall owner m m', SetControllerReference owner m = inr m' -> Name m' = Name m.

Lemma createOrUpdate_writesShard nodePool shard rest :
  Forall (fun r => match r with ServiceMonitorResource _ => True | ShardResource _ => False end) rest ->
  issues (writesShard (Name (shardMeta shard)) (PartitionLabelValue (shardSpec shard)))
    (CreateOrUpdateResources nodePool (ShardResource shard :: rest)).
Proof.
  intros Hrest.
  assert (forall name partition, issues (writesShard name partition) (CreateOrUpdateResources nodePool rest)) as Hr.
  { intros name partition. induction Hrest as [|[s|sm] rest Hsm Hrest IH]; [done|done|]. cbn [CreateOrUpdateResources].
    destruct (ownResource nodePool (ServiceMonitorResource sm)) as [err|[s|sm']] eqn:Ho; [done| |].
    - simpl in Ho. by destruct (SetControllerReference _ _).
    - apply issues_bind; [|intros [err|[]]; [by destruct (negb _)|done]].
      apply issues_bind; [by apply issues_call|]. intros [err|existing]; [destruct (IsNotFound err); [|done]|destruct (specsDiffer _ _ _); [|done]];
        (apply issues_try; [by apply issues_call|done]). }
  cbn [CreateOrUpdateResources]. simpl ownResource.
  destruct (SetControllerReference (npMeta nodePool) (shardMeta shard)) as [err|m] eqn:Hm; [done|].
  apply ownerKeepsName in Hm.
  apply issues_bind; [|intros [err|[]]; [by destruct (negb _)|done]].
  apply issues_bind; [by apply issues_call|]. intros [err|existing]; [destruct (IsNotFound err); [|done]|destruct (specsDiffer _ _ _); [|done]];
    (apply issues_try; [apply issues_call; simpl; by rewrite <- Hm|done]).
Qed.

Lemma resourcesForNodePool_reads serviceMonitorEnabled nodePool :
  reads_only (resourcesForNodePool cfg params serviceMonitorEnabled nodePool).
Proof.
  unfold resourcesForNodePool, resourceFunctions, SchedulingShardForNodePool, ServiceMonitorForNodePool,
    shardNameForNodePool, GetOrInitShardNamedAfterNodePool, resolveOwnedShardForNodePool, ResolveShardForNodePool,
    ListShardsWithPartitionLabelValue. destruct serviceMonitorEnabled; cbn [callInTurn]; reads_tac.
Qed.

(** The resources of an operand: the shard, and no other shard. *)
Lemma resourcesForNodePool_shape serviceMonitorEnabled nodePool tr resources :
  exec (resourcesForNodePool cfg params serviceMonitorEnabled nodePool) tr (inr resources) ->
  exists shard rest tr1 tr2, tr = tr1 ++ tr2 /\ resources = ShardResource shard :: rest /\
    Forall (fun r => match r with ServiceMonitorResource _ => True | ShardResource _ => False end) rest /\
    exec (SchedulingShardForNodePool cfg params nodePool) tr1 (inr shard).
Proof.
  intros (tr1 & tr2 & a & -> & H1 & H2)%exec_try_ok.
  apply exec_try_ok in H1 as (tr3 & tr4 & shard & -> & H3 & [-> [= ->]]). rewrite app_nil_r.
  apply exec_try_ok in H2 as (tr5 & tr6 & rest & -> & H5 & [-> [= ->]]). rewrite app_nil_r.
  exists shard, rest, tr3, tr5. split_and!; [done|done| |done].
  destruct serviceMonitorEnabled; [|by destruct H5 as [_ [= ->]]].
  apply exec_try_ok in H5 as (tr6 & tr7 & sm & -> & H6 & H7).
  apply exec_try_ok in H6 as (tr8 & tr9 & m & -> & _ & [_ [= ->]]).
  destruct H7 as [_ [= ->]]. by repeat constructor.
Qed.

(** C21: A node pool writes only its own shard.  Whatever the API answers, every
    shard that the reconcile of a scheduler creates or updates has the name of a
    shard that was read for the node pool and that it controls, or its own name
    when no shard has it; and it serves the partition of the node pool. *)
Theorem scheduler_writes_own_shard serviceMonitorEnabled nodePool tr r e shard :
  exec (reconcileScheduler cfg params serviceMonitorEnabled nodePool) tr r -> e ∈ tr -> writtenShard e = Some shard ->
  mayWriteShard nodePool tr (Name (shardMeta shard)) /\
  PartitionLabelValue (shardSpec shard) = PartitionLabelValueForNodePool cfg (Name (npMeta nodePool)).
Proof.
  intros (tr0 & tr2 & r0 & -> & H0 & H2)%exec_bind_inv He Hw.
  apply exec_bind_inv in H0 as (tr1 & tr1' & r1 & -> & H1 & H0).
  assert (tr1' = [] /\ r0 = match r1 with inl err => inl err | inr rs => inr (rs, []) end) as [-> ->]
    by (by destruct r1; destruct H0 as [-> ->]). rewrite app_nil_r in *. clear H0.
  apply elem_of_app in He as [He|He].
  { exfalso. destruct (wp_exec_any _ _ _ _ _ (resourcesForNodePool_reads serviceMonitorEnabled nodePool) H1) as [Hall _].
    rewrite Forall_forall in Hall. pose proof (read_writes_no_shard e (Hall e He)). congruence. }
  destruct r1 as [err|resources]; [destruct H2 as [-> _]; by apply elem_of_nil in He|].
  destruct (resourcesForNodePool_shape _ _ _ _ H1) as (shard0 & rest & tr3 & tr4 & -> & -> & Hrest & H3).
  destruct (exec_schedulingShard _ _ _ H3) as [Hmay Hpart].
  apply exec_bind_inv in H2 as (tr5 & tr6 & r5 & -> & H5 & H6).
  assert (tr6 = []) as -> by (by destruct r5; destruct H6 as [-> _]). rewrite app_nil_r in *.
  pose proof (issues_exec _ _ _ _ (createOrUpdate_writesShard nodePool shard0 rest Hrest) H5) as Hall.
  rewrite Forall_forall in Hall. destruct (writesShard_event _ _ _ _ (Hall e He) Hw) as [-> ->].
  split; [|done]. rewrite <- app_assoc. by apply mayWriteShard_app.
Qed.

End ShardProps.

(** ** Witnesses *)

Definition demoShardPool : NodePool := demoPool "a" NodePoolReady.

Definition demoScheduler : kube (result unit) := reconcileScheduler demoNpcConfig demoParams false demoShardPool.

Lemma scheduler_writes_own_shard_witness :
  exists shard, mayWriteShard demoNpcConfig demoShardPool (run_trace memServer demoScheduler emptyStore) (Name (shardMeta shard)) /\
    PartitionLabelValue (shardSpec shard) = "a".
Proof.
  assert (existsb (fun e => bool_decide (is_Some (writtenShard e))) (run_trace memServer demoScheduler emptyStore) = true) as H
    by (vm_compute; reflexivity).
  apply existsb_exists in H as (e & Hin & [shard Hw]%bool_decide_eq_true). exists shard.
  apply (scheduler_writes_own_shard demoNpcConfig demoParams) with
    (serviceMonitorEnabled := false) (r := (run memServer demoScheduler emptyStore).1) (e := e) (nodePool := demoShardPool).
  - intros owner m m' [= <-]. reflexivity.
  - apply run_exec.
  - by apply list_elem_of_In.
  - exact Hw.
Defined.

(** A shard with an argument of somebody else and one that is no longer wanted. *)
Definition demoPrevious : gmap string string := {["old" := "1"]}.

Definition demoShard : SchedulingShard :=
  {| shardMeta := meta_with_annotations <[managedShardArgsAnnotation := managedKeys demoPrevious]> (named "a");
     shardSpec := {| ssArgs := {["old" := "1"; "foreign" := "2"]}; ssPlacementStrategy := None; PartitionLabelValue := "a";
                     ssQueueDepthPerAction := ∅; ssMinRuntime := None; ssKValue := None; ssUsageDBConfig := None;
                     ssPlugins := ∅; ssActions := ∅; ssOther := "" |};
     shardConditions := [] |}.

Lemma plainKeys_forallb m : forallb (fun kv => negb (hasChar comma kv.1)) (map_to_list m) = true -> plainKeys m.
Proof.
  intros H k [v Hv]. rewrite forallb_forall in H. apply negb_true_iff. apply (H (k, v)).
  by apply list_elem_of_In, elem_of_map_to_list.
Qed.

Lemma shard_args_exact_witness :
  shardArgs (desiredShard demoNpcConfig demoParams demoShardPool demoShard) !! "old" = None /\
  shardArgs (desiredShard demoNpcConfig demoParams demoShardPool demoShard) !! "foreign" = Some "2".
Proof.
  assert (plainKeys demoPrevious) as Hp by (apply plainKeys_forallb; vm_compute; reflexivity).
  split.
  - destruct (shard_args_exact demoNpcConfig demoParams demoShardPool demoShard demoPrevious "old") as [-> _];
      [discriminate|exact Hp|reflexivity|vm_compute; reflexivity].
  - destruct (shard_args_exact demoNpcConfig demoParams demoShardPool demoShard demoPrevious "foreign") as [-> _];
      [discriminate|exact Hp|reflexivity|vm_compute; reflexivity].
Defined.

Lemma desiredShard_stable_witness :
  specsDiffer KSchedulingShard (desiredShard demoNpcConfig demoParams demoShardPool demoShard)
    (desiredShard demoNpcConfig demoParams demoShardPool (desiredShard demoNpcConfig demoParams demoShardPool demoShard)) = false.
Proof. apply desiredShard_stable. apply plainKeys_forallb. vm_compute. reflexivity. Defined.
