(* ===== verification/NodePoolFacts.v ===== *)
(** * Properties of the node pool controller

    When a node pool is let go, the phase and the status it reports, the
    comparison of statuses, the nodes it leaves alone and the events it reacts
    to. *)

From stdpp Require Import base list gmap strings sorting pretty.
From S2P Require Import Prelude ApiTypes NodePoolUtils NodePoolCommon Shards Nodes NodePools NodeFacts.

(** ** Sorting *)

Lemma insertSorted_perm {A} (key : A -> string) x l : insertSorted key x l ≡ₚ x :: l.
Proof.
  induction l as [|y l IH]; simpl; [done|]. destruct (stringLeb _ _); [done|]. rewrite IH. apply Permutation_swap.
Qed.

Lemma sortBy_perm {A} (key : A -> string) l : sortBy key l ≡ₚ l.
Proof. induction l as [|x l IH]; simpl; [done|]. by rewrite insertSorted_perm, IH. Qed.

Lemma sortBy_length {A} (key : A -> string) l : length (sortBy key l) = length l.
Proof. by rewrite sortBy_perm. Qed.

(** ** Finalization *)

Section FinalizeProps.
Context {L : LabelsLib} {M : MetaLib} {Sch : SchedulerAPI} {api : NodePoolAPI}.
Context (cfg : NodePoolControllerConfig) (params : NodePoolControllerParams).
Context (nrtEnabled serviceMonitorEnabled : bool).
Context (rangeOrder : forall A, gmap string A -> list (string * A)) (errorText : error -> string).

(** A patch of the metadata of a node pool. *)
Definition patchesNodePool (e : event KubeCall) : bool :=
  match ev_call e with Patch KNodePool _ _ => true | _ => false end.

Definition noNodePoolPatch : forall X, KubeCall X -> Prop := fun X c =>
  match c with Patch KNodePool _ _ => False | _ => True end.

Lemma noNodePoolPatch_exec {A} (p : kube A) tr a e :
  issues noNodePoolPatch p -> exec p tr a -> e ∈ tr -> patchesNodePool e = true -> False.
Proof.
  intros Hp Hex He. apply (issues_exec _ _ _ _ Hp) in Hex. rewrite Forall_forall in Hex. specialize (Hex e He).
  unfold patchesNodePool. destruct (ev_call e) as [| | | | | | | |K o m| | | | |]; try done. by destruct K.
Qed.

(** Structural proof that a program patches no node pool. *)
Ltac noPatch_step :=
  match goal with
  | |- issues noNodePoolPatch (prog_bind_ _ _) => apply issues_bind; [|intros ?]
  | |- issues noNodePoolPatch (try_bind _ _) => apply issues_try; [|intros ?]
  | |- issues noNodePoolPatch (call _) => apply issues_call; exact I
  | |- issues noNodePoolPatch (Ret _) => apply issues_ret
  | |- issues noNodePoolPatch (match ?x with _ => _ end) => destruct x
  end.
Ltac noPatch_tac := repeat (cbv beta zeta; noPatch_step).

Lemma changeNodePool_noPatch node new old pools :
  issues noNodePoolPatch (changeNodePoolForNodeGeneric cfg rangeOrder node new old pools).
Proof.
  apply issues_bind.
  - apply issues_bind; [apply issues_reads; [by intros X []|apply arePodsRunning_reads]|].
    intros [err|[]]; unfold updateNodeUnschedulableIfNeeded, validateNodeLabeledWithUnschedulable, patchNodeUnschedulable,
      UpdateNodeLabels, patchNode; noPatch_tac.
  - intros [node' [err|[]]]; unfold updateNodeWithNodePoolNameIfNeeded, UpdateNodeLabels, patchNode; noPatch_tac.
Qed.

Lemma overNodes_noPatch op nodes resultNodes errs :
  (forall node, issues noNodePoolPatch (op node)) -> issues noNodePoolPatch (overNodes op nodes resultNodes errs).
Proof.
  intros Hop. revert resultNodes errs. induction nodes as [|node nodes IH]; intros resultNodes errs; [done|].
  apply issues_bind; [apply Hop|]. intros [node' es]. apply IH.
Qed.

Lemma listNodes_noPatch requirements : issues noNodePoolPatch (listNodes requirements).
Proof.
  unfold listNodes. generalize (@nil Requirement) as built.
  induction requirements as [|[err|r] requirements IH]; intros built; [by apply issues_call|done|apply IH].
Qed.

Lemma handleNodePoolDeletion_noPatch nodePool : issues noNodePoolPatch (handleNodePoolDeletion cfg rangeOrder nodePool).
Proof.
  apply issues_bind; [apply listNodes_noPatch|]. intros [err|[|node nodes]]; [done..|].
  apply issues_bind; [by apply issues_call|]. intros [err|pools]; [done|].
  apply issues_bind; [|done]. apply overNodes_noPatch. intros n. apply issues_bind; [apply changeNodePool_noPatch|done].
Qed.

(** No listed project has a queue for the node pool. *)
Definition noProjectRefers (nodePoolName : string) (projects : list Project) : Prop :=
  forall project queue, project ∈ projects -> queue ∈ prjQueues project -> qcNodepool queue <> nodePoolName.

Lemma exec_getProjectsReferencing name tr :
  exec (getProjectsReferencingNodePool name) tr (inr []) ->
  exists projects, Event (List KProject listAll) (inr projects) ∈ tr /\ noProjectRefers name projects.
Proof.
  intros (reply & tr' & -> & H). destruct reply as [err|projects]; [by destruct H|].
  exists projects. split; [left|]. destruct H as [_ [= H]]. symmetry in H.
  apply (f_equal length) in H. unfold sortStrings in H. rewrite sortBy_length, length_fmap in H.
  apply nil_length_inv in H. intros project queue Hp Hq Hn.
  assert (project ∈ filter (fun project : Project =>
    existsb (fun queue => qcNodepool queue ==? name) (prjQueues project) = true) (projects : list Project)) as Hin.
  { apply list_elem_of_filter. split; [|done]. apply existsb_exists. exists queue.
    split; [by apply list_elem_of_In|by apply bool_decide_eq_true]. }
  rewrite H in Hin. by apply elem_of_nil in Hin.
Qed.

(** A deletion status other than Deleting. *)
Lemma exec_getNodePoolDeletionStatus nodePool nodes tr nodePool' :
  exec (getNodePoolDeletionStatus nodePool nodes) tr (nodePool', inr tt) -> npPhase nodePool' <> NodePoolDeleting ->
  (forall node, node ∈ nodes -> isNodeReady node = true) /\
  exists projects, Event (List KProject listAll) (inr projects) ∈ tr /\ noProjectRefers (Name (npMeta nodePool)) projects.
Proof.
  intros (tr1 & tr2 & r & -> & Hr & H)%exec_bind_inv Hphase. destruct r as [err|names]; [by destruct H|].
  destruct H as [-> [= ->]]. rewrite app_nil_r. unfold npPhase in Hphase. simpl in Hphase.
  destruct (existsb (fun n => negb (isNodeReady n)) nodes) eqn:Hun; [done|].
  destruct names as [|n names]; [|done]. split; [|by apply exec_getProjectsReferencing].
  intros node Hnode. destruct (isNodeReady node) eqn:Hready; [done|].
  exfalso. apply not_true_iff_false in Hun. apply Hun, existsb_exists. exists node. split; [by apply list_elem_of_In|by rewrite Hready].
Qed.

Lemma updateStatusIfNeeded_noPatch updated nodePool : issues noNodePoolPatch (updateNodePoolStatusIfNeeded updated nodePool).
Proof. unfold updateNodePoolStatusIfNeeded, updateNodePoolStatus. noPatch_tac. Qed.

Lemma updateStatusOnDeletion_noPatch nodePool nodes : issues noNodePoolPatch (updateNodePoolStatusOnDeletion nodePool nodes).
Proof.
  apply issues_bind; [unfold getNodePoolDeletionStatus, getProjectsReferencingNodePool; noPatch_tac|].
  intros r1. apply issues_bind; [apply updateStatusIfNeeded_noPatch|done].
Qed.

Lemma exec_updateNodePoolStatusOnDeletion nodePool nodes tr np phase :
  exec (updateNodePoolStatusOnDeletion nodePool nodes) tr (np, (phase, inr tt)) -> phase <> NodePoolDeleting ->
  (forall node, node ∈ nodes -> isNodeReady node = true) /\
  exists projects, Event (List KProject listAll) (inr projects) ∈ tr /\ noProjectRefers (Name (npMeta nodePool)) projects.
Proof.
  intros (tr1 & tr2 & [np1 r1] & -> & H1 & H2)%exec_bind_inv Hphase.
  apply exec_bind_inv in H2 as (tr3 & tr4 & [np2 r2] & -> & _ & [-> [= -> -> Herr]]).
  assert (r1 = inr tt) as ->.
  { destruct r1 as [e1|[]]; [|done]. exfalso. simpl in Herr. destruct r2 as [e2|[]]; simpl in Herr;
      (destruct (appendErr _ _) eqn:E; [by apply appendErr_nonempty in E|done]). }
  apply exec_getNodePoolDeletionStatus in H1 as (Hready & projects & Hlist & Hrefs); [|done].
  split; [done|]. exists projects. split; [|done]. apply elem_of_app. by left.
Qed.

(** The pool is let go because the installing operator is. *)
Definition uninstalling (tr : list (event KubeCall)) : Prop :=
  exists tr1 tr2, tr = tr1 ++ tr2 /\ exec (ownerUninstalled params) tr1 true.

(** Every node of the pool was reassigned and is ready, and no project refers
    to the pool. *)
Definition vacated (nodePool : NodePool) (tr : list (event KubeCall)) : Prop :=
  exists tr1 tr2 tr3 nodes projects, tr = tr1 ++ tr2 ++ tr3 /\
    exec (handleNodePoolDeletion cfg rangeOrder nodePool) tr2 (nodes, inr tt) /\
    (forall node, node ∈ nodes -> isNodeReady node = true) /\
    Event (List KProject listAll) (inr projects) ∈ tr3 /\ noProjectRefers (Name (npMeta nodePool)) projects.

(** C4: A node pool is only let go when it is vacated.  Whatever the API answers,
    the finalization of a node pool writes its finalizers only if the installing
    operator is being uninstalled, or if each of its nodes was handled without
    an error and is ready, and the projects were listed and none of them has a
    queue for the node pool. *)
Theorem nodepool_finalizer_guard nodePool tr r e :
  exec (finalize cfg params rangeOrder nodePool) tr r -> e ∈ tr -> patchesNodePool e = true ->
  uninstalling tr \/ vacated nodePool tr.
Proof.
  unfold finalize. destruct (negb _); [intros [-> _] He; by apply elem_of_nil in He|].
  intros (tr1 & tr2 & gone & -> & H1 & H2)%exec_bind_inv He Hp.
  unfold handleNodePoolDeletionOnOwnerUninstall in H1.
  apply exec_bind_inv in H1 as (tr3 & tr4 & uninstalled & -> & H3 & H4).
  destruct uninstalled; cbn [negb] in H4; [left; exists tr3, (tr4 ++ tr2); by rewrite app_assoc|right].
  destruct H4 as [-> ->]. rewrite app_nil_r in *. apply elem_of_app in He as [He|He].
  { exfalso. eapply noNodePoolPatch_exec, Hp; [|exact H3|exact He]. unfold ownerUninstalled, getOwnerResource. noPatch_tac. }
  apply exec_bind_inv in H2 as (tr5 & tr6 & [nodes r5] & -> & H5 & H6). apply elem_of_app in He as [He|He].
  { exfalso. eapply noNodePoolPatch_exec, Hp; [|exact H5|exact He]. apply handleNodePoolDeletion_noPatch. }
  destruct r5 as [err|[]].
  { exfalso. eapply noNodePoolPatch_exec, Hp; [|exact H6|exact He].
    apply issues_bind; [apply issues_bind; [apply updateStatusIfNeeded_noPatch|done]|]. intros []; done. }
  apply exec_bind_inv in H6 as (tr7 & tr8 & [np [phase r7]] & -> & H7 & H8). apply elem_of_app in He as [He|He].
  { exfalso. eapply noNodePoolPatch_exec, Hp; [|exact H7|exact He]. apply updateStatusOnDeletion_noPatch. }
  destruct r7 as [err|[]]; [destruct H8 as [-> _]; by apply elem_of_nil in He|].
  case_bool_decide as Hphase; cbn [negb] in H8; [destruct H8 as [-> _]; by apply elem_of_nil in He|].
  destruct (exec_updateNodePoolStatusOnDeletion _ _ _ _ _ H7 Hphase) as (Hready & projects & Hlist & Hrefs).
  exists tr3, tr5, (tr7 ++ tr8), nodes, projects. repeat split; try done. apply elem_of_app. by left.
Qed.

(** ** The status after a failed deletion *)

(** The status of a node pool that a call writes. *)
Definition writtenStatus (e : event KubeCall) : option NodePoolStatus :=
  match ev_call e with PatchStatus KNodePool _ m => Some (npStatus m) | _ => None end.

(** After a failed reassignment of nodes the status is written with the nodes
    it already had, whatever the nodes are now; and when their number changed
    the same status is written again, at every attempt. *)
Theorem deletion_error_status_stale nodePool nodes tr r :
  exec (updateNodePoolStatusOnDeletionError nodePool nodes) tr r ->
  (forall e st, e ∈ tr -> writtenStatus e = Some st ->
     st = status_with_phase NodePoolDeleting ErrorDeletingMessage (npStatus nodePool)) /\
  (length nodes <> length (npsNodes (npStatus nodePool)) -> exists e, e ∈ tr /\
     writtenStatus e = Some (status_with_phase NodePoolDeleting ErrorDeletingMessage (npStatus nodePool))).
Proof.
  intros (tr1 & tr2 & r1 & -> & H & [-> _])%exec_bind_inv. rewrite app_nil_r.
  unfold updateNodePoolStatusIfNeeded in H. destruct (isStatusEqual _ _) eqn:Heq; cbn [negb] in H.
  - destruct H as [-> _]. split; [by intros e st He%elem_of_nil|]. intros Hlen. exfalso.
    unfold isStatusEqual in Heq. simpl in Heq. unfold getNodesSituation, sortNodesInNodePool in Heq. simpl in Heq.
    rewrite sortBy_length, length_fmap in Heq. rewrite (bool_decide_false (length _ = length nodes)) in Heq by congruence.
    simpl in Heq. rewrite !orb_true_r in Heq. done.
  - destruct H as (reply & tr' & -> & H).
    assert (tr' = []) as -> by (by destruct reply, H as [-> _]). split.
    + intros e st He Hw. apply list_elem_of_singleton in He as ->. by injection Hw as <-.
    + intros _. eexists. split; [left|done].
Qed.

(** ** The phase of a node pool *)

(** Some node lacks a prerequisite that is reported. *)
Definition lacksItem (node : Node) : Prop := missingItemOf node <> "".

Lemma missingItems_nonempty nodes :
  (0 < length (missingNrtPrerequisiteItems (getNodesSituation nodes)))%nat <-> List.Exists lacksItem nodes.
Proof.
  unfold getNodesSituation. simpl. unfold sortStrings. rewrite sortBy_length, List.Exists_exists. split.
  - intros H. destruct (elements _) as [|i is_] eqn:E; [simpl in H; lia|].
    assert (i ∈ elements (list_to_set (filter (fun i => i <> "") (missingItemOf <$> nodes)) : gset string)) as Hin
      by (rewrite E; left).
    apply elem_of_elements, elem_of_list_to_set, list_elem_of_filter in Hin as [Hi (n & -> & Hn)%list_elem_of_fmap].
    exists n. split; [by apply list_elem_of_In|done].
  - intros (n & Hn%list_elem_of_In & Hl).
    assert (missingItemOf n ∈ elements (list_to_set (filter (fun i => i <> "") (missingItemOf <$> nodes)) : gset string)) as Hin.
    { apply elem_of_elements, elem_of_list_to_set, list_elem_of_filter. split; [done|]. by apply list_elem_of_fmap_2. }
    destruct (elements _); [by apply elem_of_nil in Hin|simpl; lia].
Qed.

(** The phase that the nodes of a pool determine. *)
Definition phaseOfNodes (nodes : list Node) : NodePoolPhase :=
  let situation := getNodesSituation nodes in
  nodePoolPhaseForNodeSituation (atLeastOneNodeReady situation) (atLeastOneNodeUnschedulable situation)
    (bool_decide (0 < length (missingNrtPrerequisiteItems situation))).

Definition someReady (nodes : list Node) : Prop := List.Exists (fun n => isNodeReady n = true) nodes.

Lemma someReady_existsb nodes : existsb isNodeReady nodes = true <-> someReady nodes.
Proof. unfold someReady. by rewrite existsb_exists, List.Exists_exists. Qed.

Lemma phaseOfNodes_cases nodes :
  (nodes = [] /\ phaseOfNodes nodes = NodePoolEmpty) \/
  (nodes <> [] /\ ~ someReady nodes /\ phaseOfNodes nodes = NodePoolUnschedulable) \/
  (someReady nodes /\ ~ List.Exists lacksItem nodes /\ phaseOfNodes nodes = NodePoolReady) \/
  (someReady nodes /\ List.Exists lacksItem nodes /\ phaseOfNodes nodes = NodePoolMissingPrerequisites).
Proof.
  destruct nodes as [|n ns]; [by left|right]. set (nodes := n :: ns).
  unfold phaseOfNodes, nodePoolPhaseForNodeSituation.
  pose proof (missingItems_nonempty nodes) as Hmiss.
  change (atLeastOneNodeReady (getNodesSituation nodes)) with (existsb isNodeReady nodes).
  change (atLeastOneNodeUnschedulable (getNodesSituation nodes)) with (existsb (fun n => negb (isNodeReady n)) nodes).
  destruct (existsb isNodeReady nodes) eqn:Hr.
  - right. apply someReady_existsb in Hr. case_bool_decide as Hm; simpl.
    + right. split; [done|]. split; [by apply Hmiss|done].
    + left. split; [done|]. split; [by intros H%Hmiss|done].
  - left. split; [done|]. split; [intros H%someReady_existsb; congruence|].
    assert (existsb (fun n => negb (isNodeReady n)) nodes = true) as ->.
    { unfold nodes in *. simpl in *. apply orb_false_iff in Hr as [-> _]. done. }
    by rewrite andb_false_r.
Qed.

(** C38: The phase and the nodes a pool reports when its scheduler is ready.  The
    pool is Empty exactly without nodes, Unschedulable exactly when it has nodes
    and none is ready, and with a ready node it is MissingPrerequisites or Ready,
    depending on whether some node lacks a prerequisite; and every node is
    reported once. *)
Theorem status_by_nodes_exact nodePool nodes tr nodePool' r :
  exec (getNodePoolStatusByNodes cfg nodePool nodes) tr (nodePool', r) ->
  (npPhase nodePool' = NodePoolEmpty <-> nodes = []) /\
  (npPhase nodePool' = NodePoolUnschedulable <-> nodes <> [] /\ ~ someReady nodes) /\
  (npPhase nodePool' = NodePoolReady <-> someReady nodes /\ ~ List.Exists lacksItem nodes) /\
  (npPhase nodePool' = NodePoolMissingPrerequisites <-> someReady nodes /\ List.Exists lacksItem nodes) /\
  nipName <$> npsNodes (npStatus nodePool') ≡ₚ nodeName <$> nodes.
Proof.
  intros (tr1 & tr2 & message & -> & _ & H)%exec_bind_inv. cbv zeta in H.
  apply exec_bind_inv in H as (tr3 & tr4 & mismatch & -> & _ & H).
  assert (npPhase nodePool' = phaseOfNodes nodes /\ nipName <$> npsNodes (npStatus nodePool') ≡ₚ nodeName <$> nodes)
    as [-> Hnodes].
  { assert (nipName <$> nodesInNodePool (getNodesSituation nodes) ≡ₚ nodeName <$> nodes) as Hn.
    { simpl. unfold sortNodesInNodePool. rewrite sortBy_perm. by rewrite <- list_fmap_compose. }
    destruct mismatch as [err|mismatch]; destruct H as [-> [= -> ->]]; (split; [done|]).
    - exact Hn.
    - simpl npsNodes. unfold updateNodesTopologyMismatch. rewrite <- list_fmap_compose. exact Hn. }
  assert (~ (nodes = [] /\ someReady nodes)) as Hempty by (intros [-> Hr]; by inversion Hr).
  pose proof (phaseOfNodes_cases nodes) as Hcases.
  destruct Hcases as [(? & ->)|[(? & ? & ->)|[(? & ? & ->)|(? & ? & ->)]]];
    (split; [|split; [|split; [|split; [|done]]]]); split; try done; try naive_solver.
Qed.

(** ** Equality of statuses *)

(** The comparison of two keyed lists through a map of the left one. *)
Definition keyedEqual {A} (key : A -> string) (same : A -> A -> bool) (left right : list A) : bool :=
  if length left !=? length right then false
  else
    let leftMap : gmap string A := foldl (fun m x => <[key x := x]> m) ∅ left in
    forallb (fun y => match leftMap !! key y with None => false | Some x => same x y end) right.

Lemma keyedMap_lookup {A} (key : A -> string) (xs : list A) (m : gmap string A) k x :
  NoDup (key <$> xs) ->
  foldl (fun m x => <[key x := x]> m) m xs !! k = Some x <->
  (x ∈ xs /\ key x = k) \/ (k ∉ key <$> xs /\ m !! k = Some x).
Proof.
  revert m. induction xs as [|y xs IH]; intros m Hnd; simpl.
  - set_solver.
  - apply NoDup_cons in Hnd as [Hy Hnd]. rewrite IH by done. rewrite not_elem_of_cons, elem_of_cons. split.
    + intros [[Hx Hk]|[Hk Hm]]; [auto|]. apply lookup_insert_Some in Hm as [[<- <-]|[Hne Hm]]; [auto|right]. auto.
    + intros [[[->|Hx] Hk]|[[Hne Hk] Hm]]; [right|by left|right].
      * subst k. split; [done|]. apply lookup_insert_eq.
      * split; [done|]. by rewrite lookup_insert_ne.
Qed.

Lemma keyedEqual_perm {A} (key : A -> string) (same : A -> A -> bool) (left right : list A) :
  (forall x y, key x = key y -> same x y = true <-> x = y) ->
  NoDup (key <$> left) -> NoDup (key <$> right) ->
  keyedEqual key same left right = true <-> left ≡ₚ right.
Proof.
  intros Hsame Hl Hr. unfold keyedEqual. split.
  - case_bool_decide as Hlen; [|done]. simpl. intros Hall. symmetry.
    apply submseteq_length_Permutation; [|lia]. apply NoDup_submseteq; [by eapply NoDup_fmap_1|].
    intros y Hy. rewrite forallb_forall in Hall. specialize (Hall y ltac:(by apply list_elem_of_In)).
    destruct (_ !! key y) as [x|] eqn:Hx; [|done]. apply (keyedMap_lookup key left ∅ (key y) x Hl) in Hx as [[Hx Hk]|[_ Hx]].
    + by apply Hsame in Hall as <-.
    + by rewrite lookup_empty in Hx.
  - intros Hp. rewrite bool_decide_true by (by rewrite Hp). simpl. apply forallb_forall.
    intros y Hy%list_elem_of_In. rewrite <- Hp in Hy.
    assert (foldl (fun (m : gmap string A) x => <[key x := x]> m) ∅ left !! key y = Some y) as ->.
    { apply keyedMap_lookup; [done|]. by left. }
    by apply Hsame.
Qed.

(** The comparison that decides whether a status is written is exact: on
    statuses whose nodes and conditions are named once each, two statuses are
    equal for the code if and only if they have the same phase and message and
    the same nodes and conditions in some order. *)
Theorem isStatusEqual_exact (left right : NodePoolStatus) :
  NoDup (nipName <$> npsNodes left) -> NoDup (nipName <$> npsNodes right) ->
  NoDup (npcType <$> npsConditions left) -> NoDup (npcType <$> npsConditions right) ->
  isStatusEqual left right = true <->
  npsPhase left = npsPhase right /\ npsMessage left = npsMessage right /\
  npsNodes left ≡ₚ npsNodes right /\ npsConditions left ≡ₚ npsConditions right.
Proof.
  intros Hn1 Hn2 Hc1 Hc2.
  assert (isNodeInNodepoolEqual (npsNodes left) (npsNodes right) = true <-> npsNodes left ≡ₚ npsNodes right) as Hnodes.
  { apply (keyedEqual_perm nipName (fun x y => (nipStatus x ==? nipStatus y) && (TopologyMismatch x ==? TopologyMismatch y)));
      [|done..].
    intros [n1 s1 t1] [n2 s2 t2]; simpl; intros ->. rewrite andb_true_iff, !bool_decide_eq_true. naive_solver. }
  assert (isNodePoolConditionsEqual (npsConditions left) (npsConditions right) = true <->
          npsConditions left ≡ₚ npsConditions right) as Hconds.
  { apply (keyedEqual_perm npcType (fun x y => (npcStatus x ==? npcStatus y) && (npcReason x ==? npcReason y)
                                               && (npcMessage x ==? npcMessage y))); [|done..].
    intros [t1 s1 r1 m1] [t2 s2 r2 m2]; simpl; intros ->. rewrite !andb_true_iff, !bool_decide_eq_true. naive_solver. }
  unfold isStatusEqual. rewrite <- Hnodes, <- Hconds.
  assert (npsNodes left ≡ₚ npsNodes right -> length (npsNodes left) = length (npsNodes right)) by apply Permutation_length.
  assert (npsConditions left ≡ₚ npsConditions right -> length (npsConditions left) = length (npsConditions right))
    by apply Permutation_length.
  repeat case_bool_decide; simpl; try (split; [done|tauto]).
  destruct (isNodePoolConditionsEqual _ _); simpl; [|naive_solver]. tauto.
Qed.

(** ** Events of nodes that a pool waits for *)

Definition occurs (c : Ascii.ascii) (s : string) : Prop := exists n, String.get n s = Some c.

Lemma get_lt n s c : String.get n s = Some c -> (n < String.length s)%nat.
Proof. revert n. induction s as [|c' s IH]; intros [|n]; simpl; try done; [lia|]. intros H%IH. lia. Qed.

Lemma get_app_l n (s t : string) : (n < String.length s)%nat -> String.get n (s +:+ t) = String.get n s.
Proof. intros H. symmetry. by apply String.append_correct1. Qed.

Lemma get_app_r n (s t : string) : String.get (n + String.length s) (s +:+ t) = String.get n t.
Proof. symmetry. by apply String.append_correct2. Qed.

(** The first place where a character occurs. *)
Lemma first_occurrence c s :
  occurs c s -> exists d, String.get d s = Some c /\ forall i, (i < d)%nat -> String.get i s <> Some c.
Proof.
  induction s as [|c' s IH]; intros [n Hn]; [by destruct n|]. destruct (decide (c' = c)) as [->|Hne].
  - exists 0%nat. split; [done|]. lia.
  - destruct n as [|n]; [simpl in Hn; congruence|]. destruct (IH (ex_intro _ n Hn)) as (d & Hd & Hmin).
    exists (S d). split; [done|]. intros [|i] Hi; simpl; [congruence|]. apply Hmin. lia.
Qed.

(** A text that ends with a name does not contain the name followed by another
    character, if the name has a character that the rest of the text lacks. *)
Lemma not_contains_suffixed prefix name suffix c :
  occurs c name -> ~ occurs c prefix -> String.length suffix = 1%nat ->
  containsString (name +:+ suffix) (prefix +:+ name) = false.
Proof.
  intros Hc Hnot Hlen. unfold containsString. destruct (String.index 0 _ _) as [m|] eqn:Hidx; [|done]. exfalso.
  apply String.index_correct1 in Hidx. destruct (first_occurrence c name Hc) as (d & Hd & Hmin).
  set (total := String.length (name +:+ suffix)) in *.
  assert (total = String.length name + 1)%nat as Htotal by (unfold total; rewrite length_append, Hlen; lia).
  assert (forall i x, String.get i (name +:+ suffix) = Some x -> String.get (i + m) (prefix +:+ name) = Some x) as Hget.
  { intros i x Hi. rewrite <- Hi. pose proof (get_lt _ _ _ Hi) as Hlt. fold total in Hlt.
    rewrite <- Hidx. symmetry. apply String.substring_correct1. lia. }
  destruct suffix as [|s0 [|]]; simpl in Hlen; try lia.
  assert (m < String.length prefix)%nat as Hm.
  { specialize (Hget (0 + String.length name)%nat s0). rewrite get_app_r in Hget. specialize (Hget eq_refl).
    apply get_lt in Hget. rewrite length_append in Hget. lia. }
  pose proof (get_lt _ _ _ Hd) as Hdlt.
  assert (String.get (d + m) (prefix +:+ name) = Some c) as Hdm by (apply Hget; by rewrite get_app_l).
  destruct (decide (d + m < String.length prefix)%nat) as [Hin|Hout].
  - rewrite get_app_l in Hdm by done. apply Hnot. by exists (d + m)%nat.
  - replace (d + m)%nat with ((d + m - String.length prefix) + String.length prefix)%nat in Hdm by lia.
    rewrite get_app_r in Hdm. apply (Hmin (d + m - String.length prefix)%nat); [lia|done].
Qed.

(** The digits do not occur in the text of the message. *)
Definition isDigit (c : Ascii.ascii) : bool :=
  let n := Ascii.nat_of_ascii c in bool_decide (48 <= n)%nat && bool_decide (n <= 57)%nat.

Fixpoint noDigit (s : string) : bool :=
  match s with EmptyString => true | String c rest => negb (isDigit c) && noDigit rest end.

Lemma noDigit_occurs c s : noDigit s = true -> isDigit c = true -> ~ occurs c s.
Proof.
  intros Hs Hc [n Hn]. revert n Hn. induction s as [|c' s IH]; intros [|n]; simpl in *; try done;
    apply andb_true_iff in Hs as [H1 H2]; [intros [= ->]; by rewrite Hc in H1|by apply IH].
Qed.

Definition waitingPrefix : string :=
  "The following node(s) are assigned to this node pool and will be added once they finish draining: ".

Lemma fullStatusMessage_waiting name : fullStatusMessage [name] [] [] = waitingPrefix +:+ name.
Proof.
  unfold fullStatusMessage, phaseMessagePart. simpl String.concat. unfold NodesAssignedToThisNodePoolWaitingForDrainMessage.
  cbn. by rewrite append_empty.
Qed.

(** A pool that waits for one node to drain does not hear of it.  The message
    of the pool ends with the name of the node, while the lookup wants a space,
    a comma or a full stop after the name; so for every node whose name has a
    digit, once the node is no longer unschedulable, its events are not mapped
    to the pool that names it in its message. *)
Theorem waited_node_not_mapped node other nodePool c :
  npMessage nodePool = fullStatusMessage [nodeName node] [] [] -> unschedulableByUs cfg node = false ->
  occurs c (nodeName node) -> isDigit c = true ->
  isOtherDestNodePool cfg node other nodePool = false.
Proof.
  intros Hmsg Hsched Hocc Hdigit. unfold isOtherDestNodePool. case_bool_decide; [done|]. rewrite Hsched. simpl.
  unfold isNodeInNodepoolStatusMessage. fold (npMessage nodePool). rewrite Hmsg, fullStatusMessage_waiting.
  assert (forall suffix, String.length suffix = 1%nat ->
    containsString (nodeName node +:+ suffix) (waitingPrefix +:+ nodeName node) = false) as Hno.
  { intros suffix. apply not_contains_suffixed with c; [done|]. by apply noDigit_occurs. }
  unfold nodeNameWithSuffixesToSearchFor. cbn [fmap list_fmap existsb]. by rewrite !Hno.
Qed.

End FinalizeProps.

(** ** Nodes of pools that are not managed *)

Section Protected.
Context {L : LabelsLib} {M : MetaLib} (cfg : NodePoolControllerConfig).
Context (rangeOrder : forall A, gmap string A -> list (string * A)).

(** Somebody else looks after the nodes of the pool: it is the excluded pool, one
    of the node pools, or the partition of a shard that carries the label of the
    unmanaged ones and belongs to no node pool. *)
Definition lookedAfter (pools : list NodePool) (shards : list SchedulingShard) (pool : string) : Prop :=
  pool = ExcludedNodepoolName cfg \/
  (exists nodePool, nodePool ∈ pools /\ Name (npMeta nodePool) = pool) \/
  (exists shard, shard ∈ shards /\ Labels (shardMeta shard) !! IgnoreShardLabelKey = Some "true" /\
     OwningNodePoolName shard = "" /\ PartitionLabelValue (shardSpec shard) = pool /\ pool <> "").

Lemma lookedAfter_existing pools shards pool :
  lookedAfter pools shards pool ->
  pool ∈ existingNodePools cfg
           (list_to_set (PartitionLabelValue ∘ shardSpec <$> filter (fun s => IsUnmanaged s = true) shards)) pools.
Proof.
  unfold existingNodePools. rewrite !elem_of_union, elem_of_singleton, !elem_of_list_to_set, !list_elem_of_fmap.
  intros [->|[(np & Hin & <-)|(shard & Hin & Hl & Ho & <- & Hne)]]; [by left; left|right; by exists np|].
  left. right. exists shard. split; [done|]. apply list_elem_of_filter. split; [|done].
  unfold IsUnmanaged, mapGet. by rewrite Hl, Ho, !andb_true_iff, negb_true_iff, !bool_decide_eq_true, bool_decide_eq_false.
Qed.

Lemma touches_moveFromMissing (names : string -> Prop) existing pools (nodes : list Node) res errs :
  (forall node, node ∈ nodes -> poolOfNode cfg node ∉ existing -> names (nodeName node)) ->
  touches names (overNodes (moveFromMissing cfg rangeOrder existing pools) nodes res errs).
Proof.
  revert res errs. induction nodes as [|node nodes IH]; intros res errs Hnames; [done|].
  apply touches_bind; [|intros r; apply IH; intros n Hn Hx; apply Hnames; [by right|done]].
  unfold moveFromMissing. cbv zeta. case_bool_decide as Hex; [done|].
  apply (touches_onNode _ node); [by apply Hnames; [left|]|apply onNode_change|done].
Qed.

(** C22: Nodes that somebody else looks after are left alone.  Whatever the API
    answers (as long as a patch keeps the name of the node), each patch of a node
    that the reconcile of the default pool over the nodes of other pools sends
    concerns a node that it listed; the node pools that are not being deleted and
    the shards that carry the label of the unmanaged ones were listed as well; and
    the pool the node was in is not the excluded pool, not the name of a listed
    pool and not the partition of a listed unmanaged shard. *)
Theorem protected_nodes_untouched tr r e name :
  exec (reconcileNodesNotInDefaultNodePool cfg rangeOrder) tr r -> namesKept tr ->
  e ∈ tr -> patchedNode e = Some name ->
  exists node nodes pools shards optsN optsP optsS,
    Event (List KNode optsN) (inr nodes) ∈ tr /\ Event (List KNodePool optsP) (inr pools) ∈ tr /\
    Event (List KSchedulingShard optsS) (inr shards) ∈ tr /\
    loFieldSelector optsP = Some (IsDeletingPhaseField, "false") /\
    loLabelSelector optsS = [{| reqKey := IgnoreShardLabelKey; reqOperator := Exists; reqValues := [] |}] /\
    node ∈ (nodes : list Node) /\ nodeName node = name /\ ~ lookedAfter pools shards (poolOfNode cfg node).
Proof.
  unfold reconcileNodesNotInDefaultNodePool, getNodesNotInDefaultNodePool, listNodes. cbn [listNodesFrom].
  destruct (notNodePoolLabelSelector _ _) as [err|req]; [intros [-> _] _ He; by apply elem_of_nil in He|].
  intros (rn & tr1 & -> & H) Hk He Hp. cbn [prog_bind_ call] in H.
  apply elem_of_cons in He as [->|He]; [done|].
  destruct rn as [err|[|node0 nodes]]; [destruct H as [-> _]; by apply elem_of_nil in He..|].
  destruct H as (rp & tr2 & -> & H). cbn [prog_bind_ call] in H. apply elem_of_cons in He as [->|He]; [done|].
  destruct rp as [err|pools]; [destruct H as [-> _]; by apply elem_of_nil in He|].
  destruct H as (rs & tr3 & -> & H). cbn [prog_bind_ call] in H. apply elem_of_cons in He as [->|He]; [done|].
  destruct rs as [err|shards]; [destruct H as [-> _]; by apply elem_of_nil in He|].
  cbn [prog_bind_] in H. apply exec_bind_inv in H as (tr4 & tr5 & rl & -> & H & [-> _]). rewrite app_nil_r in Hk, He |- *.
  assert (namesKept tr4) as Hk4 by (unfold namesKept in Hk |- *; rewrite !Forall_cons in Hk; tauto).
  set (existing := existingNodePools cfg _ pools) in H.
  pose (names := fun name => exists node, node ∈ node0 :: nodes /\ nodeName node = name /\ poolOfNode cfg node ∉ existing).
  assert (names name) as (node & Hin & Hn & Hex).
  { apply (touches_exec names _ _ _ _ _ (touches_moveFromMissing names existing pools (node0 :: nodes) [] []
             (fun n Hin Hex => ex_intro _ n (conj Hin (conj eq_refl Hex)))) H Hk4 He Hp). }
  exists node, (node0 :: nodes), pools, shards. do 3 eexists.
  split; [left|]. split; [right; left|]. split; [right; right; left|]. do 4 (split; [done|]).
  by intros Hl%lookedAfter_existing.
Qed.

End Protected.

(** ** Witnesses *)

Definition dyingPool : NodePool :=
  nodePool_with_meta (meta_with_finalizers (fun _ => [FinalizerName demoNpcConfig])) (demoPool "a" NodePoolReady).

Definition dyingStore : store :=
  store_add (K := KNodePool) dyingPool
    (store_add (K := KNode) (demoNode "n1" {["kai/node-pool" := "a"]}) emptyStore).

Definition demoFinalize : kube (result unit) := finalize demoNpcConfig demoParams demoOrder dyingPool.

Lemma nodepool_finalizer_guard_witness :
  uninstalling demoParams (run_trace memServer demoFinalize dyingStore) \/
  vacated demoNpcConfig demoOrder dyingPool (run_trace memServer demoFinalize dyingStore).
Proof.
  assert (existsb patchesNodePool (run_trace memServer demoFinalize dyingStore) = true) as H by (vm_compute; reflexivity).
  apply existsb_exists in H as (e & Hin & Hp).
  apply (nodepool_finalizer_guard demoNpcConfig demoParams demoOrder dyingPool _
           (run memServer demoFinalize dyingStore).1 e).
  - apply run_exec.
  - by apply list_elem_of_In.
  - exact Hp.
Defined.

Definition demoDeletionError : kube (result unit) :=
  updateNodePoolStatusOnDeletionError dyingPool [demoNode "n1" ∅].

Lemma deletion_error_status_stale_witness :
  exists e, e ∈ run_trace memServer demoDeletionError dyingStore /\
    writtenStatus e = Some (status_with_phase NodePoolDeleting ErrorDeletingMessage (npStatus dyingPool)).
Proof.
  apply (deletion_error_status_stale dyingPool [demoNode "n1" ∅] (run_trace memServer demoDeletionError dyingStore)
           (run memServer demoDeletionError dyingStore).1); [apply run_exec|discriminate].
Defined.

Definition demoStatus : kube (NodePool * result unit) :=
  getNodePoolStatusByNodes demoNpcConfig (demoPool "a" NodePoolEmpty) [demoNode "n1" ∅].

Lemma status_by_nodes_exact_witness :
  npPhase (run memServer demoStatus emptyStore).1.1 = NodePoolReady /\
  (npPhase (run memServer demoStatus emptyStore).1.1 = NodePoolEmpty <-> [demoNode "n1" ∅] = []).
Proof.
  split; [vm_compute; reflexivity|].
  apply (status_by_nodes_exact demoNpcConfig (demoPool "a" NodePoolEmpty) [demoNode "n1" ∅]
           (run_trace memServer demoStatus emptyStore) (run memServer demoStatus emptyStore).1.1
           (run memServer demoStatus emptyStore).1.2).
  apply (run_exec memServer demoStatus emptyStore).
Defined.

Definition demoNip (name : string) : NodeInNodePool :=
  {| nipName := name; nipStatus := NodeReady; TopologyMismatch := false |}.

Definition demoNps (names : list string) : NodePoolStatus :=
  {| npsPhase := NodePoolReady; npsMessage := ""; npsNodes := demoNip <$> names; npsConditions := [] |}.

Lemma isStatusEqual_exact_witness :
  isStatusEqual (demoNps ["a"; "b"]) (demoNps ["b"; "a"]) = true /\ demoNip <$> ["a"; "b"] ≡ₚ demoNip <$> ["b"; "a"].
Proof.
  split; [vm_compute; reflexivity|].
  apply (isStatusEqual_exact (demoNps ["a"; "b"]) (demoNps ["b"; "a"]));
    [apply (bool_decide_unpack _); vm_compute; exact I..|vm_compute; reflexivity].
Defined.

Definition demoOthers : kube (list Node * result unit) := reconcileNodesNotInDefaultNodePool demoNpcConfig demoOrder.

(** A node of a pool that is gone, and one of the excluded pool. *)
Definition othersStore : store :=
  store_add (K := KNode) (demoNode "n1" {["kai/node-pool" := "gone"]})
    (store_add (K := KNode) (demoNode "n2" {["kai/node-pool" := "excluded"]}) emptyStore).

Definition demoOthersTrace : list (event KubeCall) := run_trace memServer demoOthers othersStore.

Lemma protected_nodes_untouched_witness :
  exists node nodes opts, Event (List KNode opts) (inr nodes) ∈ demoOthersTrace /\ node ∈ (nodes : list Node) /\
    nodeName node = "n1" /\ poolOfNode demoNpcConfig node <> "excluded".
Proof.
  assert (exists e, e ∈ demoOthersTrace /\ patchedNode e = Some "n1") as (e & He & Hp).
  { assert (existsb (fun e => patchedNode e ==? Some "n1") demoOthersTrace = true) as H by (vm_compute; reflexivity).
    apply existsb_exists in H as (e & Hin & Heq). exists e. split; [by apply list_elem_of_In|by apply bool_decide_eq_true in Heq]. }
  destruct (protected_nodes_untouched demoNpcConfig demoOrder demoOthersTrace (run memServer demoOthers othersStore).1 e "n1")
    as (node & nodes & pools & shards & opts & ? & ? & Hn & _ & _ & _ & _ & Hin & Hname & Hnot).
  - apply run_exec.
  - apply faithful_check. vm_compute. reflexivity.
  - exact He.
  - exact Hp.
  - exists node, nodes, opts. repeat split; try done. intros Heq. apply Hnot. by left.
Defined.

Definition waitingPool : NodePool :=
  nodePool_with_status (status_with_phase NodePoolReady (fullStatusMessage ["node-1"] [] [])) (demoPool "a" NodePoolReady).

Lemma waited_node_not_mapped_witness :
  isOtherDestNodePool demoNpcConfig (demoNode "node-1" ∅) "default" waitingPool = false.
Proof.
  apply (waited_node_not_mapped demoNpcConfig (demoNode "node-1" ∅) "default" waitingPool (Ascii.ascii_of_nat 49)).
  - reflexivity.
  - reflexivity.
  - by exists 5%nat.
  - reflexivity.
Defined.
