(* ===== verification/Dependencies.v ===== *)
(** * Dependencies of the installation

    [pkg/operator/dependencies]: the custom resource definitions the services
    read ([crds.go]) and the scheduler they drive ([kai_scheduler.go]).  The
    same reading of the scheduler's version serves the helm hook that runs
    before an installation. *)

From stdpp Require Import base list gmap strings.
From S2P Require Import Prelude ApiTypes.

(** A reader: the manager's cache, or the API server itself. *)
Definition readerGet (uncached : bool) (K : Kind) (key : NamespacedName) : kube (result (obj K)) :=
  if uncached then call (GetLive K key) else call (Get K key).

(** ** Custom resource definitions ([crds.go]) *)

Record CRDRequirement := { reqName : string; reqVersion : string }.

Definition requirementString (r : CRDRequirement) : string := reqName r +:+ "/" +:+ reqVersion r.

Definition servesVersion (crd : CustomResourceDefinition) (version : string) : bool :=
  existsb (fun crdVersion => (crdVersion.1 ==? version) && crdVersion.2) (crdVersions crd).

Fixpoint missingRequirements (missing : list string) (requirements : list CRDRequirement)
    : kube (result (list string)) :=
  match requirements with
  | [] => Ret (inr missing)
  | requirement :: rest =>
      r <- call (Get KCustomResourceDefinition ("", reqName requirement)) ;;
      match r with
      | inl err =>
          if IsNotFound err || IsNoMatchError err then
            missingRequirements (missing ++ [requirementString requirement]) rest
          else Ret (inl (Wrapf "reading CustomResourceDefinition %s: %w" [reqName requirement] err))
      | inr crd =>
          missingRequirements
            (if negb (servesVersion crd (reqVersion requirement))
             then missing ++ [requirementString requirement] else missing) rest
      end
  end.

Definition missingMessage (missing : list string) : string :=
  match missing with
  | [] => ""
  | [m] => "CRD " +:+ m
  | _ => "CRDs " +:+ String.concat ", " missing
  end.

Definition MissingCRDs (requirements : list CRDRequirement) : kube (result string) :=
  missing <-? missingRequirements [] requirements ;;
  Ret (inr (missingMessage missing)).

(** ** Image tags *)

(** [strings.Index] and [strings.LastIndex] of a byte; -1 when absent. *)
Fixpoint indexByteFrom (i : Z) (c : Ascii.ascii) (s : string) : Z :=
  match s with
  | EmptyString => -1
  | String d rest => if c ==? d then i else indexByteFrom (i + 1) c rest
  end%Z.
Definition indexByte : Ascii.ascii -> string -> Z := indexByteFrom 0.

Fixpoint lastIndexByteFrom (i last : Z) (c : Ascii.ascii) (s : string) : Z :=
  match s with
  | EmptyString => last
  | String d rest => lastIndexByteFrom (i + 1) (if c ==? d then i else last) c rest
  end%Z.
Definition lastIndexByte : Ascii.ascii -> string -> Z := lastIndexByteFrom 0 (-1).

(** [s[:n]] and [s[n:]]. *)
Fixpoint sliceTo (n : nat) (s : string) : string :=
  match n, s with
  | S n', String c rest => String c (sliceTo n' rest)
  | _, _ => EmptyString
  end.
Fixpoint sliceFrom (n : nat) (s : string) : string :=
  match n, s with
  | S n', String _ rest => sliceFrom n' rest
  | _, _ => s
  end.

Definition atSign := Ascii.ascii_of_nat 64.
Definition colonSign := Ascii.ascii_of_nat 58.
Definition slashSign := Ascii.ascii_of_nat 47.

Definition imageTag (image : string) : string :=
  let digest := indexByte atSign image in
  let image := if (0 <=? digest)%Z then sliceTo (Z.to_nat digest) image else image in
  let colon := lastIndexByte colonSign image in
  if (colon <=? lastIndexByte slashSign image)%Z then ""
  else sliceFrom (Z.to_nat (colon + 1)) image.

Definition kaiOperatorDeploymentName := "kai-operator".
Definition kaiOperatorContainerName := "operator".
Definition msTagEnvVar := "MS_TAG".
Definition fipsTagSuffix := "-fips".
Definition DefaultMinimumSchedulerVersion := "v0.18.0".

(** The first container of the name with a tag, or with the variable. *)
Fixpoint versionTagOf (containers : list Container) : string :=
  match containers with
  | [] => ""
  | container :: rest =>
      if cName container !=? kaiOperatorContainerName then versionTagOf rest
      else
        let tag := imageTag (cImage container) in
        if tag !=? "" then tag
        else match list_find (fun env => envName env = msTagEnvVar) (cEnv container) with
             | Some (_, env) => envValue env
             | None => versionTagOf rest
             end
  end.

Definition versionTag (deployment : Deployment) : string := versionTagOf (ptContainers (deplTemplate deployment)).

(** ** The scheduler's version *)

(** The parser of semantic versions ([k8s.io/apimachinery/pkg/util/version]), and
    the names the scheduler's API gives to its configuration and condition. *)
Class VersionLib := {
  Version : Type;
  ParseSemantic : string -> option Version;
  versionNumbers : Version -> Z * Z * Z;
  AtLeast : Version -> Version -> bool;
}.

Class KaiNames := {
  DefaultKAIConfigSingletonInstanceName : string;
  KaiConditionTypeReady : string;
}.

(** [strings.TrimSuffix]. *)
Definition trimSuffix (s suffix : string) : string :=
  let n := (String.length s - String.length suffix)%nat in
  if sliceFrom n s ==? suffix then sliceTo n s else s.

Section Scheduler.
Context {V : VersionLib} {N : KaiNames}.

Definition ParseVersionTag (tag : string) : option Version :=
  match ParseSemantic (trimSuffix tag fipsTagSuffix) with
  | None => None
  | Some parsed => if versionNumbers parsed ==? (0, 0, 0)%Z then None else Some parsed
  end.

Definition operatorVersionTag (uncached : bool) (namespace : string) : kube (result string) :=
  if namespace ==? "" then Ret (inl (Errorf "KAI Scheduler Config names no namespace" []))
  else
    let key := namespace +:+ "/" +:+ kaiOperatorDeploymentName in
    r <- readerGet uncached KDeployment (namespace, kaiOperatorDeploymentName) ;;
    match r with
    | inl err => Ret (inl (Wrapf "reading the KAI Scheduler operator %s: %w" [key] err))
    | inr deployment =>
        let tag := versionTag deployment in
        if tag ==? "" then Ret (inl (Errorf "KAI Scheduler operator %s carries no version tag" [key]))
        else Ret (inr tag)
    end.

Definition KAISchedulerVersionTag (uncached : bool) : kube (result string) :=
  r <- readerGet uncached KKaiConfig ("", DefaultKAIConfigSingletonInstanceName) ;;
  match r with
  | inl err =>
      Ret (inl (Wrapf "reading KAI Scheduler Config %s: %w" [DefaultKAIConfigSingletonInstanceName] err))
  | inr kaiConfig => operatorVersionTag uncached (kcNamespace kaiConfig)
  end.

(** The version and its tag, or no version. *)
Definition runningVersion (namespace : string) : kube (option Version * string) :=
  r <- operatorVersionTag true namespace ;;
  match r with
  | inl _ => Ret (None, "")
  | inr tag => Ret (ParseVersionTag tag, tag)
  end.

Definition unsupportedVersionMessage (minimumVersion : string) (kaiConfig : KaiConfig) : kube string :=
  if minimumVersion ==? "" then Ret ""
  else
    match ParseSemantic minimumVersion with
    | None => Ret ""
    | Some minimum =>
        r <- runningVersion (kcNamespace kaiConfig) ;;
        match r with
        | (None, _) => Ret ""
        | (Some running, tag) =>
            if negb (AtLeast running minimum) then
              Ret (sprintf "KAI Scheduler %s is older than the minimum supported %s" [tag; minimumVersion])
            else Ret ""
        end
    end.

(** [meta.FindStatusCondition]: the first condition of the type. *)
Definition FindStatusCondition (conditions : list MetaCondition) (conditionType : string) : option MetaCondition :=
  snd <$> list_find (fun c => mcType c = conditionType) conditions.

Definition readinessMessage (kaiConfig : KaiConfig) (configName : string) : string :=
  match FindStatusCondition (kcConditions kaiConfig) KaiConditionTypeReady with
  | None => sprintf "KAI Scheduler Config %q has not reported readiness" [configName]
  | Some ready =>
      if mcStatus ready ==? "True" then ""
      else if mcMessage ready !=? "" then
        sprintf "KAI Scheduler Config %q is not ready: %s" [configName; mcMessage ready]
      else sprintf "KAI Scheduler Config %q is not ready" [configName]
  end.

Definition KAISchedulerCheck (minimumVersion : string) : kube (result string) :=
  let configName := DefaultKAIConfigSingletonInstanceName in
  r <- call (GetLive KKaiConfig ("", configName)) ;;
  match r with
  | inl err =>
      if IsNoMatchError err then Ret (inr "KAI Scheduler is not installed: no kai.scheduler/v1 Config API")
      else if IsNotFound err then Ret (inr (sprintf "KAI Scheduler Config %q does not exist" [configName]))
      else Ret (inl (Wrapf "reading KAI Scheduler Config %s: %w" [configName] err))
  | inr kaiConfig =>
      unsupported <- unsupportedVersionMessage minimumVersion kaiConfig ;;
      let problems := if unsupported !=? "" then [unsupported] else [] in
      let unready := readinessMessage kaiConfig configName in
      Ret (inr (String.concat "; " (problems ++ (if unready !=? "" then [unready] else []))))
  end.

End Scheduler.

Example imageTag_port : imageTag "registry:5000/kai/operator" = "".
Proof. reflexivity. Qed.
Example imageTag_digest : imageTag "registry:5000/kai/operator:v0.18.0@sha256:ab" = "v0.18.0".
Proof. reflexivity. Qed.
