(* ===== verification/GoFlags.v ===== *)
(** * Command lines

    The part of Go's [flag] and [strconv] packages that the binaries use: a flag
    set declares boolean, textual, integer and duration flags, and a command
    line is read from left to right, a later flag winning over an earlier one. *)

From stdpp Require Import base list gmap strings pretty.
From S2P Require Import Prelude.

(** ** Numbers and booleans ([strconv]) *)

Definition ParseBool (s : string) : option bool :=
  if bool_decide (s ∈ ["1"; "t"; "T"; "true"; "TRUE"; "True"]) then Some true
  else if bool_decide (s ∈ ["0"; "f"; "F"; "false"; "FALSE"; "False"]) then Some false
  else None.

Definition FormatBool (b : bool) : string := if b then "true" else "false".

Definition byteOf (c : Ascii.ascii) : Z := Z.of_N (Ascii.N_of_ascii c).
Definition underscore : Z := 95.

(** The lower case of a letter, by its bit. *)
Definition lowerByte (c : Z) : Z := Z.lor c 32.

Definition digitOf (c : Z) : option Z :=
  if ((48 <=? c) && (c <=? 57))%Z then Some (c - 48)%Z
  else if ((97 <=? lowerByte c) && (lowerByte c <=? 122))%Z then Some (lowerByte c - 97 + 10)%Z
  else None.

(** The digits of a number in a base; an underscore is skipped when the base was
    read from the text. *)
Fixpoint parseDigits (base0 : bool) (base acc : Z) (s : string) : option Z :=
  match s with
  | EmptyString => Some acc
  | String c rest =>
      if base0 && (byteOf c =? underscore)%Z then parseDigits base0 base acc rest
      else match digitOf (byteOf c) with
           | Some d => if (d <? base)%Z then parseDigits base0 base (acc * base + d)%Z rest else None
           | None => None
           end
  end.

(** [underscoreOK], after the sign and the prefix: [prev] is the class of the
    previous byte. *)
Inductive byteClass := ClassStart | ClassDigit | ClassUnderscore | ClassOther.
#[export] Instance byteClass_eq_dec : EqDecision byteClass.
Proof. solve_decision. Defined.

Fixpoint underscoresSeparate (hex : bool) (prev : byteClass) (s : string) : bool :=
  match s with
  | EmptyString => prev !=? ClassUnderscore
  | String c rest =>
      let b := byteOf c in
      if ((48 <=? b) && (b <=? 57))%Z || (hex && ((97 <=? lowerByte b) && (lowerByte b <=? 102))%Z)
      then underscoresSeparate hex ClassDigit rest
      else if (b =? underscore)%Z then
        (prev ==? ClassDigit) && underscoresSeparate hex ClassUnderscore rest
      else if prev ==? ClassUnderscore then false
      else underscoresSeparate hex ClassOther rest
  end.

(** [ParseUint(s, 0, 64)], without the bound. *)
Definition parseUint0 (s : string) : option Z :=
  match s with
  | EmptyString => None
  | String z rest =>
      if (byteOf z =? 48)%Z then
        match rest with
        | String p (String d rest') =>
            let digits := String d rest' in
            let b := lowerByte (byteOf p) in
            let prefixed (base : Z) (hex : bool) :=
              if underscoresSeparate hex ClassDigit digits then parseDigits true base 0 digits else None in
            if (b =? 98)%Z then prefixed 2%Z false
            else if (b =? 111)%Z then prefixed 8%Z false
            else if (b =? 120)%Z then prefixed 16%Z true
            else if underscoresSeparate false ClassStart s then parseDigits true 8 0 rest else None
        | _ => if underscoresSeparate false ClassStart s then parseDigits true 8 0 rest else None
        end
      else if underscoresSeparate false ClassStart s then parseDigits true 10 0 s else None
  end.

Definition maxInt : Z := 2 ^ 63 - 1.
Definition minInt : Z := - 2 ^ 63.

(** [ParseInt(s, 0, 64)]. *)
Definition ParseInt (s : string) : option Z :=
  let '(neg, digits) :=
    match s with
    | String c rest =>
        if (byteOf c =? 43)%Z then (false, rest) else if (byteOf c =? 45)%Z then (true, rest) else (false, s)
    | EmptyString => (false, s)
    end in
  match parseUint0 digits with
  | None => None
  | Some n =>
      let v := if neg then (- n)%Z else n in
      if ((minInt <=? v) && (v <=? maxInt))%Z then Some v else None
  end.

(** ** Flag sets ([flag]) *)

(** [DurationFlag] and [OtherFlag] hold the text once its parser, given with the
    flag, has accepted it; [isBool] flags may stand alone. *)
Inductive FlagKind :=
| BoolFlag
| StringFlag
| IntFlag
| OtherFlag (isBool : bool) (accepts : string -> bool).

Inductive FlagValue := BoolValue (b : bool) | TextValue (s : string) | IntValue (n : Z).
#[export] Instance FlagValue_eq_dec : EqDecision FlagValue.
Proof. solve_decision. Defined.

Definition flagSet := gmap string FlagKind.
Definition flagValues := gmap string FlagValue.

Definition isBoolFlag (k : FlagKind) : bool :=
  match k with BoolFlag | OtherFlag true _ => true | _ => false end.

Definition setFlag (k : FlagKind) (value : string) : option FlagValue :=
  match k with
  | BoolFlag => BoolValue <$> ParseBool value
  | StringFlag => Some (TextValue value)
  | IntFlag => IntValue <$> ParseInt value
  | OtherFlag _ accepts => if accepts value then Some (TextValue value) else None
  end.

(** The name and the value after the equals sign, which is looked for from the
    second byte on. *)
Fixpoint cutEquals (s : string) : string * option string :=
  match s with
  | EmptyString => ("", None)
  | String c rest =>
      if (byteOf c =? 61)%Z then ("", Some rest)
      else let '(name, value) := cutEquals rest in (String c name, value)
  end.

Definition flagNameValue (s : string) : string * option string :=
  match s with
  | EmptyString => ("", None)
  | String c rest => let '(name, value) := cutEquals rest in (String c name, value)
  end.

(** What an argument is: a flag with its text, the end of the flags (with or
    without the argument itself), or malformed. *)
Inductive argument := FlagArgument (text : string) | NoFlag | Terminator | BadSyntax.

Definition dash : Z := 45.

Definition flagText (text : string) : argument :=
  match text with
  | EmptyString => BadSyntax
  | String c _ => if (byteOf c =? dash)%Z || (byteOf c =? 61)%Z then BadSyntax else FlagArgument text
  end.

Definition readArgument (s : string) : argument :=
  match s with
  | String c (String d rest) =>
      if negb (byteOf c =? dash)%Z then NoFlag
      else if (byteOf d =? dash)%Z then (if rest ==? "" then Terminator else flagText rest)
      else flagText (String d rest)
  | _ => NoFlag
  end.

(** [FlagSet.Parse]: the values of the flags that were given, and the arguments
    that follow the flags. *)
Fixpoint parseArgs (formal : flagSet) (values : flagValues) (arguments : list string)
    : result (flagValues * list string) :=
  match arguments with
  | [] => inr (values, [])
  | s :: rest =>
      match readArgument s with
      | NoFlag => inr (values, arguments)
      | Terminator => inr (values, rest)
      | BadSyntax => inl (Errorf "bad flag syntax: %s" [s])
      | FlagArgument text =>
          let '(name, value) := flagNameValue text in
          match formal !! name with
          | None =>
              if bool_decide (name ∈ ["help"; "h"]) then inl (Errorf "flag: help requested" [])
              else inl (Errorf "flag provided but not defined: -%s" [name])
          | Some kind =>
              if isBoolFlag kind then
                match setFlag kind (default "true" value) with
                | Some v => parseArgs formal (<[name := v]> values) rest
                | None => inl (Errorf "invalid boolean value %q for -%s" [default "true" value; name])
                end
              else
                match value, rest with
                | Some text, _ =>
                    match setFlag kind text with
                    | Some v => parseArgs formal (<[name := v]> values) rest
                    | None => inl (Errorf "invalid value %q for flag -%s" [text; name])
                    end
                | None, text :: rest' =>
                    match setFlag kind text with
                    | Some v => parseArgs formal (<[name := v]> values) rest'
                    | None => inl (Errorf "invalid value %q for flag -%s" [text; name])
                    end
                | None, [] => inl (Errorf "flag needs an argument: -%s" [name])
                end
          end
      end
  end.

Definition Parse (formal : flagSet) (arguments : list string) : result (flagValues * list string) :=
  parseArgs formal ∅ arguments.

(** What a variable bound to a flag holds after the parse. *)
Definition boolVar (values : flagValues) (name : string) (value : bool) : bool :=
  match values !! name with Some (BoolValue b) => b | _ => value end.
Definition stringVar (values : flagValues) (name value : string) : string :=
  match values !! name with Some (TextValue s) => s | _ => value end.
Definition intVar (values : flagValues) (name : string) (value : Z) : Z :=
  match values !! name with Some (IntValue n) => n | _ => value end.

Example ParseInt_base : ParseInt "-0x1_F" = Some (-31)%Z /\ ParseInt "1__0" = None /\ ParseInt "010" = Some 8%Z /\ ParseInt "0" = Some 0%Z.
Proof. vm_compute. repeat split; reflexivity. Qed.
