(* ===== verification/MigrateShards.v ===== *)
(** * Migration of existing scheduling shards into node pools

    [pkg/helmhooks/migrate_shards.go]: the hook that gives every scheduling
    shard without a controller a node pool built from its settings.  All
    shards are checked before the first one is changed. *)

From stdpp Require Import base list gmap strings.
From S2P Require Import Prelude ApiTypes NodePoolUtils NodePoolCommon Shards ShardConfig Dependencies.

Definition AdoptionLabelKey := "kai.resources/adoption".
Definition AdoptionLabelValue := "adopted".

Record NodePoolSpec := {
  specLabelKey : string;
  specLabelValue : string;
  specPreferredNetworkTopologyName : string;
  specSchedulingShardConfig : option SchedulingShardConfig;
}.

Definition newNodePool (name : string) (spec : NodePoolSpec) : NodePool :=
  {| npMeta := named name;
     LabelKey := specLabelKey spec;
     LabelValue := specLabelValue spec;
     PreferredNetworkTopologyName := specPreferredNetworkTopologyName spec;
     npSchedulingShardConfig := specSchedulingShardConfig spec;
     npStatus := {| npsPhase := NodePoolPhaseUnset; npsMessage := ""; npsNodes := []; npsConditions := [] |} |}.

Definition nodePool_with_shardConfig (c : SchedulingShardConfig) (nodePool : NodePool) : NodePool :=
  {| npMeta := npMeta nodePool; LabelKey := LabelKey nodePool; LabelValue := LabelValue nodePool;
     PreferredNetworkTopologyName := PreferredNetworkTopologyName nodePool;
     npSchedulingShardConfig := Some c; npStatus := npStatus nodePool |}.

Record MigrateShardsOptions := {
  PartitionLabelKey : string;
  DefaultNodePoolName : string;
  optSchedulingShardArgs : gmap string string;
  EnsureDefaultNodePool : bool;
  DefaultNodePoolSpec : NodePoolSpec;
}.

Record shardMigration := {
  migShard : SchedulingShard;
  migNodePoolName : string;
  migShardConfig : SchedulingShardConfig;
  migExistingNodePool : option NodePool;
}.

(** What the hook uses of apimachinery's validation (the problems of a name) and
    of the constants of the scheduler's API. *)
Class MigrationLib := {
  IsDNS1123Subdomain : string -> list string;
  DefaultNodePoolLabelKey : string;
  DefaultCPUWorkerNodeLabelKey : string;
  DefaultGPUWorkerNodeLabelKey : string;
  DefaultMIGWorkerNodeLabelKey : string;
}.

Section Migrate.
Context {M : MetaLib} {Sch : SchedulerAPI} {F : FloatLib} {N : KaiNames} {Mig : MigrationLib}.

(** ** Which shards *)

Definition needsMigration (shard : SchedulingShard) : bool :=
  match GetControllerOf (shardMeta shard) with
  | Some _ => false
  | None => negb (IsUnmanaged shard)
  end.

Definition shardsToMigrate (shards : list SchedulingShard) : list SchedulingShard :=
  sortBy (Name ∘ shardMeta) (filter (fun shard => needsMigration shard = true) shards).

(** ** Checks *)

Definition checkPartitionLabelKey (partitionLabelKey : string) : kube (result unit) :=
  r <- call (Get KKaiConfig ("", DefaultKAIConfigSingletonInstanceName)) ;;
  match r with
  | inl err =>
      if IsNotFound err || IsNoMatchError err then Ret (inr tt)
      else Ret (inl (Wrapf "failed to read KAI Scheduler Config %q: %w" [DefaultKAIConfigSingletonInstanceName] err))
  | inr kaiConfig =>
      let kaiLabelKey :=
        match kcGlobal kaiConfig with
        | Some nodePoolLabelKey =>
            if default "" nodePoolLabelKey !=? "" then default "" nodePoolLabelKey else DefaultNodePoolLabelKey
        | None => DefaultNodePoolLabelKey
        end in
      if kaiLabelKey !=? partitionLabelKey then
        Ret (inl (Errorf "KAI Scheduler reads node pools from label %q but KRM would use %q; set the chart value kai-scheduler.global.nodePoolLabelKey=%s"
               [kaiLabelKey; partitionLabelKey; kaiLabelKey]))
      else Ret (inr tt)
  end.

Definition checkNodePoolName (shard : SchedulingShard) (nodePoolName defaultNodePoolName : string) : result unit :=
  if PartitionLabelValue (shardSpec shard) ==? "" then inr tt
  else if nodePoolName ==? defaultNodePoolName then
    inl (Errorf "SchedulingShard %s serves partition %q, which is the default NodePool's name; move its nodes to a partition with another name"
           [Name (shardMeta shard); nodePoolName])
  else
    let problems := IsDNS1123Subdomain nodePoolName in
    if negb (length problems ==? 0) then
      inl (Errorf "SchedulingShard %s serves partition %q, which cannot be a NodePool name (%s); move its nodes to a partition with a lowercase name"
             [Name (shardMeta shard); nodePoolName; String.concat "; " problems])
    else inr tt.

(** The arguments that the controller writes into the shard. *)
Definition controllerArgs (clusterArgs : gmap string string) : gmap string string :=
  mapsCopy (<[argMIGWorkerNodeLabelKey := DefaultMIGWorkerNodeLabelKey]>
             (<[argGPUWorkerNodeLabelKey := DefaultGPUWorkerNodeLabelKey]>
               {[ argCPUWorkerNodeLabelKey := DefaultCPUWorkerNodeLabelKey ]})) clusterArgs.

Definition argConflict (wanted : gmap string string) (kv : string * string) : option string :=
  match wanted !! kv.1 with
  | Some want => if want !=? kv.2 then Some (sprintf "%s=%q (KRM sets %q)" [kv.1; kv.2; want]) else None
  | None => None
  end.

Definition checkShardArgs (shard : SchedulingShard) (clusterArgs : gmap string string) : result unit :=
  let conflicts := omap (argConflict (controllerArgs clusterArgs)) (map_to_list (ssArgs (shardSpec shard))) in
  if length conflicts ==? 0 then inr tt
  else inl (Errorf "SchedulingShard %s sets args KRM overwrites with other values: %s; set them in nodePoolController.args.schedulingShardArgs instead"
              [Name (shardMeta shard); String.concat ", " (sortStrings conflicts)]).

Definition getNodePool (name : string) : kube (result (option NodePool)) :=
  r <- call (Get KNodePool ("", name)) ;;
  match r with
  | inl err =>
      if IsNotFound err then Ret (inr None)
      else Ret (inl (Wrapf "failed to read NodePool %s: %w" [name] err))
  | inr nodePool => Ret (inr (Some (nodePool : NodePool)))
  end.

Definition checkNodePoolSelectsPartition (nodePool : NodePool) (shard : SchedulingShard) (partitionLabelKey : string)
    : result unit :=
  let partitionLabelValue := PartitionLabelValue (shardSpec shard) in
  if (partitionLabelValue ==? "")
     || ((LabelKey nodePool ==? partitionLabelKey) && (LabelValue nodePool ==? partitionLabelValue)) then inr tt
  else inl (Errorf "NodePool %s already exists and selects nodes labelled %s=%s, but SchedulingShard %s serves the nodes labelled %s=%s; taking it over would move nodes between schedulers, so either select %s=%s in the NodePool, rename the NodePool, or move the shard and its nodes to another partitionLabelValue"
              [Name (npMeta nodePool); LabelKey nodePool; LabelValue nodePool; Name (shardMeta shard);
               partitionLabelKey; partitionLabelValue; partitionLabelKey; partitionLabelValue]).

(** ** The plan *)

Definition shardNamesOfPartition (all : list SchedulingShard) (partitionLabelValue : string) : list string :=
  Name ∘ shardMeta <$> filter (fun s => PartitionLabelValue (shardSpec s) = partitionLabelValue) all.

Definition nodePoolNameOf (opts : MigrateShardsOptions) (shard : SchedulingShard) : string :=
  if PartitionLabelValue (shardSpec shard) ==? "" then DefaultNodePoolName opts
  else PartitionLabelValue (shardSpec shard).

(** One turn of the loop over the pending shards: a migration, or the error that
    is collected before the next shard is looked at. *)
Definition planMigration (all : list SchedulingShard) (opts : MigrateShardsOptions) (shard : SchedulingShard)
    : kube (result shardMigration) :=
  let partitionLabelValue := PartitionLabelValue (shardSpec shard) in
  let nodePoolName := nodePoolNameOf opts shard in
  if (partitionLabelValue ==? "") && negb (EnsureDefaultNodePool opts) then
    Ret (inl (Errorf "SchedulingShard %s serves the default partition, but defaultNodePool.enabled=false leaves it no NodePool; enable defaultNodePool"
           [Name (shardMeta shard)]))
  else
  let shardNames := shardNamesOfPartition all partitionLabelValue in
  if (1 <? length shardNames)%nat then
    Ret (inl (Errorf "SchedulingShards %v all serve partition %q; a partition can belong to only one NodePool, so delete or relabel all but one"
           [String.concat " " shardNames; partitionLabelValue]))
  else
  match checkNodePoolName shard nodePoolName (DefaultNodePoolName opts) with
  | inl err => Ret (inl err)
  | inr _ =>
  match checkShardArgs shard (optSchedulingShardArgs opts) with
  | inl err => Ret (inl err)
  | inr _ =>
  match SchedulingShardConfigFromShard shard with
  | inl err => Ret (inl err)
  | inr shardConfig =>
      existingNodePool <-? getNodePool nodePoolName ;;
      match match existingNodePool with
            | Some nodePool => checkNodePoolSelectsPartition nodePool shard (PartitionLabelKey opts)
            | None => inr tt
            end with
      | inl err => Ret (inl err)
      | inr _ =>
          Ret (inr {| migShard := shard; migNodePoolName := nodePoolName; migShardConfig := shardConfig;
                      migExistingNodePool := existingNodePool |})
      end
  end
  end
  end.

Fixpoint planLoop (all : list SchedulingShard) (opts : MigrateShardsOptions)
    (errs : list (result unit)) (migrations : list shardMigration) (pending : list SchedulingShard)
    : kube (list (result unit) * list shardMigration) :=
  match pending with
  | [] => Ret (errs, migrations)
  | shard :: rest =>
      r <- planMigration all opts shard ;;
      match r with
      | inl err => planLoop all opts (errs ++ [inl err]) migrations rest
      | inr migration => planLoop all opts errs (migrations ++ [migration]) rest
      end
  end.

Definition planMigrations (all pending : list SchedulingShard) (opts : MigrateShardsOptions)
    : kube (result (list shardMigration)) :=
  if length pending ==? 0 then Ret (inr [])
  else
    keyCheck <- checkPartitionLabelKey (PartitionLabelKey opts) ;;
    planned <- planLoop all opts [keyCheck] [] pending ;;
    match joinErrors planned.1 with
    | inl err =>
        Ret (inl (Wrapf "cannot migrate the existing SchedulingShards into NodePools, nothing was changed: %w" [] err))
    | inr _ => Ret (inr planned.2)
    end.

(** ** One migration *)

Definition nodePoolForShard (migration : shardMigration) (opts : MigrateShardsOptions) : kube (result NodePool) :=
  match migExistingNodePool migration with
  | Some nodePool =>
      if npSchedulingShardConfig nodePool ==? Some (migShardConfig migration) then Ret (inr nodePool)
      else
        r <- call (Patch KNodePool nodePool (nodePool_with_shardConfig (migShardConfig migration) nodePool)) ;;
        match r with
        | inl err =>
            Ret (inl (Wrapf "failed to update NodePool %s to SchedulingShard %s's settings: %w"
                        [Name (npMeta nodePool); Name (shardMeta (migShard migration))] err))
        | inr nodePool => Ret (inr (nodePool : NodePool))
        end
  | None =>
      let partitionLabelValue := PartitionLabelValue (shardSpec (migShard migration)) in
      let selects := partitionLabelValue !=? "" in
      let nodePool := newNodePool (migNodePoolName migration)
        {| specLabelKey := if selects then PartitionLabelKey opts else "";
           specLabelValue := if selects then partitionLabelValue else "";
           specPreferredNetworkTopologyName := "";
           specSchedulingShardConfig := Some (migShardConfig migration) |} in
      r <- call (Create KNodePool nodePool) ;;
      match r with
      | inl err =>
          Ret (inl (Wrapf "failed to create NodePool %s for SchedulingShard %s: %w"
                      [migNodePoolName migration; Name (shardMeta (migShard migration))] err))
      | inr nodePool => Ret (inr (nodePool : NodePool))
      end
  end.

(** The metadata of the adopted shard. *)
Definition adoptedMeta (shard : SchedulingShard) (owned : ObjectMeta) : ObjectMeta :=
  meta_with_labels (fun labels =>
    let labels := <[AdoptionLabelKey := AdoptionLabelValue]> labels in
    if PartitionLabelValue (shardSpec shard) ==? "" then delete IgnoreShardLabelKey labels else labels) owned.

Definition migrate (migration : shardMigration) (opts : MigrateShardsOptions) : kube (result unit) :=
  nodePool <-? nodePoolForShard migration opts ;;
  let shard := migShard migration in
  match SetControllerReference (npMeta nodePool) (shardMeta shard) with
  | inl err =>
      Ret (inl (Wrapf "failed to make NodePool %s the owner of SchedulingShard %s: %w"
                  [Name (npMeta nodePool); Name (shardMeta shard)] err))
  | inr owned =>
      r <- call (Patch KSchedulingShard shard (shard_with_meta (fun _ => adoptedMeta shard owned) shard)) ;;
      match r with
      | inl err =>
          Ret (inl (Wrapf "failed to hand SchedulingShard %s to NodePool %s: %w"
                      [Name (shardMeta shard); Name (npMeta nodePool)] err))
      | inr _ => Ret (inr tt)
      end
  end.

Definition ensureDefaultNodePool (opts : MigrateShardsOptions) : kube (result unit) :=
  existingNodePool <-? getNodePool (DefaultNodePoolName opts) ;;
  match existingNodePool with
  | Some _ => Ret (inr tt)
  | None =>
      r <- call (Create KNodePool (newNodePool (DefaultNodePoolName opts) (DefaultNodePoolSpec opts))) ;;
      match r with
      | inl err => Ret (inl (Wrapf "failed to create the default NodePool %s: %w" [DefaultNodePoolName opts] err))
      | inr _ => Ret (inr tt)
      end
  end.

Definition MigrateShards (opts : MigrateShardsOptions) : kube (result unit) :=
  r <- call (List KSchedulingShard
         {| loNamespace := ""; loLabelSelector := []; loMatchingLabels := ∅; loFieldSelector := None |}) ;;
  match r with
  | inl err =>
      if IsNoMatchError err then Ret (inr tt)
      else Ret (inl (Wrapf "failed to list SchedulingShards: %w" [] err))
  | inr shards =>
      let pending := shardsToMigrate shards in
      migrations <-? planMigrations shards pending opts ;;
      _ <-? forEach migrations (fun migration => migrate migration opts) ;;
      if EnsureDefaultNodePool opts then ensureDefaultNodePool opts else Ret (inr tt)
  end.

End Migrate.
