(* ===== verification/HelmHooks.v ===== *)
(** * Helm hooks

    [pkg/helmhooks] and [cmd/helm-hooks/app]: the jobs that run before and after
    a release is installed, upgraded or removed: the application of the custom
    resource definitions and of the configuration, the check of the scheduler's
    version, the migration of shards ([MigrateShards]) and the cleanup. *)

From stdpp Require Import base list gmap strings.
From S2P Require Import Prelude ApiTypes NodePoolUtils NodePoolCommon Shards ShardConfig Dependencies MigrateShards GoFlags.

(** ** What a hook asks of its surroundings *)

(** An [unstructured] manifest: its kind, its name and the rest of its text. *)
Record Manifest := { manifestKind : string; manifestName : string; manifestBody : string }.

Inductive HookCall : Type -> Type :=
| Kube {X} (c : KubeCall X) : HookCall X
(** a delete that returns the object only when its dependents are gone *)
| DeleteForeground (K : Kind) (o : obj K) : HookCall (result unit)
(** a server-side apply that takes conflicting fields over *)
| Apply (fieldOwner : string) (object : Manifest) : HookCall (result unit)
| ReadFile (path : string) : HookCall (result string)
(** the connection to the cluster *)
| NewClient : HookCall (result unit).

Notation hook A := (prog HookCall A).

Fixpoint lift {A} (p : kube A) : hook A :=
  match p with
  | Ret a => Ret a
  | Do c k => Do (Kube c) (fun x => lift (k x))
  end.

(** The YAML and JSON readers, the file system embedded in the binary (each entry
    with its name, whether it is a directory, and its content) and constants of
    the libraries. *)
Class HookLib := {
  yamlToJSON : string -> result string;
  unmarshalManifest : string -> result Manifest;
  embeddedCRDs : result (list (string * bool * result string));
  unmarshalStringMap : string -> result (gmap string string);
  unmarshalNodePoolSpec : string -> result NodePoolSpec;
  DefaultNodePoolNameConstant : string;
  ContextCanceled : error;
}.

(** ** Applying manifests *)

Definition crdFieldManager := "krm-crd-upgrader".
Definition configFieldManager := "krm-config-deployer".
Definition krmConfigKind := "KRMConfig".

Section Hooks.
Context {M : MetaLib} {Sch : SchedulerAPI} {F : FloatLib} {V : VersionLib} {N : KaiNames}.
Context {Mig : MigrationLib} {H : HookLib}.

(** [LoadEmbeddedCRDs] of the chart's [crds] package. *)
Definition loadEntry (name : string) (content : result string) : result Manifest :=
  match content with
  | inl err => inl (Wrapf "failed to read embedded CRD %s: %w" [name] err)
  | inr content =>
      match yamlToJSON content with
      | inl err => inl (Wrapf "failed to convert CRD %s to JSON: %w" [name] err)
      | inr jsonContent =>
          match unmarshalManifest jsonContent with
          | inl err => inl (Wrapf "failed to unmarshal CRD %s: %w" [name] err)
          | inr object => inr object
          end
      end
  end.

Fixpoint loadEntries (entries : list (string * bool * result string)) : result (list Manifest) :=
  match entries with
  | [] => inr []
  | (name, isDir, content) :: rest =>
      if isDir : bool then loadEntries rest
      else match loadEntry name content with
           | inl err => inl err
           | inr object =>
               match loadEntries rest with
               | inl err => inl err
               | inr objects => inr (object :: objects)
               end
           end
  end.

Definition LoadEmbeddedCRDs : result (list Manifest) :=
  match embeddedCRDs with
  | inl err => inl (Wrapf "failed to read the embedded crds directory: %w" [] err)
  | inr entries =>
      match loadEntries entries with
      | inl err => inl err
      | inr [] => inl (Errorf "no CRD manifests are embedded" [])
      | inr objects => inr objects
      end
  end.

Definition decodeManifest (content : string) : result Manifest :=
  match yamlToJSON content with
  | inl err => inl err
  | inr jsonContent => unmarshalManifest jsonContent
  end.

Definition ApplyCRDs : hook (result unit) :=
  match LoadEmbeddedCRDs with
  | inl err => Ret (inl err)
  | inr objects =>
      forEach objects (fun object =>
        r <- call (Apply crdFieldManager object) ;;
        match r with
        | inl err => Ret (inl (Wrapf "failed to apply CRD %s: %w" [manifestName object] err))
        | inr _ => Ret (inr tt)
        end)
  end.

Definition ApplyConfig (manifestPath : string) : hook (result unit) :=
  r <- call (ReadFile manifestPath) ;;
  match r with
  | inl err => Ret (inl (Wrapf "failed to read manifest %s: %w" [manifestPath] err))
  | inr content =>
      match decodeManifest content with
      | inl err => Ret (inl (Wrapf "failed to decode manifest %s: %w" [manifestPath] err))
      | inr object =>
          if manifestKind object !=? krmConfigKind then
            Ret (inl (Errorf "manifest %s has kind %q, expected %q" [manifestPath; manifestKind object; krmConfigKind]))
          else if manifestName object ==? "" then
            Ret (inl (Errorf "manifest %s has no metadata.name" [manifestPath]))
          else
            r <- call (Apply configFieldManager object) ;;
            match r with
            | inl err => Ret (inl (Wrapf "failed to apply %s %s: %w" [manifestKind object; manifestName object] err))
            | inr _ => Ret (inr tt)
            end
      end
  end.

(** ** The version check *)

Definition DetectKAISchedulerVersion : kube (result (string * string)) :=
  r <- KAISchedulerVersionTag false ;;
  match r with
  | inl err =>
      Ret (inl (Wrapf "cannot detect the KAI Scheduler version, install KAI Scheduler first or set the chart value versionCheck.kaiSchedulerVersion: %w" [] err))
  | inr tag => Ret (inr (tag, "the kai-operator image tag"))
  end.

Definition CheckKAISchedulerVersion (installed source minimum : string) : result unit :=
  match ParseSemantic minimum with
  | None => inl (Errorf "minimum KAI Scheduler version %q is not a version" [minimum])
  | Some required =>
      match ParseSemantic installed with
      | None => inl (Errorf "KAI Scheduler version %q from %s is not a version" [installed; source])
      | Some _ =>
          match ParseVersionTag installed with
          | None => inr tt
          | Some running =>
              if negb (AtLeast running required) then
                inl (Errorf "KAI Scheduler %s, from %s, is older than the minimum supported %s"
                       [installed; source; minimum])
              else inr tt
          end
      end
  end.

(** ** Cleanup *)

Record CleanupOptions := {
  cleanupNamespace : string;
  ConfigName : string;
  ReleaseAdoptedSchedulingShards : bool;
  NodePoolFinalizer : string;
}.

(** [wait.PollUntilContextCancel], immediate: [ticks] is the number of intervals
    until the context is cancelled; what is left of them is the result. *)
Fixpoint pollUntilGone (K : Kind) (key : NamespacedName) (uid : string) (ticks : nat) : hook (result nat) :=
  r <- call (Kube (Get K key)) ;;
  match r with
  | inl err => if IsNotFound err then Ret (inr ticks) else Ret (inl err)
  | inr current =>
      if UID (objMeta K current) !=? uid then Ret (inr ticks)
      else match ticks with
           | O => Ret (inl ContextCanceled)
           | S ticks' => pollUntilGone K key uid ticks'
           end
  end.

Definition deleteObject (K : Kind) (foreground : bool) (o : obj K) : hook (result unit) :=
  if foreground then call (DeleteForeground K o) else call (Kube (Delete K o)).

Definition deleteAndWait (K : Kind) (foreground : bool) (key : NamespacedName) (ticks : nat) : hook (result nat) :=
  r <- call (Kube (Get K key)) ;;
  match r with
  | inl err => if IsNotFound err then Ret (inr ticks) else Ret (inl err)
  | inr object =>
      let uid := UID (objMeta K object) in
      r <- deleteObject K foreground object ;;
      match r with
      | inl err => if IsNotFound err then Ret (inr ticks) else Ret (inl err)
      | inr _ => pollUntilGone K key uid ticks
      end
  end.

Definition OperatorManagedByLabelKey := "app.kubernetes.io/managed-by".
Definition OperatorManagedByLabelValue := "krm-operator".

Fixpoint deleteDeployments (namespace : string) (foreground : bool) (deployments : list Deployment) (ticks : nat)
    : hook (result nat) :=
  match deployments with
  | [] => Ret (inr ticks)
  | deployment :: rest =>
      r <- deleteAndWait KDeployment foreground (Namespace (deplMeta deployment), Name (deplMeta deployment)) ticks ;;
      match r with
      | inl err => Ret (inl (Wrapf "failed to delete deployment %s/%s: %w" [namespace; Name (deplMeta deployment)] err))
      | inr ticks => deleteDeployments namespace foreground rest ticks
      end
  end.

Definition deleteOperatorManagedDeployments (namespace : string) (foreground : bool) (ticks : nat) : hook (result nat) :=
  r <- call (Kube (List KDeployment
         {| loNamespace := namespace; loLabelSelector := [];
            loMatchingLabels := {[ OperatorManagedByLabelKey := OperatorManagedByLabelValue ]};
            loFieldSelector := None |})) ;;
  match r with
  | inl err => Ret (inl (Wrapf "failed to list operator-managed deployments in %s: %w" [namespace] err))
  | inr deployments => deleteDeployments namespace foreground deployments ticks
  end.

(** [patchIfChanged] with the mutated object, or none when nothing changed. *)
Definition patchIfChanged (K : Kind) (original : obj K) (mutated : option (obj K)) : kube (result unit) :=
  match mutated with
  | None => Ret (inr tt)
  | Some object =>
      r <- call (Patch K original object) ;;
      match r with
      | inl err => Ret (IgnoreNotFound (inl err))
      | inr _ => Ret (inr tt)
      end
  end.

Definition nodePool_with_finalizers (f : list string -> list string) (nodePool : NodePool) : NodePool :=
  {| npMeta := meta_with_finalizers f (npMeta nodePool); LabelKey := LabelKey nodePool;
     LabelValue := LabelValue nodePool; PreferredNetworkTopologyName := PreferredNetworkTopologyName nodePool;
     npSchedulingShardConfig := npSchedulingShardConfig nodePool; npStatus := npStatus nodePool |}.

Definition stripNodePoolFinalizers (finalizer : string) : kube (result unit) :=
  r <- call (List KNodePool
         {| loNamespace := ""; loLabelSelector := []; loMatchingLabels := ∅; loFieldSelector := None |}) ;;
  match r with
  | inl err =>
      if IsNoMatchError err then Ret (inr tt) else Ret (inl (Wrapf "failed to list node pools: %w" [] err))
  | inr nodePools =>
      forEach (nodePools : list NodePool) (fun nodePool =>
        if negb (bool_decide (finalizer ∈ Finalizers (npMeta nodePool))) then Ret (inr tt)
        else
          r <- patchIfChanged KNodePool nodePool
                 (Some (nodePool_with_finalizers (filter (fun f => f <> finalizer)) nodePool)) ;;
          match r with
          | inl err =>
              Ret (inl (Wrapf "failed to remove finalizer %s from node pool %s: %w"
                          [finalizer; Name (npMeta nodePool)] err))
          | inr _ => Ret (inr tt)
          end)
  end.

(** *** Releasing adopted shards *)

Definition krmMetadataPrefix : string := kaiGroup +:+ "/".

Definition isKrmKey (key : string) : bool := String.prefix krmMetadataPrefix key.

Definition releasedMeta (m : ObjectMeta) : ObjectMeta :=
  meta_with_owners (filter (fun owner => IsNodePoolReference owner = false))
    (meta_with_labels (filter (fun kv => isKrmKey kv.1 = false))
      (meta_with_annotations (filter (fun kv => isKrmKey kv.1 = false)) m)).

Definition releaseChanges (m : ObjectMeta) : bool :=
  existsb IsNodePoolReference (OwnerReferences m)
  || existsb (fun kv => isKrmKey kv.1) (map_to_list (Labels m))
  || existsb (fun kv => isKrmKey kv.1) (map_to_list (Annotations m)).

Definition releaseSchedulingShard (shard : SchedulingShard) : option SchedulingShard :=
  if releaseChanges (shardMeta shard) then Some (shard_with_meta releasedMeta shard) else None.

Definition releaseAdoptedSchedulingShards : kube (result unit) :=
  r <- call (List KSchedulingShard
         {| loNamespace := ""; loLabelSelector := [];
            loMatchingLabels := {[ AdoptionLabelKey := AdoptionLabelValue ]}; loFieldSelector := None |}) ;;
  match r with
  | inl err =>
      if IsNoMatchError err then Ret (inr tt)
      else Ret (inl (Wrapf "failed to list adopted scheduling shards: %w" [] err))
  | inr shards =>
      forEach (shards : list SchedulingShard) (fun shard =>
        r <- patchIfChanged KSchedulingShard shard (releaseSchedulingShard shard) ;;
        match r with
        | inl err => Ret (inl (Wrapf "failed to release scheduling shard %s: %w" [Name (shardMeta shard)] err))
        | inr _ => Ret (inr tt)
        end)
  end.

Definition deleteConfig (configName : string) (ticks : nat) : hook (result unit) :=
  if configName ==? "" then Ret (inr tt)
  else
    r <- deleteAndWait KKRMConfig false ("", configName) ticks ;;
    match r with
    | inl err =>
        if IsNoMatchError err then Ret (inr tt)
        else Ret (inl (Wrapf "failed to delete KRMConfig %s: %w" [configName] err))
    | inr _ => Ret (inr tt)
    end.

Definition Cleanup (opts : CleanupOptions) (ticks : nat) : hook (result unit) :=
  let foreground := ReleaseAdoptedSchedulingShards opts || (NodePoolFinalizer opts !=? "") in
  ticks <-? deleteOperatorManagedDeployments (cleanupNamespace opts) foreground ticks ;;
  _ <-? (if ReleaseAdoptedSchedulingShards opts then lift releaseAdoptedSchedulingShards else Ret (inr tt)) ;;
  _ <-? (if NodePoolFinalizer opts !=? "" then lift (stripNodePoolFinalizers (NodePoolFinalizer opts))
         else Ret (inr tt)) ;;
  deleteConfig (ConfigName opts) ticks.

(** ** The command line ([cmd/helm-hooks/app]) *)

Definition applyCRDsCommand := "apply-crds".
Definition applyConfigCommand := "apply-config".
Definition cleanupCommand := "cleanup".
Definition checkKAISchedulerVersionCommand := "check-kai-scheduler-version".
Definition migrateShardsCommand := "migrate-shards".

Definition missingFlagError {A} (command flagName : string) : result A :=
  inl (Errorf "%s: --%s is required" [command; flagName]).

(** Leftover positional arguments are rejected too. *)
Definition parseFlags (command : string) (formal : flagSet) (flags : list string) : result flagValues :=
  match Parse formal flags with
  | inl err => inl err
  | inr (values, []) => inr values
  | inr (_, leftover) => inl (Errorf "%s: unexpected arguments %q" [command; String.concat " " leftover])
  end.

Definition applyCRDs (flags : list string) : hook (result unit) :=
  match parseFlags applyCRDsCommand ∅ flags with
  | inl err => Ret (inl err)
  | inr _ => _ <-? call NewClient ;; ApplyCRDs
  end.

Definition applyConfig (flags : list string) : hook (result unit) :=
  match parseFlags applyConfigCommand {[ "file" := StringFlag ]} flags with
  | inl err => Ret (inl err)
  | inr values =>
      let file := stringVar values "file" "" in
      if file ==? "" then Ret (missingFlagError applyConfigCommand "file")
      else _ <-? call NewClient ;; ApplyConfig file
  end.

Definition DefaultFinalizerDomain := "kai.scheduler".

Definition cleanupFlags : flagSet :=
  {[ "namespace" := StringFlag; "delete-config" := StringFlag;
     "release-adopted-scheduling-shards" := BoolFlag; "strip-nodepool-finalizers" := BoolFlag;
     "finalizer-domain" := StringFlag ]}.

Definition cleanup (flags : list string) (ticks : nat) : hook (result unit) :=
  match parseFlags cleanupCommand cleanupFlags flags with
  | inl err => Ret (inl err)
  | inr values =>
      let namespace := stringVar values "namespace" "" in
      if namespace ==? "" then Ret (missingFlagError cleanupCommand "namespace")
      else
        let opts :=
          {| cleanupNamespace := namespace;
             ConfigName := stringVar values "delete-config" "";
             ReleaseAdoptedSchedulingShards := boolVar values "release-adopted-scheduling-shards" false;
             NodePoolFinalizer :=
               if boolVar values "strip-nodepool-finalizers" false
               then FinalizerNameForDomain (stringVar values "finalizer-domain" DefaultFinalizerDomain)
               else "" |} in
        _ <-? call NewClient ;; Cleanup opts ticks
  end.

Definition checkKAISchedulerVersion (flags : list string) : hook (result unit) :=
  match parseFlags checkKAISchedulerVersionCommand
          {[ "kai-scheduler-version" := StringFlag; "minimum-version" := StringFlag ]} flags with
  | inl err => Ret (inl err)
  | inr values =>
      let installed := stringVar values "kai-scheduler-version" "" in
      let minimum := stringVar values "minimum-version" DefaultMinimumSchedulerVersion in
      if installed !=? "" then Ret (CheckKAISchedulerVersion installed "--kai-scheduler-version" minimum)
      else
        _ <-? call NewClient ;;
        detected <-? lift DetectKAISchedulerVersion ;;
        Ret (CheckKAISchedulerVersion detected.1 detected.2 minimum)
  end.

Definition migrateShardsFlags : flagSet :=
  {[ "nodepool-label-key" := StringFlag; "default-nodepool-name" := StringFlag;
     "scheduling-shard-args" := StringFlag; "ensure-default-nodepool" := BoolFlag;
     "default-nodepool-spec" := StringFlag ]}.

Definition emptyNodePoolSpec : NodePoolSpec :=
  {| specLabelKey := ""; specLabelValue := ""; specPreferredNetworkTopologyName := "";
     specSchedulingShardConfig := None |}.

Definition migrateShards (flags : list string) : hook (result unit) :=
  match parseFlags migrateShardsCommand migrateShardsFlags flags with
  | inl err => Ret (inl err)
  | inr values =>
      let defaultSpec := stringVar values "default-nodepool-spec" "" in
      let shardArgs := stringVar values "scheduling-shard-args" "" in
      match if defaultSpec !=? "" then unmarshalNodePoolSpec defaultSpec else inr emptyNodePoolSpec with
      | inl err =>
          Ret (inl (Wrapf "%s: --default-nodepool-spec is not a NodePool spec: %w" [migrateShardsCommand] err))
      | inr defaultNodePoolSpec =>
      match if shardArgs !=? "" then unmarshalStringMap shardArgs else inr ∅ with
      | inl err =>
          Ret (inl (Wrapf "%s: --scheduling-shard-args is not a JSON map of strings: %w" [migrateShardsCommand] err))
      | inr schedulingShardArgs =>
          _ <-? call NewClient ;;
          lift (MigrateShards
            {| PartitionLabelKey := stringVar values "nodepool-label-key" DefaultNodePoolLabelKey;
               DefaultNodePoolName := stringVar values "default-nodepool-name" DefaultNodePoolNameConstant;
               optSchedulingShardArgs := schedulingShardArgs;
               EnsureDefaultNodePool := boolVar values "ensure-default-nodepool" false;
               DefaultNodePoolSpec := defaultNodePoolSpec |})
      end
      end
  end.

(** The subcommand named by the first argument. *)
Definition Run (args : list string) (ticks : nat) : hook (result unit) :=
  match args with
  | [] => Ret (inl (Errorf "subcommand required" []))
  | command :: flags =>
      if command ==? applyCRDsCommand then applyCRDs flags
      else if command ==? applyConfigCommand then applyConfig flags
      else if command ==? cleanupCommand then cleanup flags ticks
      else if command ==? checkKAISchedulerVersionCommand then checkKAISchedulerVersion flags
      else if command ==? migrateShardsCommand then migrateShards flags
      else Ret (inl (Errorf "unknown subcommand %q" [command]))
  end.

End Hooks.
