(* ===== verification/MigrateFacts.v ===== *)
(** * Facts about the migration of scheduling shards

    The settings of a migrated shard survive the first reconcile of the node
    pool that takes it over, nothing is written unless every shard passes the
    checks, and a migrated shard resolves for its node pool. *)

From stdpp Require Import base list gmap strings pretty.
From S2P Require Import Prelude ApiTypes NodePoolUtils NodePoolCommon Shards ShardConfig Dependencies MigrateShards.

(** ** The settings of a migrated shard *)

Section Settings.
Context (cfg : NodePoolControllerConfig) (params : NodePoolControllerParams).
Context {M : MetaLib} {Sch : SchedulerAPI} {D : DurationLaws Sch} {F : FloatLib} {N : KaiNames} {Mig : MigrationLib}.

(** The controller runs with the settings that the hook was given. *)
Record sameSettings (opts : MigrateShardsOptions) : Prop := {
  same_default : DefaultNodepoolName cfg = DefaultNodePoolName opts;
  same_args : SchedulingShardArgs params = optSchedulingShardArgs opts;
  same_cpu : CPUWorkerNodeLabelKey cfg = DefaultCPUWorkerNodeLabelKey;
  same_gpu : GPUWorkerNodeLabelKey cfg = DefaultGPUWorkerNodeLabelKey;
  same_mig : MIGWorkerNodeLabelKey cfg = DefaultMIGWorkerNodeLabelKey;
}.

(** The arguments that the controller always writes itself. *)
Definition workerDefaults : gmap string string :=
  <[argMIGWorkerNodeLabelKey := DefaultMIGWorkerNodeLabelKey]>
    (<[argGPUWorkerNodeLabelKey := DefaultGPUWorkerNodeLabelKey]>
      {[argCPUWorkerNodeLabelKey := DefaultCPUWorkerNodeLabelKey]}).

(** The durations of the usage parameters that a node pool can express: no part
    of a minute in the half life and the window, and sampling intervals whose
    text of the standard library can be read. *)
Record durationsExpressible (up : UsageParams) : Prop := {
  half_life_whole : forall d, upHalfLifePeriod up = Some d -> (d <= maxDuration /\ (0 < d -> d mod Minute = 0))%Z;
  window_whole : forall s d, upWindowSize up = Some s -> ParseDuration s = Some d -> (0 < d -> d mod Minute = 0)%Z;
  sampling_back : Forall (fun o => forall d, o = Some d -> ParseDuration (durationString d) = Some d)
    [upFetchInterval up; upStalenessPeriod up; upWaitTimeout up];
}.

(** The text of a node pool for a duration is read back; negative ones are zero. *)
Lemma nodePoolDuration_back d :
  (d <= maxDuration)%Z -> (0 < d -> d mod Minute = 0)%Z -> ParseDuration (nodePoolDuration d) = Some (Z.max 0 d).
Proof.
  intros Hmax Hwhole. unfold nodePoolDuration. destruct (Z.leb_spec d 0) as [Hd|Hd].
  { rewrite parse_zero. f_equal. lia. }
  assert (forall (unit : Z) text, (0 < unit)%Z -> (d mod unit = 0)%Z ->
    (forall n, (0 < n)%Z -> (n * unit <= maxDuration)%Z -> ParseDuration (pretty n +:+ text) = Some (n * unit)%Z) ->
    ParseDuration (pretty (d / unit)%Z +:+ text) = Some (Z.max 0 d)) as Hunit.
  { intros unit text Hu Hm Hlaw. pose proof (Z.div_exact d unit ltac:(lia)) as [_ Hex]. specialize (Hex Hm).
    rewrite Hlaw; [f_equal; lia| |lia]. apply Z.div_str_pos. split; [done|].
    destruct (Z.lt_ge_cases d unit) as [Hlt|]; [|done]. rewrite Z.mod_small in Hm by lia. lia. }
  case_bool_decide as Hday; [by apply Hunit, parse_days|].
  case_bool_decide as Hhour; [by apply Hunit, parse_hours|].
  rewrite bool_decide_true by auto. apply Hunit, parse_minutes; [done|auto].
Qed.

(** What the fair share settings [udb] of a shard mean when they come back as
    [udb']. *)
Definition usageKept (udb udb' : UsageDBConfig) : Prop :=
  ClientType udb' = "prometheus" /\
  udbConnectionString udb' = udbConnectionString udb /\
  exists up', udbUsageParams udb' = Some up' /\
    (forall up, udbUsageParams udb = Some up ->
      upHalfLifePeriod up' = Some (Z.max 0 (default 0%Z (upHalfLifePeriod up))) /\
      (forall s d, upWindowSize up = Some s -> ParseDuration s = Some d ->
         ParseDuration (default "" (upWindowSize up')) = Some (Z.max 0 d)) /\
      (forall t, upWindowType up = Some t -> windowTypeIsValid t = true -> upWindowType up' = Some t) /\
      upTumblingWindowStartTime up' = upTumblingWindowStartTime up /\
      upCronString up' = upCronString up /\
      upFetchInterval up' = upFetchInterval up /\
      upStalenessPeriod up' = upStalenessPeriod up /\
      upWaitTimeout up' = upWaitTimeout up /\
      (forall k v, upExtraParams up !! k = Some v -> v <> "" -> upExtraParams up' !! k = Some v)).

(** *** Arguments *)

Lemma omap_nil {A B} (f : A -> option B) (xs : list A) : omap f xs = [] <-> Forall (fun x => f x = None) xs.
Proof.
  induction xs as [|x xs IH]; simpl; [done|].
  rewrite Forall_cons. destruct (f x); [split; [done|by intros [? _]]|]. rewrite IH. naive_solver.
Qed.

Lemma checkShardArgs_ok shard clusterArgs :
  checkShardArgs shard clusterArgs = inr tt <->
  (forall k v want, ssArgs (shardSpec shard) !! k = Some v -> controllerArgs clusterArgs !! k = Some want -> want = v).
Proof.
  unfold checkShardArgs. cbv zeta.
  set (conflicts := omap _ _). assert (conflicts = [] <-> (forall k v want,
    ssArgs (shardSpec shard) !! k = Some v -> controllerArgs clusterArgs !! k = Some want -> want = v)) as Hc.
  { unfold conflicts. rewrite omap_nil, Forall_forall. split.
    - intros Hall k v want Hk Hw. specialize (Hall (k, v)). apply elem_of_map_to_list in Hk.
      specialize (Hall Hk). unfold argConflict in Hall. simpl in Hall. rewrite Hw in Hall.
      destruct (decide (want = v)) as [|Hne]; [done|]. by rewrite bool_decide_false in Hall.
    - intros Hall [k v] Hin. apply elem_of_map_to_list in Hin. unfold argConflict. simpl.
      destruct (controllerArgs clusterArgs !! k) as [want|] eqn:Hw; [|done].
      rewrite (Hall k v want Hin Hw). by rewrite bool_decide_true. }
  rewrite <- Hc. destruct conflicts as [|c cs]; [|by rewrite bool_decide_false].
  rewrite bool_decide_true by done. done.
Qed.

(** The worker labels are written last, after the cluster-wide arguments. *)
Lemma workerDefaults_built opts c :
  sameSettings opts ->
  buildShardArgs cfg params (Some c) = workerDefaults ∪ (optSchedulingShardArgs opts ∪ cfgArgs c).
Proof.
  intros [_ Hargs Hcpu Hgpu Hmig]. unfold buildShardArgs, workerDefaults, mapsCopy. rewrite Hargs, Hcpu, Hgpu, Hmig.
  rewrite (map_union_empty (cfgArgs c)), <- !insert_union_l. by rewrite <- insert_union_singleton_l.
Qed.

Lemma controllerArgs_workers clusterArgs : controllerArgs clusterArgs = clusterArgs ∪ workerDefaults.
Proof. done. Qed.

(** *** Fair share *)

Lemma setDefaultExtraParam_keeps key value p k v :
  p !! k = Some v -> v <> "" -> setDefaultExtraParam key value p !! k = Some v.
Proof.
  intros Hk Hv. unfold setDefaultExtraParam. destruct (decide (k = key)) as [->|Hne].
  - unfold mapGet. rewrite Hk. simpl. by rewrite bool_decide_false.
  - case_bool_decide; [by rewrite lookup_insert_ne|done].
Qed.

Lemma overrideCapacityMetrics_keeps p name k v :
  p !! k = Some v -> v <> "" -> overrideCapacityMetricsIfNeeded cfg p name !! k = Some v.
Proof. intros Hk Hv. unfold overrideCapacityMetricsIfNeeded. cbv zeta. by repeat apply setDefaultExtraParam_keeps. Qed.

Lemma sampling_read_back (o : option Z) :
  (forall d, o = Some d -> ParseDuration (durationString d) = Some d) ->
  parseOptionalDurationParam (goDuration o) = o.
Proof. destruct o as [d|]; simpl; [|done]. intros Hd. by apply Hd. Qed.

Lemma default_ptrUnlessEmpty s : default "" (ptrUnlessEmpty s) = s.
Proof. unfold ptrUnlessEmpty. case_bool_decide; simpl; [by subst|done]. Qed.

(** A window or a sampling that is not set reads like an empty one. *)
Lemma window_read {A} (w : FairShareWindow) (f : FairShareWindow -> A) (d : A) :
  f emptyWindow = d -> match (if w !=? emptyWindow then Some w else None) with Some w => f w | None => d end = f w.
Proof. intros <-. case_bool_decide; simpl; [by subst|done]. Qed.

Lemma sampling_read {A} (s : FairShareSampling) (f : FairShareSampling -> A) (d : A) :
  f emptySampling = d -> match (if s !=? emptySampling then Some s else None) with Some s => f s | None => d end = f s.
Proof. intros <-. case_bool_decide; simpl; [by subst|done]. Qed.

Lemma usage_kept name spec udb tbfs nodePool :
  ssUsageDBConfig spec = Some udb ->
  timeBasedFairShareFromShard name spec = inr tbfs ->
  match udbUsageParams udb with Some up => durationsExpressible up | None => True end ->
  timeBasedFairShare nodePool = tbfs ->
  exists udb', getTimeBasedFairShareFields cfg nodePool = Some udb' /\ usageKept udb udb'.
Proof.
  intros Hudb Hfrom Hback Htb. unfold timeBasedFairShareFromShard in Hfrom. rewrite Hudb in Hfrom. cbv zeta in Hfrom.
  destruct (udbUsageParams udb) as [up|] eqn:Hup; [|injection Hfrom as <-].
  - destruct (match upWindowSize up with Some _ => _ | None => _ end) as [?|size] eqn:Hsize in Hfrom; [done|].
    injection Hfrom as <-. unfold getTimeBasedFairShareFields. rewrite Htb.
    eexists. split; [reflexivity|]. split; [done|]. split; [apply default_ptrUnlessEmpty|]. eexists. split; [reflexivity|].
    intros up0 Hup0. rewrite Hup in Hup0. injection Hup0 as <-. cbn [tbfsWindow tbfsSampling tbfsHalfLifePeriod tbfsExtraParams].
    destruct Hback as [Hhalf Hwin Hsamp]. rewrite !Forall_cons in Hsamp. destruct Hsamp as (Hs1 & Hs2 & Hs3 & _).
    rewrite !(window_read _ _ None) by done. rewrite !(window_read _ _ "") by done.
    rewrite !(sampling_read _ _ None) by done. simpl.
    rewrite default_ptrUnlessEmpty, !sampling_read_back by done.
    split_and!; try done.
    + unfold parseDurationParam. destruct (upHalfLifePeriod up) as [d|]; simpl; [|done].
      destruct (Hhalf d eq_refl). by rewrite nodePoolDuration_back.
    + intros s d Hs Hd. rewrite Hs, Hd in Hsize. injection Hsize as <-. simpl.
      pose proof (nodePoolDuration_back d (parse_width _ _ Hd) (Hwin s d Hs Hd)) as Hback. by rewrite Hback.
    + intros t Ht Hv. rewrite Ht. by rewrite Hv.
    + intros k v Hk Hv. apply overrideCapacityMetrics_keeps; [|done].
      unfold withKAIDefaultUsageQueries, mapsCopy. by apply lookup_union_Some_l.
  - unfold getTimeBasedFairShareFields. rewrite Htb. eexists. split; [reflexivity|].
    split; [done|]. split; [apply default_ptrUnlessEmpty|]. eexists. split; [reflexivity|]. intros up Hup0. congruence.
Qed.

(** The name of the node pool of a shard stands for the partition of the shard. *)
Lemma migrated_partition opts shard :
  DefaultNodepoolName cfg = DefaultNodePoolName opts ->
  checkNodePoolName shard (nodePoolNameOf opts shard) (DefaultNodePoolName opts) = inr tt ->
  PartitionLabelValueForNodePool cfg (nodePoolNameOf opts shard) = PartitionLabelValue (shardSpec shard).
Proof.
  intros Hdef Hname. unfold checkNodePoolName, PartitionLabelValueForNodePool, nodePoolNameOf in *. rewrite Hdef.
  destruct (decide (PartitionLabelValue (shardSpec shard) = "")) as [->|Hne].
  - by rewrite !(bool_decide_true (_ = _)).
  - rewrite !(bool_decide_false _ Hne) in *.
    destruct (decide (PartitionLabelValue (shardSpec shard) = DefaultNodePoolName opts)) as [He|He];
      [by rewrite (bool_decide_true _ He) in Hname|by rewrite (bool_decide_false _ He)].
Qed.

(** C9: What a shard that the migration accepts keeps when the node pool built
    from it is reconciled by a controller with the settings of the hook.  The
    partition, the placement strategy, the queue depths, the minimal runtime, the
    plugins and the actions are those it had.  Every argument keeps its value,
    except a worker label that the cluster-wide arguments set to the same value,
    which the controller overwrites with its own default; the new arguments are
    cluster-wide ones and the worker labels.  Without a usage database none
    appears.  With one, its client becomes Prometheus; its connection, its start
    of a tumbling window, its cron text, its sampling intervals and its non-empty
    extra parameters come back, a valid window type does, and the half life and
    the window come back with negative ones as zero and a missing half life as
    zero (when they are whole minutes, and the text that Go prints for a sampling
    interval can be read); the weight is rounded to float32, at least zero, and
    the default one where the shard had none. *)
Theorem migrated_shard_keeps_settings opts shard nodePool c :
  sameSettings opts ->
  checkNodePoolName shard (nodePoolNameOf opts shard) (DefaultNodePoolName opts) = inr tt ->
  checkShardArgs shard (optSchedulingShardArgs opts) = inr tt ->
  SchedulingShardConfigFromShard shard = inr c ->
  (forall udb up, ssUsageDBConfig (shardSpec shard) = Some udb -> udbUsageParams udb = Some up -> durationsExpressible up) ->
  Name (npMeta nodePool) = nodePoolNameOf opts shard ->
  npSchedulingShardConfig nodePool = Some c ->
  let old := shardSpec shard in
  let new := shardSpec (desiredShard cfg params nodePool shard) in
  PartitionLabelValue new = PartitionLabelValue old /\
  ssPlacementStrategy new = ssPlacementStrategy old /\
  ssQueueDepthPerAction new = ssQueueDepthPerAction old /\
  ssMinRuntime new = ssMinRuntime old /\
  ssPlugins new = ssPlugins old /\
  ssActions new = ssActions old /\
  (forall k v, ssArgs old !! k = Some v -> ssArgs new !! k = Some v \/
     (is_Some (workerDefaults !! k) /\ optSchedulingShardArgs opts !! k = Some v)) /\
  (forall k v, ssArgs new !! k = Some v ->
     ssArgs old !! k = Some v \/ optSchedulingShardArgs opts !! k = Some v \/ workerDefaults !! k = Some v) /\
  match ssUsageDBConfig old with
  | None => ssUsageDBConfig new = None /\ ssKValue new = None
  | Some udb =>
      (exists udb', ssUsageDBConfig new = Some udb' /\ usageKept udb udb') /\
      ssKValue new = Some match ssKValue old with Some k => float32 (Z.max k 0) | None => defaultWeight end
  end.
Proof.
  intros Hsame Hname Hargs Hc Hback Hnp Hcfg old new. subst old.
  pose proof (migrated_partition opts shard (same_default _ Hsame) Hname) as Hpart.
  pose proof (workerDefaults_built opts c Hsame) as Hbuilt.
  rewrite checkShardArgs_ok in Hargs. setoid_rewrite controllerArgs_workers in Hargs.
  unfold SchedulingShardConfigFromShard in Hc. cbv zeta in Hc.
  destruct (timeBasedFairShareFromShard _ _) as [|tbfs] eqn:Htb in Hc; [done|]. injection Hc as Hc.
  unfold new, desiredShard. cbv zeta. destruct (mergeShardArgs _ _) as [args annotations] eqn:Hm.
  unfold shardSpecForNodePool. cbn [shardSpec PartitionLabelValue ssArgs ssPlacementStrategy ssQueueDepthPerAction
    ssMinRuntime ssPlugins ssActions ssUsageDBConfig ssKValue].
  rewrite Hnp, Hcfg, Hpart. rewrite <- Hc at 1 2 3 4 5. cbn.
  injection Hm as Hm _. rewrite Hcfg, Hbuilt in Hm. unfold mapsCopy in Hm. rewrite <- Hm. rewrite <- Hc. cbn [cfgArgs].
  split_and!; try done.
  - intros k v Hk. specialize (Hargs k v). rewrite lookup_union in Hargs. rewrite !lookup_union, Hk.
    destruct (workerDefaults !! k) as [worker|]; destruct (optSchedulingShardArgs opts !! k) as [a|]; cbn in *.
    + right. split; [done|]. by rewrite (Hargs a Hk eq_refl).
    + left. rewrite (Hargs worker Hk eq_refl). by destruct (match Annotations _ !! _ with Some _ => _ | None => _ end !! k).
    + left. rewrite (Hargs a Hk eq_refl). by destruct (match Annotations _ !! _ with Some _ => _ | None => _ end !! k).
    + left. by destruct (match Annotations _ !! _ with Some _ => _ | None => _ end !! k).
  - intros k v. rewrite !lookup_union_Some_raw. intros [[?|[_ [?|[_ ?]]]]|[_ Hk]]; [auto..|left].
    destruct (Annotations _ !! _) as [managed|]; [|done]. by apply map_lookup_filter_Some in Hk as [Hk _].
  - assert (timeBasedFairShare nodePool = tbfs) as Htbfs.
    { unfold timeBasedFairShare. rewrite Hcfg, <- Hc. cbn [cfgTimeBasedFairShare]. destruct tbfs as [t|]; [|done].
      unfold timeBasedFairShareFromShard in Htb. destruct (ssUsageDBConfig _) as [udb|]; [|done]. cbv zeta in Htb.
      destruct (udbUsageParams udb) as [up|]; [|by injection Htb as <-].
      destruct (match upWindowSize up with Some _ => _ | None => _ end); [done|]. by injection Htb as <-. }
    destruct (ssUsageDBConfig (shardSpec shard)) as [udb|] eqn:Hudb.
    + split.
      * eapply usage_kept; [exact Hudb|exact Htb| |exact Htbfs].
        destruct (udbUsageParams udb) as [up|] eqn:Hup; [by apply (Hback udb up)|done].
      * unfold getKValue. rewrite Htbfs. unfold timeBasedFairShareFromShard in Htb.
        rewrite Hudb in Htb. cbv zeta in Htb.
        destruct (udbUsageParams udb) as [up|]; [destruct (match upWindowSize up with Some _ => _ | None => _ end); [done|]|];
          injection Htb as <-; cbn; by destruct (ssKValue _).
    + unfold timeBasedFairShareFromShard in Htb. rewrite Hudb in Htb. injection Htb as <-.
      unfold getTimeBasedFairShareFields, getKValue. by rewrite Htbfs.
Qed.

End Settings.

(** ** All or nothing *)

Section AllOrNothing.
Context {M : MetaLib} {Sch : SchedulerAPI} {F : FloatLib} {N : KaiNames} {Mig : MigrationLib}.
Context (opts : MigrateShardsOptions).

(** What the hook demands of a shard among [all]. *)
Record migratable (all : list SchedulingShard) (shard : SchedulingShard) : Prop := {
  has_pool : PartitionLabelValue (shardSpec shard) = "" -> EnsureDefaultNodePool opts = true;
  partition_alone : (length (filter (fun s => PartitionLabelValue (shardSpec s) = PartitionLabelValue (shardSpec shard)) all) <= 1)%nat;
  name_ok : PartitionLabelValue (shardSpec shard) <> "" ->
    PartitionLabelValue (shardSpec shard) <> DefaultNodePoolName opts /\
    IsDNS1123Subdomain (PartitionLabelValue (shardSpec shard)) = [];
  args_ok : forall k v want, ssArgs (shardSpec shard) !! k = Some v ->
    (optSchedulingShardArgs opts ∪ workerDefaults) !! k = Some want -> want = v;
  window_ok : forall udb up s, ssUsageDBConfig (shardSpec shard) = Some udb -> udbUsageParams udb = Some up ->
    upWindowSize up = Some s -> is_Some (ParseDuration s);
}.

(** The scheduler's configuration was read, and it reads the node pools from the
    label that the hook was given; or there is none. *)
Definition labelKeyAgrees (tr : list (event KubeCall)) : Prop :=
  exists reply, Event (Get KKaiConfig ("", DefaultKAIConfigSingletonInstanceName)) reply ∈ tr /\
    match reply with
    | inl err => IsNotFound err = true \/ IsNoMatchError err = true
    | inr kaiConfig =>
        match kcGlobal (kaiConfig : KaiConfig) with
        | Some (Some key) => if key ==? "" then PartitionLabelKey opts = DefaultNodePoolLabelKey else PartitionLabelKey opts = key
        | _ => PartitionLabelKey opts = DefaultNodePoolLabelKey
        end
    end.

(** The node pool of the partition was read: there is none yet, or it is the
    default one, or it selects exactly the nodes of the partition. *)
Definition poolFits (tr : list (event KubeCall)) (shard : SchedulingShard) : Prop :=
  let partition := PartitionLabelValue (shardSpec shard) in
  exists reply,
    Event (Get KNodePool ("", if partition ==? "" then DefaultNodePoolName opts else partition)) reply ∈ tr /\
    match reply with
    | inl err => IsNotFound err = true
    | inr nodePool => partition = "" \/
        (LabelKey (nodePool : NodePool) = PartitionLabelKey opts /\ LabelValue (nodePool : NodePool) = partition)
    end.

(** A planned migration is one of a shard that passes the checks. *)
Record planned (all : list SchedulingShard) (m : shardMigration) : Prop := {
  planned_migratable : migratable all (migShard m);
  planned_name : migNodePoolName m = nodePoolNameOf opts (migShard m);
  planned_config : SchedulingShardConfigFromShard (migShard m) = inr (migShardConfig m);
  planned_existing : forall nodePool, migExistingNodePool m = Some nodePool ->
    checkNodePoolSelectsPartition nodePool (migShard m) (PartitionLabelKey opts) = inr tt;
}.

Lemma unit_ok (r : result unit) (u : unit) : r = inr u -> r = inr tt.
Proof. by destruct u. Qed.

Lemma name_checked shard :
  checkNodePoolName shard (nodePoolNameOf opts shard) (DefaultNodePoolName opts) = inr tt ->
  PartitionLabelValue (shardSpec shard) <> "" ->
  PartitionLabelValue (shardSpec shard) <> DefaultNodePoolName opts /\
  IsDNS1123Subdomain (PartitionLabelValue (shardSpec shard)) = [].
Proof.
  unfold checkNodePoolName, nodePoolNameOf. intros H Hne. rewrite !(bool_decide_false _ Hne) in H.
  case_bool_decide; [done|]. destruct (IsDNS1123Subdomain _); [done|]. by rewrite bool_decide_false in H.
Qed.

Lemma window_checked shard c udb up s :
  SchedulingShardConfigFromShard shard = inr c ->
  ssUsageDBConfig (shardSpec shard) = Some udb -> udbUsageParams udb = Some up -> upWindowSize up = Some s ->
  is_Some (ParseDuration s).
Proof.
  unfold SchedulingShardConfigFromShard, timeBasedFairShareFromShard. cbv zeta. intros Hc Hudb Hup Hs.
  rewrite Hudb, Hup, Hs in Hc. destruct (ParseDuration s); [by eexists|done].
Qed.

Lemma checked_migratable all shard c :
  (PartitionLabelValue (shardSpec shard) = "" -> EnsureDefaultNodePool opts = true) ->
  (length (shardNamesOfPartition all (PartitionLabelValue (shardSpec shard))) <= 1)%nat ->
  checkNodePoolName shard (nodePoolNameOf opts shard) (DefaultNodePoolName opts) = inr tt ->
  checkShardArgs shard (optSchedulingShardArgs opts) = inr tt ->
  SchedulingShardConfigFromShard shard = inr c -> migratable all shard.
Proof.
  intros Hpool Halone Hname Hargs Hc. constructor.
  - done.
  - by unfold shardNamesOfPartition in Halone; rewrite length_fmap in Halone.
  - by apply name_checked.
  - by apply checkShardArgs_ok.
  - intros udb up s. by eapply window_checked.
Qed.

Lemma planMigration_planned all shard :
  wp (fun _ c => is_write c = false) any_reply (planMigration all opts shard)
     (fun r => forall m, r = inr m -> planned all m /\ migShard m = shard).
Proof.
  unfold planMigration. cbv zeta.
  destruct (decide (PartitionLabelValue (shardSpec shard) = "" /\ EnsureDefaultNodePool opts = false)) as [[Hv He]|Hpool].
  { rewrite He, (bool_decide_true _ Hv). by intros m. }
  replace ((PartitionLabelValue (shardSpec shard) ==? "") && negb (EnsureDefaultNodePool opts)) with false
    by (case_bool_decide; destruct (EnsureDefaultNodePool opts); naive_solver).
  destruct (1 <? length _)%nat eqn:Hlen; [by intros m|]. apply Nat.ltb_ge in Hlen.
  destruct (checkNodePoolName _ _ _) as [|u1] eqn:H1; [by intros m|].
  destruct (checkShardArgs _ _) as [|u2] eqn:H2; [by intros m|].
  destruct (SchedulingShardConfigFromShard shard) as [|c] eqn:H3; [by intros m|].
  apply wp_try. unfold getNodePool. apply wp_bind, wp_call; [done|]. intros [err|np] _.
  - destruct (IsNotFound err); [|by intros m]. cbn. intros m [= <-]. split; [|done].
    constructor; cbn; try done.
    eapply checked_migratable; [|done|by apply unit_ok in H1|by apply unit_ok in H2|done].
    intros Hv. destruct (EnsureDefaultNodePool opts) eqn:He; [done|]. by destruct Hpool.
  - cbn. destruct (checkNodePoolSelectsPartition _ _ _) as [|u4] eqn:H4; [by intros m|]. intros m [= <-].
    split; [|done]. constructor; cbn; try done; [|by intros ? [= <-]; apply unit_ok in H4].
    eapply checked_migratable; [|done|by apply unit_ok in H1|by apply unit_ok in H2|done].
    intros Hv. destruct (EnsureDefaultNodePool opts) eqn:He; [done|]. by destruct Hpool.
Qed.

Lemma planLoop_planned all errs migs pending :
  wp (fun _ c => is_write c = false) any_reply (planLoop all opts errs migs pending)
     (fun r => joinErrors r.1 = inr tt -> joinErrors errs = inr tt /\
        exists new, r.2 = migs ++ new /\ migShard <$> new = pending /\ Forall (planned all) new).
Proof.
  revert errs migs. induction pending as [|shard rest IH]; intros errs migs.
  - intros He. split; [done|]. exists []. by rewrite app_nil_r.
  - cbn [planLoop]. apply wp_bind. eapply wp_mono; [|apply planMigration_planned]. intros [err|m] Hm; cbn beta.
    + eapply wp_mono; [|apply IH]. intros [errs' migs'] Hr Hj. destruct (Hr Hj) as [Hbad _].
      by apply joinErrors_ok, Forall_app, proj2, Forall_cons, proj1 in Hbad.
    + destruct (Hm m eq_refl) as [Hpl <-]. eapply wp_mono; [|apply IH]. intros [errs' migs'] Hr Hj.
      destruct (Hr Hj) as (He & new & -> & <- & Hall). split; [done|].
      exists (m :: new). rewrite <- app_assoc. split_and!; [done..|by constructor].
Qed.

Lemma planMigrations_planned all pending :
  wp (fun _ c => is_write c = false) any_reply (planMigrations all pending opts)
     (fun r => forall ms, r = inr ms -> migShard <$> ms = pending /\ Forall (planned all) ms).
Proof.
  unfold planMigrations. destruct (decide (length pending = 0)) as [Hz|Hz].
  - rewrite bool_decide_true by done. apply nil_length_inv in Hz as ->. cbn. by intros ms [= <-].
  - rewrite bool_decide_false by done. apply wp_bind.
    eapply wp_mono; [|apply (reads_only_wp (fun _ c => is_write c = false)); [done|]].
    2: { unfold checkPartitionLabelKey. reads_tac. }
    intros keyCheck _. apply wp_bind. eapply wp_mono; [|apply planLoop_planned].
    intros [errs ms'] Hr. cbn [fst snd] in *. destruct (joinErrors errs) as [err|[]]; [by intros ms|].
    destruct (Hr eq_refl) as (_ & new & -> & <- & Hall). cbn. by intros ms [= <-].
Qed.

Lemma poolFits_mono tr tr' shard : tr ⊆ tr' -> poolFits tr shard -> poolFits tr' shard.
Proof. intros Hsub (reply & He & H). exists reply. auto. Qed.

Lemma labelKey_checked tr : exec (checkPartitionLabelKey (PartitionLabelKey opts)) tr (inr tt) -> labelKeyAgrees tr.
Proof.
  intros (reply & tr' & -> & H). exists reply. split; [left|]. destruct reply as [err|kaiConfig].
  - cbn in H. destruct (IsNotFound err), (IsNoMatchError err); [auto..|]. by destruct H.
  - cbn in H. revert H. destruct (kcGlobal (kaiConfig : KaiConfig)) as [[key|]|]; cbn.
    all: repeat (case_bool_decide; cbn; try by intros [_ [=]]); try done; congruence.
Qed.

Lemma pool_checked all shard tr m : exec (planMigration all opts shard) tr (inr m) -> poolFits tr shard.
Proof.
  unfold planMigration. cbv zeta. destruct (_ && _); [by intros [_ ?]|]. destruct (1 <? length _)%nat; [by intros [_ ?]|].
  destruct (checkNodePoolName _ _ _); [by intros [_ ?]|]. destruct (checkShardArgs _ _); [by intros [_ ?]|].
  destruct (SchedulingShardConfigFromShard shard); [by intros [_ ?]|].
  intros (tr1 & tr2 & np & -> & (reply & tr3 & -> & H1) & H2)%exec_try_ok. exists reply. split; [by left|].
  destruct reply as [err|nodePool]; cbn in H1; [destruct (IsNotFound err); by destruct H1|].
  destruct H1 as [_ [= ->]]. unfold checkNodePoolSelectsPartition in H2. cbv zeta in H2.
  destruct (decide (PartitionLabelValue (shardSpec shard) = "")) as [He|Hne]; [by left|right].
  rewrite (bool_decide_false _ Hne) in H2. cbn [orb] in H2.
  destruct (_ && _) eqn:Hsel; [|by destruct H2]. apply andb_true_iff in Hsel as [Hk Hv].
  by apply bool_decide_eq_true in Hk, Hv.
Qed.

Lemma pools_checked all errs migs pending tr planned :
  exec (planLoop all opts errs migs pending) tr planned -> joinErrors planned.1 = inr tt -> Forall (poolFits tr) pending.
Proof.
  revert errs migs tr. induction pending as [|shard rest IH]; intros errs migs tr Hex Hok; [by apply Forall_nil|].
  apply exec_bind_inv in Hex as (tr1 & tr2 & [err|m] & -> & H1 & H2).
  - exfalso. enough (forall migs tr errs, exec (planLoop all opts errs migs rest) tr planned -> errs ⊆ planned.1) as Hsub.
    { apply Hsub in H2. apply joinErrors_ok in Hok. rewrite Forall_forall in Hok.
      assert (inl err = inr tt :> result unit) as [=]. apply Hok, H2, elem_of_app. right. left. }
    clear. induction rest as [|s rest IH]; intros migs tr errs; [by intros [_ ->]|].
    intros (tr1 & tr2 & [e|m] & -> & _ & H)%exec_bind_inv; apply IH in H; [|done].
    intros x Hx. apply H. apply elem_of_app. by left.
  - apply Forall_cons. split.
    + eapply poolFits_mono; [|by eapply pool_checked]. intros e He. apply elem_of_app. by left.
    + eapply Forall_impl; [by eapply IH|]. intros s. apply poolFits_mono. intros e He. apply elem_of_app. by right.
Qed.

(** A plan without errors: the label key and every node pool were checked. *)
Lemma planMigrations_checked all pending tr ms :
  exec (planMigrations all pending opts) tr (inr ms) ->
  (pending <> [] -> labelKeyAgrees tr) /\ Forall (poolFits tr) pending.
Proof.
  unfold planMigrations. case_bool_decide as Hz.
  { apply nil_length_inv in Hz as ->. intros _. by split; [|apply Forall_nil]. }
  intros (tr1 & tr2 & keyCheck & -> & H1 & (tr3 & tr4 & planned & -> & H2 & H3)%exec_bind_inv)%exec_bind_inv.
  destruct (joinErrors planned.1) as [err|[]] eqn:Hok; [by destruct H3|].
  destruct (wp_exec_any _ _ _ _ _ (planLoop_planned _ _ _ _) H2) as [_ Hall]. destruct (Hall Hok) as [Hkey _].
  apply joinErrors_ok, Forall_cons, proj1 in Hkey. split.
  - intros _. subst keyCheck. destruct (labelKey_checked _ H1) as (reply & He & H).
    exists reply. split; [|done]. apply elem_of_app. by left.
  - eapply Forall_impl; [by eapply pools_checked|]. intros s. apply poolFits_mono. intros e He. set_solver.
Qed.

(** The list of shards comes first. *)
Definition listShards : KubeCall (result (list (obj KSchedulingShard))) :=
  List KSchedulingShard {| loNamespace := ""; loLabelSelector := []; loMatchingLabels := ∅; loFieldSelector := None |}.

(** C10: The migration is all or nothing: an execution that writes anything has
    listed the shards, and before its first write every check has passed.  The
    label key of the scheduler's configuration is the one that the hook was given
    (if there is anything to migrate).  Every shard that is to be migrated has a
    node pool to go to, is alone in its partition, its partition can be the name
    of a node pool other than the default one, its arguments do not contradict the
    cluster-wide ones and the worker labels, its window can be read, and the node
    pool of that name does not exist yet or selects the nodes of the partition. *)
Theorem migration_all_or_nothing tr r :
  exec (MigrateShards opts) tr r ->
  writes tr <> [] ->
  exists shards checks rest, tr = Event listShards (inr shards) :: checks ++ rest /\
    writes checks = [] /\
    (shardsToMigrate shards <> [] -> labelKeyAgrees checks) /\
    Forall (fun shard => migratable shards shard /\ poolFits checks shard) (shardsToMigrate shards).
Proof.
  unfold MigrateShards. intros (tr1 & tr2 & reply & -> & Hl & Hex)%exec_bind_inv Hw.
  destruct Hl as (x & ? & -> & -> & ->). destruct x as [err|shards].
  { exfalso. apply Hw. destruct (IsNoMatchError err); by destruct Hex as [-> _]. }
  exists shards. cbv zeta in Hex.
  apply exec_try_inv in Hex as [(e & Hp & _)|(tr3 & tr4 & ms & -> & Hp & _)].
  - exfalso. apply Hw. destruct (wp_exec_any _ _ _ _ _ (planMigrations_planned _ _) Hp) as [Hro _].
    apply writes_nil. constructor; [done|exact Hro].
  - exists tr3, tr4. split; [done|].
    destruct (wp_exec_any _ _ _ _ _ (planMigrations_planned _ _) Hp) as [Hro Hms].
    destruct (planMigrations_checked _ _ _ _ Hp) as [Hkey Hpools].
    destruct (Hms ms eq_refl) as [Hms' Hall]. split; [by apply writes_nil|]. split; [exact Hkey|].
    rewrite Forall_forall in Hpools |- *. rewrite Forall_forall in Hall. intros shard Hin. split; [|by apply Hpools].
    rewrite <- Hms' in Hin. apply list_elem_of_fmap in Hin as (m & -> & Hm). by apply Hall.
Qed.

(** ** Handing the shards over *)

Definition writtenKind {X} (c : KubeCall X) : option Kind :=
  match c with
  | Create K _ | Update K _ | UpdateStatus K _ | Patch K _ _ | PatchStatus K _ _ | Delete K _ => Some K
  | _ => None
  end.

Definition shardWrites (tr : list (event KubeCall)) : list (event KubeCall) :=
  filter (fun e => writtenKind (ev_call e) = Some KSchedulingShard) tr.

Lemma shardWrites_nil tr :
  Forall (fun e : event KubeCall => writtenKind (ev_call e) <> Some KSchedulingShard) tr -> shardWrites tr = [].
Proof. unfold shardWrites. induction 1; [done|]. by rewrite filter_cons_False. Qed.

Lemma reads_write_no_kind {X} (c : KubeCall X) : is_write c = false -> writtenKind c <> Some KSchedulingShard.
Proof. by destruct c. Qed.

(** The API server answers with the node pool that was asked for, created or
    patched, by its name. *)
Definition namedReply : forall X, KubeCall X -> X -> Prop := fun X c =>
  match c in KubeCall X return X -> Prop with
  | Get KNodePool key => fun r => forall o, r = inr o -> Name (npMeta o) = key.2
  | Create KNodePool o => fun r => forall o', r = inr o' -> Name (npMeta o') = Name (npMeta o)
  | Patch KNodePool _ o => fun r => forall o', r = inr o' -> Name (npMeta o') = Name (npMeta o)
  | _ => fun _ => True
  end.

(** A node pool that was found has the name that was looked for. *)
Definition namedMigration (m : shardMigration) : Prop :=
  forall nodePool, migExistingNodePool m = Some nodePool -> Name (npMeta nodePool) = migNodePoolName m.

Lemma planMigration_named all shard :
  wp (fun _ _ => True) namedReply (planMigration all opts shard) (fun r => forall m, r = inr m -> namedMigration m).
Proof.
  unfold planMigration. cbv zeta. destruct (_ && _); [by intros m|]. destruct (1 <? length _)%nat; [by intros m|].
  destruct (checkNodePoolName _ _ _); [by intros m|]. destruct (checkShardArgs _ _); [by intros m|].
  destruct (SchedulingShardConfigFromShard shard); [by intros m|].
  apply wp_try. unfold getNodePool. apply wp_bind, wp_call; [done|]. intros [err|np] Hreply.
  - destruct (IsNotFound err); [|by intros m]. cbn. by intros m [= <-] np.
  - cbn. destruct (checkNodePoolSelectsPartition _ _ _); [by intros m|]. intros m [= <-] np' [= <-].
    by apply (Hreply np).
Qed.

Lemma planMigrations_named all pending :
  wp (fun _ _ => True) namedReply (planMigrations all pending opts)
     (fun r => forall ms, r = inr ms -> Forall namedMigration ms).
Proof.
  assert (forall errs migs, Forall namedMigration migs ->
    wp (fun _ _ => True) namedReply (planLoop all opts errs migs pending) (fun r => Forall namedMigration r.2)) as Hloop.
  { induction pending as [|shard rest IH]; intros errs migs Hm; [done|]. cbn [planLoop]. apply wp_bind.
    eapply wp_mono; [|apply planMigration_named]. intros [err|m] Hr; cbn beta; apply IH; [done|].
    apply Forall_app. split; [done|]. constructor; [by apply Hr|done]. }
  unfold planMigrations. destruct (length pending ==? 0); [by intros ms [= <-]|]. apply wp_bind.
  apply (wp_mono _ _ _ (fun _ => True)); [|by apply exec_wp]. intros keyCheck _. apply wp_bind.
  eapply wp_mono; [|by apply Hloop]. intros [errs ms'] Hms. cbn [fst snd] in *.
  destruct (joinErrors errs); [by intros ms|]. by intros ms [= <-].
Qed.

(** The shard is patched to be controlled by the node pool of its partition. *)
Definition handedOver (shard : SchedulingShard) (e : event KubeCall) : Prop :=
  exists nodePool owned reply,
    Name (npMeta nodePool) = nodePoolNameOf opts shard /\
    SetControllerReference (npMeta nodePool) (shardMeta shard) = inr owned /\
    e = Event (Patch KSchedulingShard shard (shard_with_meta (fun _ => adoptedMeta shard owned) shard)) (inr reply).

Lemma nodePoolForShard_named m :
  namedMigration m ->
  wp (fun _ c => writtenKind c <> Some KSchedulingShard) namedReply (nodePoolForShard m opts)
     (fun r => forall np, r = inr np -> Name (npMeta np) = migNodePoolName m).
Proof.
  intros Hm. unfold nodePoolForShard. destruct (migExistingNodePool m) as [np|] eqn:Hex.
  - destruct (_ ==? _); [intros np' [= <-]; by apply Hm|]. apply wp_bind, wp_call; [done|].
    intros [err|np'] Hr; [by intros np0|]. intros np0 [= <-]. rewrite (Hr np' eq_refl). exact (Hm np Hex).
  - cbv zeta. apply wp_bind, wp_call; [done|].
    intros [err|np'] Hr; [by intros np0|]. intros np0 [= <-]. by rewrite (Hr np' eq_refl).
Qed.

Lemma migrate_hands_over all m tr :
  planned all m -> namedMigration m ->
  exec (migrate m opts) tr (inr tt) ->
  Forall (fun e => namedReply _ (ev_call e) (ev_reply e)) tr ->
  exists e, shardWrites tr = [e] /\ handedOver (migShard m) e.
Proof.
  intros Hpl Hn (tr1 & tr2 & np & -> & Hnp & Hex)%exec_try_ok [Ht1 Ht2]%Forall_app.
  destruct (wp_exec _ _ _ _ _ _ (nodePoolForShard_named m Hn) Hnp Ht1) as [Hno Hname].
  cbv zeta in Hex. destruct (SetControllerReference _ _) as [|owned] eqn:Hown; [by destruct Hex|].
  apply exec_bind_inv in Hex as (tr3 & tr4 & reply & -> & (x & ? & -> & -> & ->) & Hex).
  destruct x as [err|o]; [by destruct Hex|]. destruct Hex as [-> _].
  eexists. unfold shardWrites. rewrite filter_app. fold (shardWrites tr1).
  rewrite shardWrites_nil by done. split; [reflexivity|].
  exists np, owned, o. split_and!; [|done..]. rewrite (Hname np eq_refl). apply Hpl.
Qed.

(** A migration that succeeds found no shards to be known to the cluster, or
    hands over exactly the shards that need it, in the order of their names: the
    writes to scheduling shards are one patch for each of them, which makes the
    node pool of its partition its controller and marks it as adopted. *)
Theorem migration_hands_over tr :
  exec (MigrateShards opts) tr (inr tt) ->
  Forall (fun e => namedReply _ (ev_call e) (ev_reply e)) tr ->
  (exists err, tr = [Event listShards (inl err)] /\ IsNoMatchError err = true) \/
  (exists shards tr', tr = Event listShards (inr shards) :: tr' /\
     Forall2 handedOver (shardsToMigrate shards) (shardWrites tr')).
Proof.
  unfold MigrateShards. intros (tr0 & tr' & reply & -> & (x & ? & -> & -> & ->) & Hex)%exec_bind_inv Hnamed.
  destruct x as [err|shards].
  { left. exists err. destruct (IsNoMatchError err); [|by destruct Hex]. by destruct Hex as [-> _]. }
  right. exists shards, tr'. split; [done|]. apply Forall_cons in Hnamed as [_ Hnamed]. cbv zeta in Hex.
  apply exec_try_ok in Hex as (tr1 & tr2 & ms & -> & Hplan & Hex). apply Forall_app in Hnamed as [Hn1 Hn2].
  destruct (wp_exec_any _ _ _ _ _ (planMigrations_planned _ _) Hplan) as [Hro Hms].
  destruct (wp_exec _ _ _ _ _ _ (planMigrations_named _ _) Hplan Hn1) as [_ Hnames].
  destruct (Hms ms eq_refl) as [<- Hall]. specialize (Hnames ms eq_refl).
  apply exec_try_ok in Hex as (tr3 & tr4 & [] & -> & (trs & -> & Htrs)%exec_forEach_ok & Hlast).
  apply Forall_app in Hn2 as [Hn2 _]. unfold shardWrites. rewrite !filter_app. fold (shardWrites tr1) (shardWrites tr4).
  rewrite (shardWrites_nil tr1) by (eapply Forall_impl; [exact Hro|]; intros e; apply reads_write_no_kind).
  rewrite (shardWrites_nil tr4), app_nil_r.
  - cbn. clear Hlast Hms Hplan. induction Htrs as [|m t ms trs Ht Htrs IH]; [constructor|].
    apply Forall_cons in Hall as [Hm Hall], Hnames as [Hnm Hnames]. cbn [concat] in *.
    apply Forall_app in Hn2 as [Hnt Hn2]. rewrite filter_app. fold (shardWrites t).
    destruct (migrate_hands_over _ m t Hm Hnm Ht Hnt) as (e & -> & He). cbn. constructor; [done|]. by apply IH.
  - destruct (EnsureDefaultNodePool opts); [|by destruct Hlast as [-> _]].
    eapply (wp_exec_any (fun _ c => writtenKind c <> Some KSchedulingShard) _ (fun _ => True)); [|exact Hlast].
    unfold ensureDefaultNodePool, getNodePool. apply wp_try, wp_bind, wp_call; [done|].
    intros [err|np] _; [destruct (IsNotFound err)|]; [|done..]. cbn. split; [done|]. by intros [?|?].
Qed.

End AllOrNothing.

(** ** Concrete clusters *)

Module Demo.

#[local] Instance demoMeta : MetaLib := {|
  groupOf := fun _ => Some "kai.resources"; kaiGroup := "kai.resources";
  GetControllerOf := fun m => head (OwnerReferences m);
  IsControlledBy := fun m owner => existsb (fun o => OwnerUID o ==? UID owner) (OwnerReferences m);
  SetControllerReference := fun owner m =>
    inr (meta_with_owners (fun owners => owners ++
      [{| OwnerAPIVersion := "kai.resources/v1alpha1"; OwnerKind := "NodePool"; OwnerName := Name owner;
          OwnerUID := UID owner; OwnerController := Some true; OwnerBlockOwnerDeletion := Some true |}]) m) |}.

(** A reader of a number with a unit, and of two other texts. *)
Definition digitOf (c : Ascii.ascii) : option Z :=
  let n := Z.of_nat (Ascii.nat_of_ascii c) in
  if (48 <=? n)%Z && (n <=? 57)%Z then Some (n - 48)%Z else None.

Fixpoint readUnits (acc : Z) (s : string) : option Z :=
  match s with
  | EmptyString => None
  | String c rest =>
      match digitOf c with
      | Some d => readUnits (acc * 10 + d) rest
      | None => if s ==? "d" then Some (acc * Day)%Z else if s ==? "h" then Some (acc * Hour)%Z
                else if s ==? "m" then Some (acc * Minute)%Z else None
      end
  end.

Definition otherDurations : gmap string Z := {[ "0" := 0%Z; "1m0s" := Minute ]}.

Definition readDuration (s : string) : option Z :=
  match otherDurations !! s with
  | Some d => Some d
  | None => match readUnits 0 s with Some d => if (d <=? maxDuration)%Z then Some d else None | None => None end
  end.

Lemma readUnits_digits (n : N) s : readUnits 0 (pretty_N_go n s) = readUnits (Z.of_N n) s.
Proof.
  revert s. induction (N.lt_wf_0 n) as [n _ IH]; intros s. destruct (decide (n = 0)%N) as [->|Hn]; [done|].
  rewrite pretty_N_go_step, IH by (try apply N.div_lt; lia). cbn [readUnits].
  assert (digitOf (pretty_N_char (n mod 10)) = Some (Z.of_N (n mod 10))) as ->.
  { pose proof (N.mod_lt n 10 ltac:(done)) as Hlt. revert Hlt. generalize (n mod 10)%N. intros k Hk.
    assert (k = 0 \/ k = 1 \/ k = 2 \/ k = 3 \/ k = 4 \/ k = 5 \/ k = 6 \/ k = 7 \/ k = 8 \/ k = 9)%N as Hc by lia.
    repeat destruct Hc as [->|Hc]; try subst k; reflexivity. }
  f_equal. rewrite N2Z.inj_div, N2Z.inj_mod. pose proof (Z.div_mod (Z.of_N n) 10). lia.
Qed.

Lemma pretty_N_go_app n s : pretty_N_go n s = pretty_N_go n "" +:+ s.
Proof.
  revert s. induction (N.lt_wf_0 n) as [n _ IH]; intros s. destruct (decide (n = 0)%N) as [->|Hn]; [done|].
  assert (n / 10 < n)%N as Hlt by (apply N.div_lt; lia). rewrite !(pretty_N_go_step n) by lia.
  rewrite (IH _ Hlt (String _ s)), (IH _ Hlt (String _ "")). by rewrite append_assoc_string.
Qed.

Lemma readUnits_pretty (n : Z) text : (0 < n)%Z -> readUnits 0 (pretty n +:+ text) = readUnits n text.
Proof.
  intros Hn. destruct n as [|n|]; try lia. change (pretty (Zpos n)) with (pretty_N_go (Npos n) "").
  by rewrite <- pretty_N_go_app, readUnits_digits.
Qed.

Lemma readDuration_unit (n unit : Z) text :
  (0 < n)%Z -> (0 < unit)%Z -> (n * unit <= maxDuration)%Z -> (forall k, readUnits k text = Some (k * unit)%Z) ->
  readDuration (pretty n +:+ text) = Some (n * unit)%Z.
Proof.
  intros Hn Hu Hmax Htext. unfold readDuration. pose proof (readUnits_pretty n text Hn) as Hread. rewrite Htext in Hread.
  destruct (otherDurations !! (pretty n +:+ text)) as [d|] eqn:Ho.
  - exfalso. revert Ho Hread. unfold otherDurations. rewrite lookup_insert_Some, lookup_singleton_Some.
    intros [[<- _]|[_ [<- _]]]; vm_compute; done.
  - rewrite Hread. by rewrite (proj2 (Z.leb_le _ _) Hmax).
Qed.

#[local] Instance demoScheduler : SchedulerAPI := {|
  ParseDuration := readDuration;
  windowTypeIsValid := fun t => bool_decide (t ∈ ["sliding"; "tumbling"; "cron"]);
  SlidingWindow := "sliding"; defaultWeight := 1;
  ConditionTypeDeployed := "Deployed"; ConditionTypeAvailable := "Available";
  argCPUWorkerNodeLabelKey := "cpu-worker-node-label-key"; argGPUWorkerNodeLabelKey := "gpu-worker-node-label-key";
  argMIGWorkerNodeLabelKey := "mig-worker-node-label-key" |}.

#[local] Instance demoDurationLaws : DurationLaws demoScheduler.
Proof.
  constructor.
  - reflexivity.
  - intros n Hn Hmax. by apply readDuration_unit.
  - intros n Hn Hmax. by apply readDuration_unit.
  - intros n Hn Hmax. by apply readDuration_unit.
  - intros s d. cbn [ParseDuration demoScheduler]. unfold readDuration. destruct (otherDurations !! s) as [d'|] eqn:Ho.
    + intros [= ->]. revert Ho. unfold otherDurations. rewrite lookup_insert_Some, lookup_singleton_Some.
      intros [[_ <-]|[_ [_ <-]]]; by vm_compute.
    + destruct (readUnits 0 s) as [d'|]; [|done]. destruct (Z.leb_spec d' maxDuration) as [Hle|]; [|done].
      intros [= <-]. exact Hle.
Qed.

#[local] Instance demoFloats : FloatLib := {| float32 := id; formatFractionalMinutes := pretty |}.
#[local] Instance demoNames : KaiNames :=
  {| DefaultKAIConfigSingletonInstanceName := "kai-config"; KaiConditionTypeReady := "Ready" |}.
#[local] Instance demoMigration : MigrationLib := {|
  IsDNS1123Subdomain := fun name => if name ==? "" then ["empty"] else [];
  DefaultNodePoolLabelKey := "kai.scheduler/node-pool";
  DefaultCPUWorkerNodeLabelKey := "node-role/cpu"; DefaultGPUWorkerNodeLabelKey := "node-role/gpu";
  DefaultMIGWorkerNodeLabelKey := "node-role/mig" |}.

Definition demoShard : SchedulingShard :=
  {| shardMeta := named "train-shard";
     shardSpec :=
       {| ssArgs := {[ "verbosity" := "4" ]}; ssPlacementStrategy := Some "binpack"; PartitionLabelValue := "train";
          ssQueueDepthPerAction := ∅; ssMinRuntime := None; ssKValue := Some 2%Z;
          ssUsageDBConfig := Some
            {| ClientType := "prometheus"; udbConnectionString := "http://prometheus";
               udbUsageParams := Some
                 {| upHalfLifePeriod := Some (48 * Hour)%Z; upWindowSize := Some "168h"; upWindowType := Some "tumbling";
                    upTumblingWindowStartTime := Some 0%Z; upCronString := ""; upFetchInterval := Some Minute;
                    upStalenessPeriod := None; upWaitTimeout := None;
                    upExtraParams := {[ "gpuAllocationMetric" := "my_gpus" ]} |} |};
          ssPlugins := ∅; ssActions := ∅; ssOther := "" |};
     shardConditions := [] |}.

Definition demoControllerConfig : NodePoolControllerConfig := {|
  NodePoolNameLabel := "kai.scheduler/node-pool"; DefaultNodepoolName := "default"; SchedulerName := "kai-scheduler";
  SchedulerNamespace := "kai"; CPUWorkerNodeLabelKey := "node-role/cpu"; GPUWorkerNodeLabelKey := "node-role/gpu";
  MIGWorkerNodeLabelKey := "node-role/mig"; MetricsNamespace := "kai"; FinalizerDomain := "kai.resources";
  ManagedNodesConfigName := "managed"; ExcludedNodepoolName := "excluded"; ShouldBeExcludedLabelKey := "to-exclude";
  UnschedulableLabelKey := "unschedulable"; GroveTopologyAnnotation := "grove"; GroveTopologyResourceVersionAnnotation := "rv" |}.

Definition demoParams : NodePoolControllerParams :=
  {| SchedulingShardArgs := {[ "verbosity" := "4" ]}; UninstallDetection := None |}.

Definition demoOptions : MigrateShardsOptions := {|
  PartitionLabelKey := "kai.scheduler/node-pool"; DefaultNodePoolName := "default";
  optSchedulingShardArgs := {[ "verbosity" := "4" ]}; EnsureDefaultNodePool := true;
  DefaultNodePoolSpec := {| specLabelKey := ""; specLabelValue := ""; specPreferredNetworkTopologyName := "";
                            specSchedulingShardConfig := None |} |}.

Lemma demo_sameSettings : sameSettings demoControllerConfig demoParams demoOptions.
Proof. constructor; reflexivity. Qed.

Definition demoConfig : SchedulingShardConfig :=
  match SchedulingShardConfigFromShard demoShard with inr c => c | inl _ =>
    {| cfgArgs := ∅; cfgPlacementStrategy := None; cfgQueueDepthPerAction := ∅; cfgMinRuntime := None;
       cfgPlugins := ∅; cfgActions := ∅; cfgTimeBasedFairShare := None |} end.

Lemma demo_config : SchedulingShardConfigFromShard demoShard = inr demoConfig.
Proof. vm_compute. reflexivity. Qed.

Definition demoMigratedPool : NodePool :=
  newNodePool "train" {| specLabelKey := "kai.scheduler/node-pool"; specLabelValue := "train";
                         specPreferredNetworkTopologyName := ""; specSchedulingShardConfig := Some demoConfig |}.

Lemma migrated_shard_keeps_settings_witness :
  ssArgs (shardSpec (desiredShard demoControllerConfig demoParams demoMigratedPool demoShard)) !! "verbosity" = Some "4" /\
  ssKValue (shardSpec (desiredShard demoControllerConfig demoParams demoMigratedPool demoShard)) = Some 2%Z.
Proof.
  destruct (migrated_shard_keeps_settings demoControllerConfig demoParams demoOptions demoShard demoMigratedPool demoConfig)
    as (_ & _ & _ & _ & _ & _ & Hargs & _ & _ & Hk).
  - exact demo_sameSettings.
  - vm_compute. reflexivity.
  - vm_compute. reflexivity.
  - exact demo_config.
  - intros udb up Hu. injection Hu as Hu. subst udb. intros Hu. injection Hu as Hu. subst up. constructor.
    + intros d Hd. injection Hd as Hd. subst d. split; [vm_compute; discriminate|]. intros _. vm_compute. reflexivity.
    + intros s d Hs Hd _. injection Hs as Hs. subst s. vm_compute in Hd. injection Hd as Hd. subst d. vm_compute. reflexivity.
    + apply Forall_cons; split; [intros d Hd; injection Hd as Hd; subst d; vm_compute; reflexivity|].
      apply Forall_cons; split; [discriminate|]. apply Forall_cons; split; [discriminate|]. apply Forall_nil; exact I.
  - reflexivity.
  - reflexivity.
  - split; [|exact Hk]. destruct (Hargs "verbosity" "4") as [H|[[x Hx] _]]; [vm_compute; reflexivity|exact H|].
    vm_compute in Hx. discriminate.
Defined.

(** The check lets the cluster-wide arguments win over the worker labels, while
    the controller writes its own worker labels last: a shard that agrees with
    the cluster-wide value passes the check and loses it. *)
Definition workerShard : SchedulingShard :=
  {| shardMeta := named "w"; shardSpec := {| ssArgs := {[ "cpu-worker-node-label-key" := "my/cpu" ]};
       ssPlacementStrategy := None; PartitionLabelValue := "w"; ssQueueDepthPerAction := ∅; ssMinRuntime := None;
       ssKValue := None; ssUsageDBConfig := None; ssPlugins := ∅; ssActions := ∅; ssOther := "" |};
     shardConditions := [] |}.
Definition workerArgs : gmap string string := {[ "cpu-worker-node-label-key" := "my/cpu" ]}.

Theorem worker_label_overwritten :
  checkShardArgs workerShard workerArgs = inr tt /\
  forall c, buildShardArgs demoControllerConfig {| SchedulingShardArgs := workerArgs; UninstallDetection := None |} (Some c)
    !! "cpu-worker-node-label-key" = Some "node-role/cpu".
Proof.
  split; [vm_compute; reflexivity|]. intros c. unfold buildShardArgs. cbn [argMIGWorkerNodeLabelKey argGPUWorkerNodeLabelKey
    argCPUWorkerNodeLabelKey demoScheduler]. rewrite !lookup_insert_ne by done. by rewrite lookup_insert_eq.
Qed.

Definition demoStore : store := store_add (K := KSchedulingShard) demoShard emptyStore.
Definition demoTrace : list (event KubeCall) := run_trace memServer (MigrateShards demoOptions) demoStore.

Lemma migration_all_or_nothing_witness :
  exists shards checks rest, demoTrace = Event listShards (inr shards) :: checks ++ rest /\ writes checks = [] /\
    Forall (fun shard => migratable demoOptions shards shard /\ poolFits demoOptions checks shard) (shardsToMigrate shards).
Proof.
  destruct (migration_all_or_nothing demoOptions demoTrace (run memServer (MigrateShards demoOptions) demoStore).1)
    as (shards & checks & rest & Htr & Hw & _ & Hall).
  - apply run_exec.
  - intros Hw. assert (length (writes demoTrace) = 3) as Hl by (vm_compute; reflexivity). rewrite Hw in Hl. discriminate.
  - exists shards, checks, rest. split; [exact Htr|]. split; [exact Hw|exact Hall].
Defined.

Lemma demo_named : Forall (fun e => namedReply _ (ev_call e) (ev_reply e)) demoTrace.
Proof.
  vm_compute. repeat (apply Forall_cons; split); try apply Forall_nil; try exact I; cbn; try discriminate;
    intros o Ho; injection Ho as Ho; subst o; reflexivity.
Qed.

Lemma migration_hands_over_witness :
  (exists err, demoTrace = [Event listShards (inl err)] /\ IsNoMatchError err = true) \/
  (exists shards tr', demoTrace = Event listShards (inr shards) :: tr' /\
     Forall2 (handedOver demoOptions) (shardsToMigrate shards) (shardWrites tr')).
Proof.
  apply (migration_hands_over demoOptions demoTrace).
  - assert ((run memServer (MigrateShards demoOptions) demoStore).1 = inr tt) as Hr by (vm_compute; reflexivity).
    rewrite <- Hr. apply run_exec.
  - exact demo_named.
Defined.

End Demo.
