(* ===== verification/HelmHookFacts.v ===== *)
(** * Facts about the helm hooks

    The cleanup undoes an adoption exactly, and it touches a node pool only when
    the controllers are gone and the adopted shards are released; the version
    check before an installation agrees with the operator's. *)

From stdpp Require Import base list gmap strings.
From S2P Require Import Prelude ApiTypes NodePoolUtils NodePoolCommon Shards ShardConfig Dependencies MigrateShards GoFlags HelmHooks MigrateFacts.

(** ** Lists *)

(** Filtering with a condition that every entry meets. *)
Lemma map_filter_id' {A} (m : gmap string A) (P : string * A -> Prop) `{!forall kv, Decision (P kv)} :
  (forall k v, m !! k = Some v -> P (k, v)) -> filter P m = m.
Proof. intros Hm. apply map_filter_id. intros k v Hk. by apply Hm. Qed.

(** ** Releasing adopted shards *)

Section Release.
Context {M : MetaLib}.

Lemma existsb_false {A} (f : A -> bool) (l : list A) : existsb f l = false <-> Forall (fun x => f x = false) l.
Proof.
  induction l as [|x l IH]; simpl; [done|]. rewrite Bool.orb_false_iff, IH, Forall_cons. done.
Qed.

Lemma releaseChanges_false m :
  releaseChanges m = false <->
  Forall (fun o => IsNodePoolReference o = false) (OwnerReferences m) /\
  (forall k v, Labels m !! k = Some v -> isKrmKey k = false) /\
  (forall k v, Annotations m !! k = Some v -> isKrmKey k = false).
Proof.
  assert (forall g : gmap string string, existsb (fun kv => isKrmKey kv.1) (map_to_list g) = false <->
    (forall k v, g !! k = Some v -> isKrmKey k = false)) as Hmap.
  { intros g. rewrite existsb_false, Forall_forall. split.
    - intros Hall k v Hk. apply (Hall (k, v)). by apply elem_of_map_to_list.
    - intros Hall [k v] Hin. apply elem_of_map_to_list in Hin. by apply (Hall k v). }
  unfold releaseChanges. rewrite !Bool.orb_false_iff, existsb_false, !Hmap. naive_solver.
Qed.

(** A released shard keeps no owner among the node pools and no label or
    annotation of this project, keeps everything else, and a second release
    changes nothing. *)
Theorem release_complete shard :
  let released := default shard (releaseSchedulingShard shard) in
  shardSpec released = shardSpec shard /\
  shardConditions released = shardConditions shard /\
  (forall o, o ∈ OwnerReferences (shardMeta released) <->
     o ∈ OwnerReferences (shardMeta shard) /\ IsNodePoolReference o = false) /\
  (forall k v, Labels (shardMeta released) !! k = Some v <->
     Labels (shardMeta shard) !! k = Some v /\ isKrmKey k = false) /\
  (forall k v, Annotations (shardMeta released) !! k = Some v <->
     Annotations (shardMeta shard) !! k = Some v /\ isKrmKey k = false) /\
  releaseSchedulingShard released = None.
Proof.
  unfold releaseSchedulingShard. destruct (releaseChanges (shardMeta shard)) eqn:Hc; cbn.
  - split_and!; [done..| | | |].
    + intros o. rewrite list_elem_of_filter. tauto.
    + intros k v. rewrite map_lookup_filter_Some. done.
    + intros k v. rewrite map_lookup_filter_Some. done.
    + assert (releaseChanges (releasedMeta (shardMeta shard)) = false) as ->; [|done].
      apply releaseChanges_false. cbn. split_and!.
      * apply Forall_forall. intros o Ho. by apply list_elem_of_filter in Ho as [Ho _].
      * intros k v Hk. by apply map_lookup_filter_Some in Hk as [_ Hk].
      * intros k v Hk. by apply map_lookup_filter_Some in Hk as [_ Hk].
  - pose proof Hc as Hc'. rewrite releaseChanges_false in Hc. destruct Hc as (Ho & Hl & Ha).
    rewrite Forall_forall in Ho. rewrite Hc'. split_and!; [done..| | | |done]; naive_solver.
Qed.

Lemma release_adoption_label (labels : gmap string string) :
  isKrmKey AdoptionLabelKey = true ->
  (forall k v, labels !! k = Some v -> isKrmKey k = false) ->
  filter (fun kv => isKrmKey kv.1 = false) (<[AdoptionLabelKey := AdoptionLabelValue]> labels) = labels.
Proof.
  intros Hkey Hl. rewrite map_filter_insert_False by (unfold fst; rewrite Hkey; discriminate).
  rewrite map_filter_delete, map_filter_id' by exact Hl. apply delete_id.
  destruct (labels !! AdoptionLabelKey) as [v|] eqn:Hv; [|done]. apply Hl in Hv. rewrite Hkey in Hv. discriminate.
Qed.

(** The cleanup undoes an adoption: a shard without owners among the node
    pools and without metadata of this project, handed to a node pool by the
    migration and released again, is the shard it was. *)
Theorem release_undoes_adoption nodePool shard owned ref :
  isKrmKey AdoptionLabelKey = true ->
  SetControllerReference (npMeta nodePool) (shardMeta shard) = inr owned ->
  owned = meta_with_owners (fun owners => owners ++ [ref]) (shardMeta shard) ->
  IsNodePoolReference ref = true ->
  releaseSchedulingShard shard = None ->
  (PartitionLabelValue (shardSpec shard) = "" -> Labels (shardMeta shard) !! IgnoreShardLabelKey = None) ->
  releaseSchedulingShard (shard_with_meta (fun _ => adoptedMeta shard owned) shard) = Some shard.
Proof.
  intros Hkey _ -> Href Hnone Hign. unfold releaseSchedulingShard in *.
  destruct (releaseChanges (shardMeta shard)) eqn:Hc; [done|]. apply releaseChanges_false in Hc as (Ho & Hl & Ha).
  replace (releaseChanges _) with true.
  2: { symmetry. unfold releaseChanges, adoptedMeta. cbn [shardMeta shard_with_meta meta_with_labels meta_with_owners OwnerReferences].
       rewrite existsb_app. cbn [existsb]. by rewrite Href, Bool.orb_true_r. }
  assert (adoptedMeta shard (meta_with_owners (fun owners => owners ++ [ref]) (shardMeta shard)) =
    meta_with_labels <[AdoptionLabelKey := AdoptionLabelValue]>
      (meta_with_owners (fun owners => owners ++ [ref]) (shardMeta shard))) as ->.
  { unfold adoptedMeta, meta_with_labels. cbn [meta_with_owners Labels]. f_equal. case_bool_decide as He; [|done].
    rewrite delete_insert_ne by done. by rewrite delete_id by (apply Hign, He). }
  f_equal. destruct shard as [[n ns uid ls annos owners fin del rv gen] spec conds]. unfold shard_with_meta. cbn [shardMeta shardSpec shardConditions].
  cbn [Labels Annotations OwnerReferences shardMeta] in *.
  unfold releasedMeta, meta_with_labels, meta_with_owners, meta_with_annotations. f_equal.
  cbn [Name Namespace UID Labels Annotations OwnerReferences Finalizers DeletionTimestamp ResourceVersion Generation]. f_equal.
  - by apply release_adoption_label.
  - by apply map_filter_id'.
  - rewrite filter_app, filter_cons_False by (rewrite Href; discriminate). rewrite app_nil_r. clear -Ho.
    induction Ho as [|o l Ho Hl IH]; [done|]. rewrite filter_cons_True by done. by f_equal.
Qed.

End Release.

(** ** Versions and image tags *)

Section Versions.
Context {V : VersionLib} {N : KaiNames}.

(** The check before an installation and the check of the running operator
    agree.  The operator reads the tag of the scheduler's own operator; when
    there is none it has nothing to say, when the hook accepts the tag the
    operator does not call it too old, and of a tag that is a version the
    operator says so exactly when the hook refuses it. *)
Theorem version_checks_agree minimum required source kaiConfig tr message :
  minimum <> "" ->
  ParseSemantic minimum = Some required ->
  exec (unsupportedVersionMessage minimum kaiConfig) tr message ->
  exists reply, exec (operatorVersionTag true (kcNamespace kaiConfig)) tr reply /\
    match reply with
    | inl _ => message = ""
    | inr tag =>
        (CheckKAISchedulerVersion tag source minimum = inr tt -> message = "") /\
        (forall v, ParseSemantic tag = Some v -> message = "" -> CheckKAISchedulerVersion tag source minimum = inr tt)
    end.
Proof.
  intros Hne Hreq Hex. unfold unsupportedVersionMessage in Hex. rewrite (bool_decide_false _ Hne), Hreq in Hex.
  apply exec_bind_inv in Hex as (tr1 & tr2 & [running tag] & -> & Hrun & Hex).
  unfold runningVersion in Hrun. apply exec_bind_inv in Hrun as (tr3 & tr4 & reply & -> & Htag & Hrun).
  assert (tr2 = [] /\ tr4 = []) as [-> ->].
  { split; [destruct running as [v|]; [destruct (AtLeast v required)|]; by destruct Hex|].
    destruct reply; by destruct Hrun. }
  rewrite !app_nil_r. exists reply. split; [done|].
  destruct reply as [err|tag']; destruct Hrun as [_ [= -> ->]]; [by destruct Hex|].
  unfold CheckKAISchedulerVersion. rewrite Hreq.
  destruct (ParseVersionTag tag') as [v|].
  - destruct (AtLeast v required); destruct Hex as [_ ->]; cbn [negb].
    + split; [done|]. by intros v' ->.
    + destruct (ParseSemantic tag'); split; [done|by intros ? ?|done|by intros ? ?].
  - destruct Hex as [_ ->]. split; [done|]. by intros v' ->.
Qed.

End Versions.

(** *** Image references *)

Fixpoint containsByte (c : Ascii.ascii) (s : string) : bool :=
  match s with
  | EmptyString => false
  | String d rest => (c ==? d) || containsByte c rest
  end.

Lemma indexByteFrom_absent i c s : containsByte c s = false -> indexByteFrom i c s = (-1)%Z.
Proof.
  revert i. induction s as [|d s IH]; intros i; simpl; [done|].
  intros [Hd Hs]%Bool.orb_false_iff. rewrite Hd. by apply IH.
Qed.

Lemma indexByteFrom_first i c s rest :
  containsByte c s = false -> indexByteFrom i c (s +:+ String c rest) = (i + Z.of_nat (String.length s))%Z.
Proof.
  revert i. induction s as [|d s IH]; intros i; simpl.
  - intros _. rewrite bool_decide_true by done. lia.
  - intros [Hd Hs]%Bool.orb_false_iff. rewrite Hd, IH by done. lia.
Qed.

Lemma lastIndexByteFrom_absent i last c s : containsByte c s = false -> lastIndexByteFrom i last c s = last.
Proof.
  revert i. induction s as [|d s IH]; intros i; simpl; [done|].
  intros [Hd Hs]%Bool.orb_false_iff. rewrite Hd. by apply IH.
Qed.

Lemma lastIndexByteFrom_app i last c s1 s2 :
  lastIndexByteFrom i last c (s1 +:+ s2) =
  lastIndexByteFrom (i + Z.of_nat (String.length s1)) (lastIndexByteFrom i last c s1) c s2.
Proof.
  revert i last. induction s1 as [|d s1 IH]; intros i last; simpl; [by rewrite Z.add_0_r|].
  rewrite IH. f_equal. lia.
Qed.

Lemma lastIndexByteFrom_bound i last c s :
  (last < i)%Z -> (lastIndexByteFrom i last c s < i + Z.of_nat (String.length s))%Z.
Proof.
  revert i last. induction s as [|d s IH]; intros i last Hl; simpl; [lia|].
  specialize (IH (i + 1)%Z (if c ==? d then i else last)). case_bool_decide; lia.
Qed.

Lemma sliceTo_app s1 s2 : sliceTo (String.length s1) (s1 +:+ s2) = s1.
Proof. induction s1 as [|c s1 IH]; simpl; [by destruct s2|by rewrite IH]. Qed.

Lemma sliceFrom_app s1 s2 : sliceFrom (String.length s1) (s1 +:+ s2) = s2.
Proof. induction s1 as [|c s1 IH]; simpl; [by destruct s2|done]. Qed.

(** An image reference: a repository, which may name a port, a tag and a digest. *)
Definition imageReference (repository : string) (tag digest : option string) : string :=
  repository
  +:+ (match tag with Some t => String colonSign t | None => "" end)
  +:+ (match digest with Some d => String atSign d | None => "" end).

(** The part before the digest. *)
Lemma imageTag_undigested repository tag digest :
  containsByte atSign (imageReference repository tag None) = false ->
  imageTag (imageReference repository tag digest) = imageTag (imageReference repository tag None).
Proof.
  intros Hat. unfold imageTag at 2. unfold indexByte. rewrite (indexByteFrom_absent _ _ _ Hat).
  change (0 <=? -1)%Z with false. cbv iota. destruct digest as [d|].
  - unfold imageTag, indexByte.
    replace (imageReference repository tag (Some d)) with (imageReference repository tag None +:+ String atSign d)
      by (unfold imageReference; rewrite append_empty, append_assoc_string; done).
    rewrite indexByteFrom_first by done. rewrite Z.add_0_l, Nat2Z.id, sliceTo_app.
    by destruct (0 <=? Z.of_nat _)%Z eqn:Hz; [|apply Z.leb_gt in Hz; lia].
  - unfold imageTag, indexByte. rewrite (indexByteFrom_absent _ _ _ Hat). by change (0 <=? -1)%Z with false.
Qed.

(** The tag of an image reference is read back from it, with or without a
    digest; a reference without a tag has none, even when its registry names a
    port. *)
Theorem imageTag_exact registry path tag digest :
  containsByte atSign registry = false ->
  containsByte atSign path = false ->
  containsByte colonSign path = false ->
  Forall (fun c => containsByte c (default "" tag) = false) [atSign; colonSign; slashSign] ->
  imageTag (imageReference (registry +:+ String slashSign path) tag digest) = default "" tag.
Proof.
  intros Hra Hpa Hpc Ht. rewrite !Forall_cons in Ht. destruct Ht as (Hta & Htc & Hts & _).
  assert (forall c s1 s2, containsByte c (s1 +:+ s2) = containsByte c s1 || containsByte c s2) as Happ.
  { intros c s1 s2. induction s1 as [|d s1 IH]; simpl; [done|]. by rewrite IH, Bool.orb_assoc. }
  set (repository := registry +:+ String slashSign path).
  rewrite imageTag_undigested.
  2: { unfold imageReference, repository. rewrite !Happ. simpl. rewrite Hra, Hpa.
       destruct tag as [t|]; simpl; [simpl in Hta; by rewrite Hta|done]. }
  unfold imageTag, indexByte, imageReference. rewrite append_empty.
  rewrite indexByteFrom_absent.
  2: { unfold repository. rewrite !Happ. simpl. rewrite Hra, Hpa.
       destruct tag as [t|]; simpl; [simpl in Hta; by rewrite Hta|done]. }
  change (0 <=? -1)%Z with false. cbv iota. unfold lastIndexByte. destruct tag as [t|]; simpl in *.
  - rewrite !lastIndexByteFrom_app. cbn [lastIndexByteFrom]. rewrite (bool_decide_true (colonSign = colonSign)) by done.
    rewrite (bool_decide_false (slashSign = colonSign)) by done. rewrite !lastIndexByteFrom_absent by done.
    pose proof (lastIndexByteFrom_bound 0 (-1) slashSign repository) as Hb.
    destruct (_ <=? _)%Z eqn:Hle; [apply Z.leb_le in Hle; lia|].
    replace (Z.to_nat _) with (String.length (repository +:+ String colonSign "")).
    + replace (repository +:+ String colonSign t) with ((repository +:+ String colonSign "") +:+ t)
        by (by rewrite append_assoc_string). apply sliceFrom_app.
    + rewrite length_append. simpl. lia.
  - rewrite append_empty. unfold repository. rewrite !lastIndexByteFrom_app. cbn [lastIndexByteFrom].
    rewrite (bool_decide_true (slashSign = slashSign)) by done.
    rewrite (bool_decide_false (colonSign = slashSign)) by done.
    rewrite (lastIndexByteFrom_absent _ _ colonSign path) by done.
    pose proof (lastIndexByteFrom_bound 0 (-1) colonSign registry) as Hb.
    assert (0 + Z.of_nat (String.length registry) <= lastIndexByteFrom (0 + Z.of_nat (String.length registry) + 1)
      (0 + Z.of_nat (String.length registry)) slashSign path)%Z as Hs.
    { clear. generalize (0 + Z.of_nat (String.length registry))%Z as i. intros i.
      assert (forall j last, (i <= last)%Z -> (i <= j)%Z -> (i <= lastIndexByteFrom j last slashSign path)%Z) as H; [|by apply H; lia].
      induction path as [|d s IH]; intros j last Hl Hj; simpl; [done|]. apply IH; [case_bool_decide; lia|lia]. }
    destruct (_ <=? _)%Z eqn:Hle; [done|]. apply Z.leb_gt in Hle. lia.
Qed.

(** ** The order of the cleanup *)

Section CleanupOrder.
Context {M : MetaLib} {H : HookLib}.

Definition hookWrites {X} (c : HookCall X) : option Kind :=
  match c with
  | Kube (Create K _) | Kube (Update K _) | Kube (UpdateStatus K _) | Kube (Patch K _ _) | Kube (PatchStatus K _ _)
  | Kube (Delete K _) | DeleteForeground K _ => Some K
  | _ => None
  end.

Notation noPool := (fun _ c => hookWrites c <> Some KNodePool).

Lemma wp_lift {A} (pre : forall X, HookCall X -> Prop) (p : kube A) (Q : A -> Prop) :
  wp (fun X c => pre X (Kube c)) any_reply p Q -> wp pre any_reply (lift p) Q.
Proof. induction p as [a|X c k IH]; simpl; [done|]. intros [Hc Hk]. split; [done|]. intros x _. by apply IH, Hk. Qed.

Lemma exec_lift {A} (p : kube A) tr a :
  exec (lift p) tr a ->
  exists tr', exec p tr' a /\ tr = (fun e => Event (Kube (ev_call e)) (ev_reply e)) <$> tr'.
Proof.
  revert tr. induction p as [b|X c k IH]; simpl; intros tr.
  - intros [-> ->]. by exists [].
  - intros (x & tr0 & -> & (tr' & Hex & ->)%IH). exists (Event c x :: tr'). eauto.
Qed.

(** What shows that the object of a key is gone together with its dependents: it
    was not found; or the object that was found was deleted in the foreground,
    which either did not find it any more, or was accepted and followed by reads
    until it was not found or another object had its name. *)
Definition goneWithDependents (K : Kind) (key : NamespacedName) (t : list (event HookCall)) : Prop :=
  (exists err, t = [Event (Kube (Get K key)) (inl err)] /\ IsNotFound err = true) \/
  (exists o r polls, t = Event (Kube (Get K key)) (inr o) :: Event (DeleteForeground K o) r :: polls /\
     match r with
     | inl err => IsNotFound err = true
     | inr _ => exists answer, last polls = Some (Event (Kube (Get K key)) answer) /\
         match answer with inl err => IsNotFound err = true | inr o' => UID (objMeta K o') <> UID (objMeta K o) end
     end).

(** It does somewhere in an execution. *)
Definition confirmsGone (K : Kind) (key : NamespacedName) (tr : list (event HookCall)) : Prop :=
  exists before t after, tr = before ++ t ++ after /\ goneWithDependents K key t.

Lemma confirmsGone_app K key a tr b : confirmsGone K key tr -> confirmsGone K key (a ++ tr ++ b).
Proof. intros (before & t & after & -> & Ht). exists (a ++ before), t, (after ++ b). split; [by rewrite <- !app_assoc|done]. Qed.

Lemma pollUntilGone_spec K key uid tr ticks left :
  exec (pollUntilGone K key uid ticks) tr (inr left) ->
  exists answer, last tr = Some (Event (Kube (Get K key)) answer) /\
    match answer with inl err => IsNotFound err = true | inr o => UID (objMeta K o) <> uid end.
Proof.
  revert tr. induction ticks as [|ticks IH]; intros tr Hex.
  all: cbn [pollUntilGone] in Hex; apply exec_bind_inv in Hex as (tr1 & tr2 & r & -> & (x & ? & -> & -> & ->) & Hex).
  all: destruct x as [err|o']; [destruct (IsNotFound err) eqn:Hnf; [|by destruct Hex]; destruct Hex as [-> _]; by exists (inl err)|].
  all: destruct (decide (UID (objMeta K o') = uid)) as [He|He];
         [rewrite (bool_decide_true _ He) in Hex; cbn [negb] in Hex
         |rewrite (bool_decide_false _ He) in Hex; destruct Hex as [-> _]; by exists (inr o')].
  - by destruct Hex.
  - apply IH in Hex as (answer & Hlast & Hok). exists answer. split; [|done]. by rewrite last_app, Hlast.
Qed.

Lemma deleteAndWait_spec K key tr ticks left :
  exec (deleteAndWait K true key ticks) tr (inr left) -> goneWithDependents K key tr.
Proof.
  unfold deleteAndWait. intros (tr1 & tr2 & r & -> & (x & ? & -> & -> & ->) & Hex)%exec_bind_inv.
  destruct x as [err|o].
  { destruct (IsNotFound err) eqn:Hnf; [|by destruct Hex]. destruct Hex as [-> _]. left. by exists err. }
  cbv zeta in Hex. apply exec_bind_inv in Hex as (tr3 & tr4 & r & -> & (x & ? & -> & -> & ->) & Hex). right.
  exists o, x, tr4. split; [done|]. destruct x as [err|[]].
  - by destruct (IsNotFound err) eqn:Hnf; [|by destruct Hex].
  - by apply pollUntilGone_spec in Hex.
Qed.

Lemma deleteDeployments_spec namespace ds tr ticks left :
  exec (deleteDeployments namespace true ds ticks) tr (inr left) ->
  Forall (fun d => confirmsGone KDeployment (Namespace (deplMeta d), Name (deplMeta d)) tr) ds.
Proof.
  revert tr ticks. induction ds as [|d ds IH]; intros tr ticks Hex; [constructor|]. cbn [deleteDeployments] in Hex.
  apply exec_bind_inv in Hex as (tr1 & tr2 & [err|ticks'] & -> & Hd & Hex); [by destruct Hex|].
  apply deleteAndWait_spec in Hd. apply IH in Hex. constructor.
  - exists [], tr1, tr2. done.
  - eapply Forall_impl; [exact Hex|]. intros d' Hd'. rewrite <- (app_nil_r (tr1 ++ tr2)), <- app_assoc. by apply confirmsGone_app.
Qed.

Lemma deleteAndWait_noPool K foreground key ticks :
  K <> KNodePool -> wp noPool any_reply (deleteAndWait K foreground key ticks) (fun _ => True).
Proof.
  intros HK. unfold deleteAndWait. apply wp_bind, wp_call; [done|]. intros [err|o] _; [by destruct (IsNotFound err)|].
  cbv zeta. apply wp_bind. unfold deleteObject.
  assert (forall uid, wp noPool any_reply (pollUntilGone K key uid ticks) (fun _ => True)) as Hpoll.
  { intros uid. induction ticks as [|ticks IH]; cbn [pollUntilGone]; (apply wp_bind, wp_call; [done|]);
      (intros [err|o'] _; [by destruct (IsNotFound err)|]); by destruct (_ !=? _). }
  destruct foreground; (apply wp_call; [cbn; congruence|]); (intros [err|[]] _; [by destruct (IsNotFound err)|apply Hpoll]).
Qed.

Lemma deleteDeployments_noPool namespace foreground ds ticks :
  wp noPool any_reply (deleteDeployments namespace foreground ds ticks) (fun _ => True).
Proof.
  revert ticks. induction ds as [|d ds IH]; intros ticks; [done|]. cbn [deleteDeployments]. apply wp_bind.
  eapply wp_mono; [|by apply deleteAndWait_noPool]. intros [err|ticks'] _; [done|apply IH].
Qed.

Definition listDeployments (namespace : string) : HookCall (result (list (obj KDeployment))) :=
  Kube (List KDeployment {| loNamespace := namespace; loLabelSelector := [];
    loMatchingLabels := {[ OperatorManagedByLabelKey := OperatorManagedByLabelValue ]}; loFieldSelector := None |}).

Definition listAdopted : HookCall (result (list (obj KSchedulingShard))) :=
  Kube (List KSchedulingShard {| loNamespace := ""; loLabelSelector := [];
    loMatchingLabels := {[ AdoptionLabelKey := AdoptionLabelValue ]}; loFieldSelector := None |}).

(** The shard needed no release, or was released or gone. *)
Definition releasedIn (tr : list (event HookCall)) (shard : SchedulingShard) : Prop :=
  releaseSchedulingShard shard = None \/
  exists shard' reply, releaseSchedulingShard shard = Some shard' /\
    Event (Kube (Patch KSchedulingShard shard shard')) reply ∈ tr /\
    match reply with inl err => IsNotFound err = true | inr _ => True end.

Lemma patchIfChanged_spec K (original : obj K) mutated tr :
  exec (patchIfChanged K original mutated) tr (inr tt) ->
  match mutated with
  | None => True
  | Some o => exists reply, Event (Patch K original o) reply ∈ tr /\
      match reply with inl err => IsNotFound err = true | inr _ => True end
  end.
Proof.
  unfold patchIfChanged. destruct mutated as [o|]; [|done].
  intros (tr1 & tr2 & r & -> & (x & ? & -> & -> & ->) & Hex)%exec_bind_inv. exists x.
  split; [set_solver|]. destruct x as [err|o']; [|done]. destruct Hex as [_ Hex].
  unfold IgnoreNotFound in Hex. by destruct (IsNotFound err).
Qed.

Lemma release_spec tr :
  exec (lift releaseAdoptedSchedulingShards) tr (inr tt) ->
  exists r, Event listAdopted r ∈ tr /\
    match r with inl err => IsNoMatchError err = true | inr shards => Forall (releasedIn tr) shards end.
Proof.
  intros (tr' & Hex & ->)%exec_lift. unfold releaseAdoptedSchedulingShards in Hex.
  apply exec_bind_inv in Hex as (tr1 & tr2 & r & -> & (x & ? & -> & -> & ->) & Hex). exists x.
  split; [rewrite fmap_app; apply elem_of_app; left; by left|].
  destruct x as [err|shards]; [destruct (IsNoMatchError err); [done|by destruct Hex]|].
  apply exec_forEach_ok in Hex as (trs & -> & Htrs). apply Forall_forall. intros shard Hin.
  apply list_elem_of_lookup in Hin as [i Hi]. destruct (Forall2_lookup_l _ _ _ _ _ Htrs Hi) as (t & Ht & Hex).
  apply exec_bind_inv in Hex as (t1 & t2 & r & -> & Hp & Hex). destruct r as [err|[]]; [by destruct Hex|].
  apply patchIfChanged_spec in Hp. unfold releasedIn. destruct (releaseSchedulingShard shard) as [shard'|]; [|by left].
  right. destruct Hp as (reply & Hin & Hok). exists shard', reply. split_and!; [done| |done].
  apply list_elem_of_fmap. exists (Event (Patch KSchedulingShard shard shard') reply). split; [done|].
  apply elem_of_app. right. apply list_elem_of_In, in_concat. exists (t1 ++ t2).
  split; apply list_elem_of_In; [by eapply list_elem_of_lookup_2|set_solver].
Qed.

Lemma release_noPool : wp noPool any_reply (lift releaseAdoptedSchedulingShards) (fun _ => True).
Proof.
  apply wp_lift. unfold releaseAdoptedSchedulingShards. apply wp_bind, wp_call; [done|].
  intros [err|shards] _; [by destruct (IsNoMatchError err)|]. apply wp_forEach; [|done]. intros shard _. apply wp_bind.
  unfold patchIfChanged. destruct (releaseSchedulingShard shard); [|done]. apply wp_bind, wp_call; [done|].
  intros [err|o] _; [|done]. unfold IgnoreNotFound. by destruct (IsNotFound err).
Qed.

Lemma releasedIn_mono tr tr' shard : tr ⊆ tr' -> releasedIn tr shard -> releasedIn tr' shard.
Proof. intros Hsub [?|(shard' & reply & ? & ? & ?)]; [by left|right; eauto 10]. Qed.

Lemma deployments_spec namespace ticks tr left :
  exec (deleteOperatorManagedDeployments namespace true ticks) tr (inr left) ->
  exists ds, Event (listDeployments namespace) (inr ds) ∈ tr /\
    Forall (fun d => confirmsGone KDeployment (Namespace (deplMeta d), Name (deplMeta d)) tr) ds.
Proof.
  unfold deleteOperatorManagedDeployments. intros (tr1 & tr2 & r & -> & (x & ? & -> & -> & ->) & Hex)%exec_bind_inv.
  destruct x as [err|ds]; [by destruct Hex|]. exists ds. split; [by left|].
  apply deleteDeployments_spec in Hex. eapply Forall_impl; [exact Hex|].
  intros d Hd. rewrite <- (app_nil_r ([_] ++ tr2)), <- app_assoc. by apply confirmsGone_app.
Qed.

Lemma deployments_noPool namespace foreground ticks :
  wp noPool any_reply (deleteOperatorManagedDeployments namespace foreground ticks) (fun _ => True).
Proof.
  unfold deleteOperatorManagedDeployments. apply wp_bind, wp_call; [done|].
  intros [err|ds] _; [done|apply deleteDeployments_noPool].
Qed.

(** A part of an execution that writes no node pool lies before the write. *)
Lemma noPool_before {A} (p : hook A) a l l' tr1 e tr2 :
  wp noPool any_reply p (fun _ => True) -> exec p l a ->
  hookWrites (ev_call e) = Some KNodePool -> l ++ l' = tr1 ++ e :: tr2 -> exists k, tr1 = l ++ k /\ l' = k ++ e :: tr2.
Proof.
  intros Hwp Hex He Heq. destruct (wp_exec_any _ _ _ _ _ Hwp Hex) as [Hno _].
  destruct (split_after (fun e : event HookCall => hookWrites (ev_call e) <> Some KNodePool) l l' tr1 tr2 e) as (k & -> & _);
    [done|exact Hno|by intros Hn; apply Hn|]. exists k. split; [done|]. rewrite <- app_assoc in Heq. by apply app_inv_head in Heq.
Qed.

Lemma deleteConfig_noPool name ticks : wp noPool any_reply (deleteConfig name ticks) (fun _ => True).
Proof.
  unfold deleteConfig. destruct (name ==? ""); [done|]. apply wp_bind. eapply wp_mono; [|by apply deleteAndWait_noPool].
  intros [err|left] _; [by destruct (IsNoMatchError err)|done].
Qed.

(** A cleanup that writes to a node pool was asked to remove a finalizer. *)
Lemma cleanup_finalizer opts ticks tr r tr1 e tr2 :
  exec (Cleanup opts ticks) tr r -> tr = tr1 ++ e :: tr2 -> hookWrites (ev_call e) = Some KNodePool ->
  NodePoolFinalizer opts <> "".
Proof.
  intros Hex -> He Hempty. assert (wp noPool any_reply (Cleanup opts ticks) (fun _ => True)) as Hno.
  { unfold Cleanup. cbv zeta. rewrite Hempty, (bool_decide_true (_ = _)) by done. cbn [negb].
    apply wp_bind. eapply wp_mono; [|apply deployments_noPool]. intros [err|left] _; [done|]. cbn [prog_bind_].
    apply wp_bind. eapply wp_mono with (Q := fun _ => True);
      [|destruct (ReleaseAdoptedSchedulingShards opts); [apply release_noPool|done]].
    intros [err|[]] _; [done|]. cbn [prog_bind_]. apply deleteConfig_noPool. }
  destruct (wp_exec_any _ _ _ _ _ Hno Hex) as [Hall _]. rewrite Forall_forall in Hall.
  apply (Hall e); [set_solver|done].
Qed.

(** C36: The cleanup writes to a node pool only when the controllers that act on
    node pools are gone and, if it is to release what they adopted, that is
    released.  Before the first such write the deployments of the operator were
    listed; each of them was not found, or was deleted in the foreground, which
    takes its pods along, and then read until it was not found any more or had
    been replaced by another one.  When the adopted scheduling shards are to be
    released, they were listed before, and each of them was released, gone or had
    nothing to release. *)
Theorem cleanup_order opts ticks tr r tr1 e tr2 :
  exec (Cleanup opts ticks) tr r ->
  tr = tr1 ++ e :: tr2 ->
  hookWrites (ev_call e) = Some KNodePool ->
  (exists ds, Event (listDeployments (cleanupNamespace opts)) (inr ds) ∈ tr1 /\
     Forall (fun d => confirmsGone KDeployment (Namespace (deplMeta d), Name (deplMeta d)) tr1) ds) /\
  (ReleaseAdoptedSchedulingShards opts = true ->
   exists reply, Event listAdopted reply ∈ tr1 /\
     match reply with inl err => IsNoMatchError err = true | inr shards => Forall (releasedIn tr1) shards end).
Proof.
  intros Hex Htr He. pose proof (cleanup_finalizer _ _ _ _ _ _ _ Hex Htr He) as Hfin. subst tr.
  unfold Cleanup in Hex. cbv zeta in Hex. rewrite (bool_decide_false _ Hfin), orb_true_r in Hex.
  apply exec_try_inv in Hex as [(err & Hd & _)|(trA & rest & left & Heq & Hd & Hex)].
  { destruct (noPool_before _ _ _ [] tr1 e tr2 (deployments_noPool _ _ _) Hd He (app_nil_r _)) as (k & _ & Hk).
    by destruct k. }
  destruct (noPool_before _ _ _ rest tr1 e tr2 (deployments_noPool _ _ _) Hd He (eq_sym Heq)) as (k & -> & ->).
  apply deployments_spec in Hd as (ds & Hds & Hgone). split.
  { exists ds. split; [set_solver|]. eapply Forall_impl; [exact Hgone|]. intros d. exact (confirmsGone_app _ _ [] trA k). }
  intros Hrel. rewrite Hrel in Hex.
  apply exec_try_inv in Hex as [(err & Hr & _)|(trB & rest & [] & Heq' & Hr & Hex)].
  { destruct (noPool_before _ _ _ [] k e tr2 release_noPool Hr He (app_nil_r _)) as (k' & _ & Hk). by destruct k'. }
  destruct (noPool_before _ _ _ rest k e tr2 release_noPool Hr He (eq_sym Heq')) as (k' & -> & ->).
  apply release_spec in Hr as (reply & Hin & Hok). exists reply. split; [set_solver|].
  destruct reply as [err|shards]; [done|]. eapply Forall_impl; [exact Hok|]. intros shard. apply releasedIn_mono. set_solver.
Qed.

End CleanupOrder.

(** ** Concrete clusters *)

Module HookDemo.
Import MigrateFacts.Demo.
#[local] Existing Instances demoMeta demoScheduler demoFloats demoNames demoMigration.

(** The in-memory server; a foreground delete is immediate, every manifest is
    applied, and there are no files. *)
Definition hookServer : handler HookCall store := fun X c =>
  match c in HookCall X return store -> X * store with
  | Kube c => fun s => memServer _ c s
  | DeleteForeground K o => fun s => memServer _ (Delete K o) s
  | Apply _ _ => fun s => (inr tt, s)
  | ReadFile path => fun s => (inl (Errorf "no such file: %s" [path]), s)
  | NewClient => fun s => (inr tt, s)
  end.

#[local] Instance demoHooks : HookLib := {|
  yamlToJSON := inr; unmarshalManifest := fun s => inr {| manifestKind := "KRMConfig"; manifestName := s; manifestBody := "" |};
  embeddedCRDs := inr [("crd.yaml", false, inr "crd")]; unmarshalStringMap := fun _ => inr ∅;
  unmarshalNodePoolSpec := fun _ => inr emptyNodePoolSpec; DefaultNodePoolNameConstant := "default";
  ContextCanceled := Errorf "context canceled" [] |}.

Definition demoVersions : gmap string (Z * Z * Z) :=
  {[ "v0.18.0" := (0, 18, 0)%Z; "v0.17.2" := (0, 17, 2)%Z; "0.0.0-abc" := (0, 0, 0)%Z ]}.

#[local] Instance demoVersionLib : VersionLib := {|
  Version := Z * Z * Z; ParseSemantic := fun s => demoVersions !! s; versionNumbers := id;
  AtLeast := fun a b => let '(x, y, z) := a in let '(x', y', z') := b in
    ((x' <? x) || ((x =? x') && ((y' <? y) || ((y =? y') && (z' <=? z)))))%Z |}.

Definition demoAdopted : ObjectMeta :=
  meta_with_owners (fun owners => owners ++
    [{| OwnerAPIVersion := "kai.resources/v1alpha1"; OwnerKind := "NodePool"; OwnerName := "train";
        OwnerUID := ""; OwnerController := Some true; OwnerBlockOwnerDeletion := Some true |}]) (shardMeta demoShard).

Lemma release_undoes_adoption_witness :
  releaseSchedulingShard (shard_with_meta (fun _ => adoptedMeta demoShard demoAdopted) demoShard) = Some demoShard.
Proof.
  refine (release_undoes_adoption demoMigratedPool demoShard demoAdopted _ _ _ eq_refl _ _ _).
  - vm_compute. reflexivity.
  - vm_compute. reflexivity.
  - vm_compute. reflexivity.
  - vm_compute. reflexivity.
  - discriminate.
Defined.

Lemma imageTag_exact_witness :
  imageTag (imageReference ("registry:5000" +:+ String slashSign "kai-operator") (Some "v0.18.0") (Some "sha256:ab")) = "v0.18.0".
Proof.
  apply (imageTag_exact "registry:5000" "kai-operator" (Some "v0.18.0") (Some "sha256:ab")); try reflexivity.
  repeat (apply Forall_cons; split); [reflexivity..|apply Forall_nil; exact I].
Defined.

Definition demoContainer (image : string) : Container :=
  {| cName := "operator"; cImage := image; cImagePullPolicy := ""; cResources := ""; cSecurityContext := None;
     cEnv := []; cArgs := []; cPorts := []; cVolumeMounts := []; cOther := "" |}.

Definition demoDeployment (namespace name image : string) : Deployment :=
  {| deplMeta := {| Name := name; Namespace := namespace; UID := "uid-" +:+ name;
                    Labels := {[ OperatorManagedByLabelKey := OperatorManagedByLabelValue ]}; Annotations := ∅;
                    OwnerReferences := []; Finalizers := []; DeletionTimestamp := None; ResourceVersion := ""; Generation := 0 |};
     deplReplicas := None; deplSelector := None;
     deplTemplate := {| ptLabels := ∅; ptServiceAccountName := ""; ptNodeSelector := ∅; ptTolerations := [];
                        ptPriorityClassName := ""; ptAffinity := None; ptContainers := [demoContainer image];
                        ptImagePullSecrets := []; ptVolumes := []; ptTerminationGracePeriodSeconds := None; ptOther := "" |};
     deplOther := ""; UpdatedReplicas := 0; deplConditions := [] |}.

Definition demoKaiConfig : KaiConfig :=
  {| kcMeta := named "kai-config"; kcNamespace := "kai"; kcGlobal := None; kcConditions := [] |}.

Definition oldScheduler : store :=
  store_add (K := KDeployment) (demoDeployment "kai" "kai-operator" "registry:5000/kai-operator:v0.17.2") emptyStore.

Lemma version_checks_agree_witness :
  exists reply,
    exec (operatorVersionTag true "kai") (run_trace memServer (unsupportedVersionMessage "v0.18.0" demoKaiConfig) oldScheduler) reply.
Proof.
  destruct (version_checks_agree (V := demoVersionLib) "v0.18.0" (0, 18, 0)%Z "flag" demoKaiConfig
    (run_trace memServer (unsupportedVersionMessage "v0.18.0" demoKaiConfig) oldScheduler)
    (run memServer (unsupportedVersionMessage "v0.18.0" demoKaiConfig) oldScheduler).1) as (reply & Hex & _).
  - discriminate.
  - vm_compute. reflexivity.
  - apply run_exec.
  - exists reply. exact Hex.
Defined.

Definition demoCleanup : CleanupOptions :=
  {| cleanupNamespace := "krm"; ConfigName := ""; ReleaseAdoptedSchedulingShards := true;
     NodePoolFinalizer := "nodepool.kai.resources/finalize" |}.

Definition cleanupStore : store :=
  store_add (K := KDeployment) (demoDeployment "krm" "nodepool-controller" "image")
    (store_add (K := KSchedulingShard) (shard_with_meta (fun _ => adoptedMeta demoShard demoAdopted) demoShard)
      (store_add (K := KNodePool)
        (nodePool_with_finalizers (fun _ => ["nodepool.kai.resources/finalize"]) demoMigratedPool) emptyStore)).

Definition demoCleanupTrace : list (event HookCall) := run_trace hookServer (Cleanup demoCleanup 3) cleanupStore.

(** The index of the write to the node pool in the execution. *)
Definition poolWrite : nat :=
  match list_find (fun e : event HookCall => hookWrites (ev_call e) = Some KNodePool) demoCleanupTrace with
  | Some (i, _) => i
  | None => 0
  end.

Lemma cleanup_order_witness :
  exists ds, Event (listDeployments "krm") (inr ds) ∈ take poolWrite demoCleanupTrace /\
    Forall (fun d => confirmsGone KDeployment (Namespace (deplMeta d), Name (deplMeta d)) (take poolWrite demoCleanupTrace)) ds.
Proof.
  assert (exists e, demoCleanupTrace !! poolWrite = Some e /\ hookWrites (ev_call e) = Some KNodePool) as (e & Hi & He).
  { unfold poolWrite. destruct (list_find _ _) as [[i e]|] eqn:Hf.
    - apply list_find_Some in Hf as (Hi & He & _). exists e. split; [exact Hi|exact He].
    - exfalso. assert (match list_find (fun e : event HookCall => hookWrites (ev_call e) = Some KNodePool) demoCleanupTrace with
        Some _ => true | None => false end = true) as Hs by (vm_compute; reflexivity). rewrite Hf in Hs. discriminate. }
  destruct (cleanup_order demoCleanup 3 demoCleanupTrace (run hookServer (Cleanup demoCleanup 3) cleanupStore).1
    (take poolWrite demoCleanupTrace) e (drop (S poolWrite) demoCleanupTrace)) as [Hds _].
  - apply run_exec.
  - symmetry. apply take_drop_middle. exact Hi.
  - exact He.
  - exact Hds.
Defined.

End HookDemo.
