(* ===== verification/OperatorConfig.v ===== *)
(** * Defaults of the installation's configuration

    [pkg/operator/config]: what the operator fills into a KRMConfig before it
    acts on it.  A pointer field is an [option]; the texts of resource lists and
    of the security context are opaque. *)

From stdpp Require Import base list gmap strings.
From S2P Require Import Prelude ApiTypes.

(** What the code uses of the scheduler's API module: [kaicommon.SetDefault], the
    defaults of a service (by the name of its image) and of a VPA, the reference
    of an image and the security context of the global section. *)
Class KaiCommon := {
  SetDefault : forall {A : Type}, option A -> option A -> option A;
  serviceDefaults : string -> ServiceConfig -> ServiceConfig;
  vpaDefaults : VPASpec -> VPASpec;
  imageUrl : ImageSpec -> string;
  GetSecurityContext : GlobalConfig -> option string;
}.

Definition FallbackNamespace := "kai-resource-management".
Definition NodePoolControllerImageName := "nodepool-controller".
Definition ProjectControllerImageName := "project-controller".
Definition PodGroupAssignerImageName := "pod-group-assigner".
Definition DefaultNodePoolNameValue := "default".
Definition DefaultClientQPS : Z := 50.
Definition DefaultClientBurst : Z := 300.
Definition metricsPortName := "metrics".
Definition metricsPort : Z := 9400.
Definition webhookPortName := "webhook".
Definition webhookPort : Z := 443.
Definition webhookTargetPort : Z := 8443.
Definition NodePoolControllerCertSecretName := "nodepool-controller-tls-secret".
Definition nodePoolMetricsPortName := "np-metrics".
Definition nodePoolMetricsPort : Z := 8080.
Definition nodePoolMetricsTargetPort : Z := 8080.
Definition ProjectControllerCertSecretName := "project-controller-tls-secret".
Definition projectControllerProfilerAPIPort : Z := 8182.
Definition PodGroupAssignerCertSecretName := "pod-group-assigner-tls-secret".
Definition FipsModeOff := "off".
Definition FipsModeOn := "on".
Definition FipsModeOnly := "only".

Section Defaults.
Context {KC : KaiCommon}.

(** The default is a fresh pointer to a value. *)
Definition setTo {A} (value : option A) (d : A) : option A := SetDefault value (Some d).

(** The namespace of the operator's pod, from its environment. *)
Definition OperatorNamespace (podNamespace : string) : string :=
  if podNamespace !=? "" then podNamespace else FallbackNamespace.

Definition emptyGlobal : GlobalConfig :=
  {| gReplicaCount := None; gOpenshift := None; gFipsMode := None; gRequireDefaultPodAntiAffinityTerm := None;
     gSecurityContext := None; gLeaderElection := None; gDefaultNodePoolName := None; gVPA := None;
     gServiceMonitor := None; gNodeSelector := ∅; gTolerations := []; gPriorityClassName := None; gAffinity := None;
     gImagePullSecrets := []; gNodePoolLabelKey := None; gSchedulerName := None; gFinalizerDomain := None;
     gQueueLabelKey := None; gEnforceSchedulerAnnotationKey := None; gNamespaceProjectLabelKey := None;
     gProjectLabelKey := None; gAllowExternalQueues := None |}.

(** Not privileged, not root, user 10000, every capability dropped. *)
Definition defaultSecurityContext :=
  "allowPrivilegeEscalation=false,runAsNonRoot=true,runAsUser=10000,drop=all".

Definition setServiceMonitorDefaults (serviceMonitor : option ServiceMonitorToggles) : option ServiceMonitorToggles :=
  match setTo serviceMonitor {| stEnabled := None; stAccounting := None |} with
  | None => None
  | Some s => Some {| stEnabled := setTo (stEnabled s) true; stAccounting := setTo (stAccounting s) true |}
  end.

Definition setGlobalDefaults (global : GlobalConfig) : GlobalConfig :=
  {| gReplicaCount := setTo (gReplicaCount global) 1%Z;
     gOpenshift := setTo (gOpenshift global) false;
     gFipsMode := setTo (gFipsMode global) FipsModeOff;
     gRequireDefaultPodAntiAffinityTerm := setTo (gRequireDefaultPodAntiAffinityTerm global) false;
     gSecurityContext := setTo (gSecurityContext global) defaultSecurityContext;
     gLeaderElection := setTo (gLeaderElection global) false;
     gDefaultNodePoolName := setTo (gDefaultNodePoolName global) DefaultNodePoolNameValue;
     gVPA := vpaDefaults <$> setTo (gVPA global) {| vsEnabled := None; vsUpdatePolicy := None; vsResourcePolicy := None |};
     gServiceMonitor := setServiceMonitorDefaults (gServiceMonitor global);
     gNodeSelector := gNodeSelector global; gTolerations := gTolerations global;
     gPriorityClassName := gPriorityClassName global; gAffinity := gAffinity global;
     gImagePullSecrets := gImagePullSecrets global; gNodePoolLabelKey := gNodePoolLabelKey global;
     gSchedulerName := gSchedulerName global; gFinalizerDomain := gFinalizerDomain global;
     gQueueLabelKey := gQueueLabelKey global;
     gEnforceSchedulerAnnotationKey := gEnforceSchedulerAnnotationKey global;
     gNamespaceProjectLabelKey := gNamespaceProjectLabelKey global; gProjectLabelKey := gProjectLabelKey global;
     gAllowExternalQueues := gAllowExternalQueues global |}.

Definition setPortMappingDefaults (portMapping : option PortMapping) (name : string) (port targetPort : Z)
    : option PortMapping :=
  match setTo portMapping {| pmName := None; pmPort := None; pmTargetPort := None |} with
  | None => None
  | Some p => Some {| pmName := setTo (pmName p) name; pmPort := setTo (pmPort p) port;
                      pmTargetPort := setTo (pmTargetPort p) targetPort |}
  end.

Definition resources (cpuLimit memoryLimit cpuRequest memoryRequest : string) : string :=
  "limits(cpu=" +:+ cpuLimit +:+ ",memory=" +:+ memoryLimit +:+ "),requests(cpu=" +:+ cpuRequest +:+
  ",memory=" +:+ memoryRequest +:+ ")".

Definition nodePoolControllerResources := resources "900m" "1Gi" "450m" "512Mi".
Definition projectControllerResources := resources "300m" "2Gi" "150m" "1Gi".
Definition podGroupAssignerResources := resources "200m" "512Mi" "100m" "256Mi".

Definition setClientDefaults (client : option K8sClientConfig) : option K8sClientConfig :=
  match setTo client {| QPS := None; Burst := None |} with
  | None => None
  | Some c => Some {| QPS := setTo (QPS c) DefaultClientQPS; Burst := setTo (Burst c) DefaultClientBurst |}
  end.

Definition emptyService : ServiceConfig :=
  {| svEnabled := None; svImage := None; svResources := None; svK8sClientConfig := None; svAffinity := None |}.

Definition setServiceDefaults (service : option ServiceConfig) (imageName defaultResources : string)
    : option ServiceConfig :=
  match setTo service emptyService with
  | None => None
  | Some s =>
      Some (serviceDefaults imageName
        {| svEnabled := svEnabled s; svImage := svImage s;
           svResources := setTo (svResources s) defaultResources;
           svK8sClientConfig := setClientDefaults (svK8sClientConfig s);
           svAffinity := svAffinity s |})
  end.

Definition emptyPorts : ControllerServiceConfig :=
  {| csMetrics := None; csNodePoolMetrics := None; csWebhook := None |}.

(** ** The node pool controller *)

Definition setNodePoolControllerWebhookDefaults (webhooks : NodePoolControllerWebhooks) : NodePoolControllerWebhooks :=
  {| nwEnableNodePoolValidation := setTo (nwEnableNodePoolValidation webhooks) true;
     nwCertSecretName := setTo (nwCertSecretName webhooks) NodePoolControllerCertSecretName |}.

Definition emptyNodePoolControllerArgs : NodePoolControllerArgs :=
  {| naMetricsNamespace := None; naDcgmExporterNamespace := None; naSchedulingShardArgs := None;
     naExcludedNodepoolName := None; naManagedNodesConfigName := None; naToExcludeLabel := None;
     naUnschedulableLabel := None; naGroveTopologyAnnotation := None; naGroveTopologyResourceVersionAnnotation := None;
     naSchedulerNamespace := None; naDebug := None; naLeaderElect := None |}.

Definition setNodePoolControllerDefaults (c : NodePoolControllerSpec) (global : GlobalConfig) : NodePoolControllerSpec :=
  {| ncService := setServiceDefaults (ncService c) NodePoolControllerImageName nodePoolControllerResources;
     ncReplicas := SetDefault (ncReplicas c) (gReplicaCount global);
     ncVPA := SetDefault (ncVPA c) (gVPA global);
     ncControllerService :=
       (fun s => {| csMetrics := setPortMappingDefaults (csMetrics s) metricsPortName metricsPort metricsPort;
                    csNodePoolMetrics := setPortMappingDefaults (csNodePoolMetrics s)
                      nodePoolMetricsPortName nodePoolMetricsPort nodePoolMetricsTargetPort;
                    csWebhook := setPortMappingDefaults (csWebhook s) webhookPortName webhookPort webhookTargetPort |})
       <$> setTo (ncControllerService c) emptyPorts;
     ncWebhooks := setNodePoolControllerWebhookDefaults
       <$> setTo (ncWebhooks c) {| nwEnableNodePoolValidation := None; nwCertSecretName := None |};
     ncArgs := setTo (ncArgs c) emptyNodePoolControllerArgs;
     ncExtraArgs := ncExtraArgs c |}.

(** ** The project controller *)

Definition setProjectControllerWebhookDefaults (webhooks : ProjectControllerWebhooks) : ProjectControllerWebhooks :=
  {| pwEnableProjectValidation := setTo (pwEnableProjectValidation webhooks) true;
     pwEnableDepartmentValidation := setTo (pwEnableDepartmentValidation webhooks) true;
     pwCertSecretName := setTo (pwCertSecretName webhooks) ProjectControllerCertSecretName |}.

Definition setProjectControllerFeatureDefaults (features : ProjectControllerFeatures) : ProjectControllerFeatures :=
  {| CreateNamespaces := setTo (CreateNamespaces features) true;
     CreateRoleBindings := setTo (CreateRoleBindings features) true;
     featLimitRange := setTo (featLimitRange features) false |}.

Definition setProfilingDefaults (profiling : Profiling) : Profiling :=
  {| profEnabled := setTo (profEnabled profiling) false;
     profAPIPort := setTo (profAPIPort profiling) projectControllerProfilerAPIPort |}.

Definition emptyProjectControllerArgs : ProjectControllerArgs :=
  {| paProjectNamePrefix := None; paProjectIDLabelKey := None; paQueueDepartmentNameLabelKey := None;
     paNamespaceVersionLabelKey := None; paResourceManualOverrideLabelKey := None; paLimitRangeName := None;
     paDebug := None; paLeaderElect := None |}.

Definition setProjectControllerDefaults (c : ProjectControllerSpec) (global : GlobalConfig) : ProjectControllerSpec :=
  {| pcService := setServiceDefaults (pcService c) ProjectControllerImageName projectControllerResources;
     pcReplicas := SetDefault (pcReplicas c) (gReplicaCount global);
     pcVPA := SetDefault (pcVPA c) (gVPA global);
     pcControllerService :=
       (fun s => {| csMetrics := setPortMappingDefaults (csMetrics s) metricsPortName metricsPort metricsPort;
                    csNodePoolMetrics := csNodePoolMetrics s;
                    csWebhook := setPortMappingDefaults (csWebhook s) webhookPortName webhookPort webhookTargetPort |})
       <$> setTo (pcControllerService c) emptyPorts;
     pcWebhooks := setProjectControllerWebhookDefaults
       <$> setTo (pcWebhooks c)
             {| pwEnableProjectValidation := None; pwEnableDepartmentValidation := None; pwCertSecretName := None |};
     pcFeatures := setProjectControllerFeatureDefaults
       <$> setTo (pcFeatures c) {| CreateNamespaces := None; CreateRoleBindings := None; featLimitRange := None |};
     pcProfiling := setProfilingDefaults <$> setTo (pcProfiling c) {| profEnabled := None; profAPIPort := None |};
     pcArgs := setTo (pcArgs c) emptyProjectControllerArgs;
     pcRoleBindingsConfigMapName := pcRoleBindingsConfigMapName c;
     pcExtraProjectRoleBindings := pcExtraProjectRoleBindings c;
     pcDeleteBlockers := pcDeleteBlockers c;
     pcExtraArgs := pcExtraArgs c |}.

(** ** The pod group assigner *)

Definition setPodGroupAssignerWebhookDefaults (webhooks : PodGroupAssignerWebhooks) : PodGroupAssignerWebhooks :=
  {| gwEnablePodWebhook := setTo (gwEnablePodWebhook webhooks) true;
     gwCertSecretName := setTo (gwCertSecretName webhooks) PodGroupAssignerCertSecretName |}.

Definition emptyPodGroupAssignerArgs : PodGroupAssignerArgs :=
  {| gaUnexistingNodepoolSentinel := None; gaAnnotationNodepoolsKey := None; gaDebug := None; gaLeaderElect := None |}.

Definition setPodGroupAssignerDefaults (c : PodGroupAssignerSpec) (global : GlobalConfig) : PodGroupAssignerSpec :=
  {| gaService := setServiceDefaults (gaService c) PodGroupAssignerImageName podGroupAssignerResources;
     gaReplicas := SetDefault (gaReplicas c) (gReplicaCount global);
     gaVPA := SetDefault (gaVPA c) (gVPA global);
     gaControllerService :=
       (fun s => {| csMetrics := csMetrics s; csNodePoolMetrics := csNodePoolMetrics s;
                    csWebhook := setPortMappingDefaults (csWebhook s) webhookPortName webhookPort webhookTargetPort |})
       <$> setTo (gaControllerService c) emptyPorts;
     gaWebhooks := setPodGroupAssignerWebhookDefaults
       <$> setTo (gaWebhooks c) {| gwEnablePodWebhook := None; gwCertSecretName := None |};
     gaArgs := setTo (gaArgs c) emptyPodGroupAssignerArgs;
     gaExtraArgs := gaExtraArgs c |}.

(** ** The whole configuration *)

Definition emptyNodePoolController : NodePoolControllerSpec :=
  {| ncService := None; ncReplicas := None; ncVPA := None; ncControllerService := None; ncWebhooks := None;
     ncArgs := None; ncExtraArgs := [] |}.
Definition emptyProjectController : ProjectControllerSpec :=
  {| pcService := None; pcReplicas := None; pcVPA := None; pcControllerService := None; pcWebhooks := None;
     pcFeatures := None; pcProfiling := None; pcArgs := None; pcRoleBindingsConfigMapName := None;
     pcExtraProjectRoleBindings := []; pcDeleteBlockers := []; pcExtraArgs := [] |}.
Definition emptyPodGroupAssigner : PodGroupAssignerSpec :=
  {| gaService := None; gaReplicas := None; gaVPA := None; gaControllerService := None; gaWebhooks := None;
     gaArgs := None; gaExtraArgs := [] |}.

Definition SetDefaultsWhereNeeded (podNamespace : string) (spec : KRMConfigSpec) : KRMConfigSpec :=
  let global := setGlobalDefaults (default emptyGlobal (setTo (krmGlobal spec) emptyGlobal)) in
  {| krmNamespace := if String.length (krmNamespace spec) ==? 0 then OperatorNamespace podNamespace else krmNamespace spec;
     krmGlobal := Some global;
     krmNodePoolController := (fun c => setNodePoolControllerDefaults c global)
       <$> setTo (krmNodePoolController spec) emptyNodePoolController;
     krmProjectController := (fun c => setProjectControllerDefaults c global)
       <$> setTo (krmProjectController spec) emptyProjectController;
     krmPodGroupAssigner := (fun c => setPodGroupAssignerDefaults c global)
       <$> setTo (krmPodGroupAssigner spec) emptyPodGroupAssigner |}.

End Defaults.
