(* ===== verification/Operands.v ===== *)
(** * The objects the operator installs

    [pkg/operator/operands]: the objects of the three services, built from the
    live object and the configuration ([common/common.go], [common/vpa.go] and
    the [resources.go] and [config_maps.go] of each operand).  A nil pointer that
    is dereferenced is the error [nilDereference]. *)

From stdpp Require Import base list gmap strings pretty.
From S2P Require Import Prelude ApiTypes OperatorConfig GoFlags Dependencies.

(** ** Objects of any of the installed kinds *)

Inductive Object :=
| ODeployment (o : Deployment)
| OServiceAccount (o : ServiceAccount)
| OService (o : ServiceObj)
| OConfigMap (o : ConfigMap)
| OServiceMonitor (o : ServiceMonitor)
| OVPA (o : VerticalPodAutoscaler).
#[export] Instance Object_eq_dec : EqDecision Object.
Proof. solve_decision. Defined.

Definition objectMeta (object : Object) : ObjectMeta :=
  match object with
  | ODeployment o => deplMeta o
  | OServiceAccount o => saMeta o
  | OService o => svcMeta o
  | OConfigMap o => cmMeta o
  | OServiceMonitor o => smMeta o
  | OVPA o => vpaMeta o
  end.

Definition object_with_meta (f : ObjectMeta -> ObjectMeta) (object : Object) : Object :=
  match object with
  | ODeployment o =>
      ODeployment {| deplMeta := f (deplMeta o); deplReplicas := deplReplicas o; deplSelector := deplSelector o;
                     deplTemplate := deplTemplate o; deplOther := deplOther o; UpdatedReplicas := UpdatedReplicas o;
                     deplConditions := deplConditions o |}
  | OServiceAccount o => OServiceAccount {| saMeta := f (saMeta o); saOther := saOther o |}
  | OService o =>
      OService {| svcMeta := f (svcMeta o); svcSelector := svcSelector o; svcPorts := svcPorts o; svcType := svcType o;
                  svcOther := svcOther o |}
  | OConfigMap o => OConfigMap {| cmMeta := f (cmMeta o); cmData := cmData o |}
  | OServiceMonitor o => OServiceMonitor {| smMeta := f (smMeta o); smSpec := smSpec o |}
  | OVPA o =>
      OVPA {| vpaMeta := f (vpaMeta o); vpaTargetRef := vpaTargetRef o; vpaUpdatePolicy := vpaUpdatePolicy o;
              vpaResourcePolicy := vpaResourcePolicy o; vpaOther := vpaOther o; vpaStatus := vpaStatus o |}
  end.

(** The kind of the object, as its group, version and kind name. *)
Definition kindName (object : Object) : string :=
  match object with
  | ODeployment _ => "Deployment"
  | OServiceAccount _ => "ServiceAccount"
  | OService _ => "Service"
  | OConfigMap _ => "ConfigMap"
  | OServiceMonitor _ => "ServiceMonitor"
  | OVPA _ => "VerticalPodAutoscaler"
  end.

Definition groupVersion (object : Object) : string :=
  match object with
  | ODeployment _ => "apps/v1"
  | OServiceAccount _ | OService _ | OConfigMap _ => "/v1"
  | OServiceMonitor _ => "monitoring.coreos.com/v1"
  | OVPA _ => "autoscaling.k8s.io/v1"
  end.

(** [reader.Get(ctx, key, object)]: the object of the same kind under the key. *)
Definition readAs {K : Kind} (wrap : obj K -> Object) (key : NamespacedName) : kube (result Object) :=
  r <- call (Get K key) ;;
  Ret match r with inl err => inl err | inr o => inr (wrap o) end.

Definition readObject (like : Object) (key : NamespacedName) : kube (result Object) :=
  match like with
  | ODeployment _ => readAs (K := KDeployment) ODeployment key
  | OServiceAccount _ => readAs (K := KServiceAccount) OServiceAccount key
  | OService _ => readAs (K := KService) OService key
  | OConfigMap _ => readAs (K := KConfigMap) OConfigMap key
  | OServiceMonitor _ => readAs (K := KServiceMonitor) OServiceMonitor key
  | OVPA _ => readAs (K := KVerticalPodAutoscaler) OVPA key
  end.

Definition objectKey (object : Object) : NamespacedName := (Namespace (objectMeta object), Name (objectMeta object)).

(** An object and whether its [TypeMeta] is set. *)
Record Managed := { mObject : Object; mTyped : bool }.
#[export] Instance Managed_eq_dec : EqDecision Managed.
Proof. solve_decision. Defined.

Definition typed (object : Object) : Managed := {| mObject := object; mTyped := true |}.

(** ** Pointers *)

Definition nilDereference : error :=
  Typed "runtime.Error" (Errorf "invalid memory address or nil pointer dereference" []).

Definition deref {A} (p : option A) : result A := match p with Some a => inr a | None => inl nilDereference end.

(** Follows a pointer that is known not to be nil. *)
Ltac pointer H := rewrite ?H; cbn [deref mbind result_bind].

(** ** Common builders ([common/common.go]) *)

Definition operatorManagedByLabelKey := "app.kubernetes.io/managed-by".
Definition operatorManagedByLabelValue := "krm-operator".
Definition serviceAccountTokenPath := "/var/run/secrets/kubernetes.io/serviceaccount/token".

Definition meta_with_key (name namespace : string) (m : ObjectMeta) : ObjectMeta :=
  {| Name := name; Namespace := namespace; UID := UID m; Labels := Labels m;
     Annotations := Annotations m; OwnerReferences := OwnerReferences m;
     Finalizers := Finalizers m; DeletionTimestamp := DeletionTimestamp m;
     ResourceVersion := ResourceVersion m; Generation := Generation m |}.

Definition ObjectForKRMConfig (object : Object) (resourceName resourceNamespace : string) : kube (result Object) :=
  r <- readObject object (resourceNamespace, resourceName) ;;
  match r with
  | inl err =>
      if negb (IsNotFound err) then Ret (inl err)
      else Ret (inr (object_with_meta (meta_with_labels <["app" := resourceName]> ∘ meta_with_key resourceName resourceNamespace) object))
  | inr object =>
      Ret (inr (object_with_meta (meta_with_labels <["app" := resourceName]> ∘ meta_with_key resourceName resourceNamespace) object))
  end.

Definition hostnameTopologyKey := "kubernetes.io/hostname".

Definition defaultAntiAffinity (podAntiAffinityLabel : gmap string string) (required : bool) : PodAntiAffinity :=
  let term := {| patMatchLabels := podAntiAffinityLabel; patTopologyKey := hostnameTopologyKey; patOther := "" |} in
  {| paaPreferred := [(100%Z, term)]; paaRequired := if required then [term] else [] |}.

Definition MergeAffinities (localAffinity globalAffinity : option FullAffinity)
    (podAntiAffinityLabel : gmap string string) (requireDefaultPodAntiAffinityTerm : bool) : option FullAffinity :=
  match localAffinity, globalAffinity with
  | None, _ => globalAffinity
  | Some _, None => localAffinity
  | Some local, Some global =>
      Some {| faNodeAffinity := match faNodeAffinity local with Some a => Some a | None => faNodeAffinity global end;
              faPodAffinity := match faPodAffinity local with Some a => Some a | None => faPodAffinity global end;
              faPodAntiAffinity := Some
                match faPodAntiAffinity local, faPodAntiAffinity global with
                | Some a, _ => a
                | None, Some a => a
                | None, None =>
                    if (0 <? size podAntiAffinityLabel)%nat
                    then defaultAntiAffinity podAntiAffinityLabel requireDefaultPodAntiAffinityTerm
                    else {| paaPreferred := []; paaRequired := [] |}
                end |}
  end.

Definition AddK8sClientConfigToArgs (k8sClientConfig : option K8sClientConfig) (args : list string) : list string :=
  match k8sClientConfig with
  | None => args
  | Some c =>
      let args := match QPS c with Some qps => args ++ ["--qps"; pretty qps] | None => args end in
      match Burst c with Some burst => args ++ ["--burst"; pretty burst] | None => args end
  end.

Definition FipsGodebugEnvVar (global : GlobalConfig) : EnvVar :=
  let mode := default FipsModeOff (gFipsMode global) in
  let mode := if bool_decide (mode ∈ [FipsModeOff; FipsModeOn; FipsModeOnly]) then mode else FipsModeOff in
  let value := "fips140=" +:+ mode in
  {| envName := "GODEBUG"; envValue := if mode ==? FipsModeOnly then value +:+ ",tlsmlkem=0" else value |}.

Definition GetGlobalImagePullSecrets (global : GlobalConfig) : list string := gImagePullSecrets global.

Definition emptyTemplate : PodTemplate :=
  {| ptLabels := ∅; ptServiceAccountName := ""; ptNodeSelector := ∅; ptTolerations := []; ptPriorityClassName := "";
     ptAffinity := None; ptContainers := []; ptImagePullSecrets := []; ptVolumes := [];
     ptTerminationGracePeriodSeconds := None; ptOther := "" |}.
Definition emptyDeployment : Deployment :=
  {| deplMeta := named ""; deplReplicas := None; deplSelector := None; deplTemplate := emptyTemplate; deplOther := "";
     UpdatedReplicas := 0; deplConditions := [] |}.
Definition emptyServiceAccount : ServiceAccount := {| saMeta := named ""; saOther := "" |}.
Definition emptyServiceObj : ServiceObj :=
  {| svcMeta := named ""; svcSelector := ∅; svcPorts := []; svcType := ""; svcOther := "" |}.
Definition emptyConfigMap : ConfigMap := {| cmMeta := named ""; cmData := ∅ |}.
Definition emptyMonitor : ServiceMonitor :=
  {| smMeta := named "";
     smSpec := {| JobLabel := ""; smMatchNames := []; smMatchLabels := ∅; Endpoints := []; smOther := "" |} |}.

(** A failed type assertion; it does not happen, the reader answers in kind. *)
Definition wrongType {A} : kube (result A) := Ret (inl (Typed "runtime.TypeAssertionError" (Errorf "interface conversion" []))).

Section Builders.
Context {KC : KaiCommon}.

(** What [DeploymentForKRMConfig] makes of the live deployment. *)
Definition deploymentFor (krmConfig : KRMConfig) (service : ServiceConfig) (deploymentName : string) (live : Deployment)
    : result Deployment :=
  global ← deref (krmGlobal (krmSpec krmConfig));
  image ← deref (svImage service);
  pullPolicy ← deref (PullPolicy image);
  serviceResources ← deref (svResources service);
  let selector : gmap string string := {[ "app" := deploymentName ]} in
  let template := deplTemplate live in
  inr {| deplMeta := meta_with_labels <[operatorManagedByLabelKey := operatorManagedByLabelValue]> (deplMeta live);
         deplReplicas := deplReplicas live;
         deplSelector := Some selector;
         deplTemplate :=
           {| ptLabels := <["app" := deploymentName]> (ptLabels template);
              ptServiceAccountName := deploymentName;
              ptNodeSelector := gNodeSelector global;
              ptTolerations := gTolerations global;
              ptPriorityClassName := default "" (gPriorityClassName global);
              ptAffinity := MergeAffinities (svAffinity service) (gAffinity global) selector
                              (default false (gRequireDefaultPodAntiAffinityTerm global));
              ptContainers :=
                [{| cName := deploymentName; cImage := imageUrl image; cImagePullPolicy := pullPolicy;
                    cResources := serviceResources; cSecurityContext := GetSecurityContext global;
                    cEnv := [FipsGodebugEnvVar global]; cArgs := []; cPorts := []; cVolumeMounts := []; cOther := "" |}];
              ptImagePullSecrets := GetGlobalImagePullSecrets global;
              ptVolumes := ptVolumes template;
              ptTerminationGracePeriodSeconds := ptTerminationGracePeriodSeconds template;
              ptOther := ptOther template |};
         deplOther := deplOther live;
         UpdatedReplicas := UpdatedReplicas live;
         deplConditions := deplConditions live |}.

Definition DeploymentForKRMConfig (krmConfig : KRMConfig) (service : option ServiceConfig) (deploymentName : string)
    : kube (result Deployment) :=
  object <-? ObjectForKRMConfig (ODeployment emptyDeployment) deploymentName (krmNamespace (krmSpec krmConfig)) ;;
  match object with
  | ODeployment live => Ret (s ← deref service; deploymentFor krmConfig s deploymentName live)
  | _ => wrongType
  end.

Definition ServiceAccountForKRMConfig (krmConfig : KRMConfig) (serviceAccountName : string) : kube (result (option Managed)) :=
  object <-? ObjectForKRMConfig (OServiceAccount emptyServiceAccount) serviceAccountName (krmNamespace (krmSpec krmConfig)) ;;
  match object with
  | OServiceAccount _ => Ret (inr (Some (typed object)))
  | _ => wrongType
  end.

Definition ServiceForKRMConfig (krmConfig : KRMConfig) (serviceName : string) (ports : list ServicePort)
    : kube (result ServiceObj) :=
  object <-? ObjectForKRMConfig (OService emptyServiceObj) serviceName (krmNamespace (krmSpec krmConfig)) ;;
  match object with
  | OService s =>
      Ret (inr {| svcMeta := svcMeta s; svcSelector := {[ "app" := serviceName ]}; svcPorts := ports;
                  svcType := "ClusterIP"; svcOther := svcOther s |})
  | _ => wrongType
  end.

(** [ServiceMonitorOptions]: a name of its own and further labels. *)
Record ServiceMonitorOptions := { optName : string; ExtraLabels : gmap string string }.
Definition noMonitorOptions : ServiceMonitorOptions := {| optName := ""; ExtraLabels := ∅ |}.

Definition IsNotRegisteredError (e : error) : bool :=
  match e with Typed t _ => t ==? "notRegisteredErr" | _ => false end.

Definition monitorFor (krmConfig : KRMConfig) (serviceName metricsPortName : string) (options : ServiceMonitorOptions)
    (live : ServiceMonitor) : ServiceMonitor :=
  {| smMeta := meta_with_labels (fun labels => <["app" := serviceName]> (ExtraLabels options ∪ labels)) (smMeta live);
     smSpec :=
       {| JobLabel := serviceName;
          smMatchNames := [krmNamespace (krmSpec krmConfig)];
          smMatchLabels := {[ "app" := serviceName ]};
          Endpoints := [{| epPort := metricsPortName; epBearerTokenFile := serviceAccountTokenPath;
                           epMetricRelabelings := [("replace", "type", "stats")] |}];
          smOther := "" |} |}.

Definition ServiceMonitorForKRMConfig (krmConfig : KRMConfig) (serviceName metricsPortName : string)
    (options : ServiceMonitorOptions) : kube (result (option Managed)) :=
  let monitorName := if optName options ==? "" then serviceName else optName options in
  r <- ObjectForKRMConfig (OServiceMonitor emptyMonitor) monitorName (krmNamespace (krmSpec krmConfig)) ;;
  match r with
  | inl err => if IsNoMatchError err || IsNotRegisteredError err then Ret (inr None) else Ret (inl err)
  | inr (OServiceMonitor live) =>
      Ret (inr (Some (typed (OServiceMonitor (monitorFor krmConfig serviceName metricsPortName options live)))))
  | inr _ => wrongType
  end.

(** ** Vertical pod autoscalers ([common/vpa.go]) *)

Definition BuildVPA (vpaSpec : option VPASpec) (targetName namespace targetKind : string) : option Managed :=
  match vpaSpec with
  | None => None
  | Some spec =>
      if negb (default false (vsEnabled spec)) then None
      else Some (typed (OVPA
        {| vpaMeta := meta_with_key targetName namespace (named "");
           vpaTargetRef := Some ("apps/v1", targetKind, targetName);
           vpaUpdatePolicy := vsUpdatePolicy spec; vpaResourcePolicy := vsResourcePolicy spec;
           vpaOther := ""; vpaStatus := "" |}))
  end.

Fixpoint firstDeployment (objects : list Managed) : option Deployment :=
  match objects with
  | [] => None
  | object :: rest => match mObject object with ODeployment d => Some d | _ => firstDeployment rest end
  end.

Definition BuildVPAFromObjects (vpaSpec : option VPASpec) (objects : list Managed) (namespace : string) : option Managed :=
  match vpaSpec with
  | None => None
  | Some spec =>
      if negb (default false (vsEnabled spec)) then None
      else match firstDeployment objects with
           | Some d => BuildVPA vpaSpec (Name (deplMeta d)) namespace "Deployment"
           | None => None
           end
  end.

(** ** What the operands share *)

Definition certVolumeName := "webhook-certs".
Definition certMountPath := "/etc/webhook/certs".
Definition openshiftServingCertAnnotation := "service.beta.openshift.io/serving-cert-secret-name".

Definition appendStringArg (args : list string) (flag : string) (value : option string) : list string :=
  match value with
  | None => args
  | Some v => if v ==? "" then args else args ++ [flag; v]
  end.

Definition appendSwitch (args : list string) (flag : string) (enabled : option bool) : list string :=
  if negb (default false enabled) then args else args ++ [flag].

Definition leaderElect (override : option bool) (global : GlobalConfig) (replicas : option Z) : bool :=
  match override with
  | Some b => b
  | None =>
      if default false (gLeaderElection global) then true
      else match replicas with Some n => bool_decide (1 < n)%Z | None => false end
  end.

Definition targetPort (mapping : option PortMapping) : result Z := p ← deref mapping; deref (pmTargetPort p).

Definition containerPort (mapping : option PortMapping) : result ContainerPort :=
  p ← deref mapping; name ← deref (pmName p); target ← deref (pmTargetPort p);
  inr {| cpName := name; cpContainerPort := target |}.

Definition servicePort (mapping : option PortMapping) : result ServicePort :=
  p ← deref mapping; name ← deref (pmName p); port ← deref (pmPort p); target ← deref (pmTargetPort p);
  inr {| spName := name; spProtocol := "TCP"; spPort := port; spTargetPort := target |}.

(** The first container with its arguments and ports, the certificate mounted
    when there is one to mount, and the replicas of the deployment. *)
Definition finishDeployment (replicas : option Z) (args : list string) (ports : list ContainerPort)
    (certSecret : option string) (grace : option Z) (d : Deployment) : result Deployment :=
  match ptContainers (deplTemplate d) with
  | [] => inl (Typed "runtime.Error" (Errorf "index out of range [0] with length 0" []))
  | container :: rest =>
      let t := deplTemplate d in
      let container :=
        {| cName := cName container; cImage := cImage container; cImagePullPolicy := cImagePullPolicy container;
           cResources := cResources container; cSecurityContext := cSecurityContext container; cEnv := cEnv container;
           cArgs := args; cPorts := ports;
           cVolumeMounts := match certSecret with
                            | Some _ => [{| vmName := certVolumeName; vmMountPath := certMountPath; vmReadOnly := true |}]
                            | None => cVolumeMounts container
                            end;
           cOther := cOther container |} in
      inr {| deplMeta := deplMeta d; deplReplicas := replicas; deplSelector := deplSelector d;
             deplTemplate :=
               {| ptLabels := ptLabels t; ptServiceAccountName := ptServiceAccountName t;
                  ptNodeSelector := ptNodeSelector t; ptTolerations := ptTolerations t;
                  ptPriorityClassName := ptPriorityClassName t; ptAffinity := ptAffinity t;
                  ptContainers := container :: rest; ptImagePullSecrets := ptImagePullSecrets t;
                  ptVolumes := match certSecret with
                               | Some secret => [{| volName := certVolumeName; volSecretName := Some secret; volOther := "" |}]
                               | None => ptVolumes t
                               end;
                  ptTerminationGracePeriodSeconds := match grace with Some g => Some g | None => ptTerminationGracePeriodSeconds t end;
                  ptOther := ptOther t |};
             deplOther := deplOther d; UpdatedReplicas := UpdatedReplicas d; deplConditions := deplConditions d |}
  end.

(** On OpenShift the platform mints the serving certificate. *)
Definition withServingCert (certSecret : option string) (s : ServiceObj) : ServiceObj :=
  match certSecret with
  | None => s
  | Some secret =>
      {| svcMeta := meta_with_annotations <[openshiftServingCertAnnotation := secret]> (svcMeta s);
         svcSelector := svcSelector s; svcPorts := svcPorts s; svcType := svcType s; svcOther := svcOther s |}
  end.

End Builders.
