(* ===== verification/OperandResources.v ===== *)
(** * The three services

    [pkg/operator/operands/nodepool-controller], [project-controller] and
    [pod-group-assigner]: the command line, the ports and the objects of each
    service. *)

From stdpp Require Import base list gmap strings pretty.
From S2P Require Import Prelude ApiTypes OperatorConfig GoFlags Dependencies Operands.

(** Objects in the order of their builders; a builder may have nothing to add. *)
Fixpoint collectObjects (resourceFuncs : list (kube (result (option Managed)))) : kube (result (list Managed)) :=
  match resourceFuncs with
  | [] => Ret (inr [])
  | resourceFunc :: rest =>
      object <-? resourceFunc ;;
      objects <-? collectObjects rest ;;
      Ret (inr match object with Some o => o :: objects | None => objects end)
  end.

(** The objects and, when it is asked for, the autoscaler of their deployment. *)
Definition withVPA {KC : KaiCommon} (vpaSpec : option VPASpec) (namespace : string) (objects : list Managed) : list Managed :=
  match BuildVPAFromObjects vpaSpec objects namespace with
  | Some vpa => objects ++ [vpa]
  | None => objects
  end.

Definition someObject (o : Object) : result (option Managed) := inr (Some (typed o)).

Module NodePoolController.
Section NodePoolController.
Context {KC : KaiCommon}.

Definition defaultResourceName := "nodepool-controller".
Definition accountingMonitorSuffix := "-accounting".
Definition accountingLabelKey := "kai.scheduler/accounting".
Definition accountingLabelValue := "true".

Definition webhookEnabled (webhooks : NodePoolControllerWebhooks) : bool :=
  default true (nwEnableNodePoolValidation webhooks).

Definition schedulerNamespace (krmConfig : KRMConfig) (args : NodePoolControllerArgs) : string :=
  let namespace := default "" (naSchedulerNamespace args) in
  if namespace !=? "" then namespace else krmNamespace (krmSpec krmConfig).

Definition buildArgsList (krmConfig : KRMConfig) : result (list string) :=
  config ← deref (krmNodePoolController (krmSpec krmConfig));
  global ← deref (krmGlobal (krmSpec krmConfig));
  ports ← deref (ncControllerService config);
  metrics ← targetPort (csMetrics ports);
  cargs ← deref (ncArgs config);
  webhooks ← deref (ncWebhooks config);
  defaultNodePoolName ← deref (gDefaultNodePoolName global);
  let args :=
    ["--metrics-port"; pretty metrics;
     "--scheduler-namespace"; schedulerNamespace krmConfig cargs;
     "--enable-nodepool-validation-webhook=" +:+ FormatBool (webhookEnabled webhooks);
     "--default-nodepool-name"; defaultNodePoolName] in
  args ← (if webhookEnabled webhooks then
            webhook ← targetPort (csWebhook ports);
            inr (args ++ ["--webhook-port"; pretty webhook])
          else inr args);
  let args := appendStringArg args "--nodepool-label-key" (gNodePoolLabelKey global) in
  let args := appendStringArg args "--scheduler-name" (gSchedulerName global) in
  let args := appendStringArg args "--finalizer-domain" (gFinalizerDomain global) in
  let args := appendStringArg args "--metrics-namespace" (naMetricsNamespace cargs) in
  let args := appendStringArg args "--dcgm-exporter-namespace" (naDcgmExporterNamespace cargs) in
  let args := appendStringArg args "--scheduling-shard-args" (naSchedulingShardArgs cargs) in
  let args := appendStringArg args "--excluded-nodepool-name" (naExcludedNodepoolName cargs) in
  let args := appendStringArg args "--managed-nodes-config-name" (naManagedNodesConfigName cargs) in
  let args := appendStringArg args "--to-exclude-label" (naToExcludeLabel cargs) in
  let args := appendStringArg args "--unschedulable-label" (naUnschedulableLabel cargs) in
  let args := appendStringArg args "--grove-topology-annotation" (naGroveTopologyAnnotation cargs) in
  let args := appendStringArg args "--grove-topology-resource-version-annotation"
                (naGroveTopologyResourceVersionAnnotation cargs) in
  let args := appendSwitch args "--debug" (naDebug cargs) in
  let args := appendSwitch args "--leader-elect" (Some (leaderElect (naLeaderElect cargs) global (ncReplicas config))) in
  service ← deref (ncService config);
  let args := AddK8sClientConfigToArgs (svK8sClientConfig service) args in
  inr (args ++ ncExtraArgs config).

Definition containerPorts (ports : ControllerServiceConfig) (webhooks : NodePoolControllerWebhooks)
    : result (list ContainerPort) :=
  metrics ← containerPort (csMetrics ports);
  if webhookEnabled webhooks then webhook ← containerPort (csWebhook ports); inr [metrics; webhook] else inr [metrics].

Definition servicePorts (ports : ControllerServiceConfig) (webhooks : NodePoolControllerWebhooks)
    : result (list ServicePort) :=
  nodePoolMetrics ← servicePort (csNodePoolMetrics ports);
  metrics ← servicePort (csMetrics ports);
  if webhookEnabled webhooks then webhook ← servicePort (csWebhook ports); inr [nodePoolMetrics; metrics; webhook]
  else inr [nodePoolMetrics; metrics].

(** The secret of the certificate, when the webhook is served. *)
Definition certSecret (webhooks : NodePoolControllerWebhooks) : result (option string) :=
  if webhookEnabled webhooks then secret ← deref (nwCertSecretName webhooks); inr (Some secret) else inr None.

Definition deploymentForKRMConfig (baseName : string) (krmConfig : KRMConfig) : kube (result (option Managed)) :=
  config <-? Ret (deref (krmNodePoolController (krmSpec krmConfig))) ;;
  deployment <-? DeploymentForKRMConfig krmConfig (ncService config) baseName ;;
  Ret (args ← buildArgsList krmConfig;
       ports ← deref (ncControllerService config);
       webhooks ← deref (ncWebhooks config);
       cports ← containerPorts ports webhooks;
       secret ← certSecret webhooks;
       d ← finishDeployment (ncReplicas config) args cports secret None deployment;
       someObject (ODeployment d)).

Definition serviceForKRMConfig (baseName : string) (krmConfig : KRMConfig) : kube (result (option Managed)) :=
  config <-? Ret (deref (krmNodePoolController (krmSpec krmConfig))) ;;
  ports <-? Ret (ports ← deref (ncControllerService config); webhooks ← deref (ncWebhooks config);
                 servicePorts ports webhooks) ;;
  service <-? ServiceForKRMConfig krmConfig baseName ports ;;
  Ret (webhooks ← deref (ncWebhooks config);
       global ← deref (krmGlobal (krmSpec krmConfig));
       secret ← (if default false (gOpenshift global) then certSecret webhooks else inr None);
       someObject (OService (withServingCert secret service))).

Definition buildServiceMonitor (baseName : string) (krmConfig : KRMConfig) (options : ServiceMonitorOptions)
    : kube (result (option Managed)) :=
  global <-? Ret (deref (krmGlobal (krmSpec krmConfig))) ;;
  match gServiceMonitor global with
  | Some serviceMonitor =>
      if negb (default false (stEnabled serviceMonitor)) then Ret (inr None)
      else
        name <-? Ret (config ← deref (krmNodePoolController (krmSpec krmConfig));
                      ports ← deref (ncControllerService config);
                      metrics ← deref (csMetrics ports);
                      deref (pmName metrics)) ;;
        ServiceMonitorForKRMConfig krmConfig baseName name options
  | None => Ret (inr None)
  end.

Definition accountingServiceMonitorForKRMConfig (baseName : string) (krmConfig : KRMConfig)
    : kube (result (option Managed)) :=
  global <-? Ret (deref (krmGlobal (krmSpec krmConfig))) ;;
  match gServiceMonitor global with
  | Some serviceMonitor =>
      if negb (default false (stAccounting serviceMonitor)) then Ret (inr None)
      else buildServiceMonitor baseName krmConfig
             {| optName := baseName +:+ accountingMonitorSuffix;
                ExtraLabels := {[ accountingLabelKey := accountingLabelValue ]} |}
  | None => Ret (inr None)
  end.

Definition objectsForKRMConfig (baseName : string) (krmConfig : KRMConfig) : kube (result (list Managed)) :=
  objects <-? collectObjects
    [ServiceAccountForKRMConfig krmConfig baseName;
     deploymentForKRMConfig baseName krmConfig;
     serviceForKRMConfig baseName krmConfig;
     buildServiceMonitor baseName krmConfig noMonitorOptions;
     accountingServiceMonitorForKRMConfig baseName krmConfig] ;;
  config <-? Ret (deref (krmNodePoolController (krmSpec krmConfig))) ;;
  Ret (inr (withVPA (ncVPA config) (krmNamespace (krmSpec krmConfig)) objects)).

Definition serviceEnabled (krmConfig : KRMConfig) : result bool :=
  config ← deref (krmNodePoolController (krmSpec krmConfig));
  service ← deref (ncService config);
  deref (svEnabled service).

Definition requirements : list CRDRequirement :=
  [{| reqName := "schedulingshards.kai.scheduler"; reqVersion := "v1" |};
   {| reqName := "topologies.kai.scheduler"; reqVersion := "v1alpha1" |};
   {| reqName := "podgroups.scheduling.run.ai"; reqVersion := "v2alpha2" |}].

End NodePoolController.
End NodePoolController.

(** The marshalling of role bindings and of delete blockers to YAML. *)
Class YamlLib := {
  marshalRoleBinding : RoleBinding -> result string;
  marshalBlockers : list DeleteBlockerSpec -> result string;
}.

Module ProjectController.
Section ProjectController.
Context {KC : KaiCommon} {Y : YamlLib}.

Definition defaultResourceName := "project-controller".
Definition terminationGracePeriodSeconds : Z := 10.
Definition roleBindingsConfigMapName := "project-controller-rolebindings-plugin".
Definition deleteBlockersConfigMapName := "project-delete-blockers".
Definition blockersConfigMapKey := "blockers.yaml".

Definition webhooksEnabled (webhooks : ProjectControllerWebhooks) (global : GlobalConfig) : bool :=
  default true (pwEnableProjectValidation webhooks)
  || default true (pwEnableDepartmentValidation webhooks)
  || default false (gAllowExternalQueues global).

(** *** Config maps ([config_maps.go]) *)

(** The bindings this operand ships: their name and the feature they belong to. *)
Definition builtinRoleBindings : list (string * (ProjectControllerFeatures -> option bool)) :=
  [("kai-project-controller-limit-range-per-project", featLimitRange)].

Definition roleBindingKey (name : string) : string := name +:+ ".yaml".

Definition roleBindingsConfigMapNameFor (config : ProjectControllerSpec) : string :=
  match pcRoleBindingsConfigMapName config with
  | Some name => if name !=? "" then name else roleBindingsConfigMapName
  | None => roleBindingsConfigMapName
  end.

Definition roleBindingFor (binding : ProjectRoleBinding) (namespace : string) : RoleBinding :=
  {| rbMeta := named (prbName binding);
     rbRoleRef := {| roleAPIGroup := "rbac.authorization.k8s.io"; roleKind := "ClusterRole";
                     roleName := if prbClusterRoleName binding ==? "" then prbName binding else prbClusterRoleName binding |};
     rbSubjects := [{| subjectKind := "ServiceAccount"; subjectAPIGroup := ""; subjectName := prbServiceAccountName binding;
                       subjectNamespace := if default false (BindProjectServiceAccount binding) then "" else namespace |}] |}.

Definition addRoleBinding (namespace : string) (binding : ProjectRoleBinding) (data : gmap string string)
    : result (gmap string string) :=
  match marshalRoleBinding (roleBindingFor binding namespace) with
  | inl err => inl (Wrapf "marshalling project RoleBinding %s: %w" [prbName binding] err)
  | inr encoded => inr (<[roleBindingKey (prbName binding) := encoded]> data)
  end.

Fixpoint addRoleBindings (namespace : string) (bindings : list ProjectRoleBinding) (data : gmap string string)
    : result (gmap string string) :=
  match bindings with
  | [] => inr data
  | binding :: rest => data ← addRoleBinding namespace binding data; addRoleBindings namespace rest data
  end.

Definition shippedRoleBindings (baseName : string) (features : ProjectControllerFeatures) : list ProjectRoleBinding :=
  omap (fun b : string * (ProjectControllerFeatures -> option bool) =>
    if default false (b.2 features)
    then Some {| prbName := b.1; prbClusterRoleName := ""; prbServiceAccountName := baseName; BindProjectServiceAccount := None |}
    else None) builtinRoleBindings.

(** The data of the role bindings config map: the shipped bindings, then the
    extra ones whose name is not shipped. *)
Definition roleBindingsData (baseName : string) (config : ProjectControllerSpec) (features : ProjectControllerFeatures)
    (namespace : string) : result (gmap string string) :=
  let shipped := shippedRoleBindings baseName features in
  let extra := filter (fun binding => prbName binding ∉ prbName <$> shipped) (pcExtraProjectRoleBindings config) in
  data ← addRoleBindings namespace shipped ∅;
  addRoleBindings namespace extra data.

Definition configMapForKRMConfig (baseName : string) (krmConfig : KRMConfig) (name : string) : kube (result ConfigMap) :=
  object <-? ObjectForKRMConfig (OConfigMap emptyConfigMap) name (krmNamespace (krmSpec krmConfig)) ;;
  match object with
  | OConfigMap cm =>
      Ret (inr {| cmMeta := meta_with_labels <["app" := baseName]> (cmMeta cm); cmData := cmData cm |})
  | _ => wrongType
  end.

Definition roleBindingsConfigMapForKRMConfig (baseName : string) (krmConfig : KRMConfig) : kube (result (option Managed)) :=
  config <-? Ret (deref (krmProjectController (krmSpec krmConfig))) ;;
  configMap <-? configMapForKRMConfig baseName krmConfig (roleBindingsConfigMapNameFor config) ;;
  Ret (features ← deref (pcFeatures config);
       data ← roleBindingsData baseName config features (krmNamespace (krmSpec krmConfig));
       someObject (OConfigMap {| cmMeta := cmMeta configMap; cmData := data |})).

Definition deleteBlockersConfigMapForKRMConfig (baseName : string) (krmConfig : KRMConfig) : kube (result (option Managed)) :=
  configMap <-? configMapForKRMConfig baseName krmConfig deleteBlockersConfigMapName ;;
  Ret (config ← deref (krmProjectController (krmSpec krmConfig));
       match marshalBlockers (pcDeleteBlockers config) with
       | inl err => inl (Wrapf "marshalling project delete blockers: %w" [] err)
       | inr encoded =>
           someObject (OConfigMap {| cmMeta := cmMeta configMap; cmData := {[ blockersConfigMapKey := encoded ]} |})
       end).

(** *** Command line and objects ([resources.go]) *)

Definition buildArgsList (krmConfig : KRMConfig) : result (list string) :=
  let namespace := krmNamespace (krmSpec krmConfig) in
  config ← deref (krmProjectController (krmSpec krmConfig));
  global ← deref (krmGlobal (krmSpec krmConfig));
  ports ← deref (pcControllerService config);
  metrics ← targetPort (csMetrics ports);
  profiling ← deref (pcProfiling config);
  profilerPort ← deref (profAPIPort profiling);
  defaultNodePoolName ← deref (gDefaultNodePoolName global);
  webhooks ← deref (pcWebhooks config);
  let args :=
    ["--metrics-port"; pretty metrics;
     "--profiler-api-port"; pretty profilerPort;
     "--rolebindings-configmap-name"; roleBindingsConfigMapNameFor config;
     "--rolebindings-configmap-namespace"; namespace;
     "--project-delete-blockers-namespace"; namespace;
     "--install-namespace"; namespace;
     "--default-nodepool-name"; defaultNodePoolName;
     "--enable-project-validation-webhook=" +:+ FormatBool (default true (pwEnableProjectValidation webhooks));
     "--enable-department-validation-webhook=" +:+ FormatBool (default true (pwEnableDepartmentValidation webhooks))] in
  args ← (if webhooksEnabled webhooks global then
            webhook ← targetPort (csWebhook ports);
            inr (args ++ ["--webhook-port"; pretty webhook])
          else inr args);
  let args := appendStringArg args "--nodepool-label-key" (gNodePoolLabelKey global) in
  let args := appendStringArg args "--queue-label-key" (gQueueLabelKey global) in
  let args := appendStringArg args "--enforce-scheduler-annotation-key" (gEnforceSchedulerAnnotationKey global) in
  let args := appendStringArg args "--finalizer-domain" (gFinalizerDomain global) in
  let args := appendStringArg args "--namespace-project-label-key" (gNamespaceProjectLabelKey global) in
  let args := appendStringArg args "--project-label-key" (gProjectLabelKey global) in
  cargs ← deref (pcArgs config);
  let args := appendStringArg args "--project-name-prefix" (paProjectNamePrefix cargs) in
  let args := appendStringArg args "--project-id-label-key" (paProjectIDLabelKey cargs) in
  let args := appendStringArg args "--queue-department-name-label-key" (paQueueDepartmentNameLabelKey cargs) in
  let args := appendStringArg args "--namespace-version-label-key" (paNamespaceVersionLabelKey cargs) in
  let args := appendStringArg args "--resource-manual-override-label-key" (paResourceManualOverrideLabelKey cargs) in
  let args := appendStringArg args "--limit-range-name" (paLimitRangeName cargs) in
  let args := appendSwitch args "--openshift" (gOpenshift global) in
  let args := appendSwitch args "--allow-external-queues" (gAllowExternalQueues global) in
  features ← deref (pcFeatures config);
  let args := appendSwitch args "--namespaces" (CreateNamespaces features) in
  let args := appendSwitch args "--role-bindings" (CreateRoleBindings features) in
  let args := appendSwitch args "--limit-range" (featLimitRange features) in
  let args := appendSwitch args "--enable-profiling" (profEnabled profiling) in
  let args := appendSwitch args "--debug" (paDebug cargs) in
  let args := appendSwitch args "--leader-elect" (Some (leaderElect (paLeaderElect cargs) global (pcReplicas config))) in
  service ← deref (pcService config);
  let args := AddK8sClientConfigToArgs (svK8sClientConfig service) args in
  inr (args ++ pcExtraArgs config).

Definition containerPorts (ports : ControllerServiceConfig) (served : bool) : result (list ContainerPort) :=
  metrics ← containerPort (csMetrics ports);
  if served then webhook ← containerPort (csWebhook ports); inr [metrics; webhook] else inr [metrics].

Definition servicePorts (ports : ControllerServiceConfig) (served : bool) : result (list ServicePort) :=
  metrics ← servicePort (csMetrics ports);
  if served then webhook ← servicePort (csWebhook ports); inr [metrics; webhook] else inr [metrics].

Definition certSecret (webhooks : ProjectControllerWebhooks) (global : GlobalConfig) : result (option string) :=
  if webhooksEnabled webhooks global then secret ← deref (pwCertSecretName webhooks); inr (Some secret) else inr None.

Definition deploymentForKRMConfig (baseName : string) (krmConfig : KRMConfig) : kube (result (option Managed)) :=
  config <-? Ret (deref (krmProjectController (krmSpec krmConfig))) ;;
  deployment <-? DeploymentForKRMConfig krmConfig (pcService config) baseName ;;
  Ret (args ← buildArgsList krmConfig;
       global ← deref (krmGlobal (krmSpec krmConfig));
       ports ← deref (pcControllerService config);
       webhooks ← deref (pcWebhooks config);
       cports ← containerPorts ports (webhooksEnabled webhooks global);
       secret ← certSecret webhooks global;
       d ← finishDeployment (pcReplicas config) args cports secret (Some terminationGracePeriodSeconds) deployment;
       someObject (ODeployment d)).

Definition serviceForKRMConfig (baseName : string) (krmConfig : KRMConfig) : kube (result (option Managed)) :=
  config <-? Ret (deref (krmProjectController (krmSpec krmConfig))) ;;
  ports <-? Ret (ports ← deref (pcControllerService config); webhooks ← deref (pcWebhooks config);
                 global ← deref (krmGlobal (krmSpec krmConfig));
                 servicePorts ports (webhooksEnabled webhooks global)) ;;
  service <-? ServiceForKRMConfig krmConfig baseName ports ;;
  Ret (webhooks ← deref (pcWebhooks config);
       global ← deref (krmGlobal (krmSpec krmConfig));
       secret ← (if default false (gOpenshift global) then certSecret webhooks global else inr None);
       someObject (OService (withServingCert secret service))).

Definition serviceMonitorForKRMConfig (baseName : string) (krmConfig : KRMConfig) : kube (result (option Managed)) :=
  global <-? Ret (deref (krmGlobal (krmSpec krmConfig))) ;;
  match gServiceMonitor global with
  | Some serviceMonitor =>
      if negb (default false (stEnabled serviceMonitor)) then Ret (inr None)
      else
        name <-? Ret (config ← deref (krmProjectController (krmSpec krmConfig));
                      ports ← deref (pcControllerService config);
                      metrics ← deref (csMetrics ports);
                      deref (pmName metrics)) ;;
        ServiceMonitorForKRMConfig krmConfig baseName name noMonitorOptions
  | None => Ret (inr None)
  end.

Definition objectsForKRMConfig (baseName : string) (krmConfig : KRMConfig) : kube (result (list Managed)) :=
  objects <-? collectObjects
    [ServiceAccountForKRMConfig krmConfig baseName;
     roleBindingsConfigMapForKRMConfig baseName krmConfig;
     deleteBlockersConfigMapForKRMConfig baseName krmConfig;
     deploymentForKRMConfig baseName krmConfig;
     serviceForKRMConfig baseName krmConfig;
     serviceMonitorForKRMConfig baseName krmConfig] ;;
  config <-? Ret (deref (krmProjectController (krmSpec krmConfig))) ;;
  Ret (inr (withVPA (pcVPA config) (krmNamespace (krmSpec krmConfig)) objects)).

Definition serviceEnabled (krmConfig : KRMConfig) : result bool :=
  config ← deref (krmProjectController (krmSpec krmConfig));
  service ← deref (pcService config);
  deref (svEnabled service).

Definition requirements : list CRDRequirement := [{| reqName := "queues.scheduling.run.ai"; reqVersion := "v2" |}].

End ProjectController.
End ProjectController.

Module PodGroupAssigner.
Section PodGroupAssigner.
Context {KC : KaiCommon}.

Definition defaultResourceName := "pod-group-assigner".

Definition buildArgsList (krmConfig : KRMConfig) : result (list string) :=
  config ← deref (krmPodGroupAssigner (krmSpec krmConfig));
  global ← deref (krmGlobal (krmSpec krmConfig));
  ports ← deref (gaControllerService config);
  webhook ← targetPort (csWebhook ports);
  webhooks ← deref (gaWebhooks config);
  let args :=
    ["--webhook-port"; pretty webhook;
     "--enable-pod-webhook=" +:+ FormatBool (default true (gwEnablePodWebhook webhooks))] in
  let args := appendStringArg args "--nodepool-label-key" (gNodePoolLabelKey global) in
  let args := appendStringArg args "--queue-label-key" (gQueueLabelKey global) in
  let args := appendStringArg args "--default-nodepool-name" (gDefaultNodePoolName global) in
  let args := appendStringArg args "--scheduler-name" (gSchedulerName global) in
  let args := appendStringArg args "--namespace-project-label-key" (gNamespaceProjectLabelKey global) in
  let args := appendStringArg args "--project-label-key" (gProjectLabelKey global) in
  let args := appendStringArg args "--enforce-scheduler-annotation-key" (gEnforceSchedulerAnnotationKey global) in
  let args := appendSwitch args "--allow-external-queues" (gAllowExternalQueues global) in
  cargs ← deref (gaArgs config);
  let args := appendStringArg args "--unexisting-nodepool-sentinel" (gaUnexistingNodepoolSentinel cargs) in
  let args := appendStringArg args "--annotation-nodepools-key" (gaAnnotationNodepoolsKey cargs) in
  let args := appendSwitch args "--debug" (gaDebug cargs) in
  let args := appendSwitch args "--leader-elect" (Some (leaderElect (gaLeaderElect cargs) global (gaReplicas config))) in
  service ← deref (gaService config);
  let args := AddK8sClientConfigToArgs (svK8sClientConfig service) args in
  inr (args ++ gaExtraArgs config).

Definition deploymentForKRMConfig (baseName : string) (krmConfig : KRMConfig) : kube (result (option Managed)) :=
  config <-? Ret (deref (krmPodGroupAssigner (krmSpec krmConfig))) ;;
  deployment <-? DeploymentForKRMConfig krmConfig (gaService config) baseName ;;
  Ret (args ← buildArgsList krmConfig;
       ports ← deref (gaControllerService config);
       webhook ← containerPort (csWebhook ports);
       webhooks ← deref (gaWebhooks config);
       secret ← deref (gwCertSecretName webhooks);
       d ← finishDeployment (gaReplicas config) args [webhook] (Some secret) None deployment;
       someObject (ODeployment d)).

Definition serviceForKRMConfig (baseName : string) (krmConfig : KRMConfig) : kube (result (option Managed)) :=
  webhook <-? Ret (config ← deref (krmPodGroupAssigner (krmSpec krmConfig));
                   ports ← deref (gaControllerService config);
                   servicePort (csWebhook ports)) ;;
  service <-? ServiceForKRMConfig krmConfig baseName [webhook] ;;
  Ret (config ← deref (krmPodGroupAssigner (krmSpec krmConfig));
       global ← deref (krmGlobal (krmSpec krmConfig));
       secret ← (if default false (gOpenshift global)
                 then webhooks ← deref (gaWebhooks config); secret ← deref (gwCertSecretName webhooks); inr (Some secret)
                 else inr None);
       someObject (OService (withServingCert secret service))).

Definition objectsForKRMConfig (baseName : string) (krmConfig : KRMConfig) : kube (result (list Managed)) :=
  objects <-? collectObjects
    [ServiceAccountForKRMConfig krmConfig baseName;
     deploymentForKRMConfig baseName krmConfig;
     serviceForKRMConfig baseName krmConfig] ;;
  config <-? Ret (deref (krmPodGroupAssigner (krmSpec krmConfig))) ;;
  Ret (inr (withVPA (gaVPA config) (krmNamespace (krmSpec krmConfig)) objects)).

Definition serviceEnabled (krmConfig : KRMConfig) : result bool :=
  config ← deref (krmPodGroupAssigner (krmSpec krmConfig));
  service ← deref (gaService config);
  deref (svEnabled service).

Definition requirements : list CRDRequirement :=
  [{| reqName := "queues.scheduling.run.ai"; reqVersion := "v2" |};
   {| reqName := "podgroups.scheduling.run.ai"; reqVersion := "v2alpha2" |};
   {| reqName := "topologies.kai.scheduler"; reqVersion := "v1alpha1" |}].

End PodGroupAssigner.
End PodGroupAssigner.
