(* ===== verification/Deployable.v ===== *)
(** * Deploying the services and reporting on them

    [pkg/operator/operands/known-types], [operands/deployable],
    [controller/status-reconciler] and [controller/krmconfig_controller.go]: the
    objects the operator owns, the difference between what is wanted and what
    there is, its application, and the conditions of the KRMConfig. *)

From stdpp Require Import base list gmap strings pretty.
From S2P Require Import Prelude ApiTypes NodePoolCommon OperatorConfig GoFlags Dependencies Operands OperandResources.

(** ** Operands ([operands/interface.go]) *)

(** What an operand remembers: the objects it asked for last, which later reads
    overwrite in place, and the base name of its resources. *)
Record OperandState := { lastDesiredState : list Managed; BaseResourceName : string }.

Record Operand := {
  operandName : string;
  DesiredState : OperandState -> KRMConfig -> kube (OperandState * result (list Managed));
  IsDeployed : OperandState -> kube (OperandState * result bool);
  IsAvailable : OperandState -> kube (OperandState * result bool);
  Monitor : KRMConfig -> kube (result unit);
  HasMissingDependencies : KRMConfig -> kube (result string);
}.

Definition controllerTypes : list string := ["Deployment"].

Definition isControllerAvailable (object : Object) (objectKind : string) : result bool :=
  if objectKind !=? "Deployment" then inr false
  else match object with
       | ODeployment deployment =>
           match deplReplicas deployment with
           | None => inr false
           | Some replicas =>
               if UpdatedReplicas deployment !=? replicas then inr false
               else inr (existsb (fun c => (c.1 ==? "Available") && (c.2 ==? "True")) (deplConditions deployment))
           end
       | _ => inl (Errorf "failed to process deployment %s/%s"
                     [Namespace (objectMeta object); Name (objectMeta object)])
       end.

Section Operator.
(** [getSetsTypeMeta]: whether the reader fills the [TypeMeta] of the object it
    reads into; [errorText] renders an error. *)
Context (getSetsTypeMeta : bool) (errorText : error -> string).

(** The objects as the reads leave them. *)
Fixpoint AllObjectsExists (objects : list Managed) : kube (list Managed * result bool) :=
  match objects with
  | [] => Ret ([], inr true)
  | object :: rest =>
      r <- readObject (mObject object) (objectKey (mObject object)) ;;
      match r with
      | inl err => Ret (objects, if IsNotFound err then inr false else inl err)
      | inr o =>
          later <- AllObjectsExists rest ;;
          Ret ({| mObject := o; mTyped := getSetsTypeMeta |} :: later.1, later.2)
      end
  end.

(** The objects and the messages of what is not available. *)
Fixpoint checkControllers (objects : list Managed) : kube (list Managed * list string) :=
  match objects with
  | [] => Ret ([], [])
  | object :: rest =>
      let objectKind := if mTyped object then kindName (mObject object) else "" in
      r <- readObject (mObject object) (objectKey (mObject object)) ;;
      later <- checkControllers rest ;;
      match r with
      | inl err => Ret (object :: later.1, errorText err :: later.2)
      | inr o =>
          let object := {| mObject := o; mTyped := getSetsTypeMeta |} in
          let messages :=
            if bool_decide (objectKind ∈ controllerTypes) then
              match isControllerAvailable o objectKind with
              | inl err => [errorText err]
              | inr true => []
              | inr false => [sprintf "%s [%s] is not available" [objectKind; Name (objectMeta o)]]
              end
            else [] in
          Ret (object :: later.1, messages ++ later.2)
      end
  end.

Definition newline : string := String (Ascii.ascii_of_nat 10) "".

Definition AllControllersAvailable (objects : list Managed) : kube (list Managed * result bool) :=
  checked <- checkControllers objects ;;
  Ret (checked.1, match checked.2 with
                  | [] => inr true
                  | messages => inl (Errorf "%s" [String.concat newline messages])
                  end).

(** The operand of a service: whether it is installed, its objects and the
    definitions it needs. *)
Definition serviceOperand (name defaultResourceName : string) (enabled : KRMConfig -> result bool)
    (objectsFor : string -> KRMConfig -> kube (result (list Managed))) (requirements : list CRDRequirement) : Operand :=
  {| operandName := name;
     DesiredState := fun st krmConfig =>
       let baseName := if BaseResourceName st ==? "" then defaultResourceName else BaseResourceName st in
       match enabled krmConfig with
       | inl err => Ret ({| lastDesiredState := lastDesiredState st; BaseResourceName := baseName |}, inl err)
       | inr false => Ret ({| lastDesiredState := []; BaseResourceName := baseName |}, inr [])
       | inr true =>
           r <- objectsFor baseName krmConfig ;;
           Ret match r with
               | inl err => ({| lastDesiredState := lastDesiredState st; BaseResourceName := baseName |}, inl err)
               | inr objects => ({| lastDesiredState := objects; BaseResourceName := baseName |}, inr objects)
               end
       end;
     IsDeployed := fun st =>
       r <- AllObjectsExists (lastDesiredState st) ;;
       Ret ({| lastDesiredState := r.1; BaseResourceName := BaseResourceName st |}, r.2);
     IsAvailable := fun st =>
       r <- AllControllersAvailable (lastDesiredState st) ;;
       Ret ({| lastDesiredState := r.1; BaseResourceName := BaseResourceName st |}, r.2);
     Monitor := fun _ => Ret (inr tt);
     HasMissingDependencies := fun krmConfig =>
       match enabled krmConfig with
       | inl err => Ret (inl err)
       | inr false => Ret (inr "")
       | inr true => MissingCRDs requirements
       end |}.

Section Operands.
Context {KC : KaiCommon} {Y : YamlLib}.

Definition nodePoolControllerOperand : Operand :=
  serviceOperand "NodePoolController" NodePoolController.defaultResourceName NodePoolController.serviceEnabled
    NodePoolController.objectsForKRMConfig NodePoolController.requirements.

Definition projectControllerOperand : Operand :=
  serviceOperand "ProjectController" ProjectController.defaultResourceName ProjectController.serviceEnabled
    ProjectController.objectsForKRMConfig ProjectController.requirements.

Definition podGroupAssignerOperand : Operand :=
  serviceOperand "PodGroupAssigner" PodGroupAssigner.defaultResourceName PodGroupAssigner.serviceEnabled
    PodGroupAssigner.objectsForKRMConfig PodGroupAssigner.requirements.

Definition KRMConfigReconcilerOperands : list (Operand * OperandState) :=
  (fun operand => (operand, {| lastDesiredState := []; BaseResourceName := "" |})) <$>
  [nodePoolControllerOperand; projectControllerOperand; podGroupAssignerOperand].

End Operands.

(** ** Owned objects ([known-types]) *)

Definition CollectableOwnerKey := ".metadata.controller".

(** [gvk.String() + "/" + namespacedName]. *)
Definition GetKey (object : Object) : string :=
  groupVersion object +:+ ", Kind=" +:+ kindName object +:+ "/" +:+
  Namespace (objectMeta object) +:+ "/" +:+ Name (objectMeta object).

Definition krmConfigKindName := "KRMConfig".

Definition ReconcilerKey (owner : KRMConfig) : string := krmConfigKindName +:+ "/" +:+ Name (krmMeta owner).

Definition ownerKey (owner : OwnerReference) : string := OwnerKind owner +:+ "/" +:+ OwnerName owner.

Section KnownTypes.
Context {M : MetaLib} (kaiGroupVersion : string).

Definition ownedByKAIResourcesKind (owner : option OwnerReference) : bool :=
  match owner with Some o => OwnerAPIVersion o ==? kaiGroupVersion | None => false end.

(** The values an object is indexed under. *)
Definition ownerIndexer (m : ObjectMeta) : list string :=
  match GetControllerOf m with
  | Some owner => if negb (ownedByKAIResourcesKind (Some owner)) then [] else [ownerKey owner]
  | None => []
  end.

End KnownTypes.

Definition collectKind {K : Kind} (wrap : obj K -> Object) (owner : KRMConfig) : kube (result (gmap string Managed)) :=
  r <- call (List K {| loNamespace := ""; loLabelSelector := []; loMatchingLabels := ∅;
                       loFieldSelector := Some (CollectableOwnerKey, ReconcilerKey owner) |}) ;;
  Ret match r with
      | inl err => inl err
      | inr items => inr (list_to_map ((fun o => (GetKey (wrap o), typed (wrap o))) <$> reverse items))
      end.

(** Kinds of components that may be absent are collected only when their
    definitions were there at the start of the manager. *)
Definition collectOptional {K : Kind} (available : bool) (wrap : obj K -> Object) (owner : KRMConfig)
    : kube (result (gmap string Managed)) :=
  if available then collectKind wrap owner else Ret (inr ∅).

Definition collectables (monitorsAvailable vpasAvailable : bool) (owner : KRMConfig)
    : list (kube (result (gmap string Managed))) :=
  [collectKind (K := KDeployment) ODeployment owner;
   collectKind (K := KServiceAccount) OServiceAccount owner;
   collectKind (K := KService) OService owner;
   collectKind (K := KConfigMap) OConfigMap owner;
   collectOptional (K := KServiceMonitor) monitorsAvailable OServiceMonitor owner;
   collectOptional (K := KVerticalPodAutoscaler) vpasAvailable OVPA owner].

(** [field_inherit.go]: the annotations of the desired object win. *)
Definition mergeAnnotations (desired current : gmap string string) : gmap string string := desired ∪ current.

Definition VPAFieldInherit (current desired : Object) : Object :=
  let desired := object_with_meta (fun m =>
    {| Name := Name m; Namespace := Namespace m; UID := UID (objectMeta current); Labels := Labels m;
       Annotations := mergeAnnotations (Annotations m) (Annotations (objectMeta current));
       OwnerReferences := OwnerReferences (objectMeta current);
       Finalizers := Finalizers m; DeletionTimestamp := DeletionTimestamp m;
       ResourceVersion := ResourceVersion (objectMeta current);
       Generation := Generation (objectMeta current) |}) desired in
  match current, desired with
  | OVPA c, OVPA d =>
      OVPA {| vpaMeta := vpaMeta d; vpaTargetRef := vpaTargetRef d; vpaUpdatePolicy := vpaUpdatePolicy d;
              vpaResourcePolicy := vpaResourcePolicy d; vpaOther := vpaOther d; vpaStatus := vpaStatus c |}
  | _, _ => desired
  end.

(** [inheritFieldsFromCurrent] with the default functions: autoscalers only. *)
Definition inheritFieldsFromCurrent (current desired : Managed) : Managed :=
  match mObject desired with
  | OVPA _ => {| mObject := VPAFieldInherit (mObject current) (mObject desired); mTyped := mTyped desired |}
  | _ => desired
  end.

(** ** Deploying ([deployable.go]) *)

Section Deploy.
(** The order in which a map is ranged over. *)
Context (rangeOrder : forall A, gmap string A -> list (string * A)).
Context (kaiGroupVersion : string) (monitorsAvailable vpasAvailable : bool).

Definition objectsCreationOrder : list string := ["ServiceAccount"; "ConfigMap"].

Fixpoint addDesired (operand : string) (objects : list Managed) (desiredState : gmap string Managed)
    : result (gmap string Managed) :=
  match objects with
  | [] => inr desiredState
  | object :: rest =>
      if negb (mTyped object) then
        inl (Errorf "%s: object %s/%s has no GroupVersionKind set"
               [operand; Namespace (objectMeta (mObject object)); Name (objectMeta (mObject object))])
      else addDesired operand rest (<[GetKey (mObject object) := object]> desiredState)
  end.

(** The operands with what they remember, and the wanted objects by their keys. *)
Fixpoint getDesiredState (operands : list (Operand * OperandState)) (krmConfig : KRMConfig)
    (desiredState : gmap string Managed) : kube (list (Operand * OperandState) * result (gmap string Managed)) :=
  match operands with
  | [] => Ret ([], inr desiredState)
  | (operand, st) :: rest =>
      r <- DesiredState operand st krmConfig ;;
      match r with
      | (st', inl err) => Ret ((operand, st') :: rest, inl (Wrapf "%s: %w" [operandName operand] err))
      | (st', inr objects) =>
          match addDesired (operandName operand) objects desiredState with
          | inl err => Ret ((operand, st') :: rest, inl err)
          | inr desiredState =>
              later <- getDesiredState rest krmConfig desiredState ;;
              Ret ((operand, st') :: later.1, later.2)
          end
      end
  end.

Fixpoint getCurrentState (collects : list (kube (result (gmap string Managed)))) (currentState : gmap string Managed)
    : kube (result (gmap string Managed)) :=
  match collects with
  | [] => Ret (inr currentState)
  | collect :: rest => collected <-? collect ;; getCurrentState rest (collected ∪ currentState)
  end.

Record Actions := {
  objectsToCreate : list Managed;
  objectsToDelete : list Managed;
  objectsToUpdate : gmap string Managed;
}.

(** What happens to one wanted object: it is created, updated or left alone. *)
Inductive Action := ToCreate (o : Managed) | ToUpdate (o : Managed) | NotToChange (o : Managed).

Definition actionOn (currentState : gmap string Managed) (key : string) (desired : Managed) : Action :=
  match currentState !! key with
  | Some current =>
      let desired := inheritFieldsFromCurrent current desired in
      if current ==? desired then NotToChange desired else ToUpdate desired
  | None => ToCreate desired
  end.

Definition calculateActionsOnObjects (desiredState currentState : gmap string Managed) : Actions :=
  let planned := (fun kv : string * Managed => (kv.1, actionOn currentState kv.1 kv.2)) <$> rangeOrder _ desiredState in
  let toUpdate : gmap string Managed :=
    list_to_map (omap (fun ka : string * Action => match ka.2 with ToUpdate o => Some (ka.1, o) | _ => None end) planned) in
  let notToChange : gmap string Managed :=
    list_to_map (omap (fun ka : string * Action => match ka.2 with NotToChange o => Some (ka.1, o) | _ => None end) planned) in
  {| objectsToCreate := omap (fun ka : string * Action => match ka.2 with ToCreate o => Some o | _ => None end) planned;
     objectsToDelete :=
       snd <$> filter (fun kv : string * Managed => notToChange !! kv.1 = None /\ toUpdate !! kv.1 = None)
                 (rangeOrder _ currentState);
     objectsToUpdate := toUpdate |}.

(** *** Writing *)

Definition createObject (object : Object) : kube (result unit) :=
  match object with
  | ODeployment o => _ <-? call (Create KDeployment o) ;; Ret (inr tt)
  | OServiceAccount o => _ <-? call (Create KServiceAccount o) ;; Ret (inr tt)
  | OService o => _ <-? call (Create KService o) ;; Ret (inr tt)
  | OConfigMap o => _ <-? call (Create KConfigMap o) ;; Ret (inr tt)
  | OServiceMonitor o => _ <-? call (Create KServiceMonitor o) ;; Ret (inr tt)
  | OVPA o => _ <-? call (Create KVerticalPodAutoscaler o) ;; Ret (inr tt)
  end.

Definition updateObject (object : Object) : kube (result unit) :=
  match object with
  | ODeployment o => _ <-? call (Update KDeployment o) ;; Ret (inr tt)
  | OServiceAccount o => _ <-? call (Update KServiceAccount o) ;; Ret (inr tt)
  | OService o => _ <-? call (Update KService o) ;; Ret (inr tt)
  | OConfigMap o => _ <-? call (Update KConfigMap o) ;; Ret (inr tt)
  | OServiceMonitor o => _ <-? call (Update KServiceMonitor o) ;; Ret (inr tt)
  | OVPA o => _ <-? call (Update KVerticalPodAutoscaler o) ;; Ret (inr tt)
  end.

Definition deleteOwnedObject (object : Object) : kube (result unit) :=
  match object with
  | ODeployment o => call (Delete KDeployment o)
  | OServiceAccount o => call (Delete KServiceAccount o)
  | OService o => call (Delete KService o)
  | OConfigMap o => call (Delete KConfigMap o)
  | OServiceMonitor o => call (Delete KServiceMonitor o)
  | OVPA o => call (Delete KVerticalPodAutoscaler o)
  end.

Definition describe (object : Object) : list string :=
  [groupVersion object +:+ ", Kind=" +:+ kindName object; Namespace (objectMeta object); Name (objectMeta object)].

Definition takeOwnership (object : Object) : kube (result unit) :=
  r <- updateObject object ;;
  match r with
  | inl err => Ret (inl (Wrapf "failed taking ownership on %s %s/%s: %w" (describe object) err))
  | inr _ => Ret (inr tt)
  end.

Definition withOwner (owner : OwnerReference) (object : Object) : Object :=
  object_with_meta (meta_with_owners (fun _ => [owner])) object.

Definition createObjectForKRMConfig (owner : OwnerReference) (desired : Managed) : kube (result unit) :=
  let object := withOwner owner (mObject desired) in
  if ResourceVersion (objectMeta object) !=? "" then takeOwnership object
  else
    r <- createObject (object_with_meta (meta_with_resourceVersion "") object) ;;
    match r with
    | inr _ => Ret (inr tt)
    | inl err =>
        if negb (IsAlreadyExists err) then Ret (inl (Wrapf "failed creating %s %s/%s: %w" (describe object) err))
        else takeOwnership object
    end.

(** The place of a kind in the order of creation; other kinds come last. *)
Fixpoint creationRankIn (order : list string) (kind : string) : nat :=
  match order with
  | [] => 0
  | k :: rest => if k ==? kind then 0 else S (creationRankIn rest kind)
  end.
Definition creationRank (kindsOrder : list string) (object : Managed) : nat :=
  creationRankIn kindsOrder (if mTyped object then kindName (mObject object) else "").

Fixpoint insertByRank (rank : Managed -> nat) (x : Managed) (sorted : list Managed) : list Managed :=
  match sorted with
  | [] => [x]
  | y :: rest => if (rank x <=? rank y)%nat then x :: sorted else y :: insertByRank rank x rest
  end.

Definition sortObjectByCreationOrder (objects : list Managed) (kindsOrder : list string) : list Managed :=
  foldr (insertByRank (creationRank kindsOrder)) [] objects.

Definition createObjectsInCluster (owner : OwnerReference) (objects : list Managed) : kube (result unit) :=
  forEach (sortObjectByCreationOrder objects objectsCreationOrder) (createObjectForKRMConfig owner).

Definition deleteObjectsInCluster (objects : list Managed) : kube (result unit) :=
  forEach objects (fun object =>
    r <- deleteOwnedObject (mObject object) ;;
    match IgnoreNotFound r with
    | inl err => Ret (inl (Wrapf "failed deleting %s %s/%s: %w" (describe (mObject object)) err))
    | inr _ => Ret (inr tt)
    end).

Definition updateObjectsInCluster (owner : OwnerReference) (objects : gmap string Managed) : kube (result unit) :=
  forEach (snd <$> rangeOrder _ objects) (fun object =>
    let updated := withOwner owner (mObject object) in
    r <- updateObject updated ;;
    match r with
    | inl err => Ret (inl (Wrapf "failed updating %s %s/%s: %w" (describe updated) err))
    | inr _ => Ret (inr tt)
    end).

Definition reconcilerAsOwnerReference (owner : KRMConfig) : OwnerReference :=
  {| OwnerAPIVersion := kaiGroupVersion; OwnerKind := krmConfigKindName; OwnerName := Name (krmMeta owner);
     OwnerUID := UID (krmMeta owner); OwnerController := Some true; OwnerBlockOwnerDeletion := None |}.

(** The writes of a deployment, once the two states are known: creations come
    first, so that a rename never leaves the service absent. *)
Definition applyActions (owner : OwnerReference) (actions : Actions) : kube (result unit) :=
  _ <-? createObjectsInCluster owner (objectsToCreate actions) ;;
  _ <-? deleteObjectsInCluster (objectsToDelete actions) ;;
  updateObjectsInCluster owner (objectsToUpdate actions).

Definition Deploy (operands : list (Operand * OperandState)) (krmConfig : KRMConfig)
    : kube (list (Operand * OperandState) * result unit) :=
  r <- getDesiredState operands krmConfig ∅ ;;
  let '(operands, desired) := r in
  match desired with
  | inl err => Ret (operands, inl (Wrapf "failed calculating desired state: %w" [] err))
  | inr desiredState =>
      r <- getCurrentState (collectables monitorsAvailable vpasAvailable krmConfig) ∅ ;;
      match r with
      | inl err => Ret (operands, inl (Wrapf "failed collecting current state: %w" [] err))
      | inr currentState =>
          r <- applyActions (reconcilerAsOwnerReference krmConfig) (calculateActionsOnObjects desiredState currentState) ;;
          Ret (operands, r)
      end
  end.

(** *** Asking the operands *)

(** Whether every operand meets the condition, and why not. *)
Fixpoint aggregateErrors (unmetDescription : string) (check : Operand -> OperandState -> kube (OperandState * result bool))
    (operands : list (Operand * OperandState)) : kube (list (Operand * OperandState) * (bool * list (result unit))) :=
  match operands with
  | [] => Ret ([], (true, []))
  | (operand, st) :: rest =>
      r <- check operand st ;;
      later <- aggregateErrors unmetDescription check rest ;;
      let '(rest', (met, errs)) := later in
      Ret ((operand, r.1) :: rest',
           match r.2 with
           | inl err => (met, inl (Wrapf "%s: %w" [operandName operand] err) :: errs)
           | inr true => (met, errs)
           | inr false => (false, inl (Errorf "%s: %s" [operandName operand; unmetDescription]) :: errs)
           end)
  end.

Definition aggregate (unmetDescription : string) (check : Operand -> OperandState -> kube (OperandState * result bool))
    (operands : list (Operand * OperandState)) : kube (list (Operand * OperandState) * (bool * result unit)) :=
  r <- aggregateErrors unmetDescription check operands ;;
  let '(operands, (met, errs)) := r in Ret (operands, (met, joinErrors errs)).

Definition operandsDeployed := aggregate "not deployed" IsDeployed.
Definition operandsAvailable := aggregate "not available" IsAvailable.

Fixpoint monitorOperands (operands : list (Operand * OperandState)) (krmConfig : KRMConfig) : kube (list (result unit)) :=
  match operands with
  | [] => Ret []
  | (operand, _) :: rest =>
      r <- Monitor operand krmConfig ;;
      errs <- monitorOperands rest krmConfig ;;
      Ret (match r with inl err => inl (Wrapf "%s: %w" [operandName operand] err) :: errs | inr _ => errs end)
  end.

(** The messages of the missing dependencies and the failed checks. *)
Fixpoint missingDependencies (operands : list (Operand * OperandState)) (krmConfig : KRMConfig)
    : kube (list string * list (result unit)) :=
  match operands with
  | [] => Ret ([], [])
  | (operand, _) :: rest =>
      r <- HasMissingDependencies operand krmConfig ;;
      later <- missingDependencies rest krmConfig ;;
      Ret match r with
          | inl err => (later.1, inl (Wrapf "%s: %w" [operandName operand] err) :: later.2)
          | inr message =>
              if message !=? "" then (sprintf "%s is missing %s" [operandName operand; message] :: later.1, later.2)
              else later
          end
  end.

Definition operandsMissingDependencies (operands : list (Operand * OperandState)) (krmConfig : KRMConfig)
    : kube (string * result unit) :=
  r <- missingDependencies operands krmConfig ;;
  Ret (String.concat "; " r.1, joinErrors r.2).

(** ** Conditions ([status_reconciler.go]) *)

(** The types and reasons of the conditions of a KRMConfig. *)
Class ConditionNames := {
  TypeDeployed : string; TypeAvailable : string; TypeDependenciesFulfilled : string;
  TypeReady : string; TypeReconciling : string;
  ReasonDeployed : string; ReasonNotDeployed : string; ReasonAvailable : string; ReasonNotAvailable : string;
  ReasonDependenciesFulfilled : string; ReasonDependenciesMissing : string;
  ReasonReady : string; ReasonNotReady : string; ReasonReconciling : string; ReasonReconciled : string;
}.

Context {CN : ConditionNames} {V : VersionLib} {KN : KaiNames} (minimumSchedulerVersion : string).

Definition newCondition (conditionType : string) (met : bool) (reason message : string) (generation : Z) : kube MetaCondition :=
  now <- call Now ;;
  Ret {| mcType := conditionType; mcStatus := if met then "True" else "False"; mcReason := reason; mcMessage := message;
         mcObservedGeneration := generation; mcLastTransitionTime := now |}.

Definition krmConfig_with_conditions (conditions : list MetaCondition) (krmConfig : KRMConfig) : KRMConfig :=
  {| krmMeta := krmMeta krmConfig; krmSpec := krmSpec krmConfig; krmConditions := conditions |}.

(** The conditions with the new one in place of the first of its type, or at the
    end; none when the first of its type says the same. *)
Fixpoint updatedConditions (conditions : list MetaCondition) (condition : MetaCondition) : option (list MetaCondition) :=
  match conditions with
  | [] => Some [condition]
  | existing :: rest =>
      if mcType existing ==? mcType condition then
        if (mcObservedGeneration existing ==? mcObservedGeneration condition)
           && (mcStatus existing ==? mcStatus condition)
           && (mcReason existing ==? mcReason condition)
           && (mcMessage existing ==? mcMessage condition)
        then None else Some (condition :: rest)
      else match updatedConditions rest condition with Some l => Some (existing :: l) | None => None end
  end.

Definition reconcileCondition (krmConfig : KRMConfig) (condition : MetaCondition) : kube (KRMConfig * result unit) :=
  match updatedConditions (krmConditions krmConfig) condition with
  | None => Ret (krmConfig, inr tt)
  | Some conditions =>
      r <- call (PatchStatus KKRMConfig krmConfig (krmConfig_with_conditions conditions krmConfig)) ;;
      match r with
      | inl err => Ret (krmConfig, inl err)
      | inr updated =>
          Ret ({| krmMeta := meta_with_resourceVersion (ResourceVersion (krmMeta updated)) (krmMeta krmConfig);
                  krmSpec := krmSpec krmConfig; krmConditions := krmConditions updated |}, inr tt)
      end
  end.

Fixpoint reconcileConditions (krmConfig : KRMConfig) (conditions : list MetaCondition) : kube (KRMConfig * result unit) :=
  match conditions with
  | [] => Ret (krmConfig, inr tt)
  | condition :: rest =>
      r <- reconcileCondition krmConfig condition ;;
      match r.2 with
      | inl err => Ret (r.1, inl err)
      | inr _ => reconcileConditions r.1 rest
      end
  end.

(** A condition from what was asked of the operands. *)
Definition answerCondition (conditionType reasonMet reasonUnmet messageMet messageUnmet : string) (generation : Z)
    (answer : bool * result unit) : kube MetaCondition :=
  match answer.2 with
  | inl err => newCondition conditionType false reasonUnmet (errorText err) generation
  | inr _ =>
      if answer.1 then newCondition conditionType true reasonMet messageMet generation
      else newCondition conditionType false reasonUnmet messageUnmet generation
  end.

Definition getDeployedCondition (operands : list (Operand * OperandState)) (generation : Z)
    : kube (list (Operand * OperandState) * MetaCondition) :=
  r <- operandsDeployed operands ;;
  condition <- answerCondition TypeDeployed ReasonDeployed ReasonNotDeployed "Resources deployed"
                 "Resources not deployed yet" generation r.2 ;;
  Ret (r.1, condition).

Definition getAvailableCondition (operands : list (Operand * OperandState)) (generation : Z)
    : kube (list (Operand * OperandState) * MetaCondition) :=
  r <- operandsAvailable operands ;;
  condition <- answerCondition TypeAvailable ReasonAvailable ReasonNotAvailable "System available"
                 "System not available" generation r.2 ;;
  Ret (r.1, condition).

Definition getReconcilingCondition (generation : Z) (reconciling : bool) : kube MetaCondition :=
  if reconciling then newCondition TypeReconciling true ReasonReconciling "Reconciliation in progress" generation
  else newCondition TypeReconciling false ReasonReconciled "Reconciliation completed successfully" generation.

(** The checkers of the installation: the scheduler. *)
Definition unmetInstallationDependencies : kube (string * result unit) :=
  r <- KAISchedulerCheck minimumSchedulerVersion ;;
  Ret match r with
      | inl err => ("", joinErrors [inl err])
      | inr message => (String.concat "; " (if message !=? "" then [message] else []), inr tt)
      end.

Definition unmetDependencies (operands : list (Operand * OperandState)) (krmConfig : KRMConfig) : kube string :=
  r1 <- operandsMissingDependencies operands krmConfig ;;
  r2 <- unmetInstallationDependencies ;;
  let failed := match joinErrors [r1.2; r2.2] with inl err => [errorText err] | inr _ => [] end in
  Ret (String.concat "; " (failed ++ filter (fun message => message <> "") [r1.1; r2.1])).

Definition getDependenciesFulfilledCondition (operands : list (Operand * OperandState)) (krmConfig : KRMConfig)
    : kube MetaCondition :=
  unmet <- unmetDependencies operands krmConfig ;;
  let generation := Generation (krmMeta krmConfig) in
  if (0 <? String.length unmet)%nat
  then newCondition TypeDependenciesFulfilled false ReasonDependenciesMissing unmet generation
  else newCondition TypeDependenciesFulfilled true ReasonDependenciesFulfilled "Dependencies are fulfilled" generation.

Fixpoint readyCondition (generation : Z) (conditions : list MetaCondition) : kube MetaCondition :=
  match conditions with
  | [] => newCondition TypeReady true ReasonReady "System is ready" generation
  | condition :: rest =>
      if mcStatus condition !=? "True" then newCondition TypeReady false ReasonNotReady (mcMessage condition) generation
      else readyCondition generation rest
  end.

Fixpoint hasReconcilingConditionForGeneration (conditions : list MetaCondition) (generation : Z) : bool :=
  match conditions with
  | [] => false
  | existing :: rest =>
      if mcType existing ==? TypeReconciling then mcObservedGeneration existing ==? generation
      else hasReconcilingConditionForGeneration rest generation
  end.

Definition UpdateStartReconcileStatus (operands : list (Operand * OperandState)) (krmConfig : KRMConfig)
    : kube (list (Operand * OperandState) * (KRMConfig * result unit)) :=
  let generation := Generation (krmMeta krmConfig) in
  if hasReconcilingConditionForGeneration (krmConditions krmConfig) generation then Ret (operands, (krmConfig, inr tt))
  else
    condition <- getReconcilingCondition generation true ;;
    r <- reconcileCondition krmConfig condition ;;
    match r.2 with
    | inl err => Ret (operands, (r.1, inl err))
    | inr _ =>
        deployed <- getDeployedCondition operands generation ;;
        result <- reconcileCondition r.1 deployed.2 ;;
        Ret (deployed.1, result)
    end.

(** The five conditions a reconcile reports. *)
Definition statusConditions (operands : list (Operand * OperandState)) (krmConfig : KRMConfig)
    : kube (list (Operand * OperandState) * list MetaCondition) :=
  let generation := Generation (krmMeta krmConfig) in
  deployed <- getDeployedCondition operands generation ;;
  available <- getAvailableCondition deployed.1 generation ;;
  dependenciesFulfilled <- getDependenciesFulfilledCondition available.1 krmConfig ;;
  ready <- readyCondition generation [deployed.2; available.2; dependenciesFulfilled] ;;
  reconciling <- getReconcilingCondition generation false ;;
  Ret (available.1, [deployed.2; available.2; dependenciesFulfilled; ready; reconciling]).

Definition ReconcileStatus (operands : list (Operand * OperandState)) (krmConfig : KRMConfig)
    : kube (list (Operand * OperandState) * (KRMConfig * result unit)) :=
  r <- statusConditions operands krmConfig ;;
  result <- reconcileConditions krmConfig r.2 ;;
  Ret (r.1, result).

(** ** The controller ([krmconfig_controller.go]) *)

Context {KC : KaiCommon} (podNamespace : string) (dependencyCheckInterval : Z) (singletonName : string).

(** The steps before the deferred status: the operands, the KRMConfig and the
    answer of the reconcile. *)
Definition reconcileBody (operands : list (Operand * OperandState)) (krmConfig : KRMConfig)
    : kube (list (Operand * OperandState) * (KRMConfig * result Result)) :=
  started <- UpdateStartReconcileStatus operands krmConfig ;;
  let '(operands, (krmConfig, r)) := started in
  match r with
  | inl err => Ret (operands, (krmConfig, inl err))
  | inr _ =>
      deployed <- Deploy operands krmConfig ;;
      let '(operands, r) := deployed in
      match r with
      | inl err => Ret (operands, (krmConfig, inl err))
      | inr _ =>
          errs <- monitorOperands operands krmConfig ;;
          match joinErrors errs with
          | inl err => Ret (operands, (krmConfig, inl err))
          | inr _ => Ret (operands, (krmConfig, inr {| Requeue := false; RequeueAfter := dependencyCheckInterval |}))
          end
      end
  end.

Definition noResult : Result := {| Requeue := false; RequeueAfter := 0 |}.

Definition Reconcile (operands : list (Operand * OperandState)) (request : NamespacedName)
    : kube (list (Operand * OperandState) * (Result * result unit)) :=
  if request.2 !=? singletonName then Ret (operands, (noResult, inr tt))
  else
    r <- call (Get KKRMConfig request) ;;
    match r with
    | inl err => Ret (operands, (noResult, IgnoreNotFound (inl err)))
    | inr krmConfig =>
        let krmConfig :=
          {| krmMeta := krmMeta krmConfig; krmSpec := SetDefaultsWhereNeeded podNamespace (krmSpec krmConfig);
             krmConditions := krmConditions krmConfig |} in
        body <- reconcileBody operands krmConfig ;;
        let '(operands, (krmConfig, r)) := body in
        status <- ReconcileStatus operands krmConfig ;;
        let '(operands, (_, statusErr)) := status in
        Ret (operands,
             match r with
             | inl err => (noResult, joinErrors [inl err; statusErr])
             | inr result => (result, joinErrors [statusErr])
             end)
    end.

End Deploy.
End Operator.
