(* ===== verification/CommandLine.v ===== *)
(** * The command lines of the binaries

    [cmd/nodepool-controller/app/options.go], [pkg/nodepool-controller/config],
    [pkg/project-controller/config/options.go], [pkg/pod-group-assigner/config],
    [cmd/pod-group-assigner/main.go], [cmd/project-controller/main.go] and
    [cmd/krm-operator/config]: the flags each binary declares, the configuration
    it makes of them and the webhooks it serves. *)

From stdpp Require Import base list gmap strings.
From S2P Require Import Prelude ApiTypes NodePoolUtils GoFlags Dependencies.
From S2P Require Assigner ProjectCommon NodePoolCommon.

(** The constants of the libraries that flags default to, the flags that the
    logging library binds, and the readers of JSON and of durations. *)
Class FlagLib := {
  kaiNodePoolLabelKey : string;
  kaiNodePoolName : string;
  kaiSchedulerName : string;
  kaiNamespace : string;
  kaiMetricsNamespace : string;
  kaiQueueLabel : string;
  kaiNamespaceProjectLabelKey : string;
  kaiProjectLabelKey : string;
  kaiCPUWorkerNodeLabelKey : string;
  kaiGPUWorkerNodeLabelKey : string;
  kaiMIGWorkerNodeLabelKey : string;
  zapFlags : flagSet;
  parsesAsDuration : string -> bool;
  unmarshalArgs : string -> result (gmap string string);
}.

(** ** Defaults of the flags *)

Module Import NodePoolFlags.
Definition defaultKAIPrefix := "kai.scheduler".
Definition DefaultFinalizerDomain := defaultKAIPrefix.
Definition defaultManagedNodesConfigName := "kai-managed-nodes-config".
Definition defaultExcludedNodepoolName := "kai-excluded-nodes".
Definition defaultToExcludeLabel := defaultKAIPrefix +:+ "/to-exclude".
Definition defaultUnschedulableLabel := defaultKAIPrefix +:+ "/unschedulable".
Definition defaultGroveTopologyAnnotation := defaultKAIPrefix +:+ "/grove-topology-name".
Definition defaultGroveTopologyRVAnnotation := defaultKAIPrefix +:+ "/grove-topology-resource-version".
Definition defaultDcgmExporterNamespace := "gpu-operator".
Definition defaultWebhookCertDir := "/etc/webhook/certs".
Definition defaultWebhookPort : Z := 8443.
End NodePoolFlags.

Module Import ProjectFlags.
Definition defaultKAIPrefix := "kai.resources".
Definition defaultProjectIdLabelKey := defaultKAIPrefix +:+ "/project-id".
Definition defaultNamespaceVersionLabelKey := defaultKAIPrefix +:+ "/namespace-version".
Definition defaultEnforceSchedulerAnnotationKey := defaultKAIPrefix +:+ "/enforce-scheduler-name".
Definition defaultFinalizerDomain := defaultKAIPrefix.
Definition defaultResourceManualOverrideLabelKey := defaultKAIPrefix +:+ "/resource-manual-override".
Definition defaultLimitRangeName := "kai-limit-range".
Definition defaultQueueDepartmentNameLabelKey := defaultKAIPrefix +:+ "/department-name".
Definition defaultEnableProjectValidationWebhook := true.
Definition defaultEnableDepartmentValidationWebhook := true.
Definition defaultProjectNamePrefix := "kai".
End ProjectFlags.

Section CommandLine.
Context {FL : FlagLib}.

(** ** The node pool controller *)

(** [config.AddLabelFlags] *)
Definition nodePoolLabelFlags : flagSet :=
  {[ "nodepool-label-key" := StringFlag; "default-nodepool-name" := StringFlag; "scheduler-name" := StringFlag;
     "scheduler-namespace" := StringFlag; "metrics-namespace" := StringFlag; "finalizer-domain" := StringFlag;
     "scheduling-shard-args" := StringFlag; "managed-nodes-config-name" := StringFlag;
     "excluded-nodepool-name" := StringFlag; "to-exclude-label" := StringFlag; "unschedulable-label" := StringFlag;
     "grove-topology-annotation" := StringFlag; "grove-topology-resource-version-annotation" := StringFlag ]}
  ∪ {[ "uninstall-detection-ref" := StringFlag; "cpu-worker-node-label-key" := StringFlag;
       "gpu-worker-node-label-key" := StringFlag; "mig-worker-node-label-key" := StringFlag ]}.

Definition nodePoolControllerConfigOf (values : flagValues) : NodePoolCommon.NodePoolControllerConfig :=
  {| NodePoolCommon.NodePoolNameLabel := stringVar values "nodepool-label-key" kaiNodePoolLabelKey;
     NodePoolCommon.DefaultNodepoolName := stringVar values "default-nodepool-name" kaiNodePoolName;
     NodePoolCommon.SchedulerName := stringVar values "scheduler-name" kaiSchedulerName;
     NodePoolCommon.SchedulerNamespace := stringVar values "scheduler-namespace" kaiNamespace;
     NodePoolCommon.CPUWorkerNodeLabelKey := stringVar values "cpu-worker-node-label-key" kaiCPUWorkerNodeLabelKey;
     NodePoolCommon.GPUWorkerNodeLabelKey := stringVar values "gpu-worker-node-label-key" kaiGPUWorkerNodeLabelKey;
     NodePoolCommon.MIGWorkerNodeLabelKey := stringVar values "mig-worker-node-label-key" kaiMIGWorkerNodeLabelKey;
     NodePoolCommon.MetricsNamespace := stringVar values "metrics-namespace" kaiMetricsNamespace;
     NodePoolCommon.FinalizerDomain := stringVar values "finalizer-domain" DefaultFinalizerDomain;
     NodePoolCommon.ManagedNodesConfigName := stringVar values "managed-nodes-config-name" defaultManagedNodesConfigName;
     NodePoolCommon.ExcludedNodepoolName := stringVar values "excluded-nodepool-name" defaultExcludedNodepoolName;
     NodePoolCommon.ShouldBeExcludedLabelKey := stringVar values "to-exclude-label" defaultToExcludeLabel;
     NodePoolCommon.UnschedulableLabelKey := stringVar values "unschedulable-label" defaultUnschedulableLabel;
     NodePoolCommon.GroveTopologyAnnotation := stringVar values "grove-topology-annotation" defaultGroveTopologyAnnotation;
     NodePoolCommon.GroveTopologyResourceVersionAnnotation :=
       stringVar values "grove-topology-resource-version-annotation" defaultGroveTopologyRVAnnotation |}.

Record NodePoolControllerOptions := {
  DebugLogLevel : bool;
  DcgmExporterNamespace : string;
  RestrictNodeScheduling : bool;
  MetricsPort : string;
  K8sClientConfigQPS : Z;
  K8sClientConfigBurst : Z;
  EnableLeaderElection : bool;
  EnableNodepoolValidationWebhook : bool;
  WebhookPort : Z;
  WebhookCertDir : string;
}.

(** [app.BindFlags], with the label flags and those of the logging library. *)
Definition nodePoolControllerFlags : flagSet :=
  {[ "debug" := BoolFlag; "dcgm-exporter-namespace" := StringFlag; "restrict-node-scheduling" := BoolFlag;
     "metrics-port" := StringFlag; "qps" := IntFlag; "burst" := IntFlag; "leader-elect" := BoolFlag;
     "enable-nodepool-validation-webhook" := BoolFlag; "webhook-port" := IntFlag; "cert-dir" := StringFlag ]}
  ∪ nodePoolLabelFlags ∪ zapFlags.

Definition nodePoolControllerOptionsOf (values : flagValues) : NodePoolControllerOptions :=
  {| DebugLogLevel := boolVar values "debug" false;
     DcgmExporterNamespace := stringVar values "dcgm-exporter-namespace" defaultDcgmExporterNamespace;
     RestrictNodeScheduling := boolVar values "restrict-node-scheduling" false;
     MetricsPort := stringVar values "metrics-port" "9400";
     K8sClientConfigQPS := intVar values "qps" 50;
     K8sClientConfigBurst := intVar values "burst" 300;
     EnableLeaderElection := boolVar values "leader-elect" false;
     EnableNodepoolValidationWebhook := boolVar values "enable-nodepool-validation-webhook" true;
     WebhookPort := intVar values "webhook-port" defaultWebhookPort;
     WebhookCertDir := stringVar values "cert-dir" defaultWebhookCertDir |}.

Definition ParseSchedulingShardArgs (schedulingShardArgsStr : string) : result (gmap string string) :=
  if schedulingShardArgsStr ==? "" then inr ∅ else unmarshalArgs schedulingShardArgsStr.

(** All five segments, of which only the namespace may be empty. *)
Definition splitRef (refStr : string) : option (string * string * string * string * string) :=
  match splitOn slashSign refStr with
  | [group; version; kind; namespace; name] =>
      if bool_decide ("" ∈ [group; version; kind; name]) then None else Some (group, version, kind, namespace, name)
  | _ => None
  end.

Definition ParseUninstallDetectionRef (refStr : string) : result (option NodePoolCommon.UninstallDetectionRef) :=
  if refStr ==? "" then inr None
  else match splitRef refStr with
       | None => inl (Errorf "expected group/version/Kind/namespace/name, got %q" [refStr])
       | Some (group, version, kind, namespace, name) =>
           inr (Some {| NodePoolCommon.refGroup := group; NodePoolCommon.refVersion := version;
                        NodePoolCommon.refKind := kind; NodePoolCommon.refKey := (namespace, name) |})
       end.

Definition parseNodePoolControllerParams (values : flagValues) : result NodePoolCommon.NodePoolControllerParams :=
  match ParseSchedulingShardArgs (stringVar values "scheduling-shard-args" "") with
  | inl err => inl (Wrapf "failed to parse scheduler args: %w" [] err)
  | inr schedulingShardArgs =>
      match ParseUninstallDetectionRef (stringVar values "uninstall-detection-ref" "") with
      | inl err => inl (Wrapf "failed to parse uninstall-detection-ref: %w" [] err)
      | inr uninstallDetection =>
          inr {| NodePoolCommon.SchedulingShardArgs := schedulingShardArgs;
                 NodePoolCommon.UninstallDetection := uninstallDetection |}
      end
  end.

(** ** The project controller *)

Definition projectControllerFlags : flagSet :=
  {[ "metrics-port" := StringFlag; "leader-elect" := BoolFlag; "namespaces" := BoolFlag; "role-bindings" := BoolFlag;
     "debug" := BoolFlag; "rolebindings-configmap-name" := StringFlag; "rolebindings-configmap-namespace" := StringFlag;
     "limit-range" := BoolFlag; "openshift" := BoolFlag; "limit-range-name" := StringFlag;
     "project-delete-blockers-namespace" := StringFlag; "nodepool-label-key" := StringFlag;
     "default-nodepool-name" := StringFlag ]}
  ∪ {[ "queue-label-key" := StringFlag; "namespace-project-label-key" := StringFlag; "project-label-key" := StringFlag;
       "project-id-label-key" := StringFlag; "queue-department-name-label-key" := StringFlag;
       "namespace-version-label-key" := StringFlag; "enforce-scheduler-annotation-key" := StringFlag;
       "finalizer-domain" := StringFlag; "install-namespace" := StringFlag; "project-name-prefix" := StringFlag;
       "resource-manual-override-label-key" := StringFlag; "allow-external-queues" := BoolFlag ]}
  ∪ {[ "enable-project-validation-webhook" := BoolFlag; "enable-department-validation-webhook" := BoolFlag;
       "webhook-port" := IntFlag; "cert-dir" := StringFlag; "enable-profiling" := BoolFlag;
       "profiler-api-port" := StringFlag; "qps" := IntFlag; "burst" := IntFlag ]}.

Definition projectReconcilerConfigOf (values : flagValues) : ProjectCommon.ProjectReconcilerConfig :=
  {| ProjectCommon.CreateNamespaces := boolVar values "namespaces" false;
     ProjectCommon.CreateRoleBindings := boolVar values "role-bindings" false;
     ProjectCommon.RoleBindingsCm := stringVar values "rolebindings-configmap-name" "";
     ProjectCommon.RoleBindingsCmNamespace := stringVar values "rolebindings-configmap-namespace" "";
     ProjectCommon.cfgLimitRange := boolVar values "limit-range" false;
     ProjectCommon.IsOpenshift := boolVar values "openshift" false;
     ProjectCommon.NodePoolLabelKey := stringVar values "nodepool-label-key" kaiNodePoolLabelKey;
     ProjectCommon.DefaultNodepoolName := stringVar values "default-nodepool-name" kaiNodePoolName;
     ProjectCommon.NamespaceProjectLabelKey := stringVar values "namespace-project-label-key" kaiNamespaceProjectLabelKey;
     ProjectCommon.ProjectLabelKey := stringVar values "project-label-key" kaiProjectLabelKey;
     ProjectCommon.ProjectIdLabelKey := stringVar values "project-id-label-key" defaultProjectIdLabelKey;
     ProjectCommon.QueueDepartmentNameLabelKey :=
       stringVar values "queue-department-name-label-key" defaultQueueDepartmentNameLabelKey;
     ProjectCommon.NamespaceVersionLabelKey := stringVar values "namespace-version-label-key" defaultNamespaceVersionLabelKey;
     ProjectCommon.EnforceSchedulerAnnotationKey :=
       stringVar values "enforce-scheduler-annotation-key" defaultEnforceSchedulerAnnotationKey;
     ProjectCommon.FinalizerDomain := stringVar values "finalizer-domain" defaultFinalizerDomain;
     ProjectCommon.InstallNamespace := stringVar values "install-namespace" "";
     ProjectCommon.ProjectNamePrefix := stringVar values "project-name-prefix" defaultProjectNamePrefix;
     ProjectCommon.ResourceManualOverrideLabelKey :=
       stringVar values "resource-manual-override-label-key" defaultResourceManualOverrideLabelKey;
     ProjectCommon.AllowExternalQueues := boolVar values "allow-external-queues" false;
     ProjectCommon.LimitRangeName := stringVar values "limit-range-name" defaultLimitRangeName;
     ProjectCommon.GvkDeleteBlockersNamespace := stringVar values "project-delete-blockers-namespace" "" |}.

(** The rest of the configuration and the options of the process. *)
Record ProjectControllerOptions := {
  projectMetricsPort : string;
  projectDebug : bool;
  projectLeaderElection : bool;
  projectQueueLabelKey : string;
  EnableProjectValidationWebhook : bool;
  EnableDepartmentValidationWebhook : bool;
  projectWebhookPort : Z;
  projectWebhookCertDir : string;
  EnableProfiler : bool;
  ProfilerApiPort : string;
  projectQPS : Z;
  projectBurst : Z;
}.

Definition projectControllerOptionsOf (values : flagValues) : ProjectControllerOptions :=
  {| projectMetricsPort := stringVar values "metrics-port" "9400";
     projectDebug := boolVar values "debug" false;
     projectLeaderElection := boolVar values "leader-elect" false;
     projectQueueLabelKey := stringVar values "queue-label-key" kaiQueueLabel;
     EnableProjectValidationWebhook :=
       boolVar values "enable-project-validation-webhook" defaultEnableProjectValidationWebhook;
     EnableDepartmentValidationWebhook :=
       boolVar values "enable-department-validation-webhook" defaultEnableDepartmentValidationWebhook;
     projectWebhookPort := intVar values "webhook-port" 8443;
     projectWebhookCertDir := stringVar values "cert-dir" "/etc/webhook/certs";
     EnableProfiler := boolVar values "enable-profiling" false;
     ProfilerApiPort := stringVar values "profiler-api-port" "8182";
     projectQPS := intVar values "qps" 50;
     projectBurst := intVar values "burst" 300 |}.

(** [registerValidationWebhooks]: the webhooks that are served, none without a
    server, or the error the process exits with. *)
Inductive ProjectWebhook := ProjectWebhookPath | DepartmentWebhookPath | QueueWebhookPath.

Definition registerValidationWebhooks (opts : ProjectControllerOptions) (allowExternalQueues : bool)
    : result (list ProjectWebhook) :=
  if negb (EnableProjectValidationWebhook opts) && negb (EnableDepartmentValidationWebhook opts)
     && negb allowExternalQueues then inr []
  else if (projectWebhookPort opts <=? 0)%Z || (65535 <? projectWebhookPort opts)%Z then
    inl (Errorf "invalid webhook port" [])
  else if projectWebhookCertDir opts ==? "" then inl (Errorf "webhook cert directory is empty" [])
  else inr ((if EnableProjectValidationWebhook opts then [ProjectWebhookPath] else [])
            ++ (if EnableDepartmentValidationWebhook opts then [DepartmentWebhookPath] else [])
            ++ (if allowExternalQueues then [QueueWebhookPath] else [])).

(** The namespaces of the cached config maps. *)
Definition configMapCacheNamespaces (cfg : ProjectCommon.ProjectReconcilerConfig) : gset string :=
  list_to_set (filter (fun namespace => namespace <> "")
    [ProjectCommon.InstallNamespace cfg; ProjectCommon.RoleBindingsCmNamespace cfg]).

(** ** The pod group assigner *)

Definition DefaultUnexistingNodepoolSentinel := "kai-unexisting-node-pool".
Definition DefaultAnnotationNodepoolsKey := "kai.scheduler/node-pools".
Definition assignerEnforceSchedulerAnnotationKey := "kai.resources/enforce-scheduler-name".

(** [config.AddLabelFlags] of the pod group assigner *)
Definition assignerLabelFlags : flagSet :=
  {[ "nodepool-label-key" := StringFlag; "queue-label-key" := StringFlag; "namespace-project-label-key" := StringFlag;
     "project-label-key" := StringFlag; "unexisting-nodepool-sentinel" := StringFlag; "default-nodepool-name" := StringFlag;
     "annotation-nodepools-key" := StringFlag; "enforce-scheduler-annotation-key" := StringFlag;
     "scheduler-name" := StringFlag; "allow-external-queues" := BoolFlag ]}.

Definition podGroupAssignerConfigOf (values : flagValues) : Assigner.PodGroupAssignerConfig :=
  {| Assigner.NodePoolLabelKey := stringVar values "nodepool-label-key" kaiNodePoolLabelKey;
     Assigner.QueueLabelKey := stringVar values "queue-label-key" kaiQueueLabel;
     Assigner.NamespaceProjectLabelKey := stringVar values "namespace-project-label-key" kaiNamespaceProjectLabelKey;
     Assigner.ProjectLabelKey := stringVar values "project-label-key" kaiProjectLabelKey;
     Assigner.UnexistingNodepoolSentinel := stringVar values "unexisting-nodepool-sentinel" DefaultUnexistingNodepoolSentinel;
     Assigner.DefaultNodepoolName := stringVar values "default-nodepool-name" kaiNodePoolName;
     Assigner.AnnotationNodepoolsKey := stringVar values "annotation-nodepools-key" DefaultAnnotationNodepoolsKey;
     Assigner.EnforceSchedulerAnnotationKey :=
       stringVar values "enforce-scheduler-annotation-key" assignerEnforceSchedulerAnnotationKey;
     Assigner.SchedulerName := stringVar values "scheduler-name" kaiSchedulerName;
     Assigner.AllowExternalQueues := boolVar values "allow-external-queues" false |}.

Record PodGroupAssignerOptions := {
  useDebugLogLevel : bool;
  certDir : string;
  assignerWebhookPort : Z;
  enableProfiler : bool;
  profilerApiPort : string;
  k8sClientConfigQPS : Z;
  k8sClientConfigBurst : Z;
  assignerLeaderElection : bool;
  enablePodWebhook : bool;
}.

Definition podGroupAssignerFlags : flagSet :=
  {[ "debug" := BoolFlag; "cert-dir" := StringFlag; "webhook-port" := IntFlag; "enable-profiling" := BoolFlag;
     "profiler-api-port" := StringFlag; "qps" := IntFlag; "burst" := IntFlag; "leader-elect" := BoolFlag;
     "enable-pod-webhook" := BoolFlag ]} ∪ assignerLabelFlags ∪ zapFlags.

Definition podGroupAssignerOptionsOf (values : flagValues) : PodGroupAssignerOptions :=
  {| useDebugLogLevel := boolVar values "debug" false;
     certDir := stringVar values "cert-dir" "/etc/webhook/certs";
     assignerWebhookPort := intVar values "webhook-port" 8443;
     enableProfiler := boolVar values "enable-profiling" false;
     profilerApiPort := stringVar values "profiler-api-port" "8182";
     k8sClientConfigQPS := intVar values "qps" 50;
     k8sClientConfigBurst := intVar values "burst" 300;
     assignerLeaderElection := boolVar values "leader-elect" false;
     enablePodWebhook := boolVar values "enable-pod-webhook" true |}.

(** [registerWebhooks]: the pod group webhook always, the pod webhook by choice. *)
Definition registerWebhooks (opts : PodGroupAssignerOptions) : list string :=
  "/mutate-pod-group" :: (if enablePodWebhook opts then ["/mutate-pod"] else []).

(** ** The operator *)

Record OperatorOptions := {
  MetricsAddr : string;
  ProbeAddr : string;
  operatorLeaderElection : bool;
  operatorQPS : Z;
  operatorBurst : Z;
  DependencyCheckInterval : string;
  MinimumSchedulerVersion : string;
}.

Definition operatorFlags : flagSet :=
  {[ "metrics-bind-address" := StringFlag; "health-probe-bind-address" := StringFlag; "leader-elect" := BoolFlag;
     "qps" := IntFlag; "burst" := IntFlag; "dependency-check-interval" := OtherFlag false parsesAsDuration;
     "min-kai-scheduler-version" := StringFlag ]} ∪ zapFlags.

Definition operatorOptionsOf (values : flagValues) : OperatorOptions :=
  {| MetricsAddr := stringVar values "metrics-bind-address" ":8080";
     ProbeAddr := stringVar values "health-probe-bind-address" ":8081";
     operatorLeaderElection := boolVar values "leader-elect" false;
     operatorQPS := intVar values "qps" 50;
     operatorBurst := intVar values "burst" 300;
     DependencyCheckInterval := stringVar values "dependency-check-interval" "1m0s";
     MinimumSchedulerVersion := stringVar values "min-kai-scheduler-version" DefaultMinimumSchedulerVersion |}.

(** [config.parse]: the options, or the error of the command line. *)
Definition parseOperatorOptions (options : list string) : result OperatorOptions :=
  match Parse operatorFlags options with
  | inl err => inl err
  | inr (values, _) => inr (operatorOptionsOf values)
  end.

End CommandLine.
