(* ===== verification/CommandLineFacts.v ===== *)
(** * Facts about command lines

    A list of settings, rendered as arguments, is read back as those settings;
    so the command lines that the operator builds mean to the binaries what the
    configuration says. *)

From Stdlib Require Import Ascii.
From stdpp Require Import base list gmap strings pretty.
From S2P Require Import Prelude ApiTypes OperatorConfig GoFlags Dependencies Operands OperandResources CommandLine.
From S2P Require Assigner ProjectCommon NodePoolCommon.
Import NodePoolFlags ProjectFlags.

(** ** Decimal numbers *)

Lemma byteOf_digit x : (x < 10)%N -> byteOf (pretty_N_char x) = (48 + Z.of_N x)%Z.
Proof.
  intros Hx. assert (x = 0 \/ x = 1 \/ x = 2 \/ x = 3 \/ x = 4 \/ x = 5 \/ x = 6 \/ x = 7 \/ x = 8 \/ x = 9)%N
    as Hc by lia. by repeat (destruct Hc as [->|Hc]); [..|subst].
Qed.

(** A text of decimal digits that does not begin with a zero. *)
Inductive digits : string -> Prop :=
| digits_nil : digits ""
| digits_cons x s : (x < 10)%N -> digits s -> digits (String (pretty_N_char x) s).

Lemma go_digits x s : digits s -> digits (pretty_N_go x s).
Proof.
  revert s. induction (N.lt_wf_0 x) as [x _ IH]; intros s Hs. destruct (decide (x = 0)%N) as [->|Hx]; [done|].
  rewrite pretty_N_go_step by lia. apply IH; [apply N.div_lt; lia|]. constructor; [|done]. by apply N.mod_lt.
Qed.

Lemma go_first x s : (0 < x)%N -> exists d s', pretty_N_go x s = String (pretty_N_char d) s' /\ (0 < d < 10)%N.
Proof.
  revert s. induction (N.lt_wf_0 x) as [x _ IH]; intros s Hx. rewrite pretty_N_go_step by done.
  destruct (decide (x / 10 = 0)%N) as [Hz|Hz].
  - rewrite Hz. exists (x mod 10)%N, s. split; [done|]. apply N.div_small_iff in Hz; [|done].
    rewrite N.mod_small by done. lia.
  - apply IH; [apply N.div_lt; lia|]. by apply N.neq_0_lt_0.
Qed.

Lemma parseDigits_cons base0 acc x s :
  (x < 10)%N -> parseDigits base0 10 acc (String (pretty_N_char x) s) = parseDigits base0 10 (acc * 10 + Z.of_N x) s.
Proof.
  intros Hx. cbn [parseDigits]. rewrite (byteOf_digit x Hx).
  replace (48 + Z.of_N x =? underscore)%Z with false by (unfold underscore; lia). rewrite Bool.andb_false_r.
  unfold digitOf. replace ((48 <=? 48 + Z.of_N x) && (48 + Z.of_N x <=? 57))%Z with true by lia.
  replace (48 + Z.of_N x - 48)%Z with (Z.of_N x) by lia. by replace (Z.of_N x <? 10)%Z with true by lia.
Qed.

Lemma parseDigits_go x s : parseDigits true 10 0 (pretty_N_go x s) = parseDigits true 10 (Z.of_N x) s.
Proof.
  revert s. induction (N.lt_wf_0 x) as [x _ IH]; intros s. destruct (decide (x = 0)%N) as [->|Hx]; [done|].
  rewrite pretty_N_go_step by lia. rewrite IH by (apply N.div_lt; lia). rewrite parseDigits_cons by (by apply N.mod_lt).
  f_equal. rewrite N2Z.inj_div, N2Z.inj_mod. pose proof (Z.div_mod (Z.of_N x) 10). lia.
Qed.

Lemma digits_separate prev s : prev <> ClassUnderscore -> digits s -> underscoresSeparate false prev s = true.
Proof.
  intros Hp Hs. revert prev Hp. induction Hs as [|x s Hx Hs IH]; intros prev Hp; cbn [underscoresSeparate].
  - by rewrite bool_decide_false.
  - rewrite (byteOf_digit x Hx). replace ((48 <=? 48 + Z.of_N x) && (48 + Z.of_N x <=? 57))%Z with true by lia.
    by apply IH.
Qed.

Lemma parseUint0_pretty (n : N) : parseUint0 (pretty n) = Some (Z.of_N n).
Proof.
  unfold pretty, pretty_N. destruct (decide (n = 0)%N) as [->|Hn]; [done|].
  pose proof (go_digits n "" digits_nil) as Hd. pose proof (parseDigits_go n "") as Hp.
  destruct (go_first n "") as (d & s' & Heq & Hdd); [lia|]. rewrite Heq in *. unfold parseUint0.
  rewrite (byteOf_digit d) by lia. replace (48 + Z.of_N d =? 48)%Z with false by lia.
  by rewrite digits_separate.
Qed.

Lemma pretty_first (n : N) : exists d s', pretty n = String (pretty_N_char d) s' /\ (d < 10)%N.
Proof.
  unfold pretty, pretty_N. destruct (decide (n = 0)%N) as [->|Hn]; [by exists 0%N, ""|].
  destruct (go_first n "") as (d & s' & -> & Hd); [lia|]. exists d, s'. split; [done|lia].
Qed.

(** [strconv.Itoa] is read back by the integer flags. *)
Lemma ParseInt_pretty (z : Z) : (minInt <= z <= maxInt)%Z -> ParseInt (pretty z) = Some z.
Proof.
  intros Hz. unfold ParseInt. destruct z as [|p|p].
  - by vm_compute.
  - change (pretty (Z.pos p)) with (pretty (N.pos p)). destruct (pretty_first (N.pos p)) as (d & s' & Heq & Hd).
    pose proof (parseUint0_pretty (N.pos p)) as Hp. rewrite Heq in *. rewrite (byteOf_digit d Hd).
    replace (48 + Z.of_N d =? 43)%Z with false by lia. replace (48 + Z.of_N d =? 45)%Z with false by lia.
    rewrite Hp. cbn [Z.of_N]. replace ((minInt <=? Z.pos p) && (Z.pos p <=? maxInt))%Z with true by lia. done.
  - change (pretty (Z.neg p)) with (String (Ascii.ascii_of_nat 45) (pretty (N.pos p))).
    cbn [byteOf]. change (byteOf (Ascii.ascii_of_nat 45) =? 43)%Z with false.
    change (byteOf (Ascii.ascii_of_nat 45) =? 45)%Z with true. cbv iota beta.
    rewrite parseUint0_pretty. change (- Z.of_N (N.pos p))%Z with (Z.neg p).
    destruct Hz as [Hlo%Z.leb_le Hhi%Z.leb_le]. by rewrite Hlo, Hhi.
Qed.

(** ** Settings and the arguments that carry them *)

(** A text that is passed when it is not empty, one that is always passed, a
    number, a boolean that is written out and one that is passed when true. *)
Inductive Slot :=
| TextSlot (v : option string)
| ArgSlot (v : string)
| IntSlot (v : option Z)
| BoolSlot (b : bool)
| SwitchSlot (b : option bool).

Definition slotArgs (name : string) (slot : Slot) : list string :=
  match slot with
  | TextSlot v => match v with Some t => if t ==? "" then [] else ["--" +:+ name; t] | None => [] end
  | ArgSlot t => ["--" +:+ name; t]
  | IntSlot v => match v with Some n => ["--" +:+ name; pretty n] | None => [] end
  | BoolSlot b => [("--" +:+ name) +:+ ("=" +:+ FormatBool b)]
  | SwitchSlot b => if default false b then ["--" +:+ name] else []
  end.

Definition slotValue (slot : Slot) : option FlagValue :=
  match slot with
  | TextSlot v => match v with Some t => if t ==? "" then None else Some (TextValue t) | None => None end
  | ArgSlot t => Some (TextValue t)
  | IntSlot v => IntValue <$> v
  | BoolSlot b => Some (BoolValue b)
  | SwitchSlot b => if default false b then Some (BoolValue true) else None
  end.

Definition slotKind (slot : Slot) : FlagKind :=
  match slot with TextSlot _ | ArgSlot _ => StringFlag | IntSlot _ => IntFlag | BoolSlot _ | SwitchSlot _ => BoolFlag end.

Definition wordInt (v : option Z) : Prop := match v with Some n => (minInt <= n <= maxInt)%Z | None => True end.

Definition slotFits (slot : Slot) : Prop := match slot with IntSlot v => wordInt v | _ => True end.

Definition commandLine (slots : list (string * Slot)) : list string := slots ≫= fun s => slotArgs s.1 s.2.

Definition readSlot (values : flagValues) (s : string * Slot) : flagValues :=
  match slotValue s.2 with Some v => <[s.1 := v]> values | None => values end.

Definition readSlots (slots : list (string * Slot)) : flagValues := foldl readSlot ∅ slots.

(** No dash or equals sign in front, no equals sign within. *)
Fixpoint noEquals (s : string) : bool :=
  match s with EmptyString => true | String c rest => negb (byteOf c =? 61)%Z && noEquals rest end.

Definition plainName (name : string) : bool :=
  match name with EmptyString => false | String c rest => negb (byteOf c =? dash)%Z && noEquals name end.

Definition declared (formal : flagSet) (s : string * Slot) : Prop :=
  plainName s.1 = true /\ formal !! s.1 = Some (slotKind s.2).

Lemma cutEquals_plain name : noEquals name = true -> cutEquals name = (name, None).
Proof.
  induction name as [|c name IH]; [done|]. cbn [noEquals cutEquals]. intros [Hc Hn]%andb_prop.
  apply negb_true_iff in Hc. by rewrite Hc, IH.
Qed.

Lemma cutEquals_value name text : noEquals name = true -> cutEquals (name +:+ ("=" +:+ text)) = (name, Some text).
Proof.
  induction name as [|c name IH]; [done|]. cbn [noEquals]. intros [Hc Hn]%andb_prop. apply negb_true_iff in Hc.
  change (String c name +:+ ("=" +:+ text)) with (String c (name +:+ ("=" +:+ text))). cbn [cutEquals].
  by rewrite Hc, IH.
Qed.

Lemma read_plain name : plainName name = true ->
  readArgument ("--" +:+ name) = FlagArgument name /\ flagNameValue name = (name, None).
Proof.
  destruct name as [|c name]; [done|]. cbn [plainName noEquals].
  intros (Hd & He & Hn)%andb_prop%(fun H => conj (proj1 H) (andb_prop _ _ (proj2 H))).
  apply negb_true_iff in Hd, He. split.
  - change ("--" +:+ String c name) with (String "-"%char (String "-"%char (String c name))). cbn [readArgument].
    change (byteOf "-"%char =? dash)%Z with true. cbn [negb flagText]. rewrite bool_decide_false by done.
    by rewrite Hd, He.
  - cbn [flagNameValue]. by rewrite cutEquals_plain.
Qed.

Lemma read_value name text : plainName name = true ->
  readArgument (("--" +:+ name) +:+ ("=" +:+ text)) = FlagArgument (name +:+ ("=" +:+ text))
  /\ flagNameValue (name +:+ ("=" +:+ text)) = (name, Some text).
Proof.
  destruct name as [|c name]; [done|]. cbn [plainName noEquals].
  intros (Hd & He & Hn)%andb_prop%(fun H => conj (proj1 H) (andb_prop _ _ (proj2 H))).
  apply negb_true_iff in Hd, He.
  change (("--" +:+ String c name) +:+ ("=" +:+ text)) with (String "-"%char (String "-"%char (String c (name +:+ ("=" +:+ text))))).
  change (String c name +:+ ("=" +:+ text)) with (String c (name +:+ ("=" +:+ text))). split.
  - cbn [readArgument]. change (byteOf "-"%char =? dash)%Z with true. cbn [negb flagText].
    rewrite bool_decide_false by done. by rewrite Hd, He.
  - cbn [flagNameValue]. by rewrite cutEquals_value.
Qed.

(** One setting is read back, whatever follows it. *)
Lemma parse_slot formal values s rest :
  declared formal s -> slotFits s.2 ->
  parseArgs formal values (slotArgs s.1 s.2 ++ rest) = parseArgs formal (readSlot values s) rest.
Proof.
  destruct s as [name slot]. cbn [fst snd]. intros [Hplain Hformal] Hfits. cbn [fst snd] in *. unfold readSlot. cbn [fst snd].
  destruct (read_plain name Hplain) as [Hread Hname].
  assert (forall text v, slotKind slot <> BoolFlag -> setFlag (slotKind slot) text = Some v -> isBoolFlag (slotKind slot) = false ->
    parseArgs formal values (["--" +:+ name; text] ++ rest) = parseArgs formal (<[name := v]> values) rest) as Hpair.
  { intros text v _ Hset Hb. cbn [app parseArgs]. by rewrite Hread, Hname, Hformal, Hb, Hset. }
  destruct slot as [[t|]|t|[n|]|b|[[]|]]; cbn [slotArgs slotValue default] in *; try done.
  - destruct (decide (t = "")) as [Ht|Ht]; [by rewrite !(bool_decide_true _ Ht)|].
    rewrite !(bool_decide_false _ Ht). by apply Hpair.
  - by apply Hpair.
  - apply Hpair; [done| |done]. cbn [slotKind setFlag]. by rewrite ParseInt_pretty.
  - destruct (read_value name (FormatBool b) Hplain) as [Hread' Hname']. cbn [app parseArgs].
    rewrite Hread', Hname', Hformal. cbn [slotKind isBoolFlag setFlag default]. by destruct b.
  - cbn [id app parseArgs]. by rewrite Hread, Hname, Hformal.
Qed.

(** A command line of settings is read back as those settings. *)
Lemma parse_commandLine formal slots values rest :
  Forall (declared formal) slots -> Forall (fun s => slotFits s.2) slots ->
  parseArgs formal values (commandLine slots ++ rest) = parseArgs formal (foldl readSlot values slots) rest.
Proof.
  intros Hd Hf. revert values. induction slots as [|s slots IH]; intros values; [done|].
  apply Forall_cons in Hd as [Hs Hd], Hf as [Hfs Hf]. unfold commandLine. cbn [mbind list_bind foldl].
  rewrite <- app_assoc, parse_slot by done. by apply IH.
Qed.

Fixpoint slotOf (name : string) (slots : list (string * Slot)) : option Slot :=
  match slots with
  | [] => None
  | s :: rest => if decide (s.1 = name) then Some s.2 else slotOf name rest
  end.

Lemma foldl_readSlot_other slots values name :
  slotOf name slots = None -> foldl readSlot values slots !! name = values !! name.
Proof.
  revert values. induction slots as [|[n s] slots IH]; intros values; [done|]. cbn [slotOf foldl fst snd].
  destruct (decide (n = name)) as [|Hne]; [done|]. intros Hs. rewrite IH by done. unfold readSlot. cbn [fst snd].
  destruct (slotValue s); [|done]. by apply (lookup_insert_ne (M := gmap string)).
Qed.

Lemma slotOf_None name slots : name ∉ slots.*1 -> slotOf name slots = None.
Proof.
  induction slots as [|[n s] slots IH]; [done|]. cbn [fmap list_fmap slotOf fst]. intros [Hne Hni]%not_elem_of_cons.
  rewrite decide_False by done. by apply IH.
Qed.

Lemma readSlots_lookup slots name :
  NoDup slots.*1 -> readSlots slots !! name = slotOf name slots ≫= slotValue.
Proof.
  unfold readSlots. intros Hnd. assert (forall values, values !! name = None ->
    foldl readSlot values slots !! name = slotOf name slots ≫= slotValue) as H; [|by apply H].
  induction slots as [|[n s] slots IH]; intros values Hv; [done|]. cbn [slotOf foldl fst snd].
  cbn [fmap list_fmap fst] in Hnd. apply NoDup_cons in Hnd as [Hni Hnd]. destruct (decide (n = name)) as [->|Hne].
  - rewrite foldl_readSlot_other by (by apply slotOf_None). unfold readSlot. cbn [fst snd mbind option_bind].
    destruct (slotValue s); [apply (lookup_insert_eq (M := gmap string))|done].
  - apply IH; [done|]. unfold readSlot. cbn [fst snd]. destruct (slotValue s); [|done].
    rewrite <- Hv. by apply (lookup_insert_ne (M := gmap string)).
Qed.

(** What a variable holds: the given text unless it is empty, or the default. *)
Definition textOr (v : option string) (d : string) : string :=
  match v with Some t => if t ==? "" then d else t | None => d end.

Section Variables.
Context (slots : list (string * Slot)) (Hnd : NoDup slots.*1).

Lemma stringVar_text name v d : slotOf name slots = Some (TextSlot v) -> stringVar (readSlots slots) name d = textOr v d.
Proof.
  intros Hs. unfold stringVar. rewrite readSlots_lookup, Hs by done. destruct v as [t|]; [|done].
  cbn [mbind option_bind slotValue textOr]. by destruct (t ==? "").
Qed.

Lemma stringVar_arg name v d : slotOf name slots = Some (ArgSlot v) -> stringVar (readSlots slots) name d = v.
Proof. intros Hs. unfold stringVar. by rewrite readSlots_lookup, Hs. Qed.

Lemma stringVar_absent name d : slotOf name slots = None -> stringVar (readSlots slots) name d = d.
Proof. intros Hs. unfold stringVar. by rewrite readSlots_lookup, Hs. Qed.

Lemma intVar_int name v d : slotOf name slots = Some (IntSlot v) -> intVar (readSlots slots) name d = default d v.
Proof. intros Hs. unfold intVar. rewrite readSlots_lookup, Hs by done. by destruct v. Qed.

Lemma boolVar_bool name v d : slotOf name slots = Some (BoolSlot v) -> boolVar (readSlots slots) name d = v.
Proof. intros Hs. unfold boolVar. by rewrite readSlots_lookup, Hs. Qed.

Lemma boolVar_switch name v : slotOf name slots = Some (SwitchSlot v) -> boolVar (readSlots slots) name false = default false v.
Proof. intros Hs. unfold boolVar. rewrite readSlots_lookup, Hs by done. by destruct v as [[]|]. Qed.

Lemma boolVar_absent name d : slotOf name slots = None -> boolVar (readSlots slots) name d = d.
Proof. intros Hs. unfold boolVar. by rewrite readSlots_lookup, Hs. Qed.

End Variables.

(** ** The command lines the operator builds *)

Definition textArgs (flag : string) (v : option string) : list string :=
  match v with Some t => if t ==? "" then [] else [flag; t] | None => [] end.

Lemma appendStringArg_app args flag v : appendStringArg args flag v = args ++ textArgs flag v.
Proof. destruct v as [t|]; cbn [appendStringArg textArgs]; [|by rewrite app_nil_r]. destruct (t ==? ""); [by rewrite app_nil_r|done]. Qed.

Lemma appendSwitch_app args flag b : appendSwitch args flag b = args ++ if default false b then [flag] else [].
Proof. unfold appendSwitch. destruct (default false b); cbn [negb]; [done|by rewrite app_nil_r]. Qed.

Lemma clientArgs_slot args client :
  AddK8sClientConfigToArgs client args
  = (args ++ slotArgs "qps" (IntSlot (client ≫= QPS))) ++ slotArgs "burst" (IntSlot (client ≫= Burst)).
Proof.
  destruct client as [c|]; [|by rewrite !app_nil_r]. unfold AddK8sClientConfigToArgs. cbn [mbind option_bind slotArgs].
  destruct (QPS c), (Burst c); rewrite ?app_nil_r; done.
Qed.

Definition portOf (mapping : option PortMapping) : option Z := mapping ≫= pmTargetPort.

Lemma targetPort_inv mapping p : targetPort mapping = inr p -> portOf mapping = Some p.
Proof. destruct mapping as [m|]; [|done]. cbn. destruct (pmTargetPort m); [|done]. cbn. by intros [= ->]. Qed.

Lemma servedArgs_slot (served : bool) mapping args args' :
  (if served then webhook ← targetPort mapping; inr (args ++ ["--webhook-port"; pretty webhook]) else inr args)
    = (inr args' : result (list string)) ->
  args' = args ++ slotArgs "webhook-port" (IntSlot (if served then portOf mapping else None)).
Proof.
  destruct served; [|intros [= ->]; by rewrite app_nil_r]. destruct (targetPort mapping) as [|p] eqn:Hp; [done|].
  apply targetPort_inv in Hp as ->. cbn [mbind result_bind]. by intros [= <-].
Qed.

(** Takes the arguments of the served port out of [H]. *)
Ltac served_args H :=
  match type of H with
  | (?m ≫= _ = _) =>
      let Hp := fresh "Hp" in
      destruct m eqn:Hp; [done|]; apply servedArgs_slot in Hp; subst; cbn [mbind result_bind] in H; injection H as <-
  end.

(** The appended arguments are those of the slots, in their order. *)
Ltac line_of_slots slots :=
  rewrite clientArgs_slot, !appendSwitch_app, !appendStringArg_app; unfold commandLine, slots;
  cbn [mbind list_bind fst snd]; rewrite ?app_nil_r, <- !app_assoc; reflexivity.

Lemma wordInt_if (b : bool) v : wordInt v -> wordInt (if b then v else None).
Proof. by destruct b. Qed.

Lemma wordInt_port v : (forall p, v = Some p -> 0 < p <= 65535)%Z -> wordInt v.
Proof. destruct v as [p|]; [|done]. intros H. specialize (H p eq_refl). cbn [wordInt]. unfold minInt, maxInt. lia. Qed.

(** Every slot is a declared flag of its kind; the names are distinct; the
    numbers fit. *)
Ltac declared_slots :=
  repeat (apply Forall_cons; split;
    [split; [vm_compute; reflexivity|cbn [fst snd slotKind]; first [apply lookup_union_Some_l; vm_compute; reflexivity|vm_compute; reflexivity]]|]);
  by apply Forall_nil.
Ltac distinct_slots := apply (bool_decide_unpack _); vm_compute; exact I.
Ltac fitting_slots :=
  repeat (apply Forall_cons; split; [cbn [snd slotFits]; first [done|apply wordInt_if; auto using wordInt_port]|]); by apply Forall_nil.

(** The fields of a record, each read from its slot. *)
Ltac read_field Hnd :=
  etransitivity;
  [ first
      [ apply (stringVar_text _ Hnd); reflexivity
      | apply (stringVar_arg _ Hnd); reflexivity
      | apply (stringVar_absent _ Hnd); reflexivity
      | apply (intVar_int _ Hnd); reflexivity
      | apply (boolVar_bool _ Hnd); reflexivity
      | apply (boolVar_switch _ Hnd); reflexivity
      | apply (boolVar_absent _ Hnd); reflexivity ]
  | reflexivity ].
Ltac read_record Hnd := f_equal; read_field Hnd.

Section NodePoolControllerLine.
Context {FL : FlagLib} {KC : KaiCommon}.
Context (krmConfig : KRMConfig) (config : NodePoolControllerSpec) (global : GlobalConfig) (ports : ControllerServiceConfig).
Context (cargs : NodePoolControllerArgs) (webhooks : NodePoolControllerWebhooks) (service : ServiceConfig).
Import NodePoolController.

Definition nodePoolControllerSlots (metrics : Z) (defaultName : string) : list (string * Slot) :=
  [("metrics-port", ArgSlot (pretty metrics));
   ("scheduler-namespace", ArgSlot (schedulerNamespace krmConfig cargs));
   ("enable-nodepool-validation-webhook", BoolSlot (webhookEnabled webhooks));
   ("default-nodepool-name", ArgSlot defaultName);
   ("webhook-port", IntSlot (if webhookEnabled webhooks then portOf (csWebhook ports) else None));
   ("nodepool-label-key", TextSlot (gNodePoolLabelKey global));
   ("scheduler-name", TextSlot (gSchedulerName global));
   ("finalizer-domain", TextSlot (gFinalizerDomain global));
   ("metrics-namespace", TextSlot (naMetricsNamespace cargs));
   ("dcgm-exporter-namespace", TextSlot (naDcgmExporterNamespace cargs));
   ("scheduling-shard-args", TextSlot (naSchedulingShardArgs cargs));
   ("excluded-nodepool-name", TextSlot (naExcludedNodepoolName cargs));
   ("managed-nodes-config-name", TextSlot (naManagedNodesConfigName cargs));
   ("to-exclude-label", TextSlot (naToExcludeLabel cargs));
   ("unschedulable-label", TextSlot (naUnschedulableLabel cargs));
   ("grove-topology-annotation", TextSlot (naGroveTopologyAnnotation cargs));
   ("grove-topology-resource-version-annotation", TextSlot (naGroveTopologyResourceVersionAnnotation cargs));
   ("debug", SwitchSlot (naDebug cargs));
   ("leader-elect", SwitchSlot (Some (leaderElect (naLeaderElect cargs) global (ncReplicas config))));
   ("qps", IntSlot (svK8sClientConfig service ≫= QPS));
   ("burst", IntSlot (svK8sClientConfig service ≫= Burst))].

Context (Hconfig : krmNodePoolController (krmSpec krmConfig) = Some config).
Context (Hglobal : krmGlobal (krmSpec krmConfig) = Some global).
Context (Hports : ncControllerService config = Some ports).
Context (Hcargs : ncArgs config = Some cargs).
Context (Hwebhooks : ncWebhooks config = Some webhooks).
Context (Hservice : ncService config = Some service).

Lemma nodePoolController_slots args :
  buildArgsList krmConfig = inr args ->
  exists metrics defaultName, portOf (csMetrics ports) = Some metrics /\ gDefaultNodePoolName global = Some defaultName
    /\ args = commandLine (nodePoolControllerSlots metrics defaultName) ++ ncExtraArgs config.
Proof.
  unfold buildArgsList. pointer Hconfig. pointer Hglobal. pointer Hports.
  destruct (targetPort (csMetrics ports)) as [|metrics] eqn:Hmetrics; [done|]. pointer Hcargs. pointer Hwebhooks.
  destruct (gDefaultNodePoolName global) as [defaultName|] eqn:Hname; [|done]. pointer Hname. pointer Hservice.
  intros Hargs. exists metrics, defaultName. split; [by apply targetPort_inv|]. split; [done|].
  served_args Hargs. line_of_slots nodePoolControllerSlots.
Qed.
Lemma nodePoolController_declared metrics defaultName :
  Forall (declared nodePoolControllerFlags) (nodePoolControllerSlots metrics defaultName).
Proof. unfold nodePoolControllerSlots, nodePoolControllerFlags. declared_slots. Qed.

(** The node pool controller understands the command line that the operator
    gives it as the configuration says: whenever the operator builds a command
    line, without extra arguments, the binary parses it without an error and
    without a rest, each setting of its configuration is the one of the KRMConfig
    (or the binary's own default where the KRMConfig leaves it out or empty), and
    the webhook, the ports, the client limits, leader election and the debug level
    are those of the KRMConfig. *)
Theorem nodepool_controller_reads_its_config args :
  buildArgsList krmConfig = inr args ->
  ncExtraArgs config = [] ->
  wordInt (portOf (csWebhook ports)) ->
  wordInt (svK8sClientConfig service ≫= QPS) ->
  wordInt (svK8sClientConfig service ≫= Burst) ->
  exists values,
    Parse nodePoolControllerFlags args = inr (values, [])
    /\ nodePoolControllerConfigOf values =
       {| NodePoolCommon.NodePoolNameLabel := textOr (gNodePoolLabelKey global) kaiNodePoolLabelKey;
          NodePoolCommon.DefaultNodepoolName := default "" (gDefaultNodePoolName global);
          NodePoolCommon.SchedulerName := textOr (gSchedulerName global) kaiSchedulerName;
          NodePoolCommon.SchedulerNamespace := schedulerNamespace krmConfig cargs;
          NodePoolCommon.CPUWorkerNodeLabelKey := kaiCPUWorkerNodeLabelKey;
          NodePoolCommon.GPUWorkerNodeLabelKey := kaiGPUWorkerNodeLabelKey;
          NodePoolCommon.MIGWorkerNodeLabelKey := kaiMIGWorkerNodeLabelKey;
          NodePoolCommon.MetricsNamespace := textOr (naMetricsNamespace cargs) kaiMetricsNamespace;
          NodePoolCommon.FinalizerDomain := textOr (gFinalizerDomain global) NodePoolFlags.DefaultFinalizerDomain;
          NodePoolCommon.ManagedNodesConfigName := textOr (naManagedNodesConfigName cargs) defaultManagedNodesConfigName;
          NodePoolCommon.ExcludedNodepoolName := textOr (naExcludedNodepoolName cargs) defaultExcludedNodepoolName;
          NodePoolCommon.ShouldBeExcludedLabelKey := textOr (naToExcludeLabel cargs) defaultToExcludeLabel;
          NodePoolCommon.UnschedulableLabelKey := textOr (naUnschedulableLabel cargs) defaultUnschedulableLabel;
          NodePoolCommon.GroveTopologyAnnotation := textOr (naGroveTopologyAnnotation cargs) defaultGroveTopologyAnnotation;
          NodePoolCommon.GroveTopologyResourceVersionAnnotation :=
            textOr (naGroveTopologyResourceVersionAnnotation cargs) defaultGroveTopologyRVAnnotation |}
    /\ nodePoolControllerOptionsOf values =
       {| DebugLogLevel := default false (naDebug cargs);
          DcgmExporterNamespace := textOr (naDcgmExporterNamespace cargs) defaultDcgmExporterNamespace;
          RestrictNodeScheduling := false;
          MetricsPort := default "" (pretty <$> portOf (csMetrics ports));
          K8sClientConfigQPS := default 50%Z (svK8sClientConfig service ≫= QPS);
          K8sClientConfigBurst := default 300%Z (svK8sClientConfig service ≫= Burst);
          EnableLeaderElection := leaderElect (naLeaderElect cargs) global (ncReplicas config);
          EnableNodepoolValidationWebhook := webhookEnabled webhooks;
          WebhookPort := default defaultWebhookPort (if webhookEnabled webhooks then portOf (csWebhook ports) else None);
          WebhookCertDir := certMountPath |}
    /\ parseNodePoolControllerParams values =
       match ParseSchedulingShardArgs (textOr (naSchedulingShardArgs cargs) "") with
       | inl err => inl (Wrapf "failed to parse scheduler args: %w" [] err)
       | inr shardArgs =>
           inr {| NodePoolCommon.SchedulingShardArgs := shardArgs; NodePoolCommon.UninstallDetection := None |}
       end.
Proof.
  intros (metrics & defaultName & Hmetrics & Hname & ->)%nodePoolController_slots -> Hwp Hqps Hburst.
  set (slots := nodePoolControllerSlots metrics defaultName).
  assert (NoDup slots.*1) as Hnd by distinct_slots.
  exists (readSlots slots). split; [|split; [|split]].
  - unfold Parse. rewrite parse_commandLine; [done|apply nodePoolController_declared|]. fitting_slots.
  - rewrite Hname. unfold nodePoolControllerConfigOf. read_record Hnd.
  - rewrite Hmetrics. unfold nodePoolControllerOptionsOf. read_record Hnd.
  - unfold parseNodePoolControllerParams.
    rewrite (stringVar_text slots Hnd "scheduling-shard-args" (naSchedulingShardArgs cargs)) by reflexivity.
    rewrite (stringVar_absent slots Hnd "uninstall-detection-ref") by reflexivity. done.
Qed.

End NodePoolControllerLine.

Section ProjectControllerLine.
Context {FL : FlagLib} {KC : KaiCommon}.
Context (krmConfig : KRMConfig) (config : ProjectControllerSpec) (global : GlobalConfig) (ports : ControllerServiceConfig).
Context (cargs : ProjectControllerArgs) (webhooks : ProjectControllerWebhooks) (features : ProjectControllerFeatures).
Context (profiling : Profiling) (service : ServiceConfig).
Import ProjectController.

Definition projectControllerSlots (metrics profilerPort : Z) (defaultName : string) : list (string * Slot) :=
  let namespace := krmNamespace (krmSpec krmConfig) in
  [("metrics-port", ArgSlot (pretty metrics));
   ("profiler-api-port", ArgSlot (pretty profilerPort));
   ("rolebindings-configmap-name", ArgSlot (roleBindingsConfigMapNameFor config));
   ("rolebindings-configmap-namespace", ArgSlot namespace);
   ("project-delete-blockers-namespace", ArgSlot namespace);
   ("install-namespace", ArgSlot namespace);
   ("default-nodepool-name", ArgSlot defaultName);
   ("enable-project-validation-webhook", BoolSlot (default true (pwEnableProjectValidation webhooks)));
   ("enable-department-validation-webhook", BoolSlot (default true (pwEnableDepartmentValidation webhooks)));
   ("webhook-port", IntSlot (if webhooksEnabled webhooks global then portOf (csWebhook ports) else None));
   ("nodepool-label-key", TextSlot (gNodePoolLabelKey global));
   ("queue-label-key", TextSlot (gQueueLabelKey global));
   ("enforce-scheduler-annotation-key", TextSlot (gEnforceSchedulerAnnotationKey global));
   ("finalizer-domain", TextSlot (gFinalizerDomain global));
   ("namespace-project-label-key", TextSlot (gNamespaceProjectLabelKey global));
   ("project-label-key", TextSlot (gProjectLabelKey global));
   ("project-name-prefix", TextSlot (paProjectNamePrefix cargs));
   ("project-id-label-key", TextSlot (paProjectIDLabelKey cargs));
   ("queue-department-name-label-key", TextSlot (paQueueDepartmentNameLabelKey cargs));
   ("namespace-version-label-key", TextSlot (paNamespaceVersionLabelKey cargs));
   ("resource-manual-override-label-key", TextSlot (paResourceManualOverrideLabelKey cargs));
   ("limit-range-name", TextSlot (paLimitRangeName cargs));
   ("openshift", SwitchSlot (gOpenshift global));
   ("allow-external-queues", SwitchSlot (gAllowExternalQueues global));
   ("namespaces", SwitchSlot (CreateNamespaces features));
   ("role-bindings", SwitchSlot (CreateRoleBindings features));
   ("limit-range", SwitchSlot (featLimitRange features));
   ("enable-profiling", SwitchSlot (profEnabled profiling));
   ("debug", SwitchSlot (paDebug cargs));
   ("leader-elect", SwitchSlot (Some (leaderElect (paLeaderElect cargs) global (pcReplicas config))));
   ("qps", IntSlot (svK8sClientConfig service ≫= QPS));
   ("burst", IntSlot (svK8sClientConfig service ≫= Burst))].

Context (Hconfig : krmProjectController (krmSpec krmConfig) = Some config).
Context (Hglobal : krmGlobal (krmSpec krmConfig) = Some global).
Context (Hports : pcControllerService config = Some ports).
Context (Hcargs : pcArgs config = Some cargs).
Context (Hwebhooks : pcWebhooks config = Some webhooks).
Context (Hfeatures : pcFeatures config = Some features).
Context (Hprofiling : pcProfiling config = Some profiling).
Context (Hservice : pcService config = Some service).

Lemma projectController_slots args :
  buildArgsList krmConfig = inr args ->
  exists metrics profilerPort defaultName,
    portOf (csMetrics ports) = Some metrics /\ profAPIPort profiling = Some profilerPort
    /\ gDefaultNodePoolName global = Some defaultName
    /\ args = commandLine (projectControllerSlots metrics profilerPort defaultName) ++ pcExtraArgs config.
Proof.
  unfold buildArgsList. pointer Hconfig. pointer Hglobal. pointer Hports.
  destruct (targetPort (csMetrics ports)) as [|metrics] eqn:Hmetrics; [done|]. pointer Hprofiling.
  destruct (profAPIPort profiling) as [profilerPort|] eqn:Hprof; [|done]. pointer Hprof.
  destruct (gDefaultNodePoolName global) as [defaultName|] eqn:Hname; [|done]. pointer Hname. pointer Hwebhooks.
  pointer Hcargs. pointer Hfeatures. pointer Hservice.
  intros Hargs. exists metrics, profilerPort, defaultName. split; [by apply targetPort_inv|]. split; [done|]. split; [done|].
  served_args Hargs. line_of_slots projectControllerSlots.
Qed.

Lemma projectController_declared metrics profilerPort defaultName :
  Forall (declared projectControllerFlags) (projectControllerSlots metrics profilerPort defaultName).
Proof. unfold projectControllerSlots, projectControllerFlags. declared_slots. Qed.

(** The line parses to what its slots say. *)
Lemma projectController_parses args :
  buildArgsList krmConfig = inr args -> pcExtraArgs config = [] ->
  (forall p, portOf (csWebhook ports) = Some p -> 0 < p <= 65535)%Z ->
  wordInt (svK8sClientConfig service ≫= QPS) -> wordInt (svK8sClientConfig service ≫= Burst) ->
  exists metrics profilerPort defaultName,
    portOf (csMetrics ports) = Some metrics /\ profAPIPort profiling = Some profilerPort /\
    gDefaultNodePoolName global = Some defaultName /\
    Parse projectControllerFlags args = inr (readSlots (projectControllerSlots metrics profilerPort defaultName), []).
Proof.
  intros (metrics & profilerPort & defaultName & Hmetrics & Hprof & Hname & ->)%projectController_slots -> Hwp Hqps Hburst.
  exists metrics, profilerPort, defaultName. split_and!; [done..|].
  unfold Parse. rewrite parse_commandLine; [done|apply projectController_declared|]. fitting_slots.
Qed.

Definition servedWebhooks (project department queue : bool) : list ProjectWebhook :=
  (if project then [ProjectWebhookPath] else []) ++ (if department then [DepartmentWebhookPath] else [])
  ++ (if queue then [QueueWebhookPath] else []).

Lemma registerValidationWebhooks_ok opts queue :
  (0 < projectWebhookPort opts <= 65535)%Z -> projectWebhookCertDir opts <> "" ->
  registerValidationWebhooks opts queue
  = inr (servedWebhooks (EnableProjectValidationWebhook opts) (EnableDepartmentValidationWebhook opts) queue).
Proof.
  intros Hport Hdir. unfold registerValidationWebhooks.
  replace ((projectWebhookPort opts <=? 0)%Z || (65535 <? projectWebhookPort opts)%Z) with false by lia.
  rewrite (bool_decide_false _ Hdir).
  by destruct (EnableProjectValidationWebhook opts), (EnableDepartmentValidationWebhook opts), queue.
Qed.

(** *** The deployment *)

Definition serving : bool :=
  default true (pwEnableProjectValidation webhooks) || default true (pwEnableDepartmentValidation webhooks)
  || default false (gAllowExternalQueues global).

Lemma served_nothing :
  servedWebhooks (default true (pwEnableProjectValidation webhooks)) (default true (pwEnableDepartmentValidation webhooks))
    (default false (gAllowExternalQueues global)) = [] <-> serving = false.
Proof.
  unfold serving. by destruct (default true (pwEnableProjectValidation webhooks)),
    (default true (pwEnableDepartmentValidation webhooks)), (default false (gAllowExternalQueues global)).
Qed.

(** The container of a wanted deployment before its arguments are set. *)
Lemma deploymentFor_template s name live d :
  deploymentFor krmConfig s name live = inr d ->
  ptVolumes (deplTemplate d) = ptVolumes (deplTemplate live) /\
  exists c, ptContainers (deplTemplate d) = [c] /\ cVolumeMounts c = [].
Proof.
  unfold deploymentFor. pointer Hglobal. destruct (svImage s) as [i|]; [|done]. cbn [deref mbind result_bind].
  destruct (PullPolicy i); [|done]. cbn [deref mbind result_bind]. destruct (svResources s); [|done].
  cbn [deref mbind result_bind]. intros [= <-]. split; [done|]. by eexists.
Qed.

(** The certificate in the pods: the volume of the secret, mounted where the
    binary looks for it. *)
Definition mountsCertificate (secret : string) (d : Deployment) (c : Container) : Prop :=
  ptVolumes (deplTemplate d) = [{| volName := certVolumeName; volSecretName := Some secret; volOther := "" |}] /\
  cVolumeMounts c = [{| vmName := certVolumeName; vmMountPath := certMountPath; vmReadOnly := true |}].

Lemma deployment_inv baseName tr m :
  exec (deploymentForKRMConfig baseName krmConfig) tr (inr (Some m)) ->
  exists (live : result Deployment) d c,
    tr = [Event (Get KDeployment (krmNamespace (krmSpec krmConfig), baseName)) live] /\
    mObject m = ODeployment d /\ ptContainers (deplTemplate d) = [c] /\ buildArgsList krmConfig = inr (cArgs c) /\
    containerPorts ports serving = inr (cPorts c) /\
    if serving then exists secret, pwCertSecretName webhooks = Some secret /\ mountsCertificate secret d c
    else cVolumeMounts c = [] /\
         ptVolumes (deplTemplate d) = match live with inr live => ptVolumes (deplTemplate live) | inl _ => [] end.
Proof.
  unfold deploymentForKRMConfig. rewrite Hconfig. cbn [deref try_bind prog_bind_].
  intros (t1 & t2 & dep & -> & Hdep & [-> Hm])%exec_try_ok. rewrite app_nil_r.
  apply exec_try_ok in Hdep as (t3 & t4 & o & -> & (r & t & -> & Hobj) & Hdep). exists r.
  assert (exists live0, o = ODeployment live0 /\ t = [] /\
    ptVolumes (deplTemplate live0) = match r with inr live => ptVolumes (deplTemplate live) | inl _ => [] end) as (live0 & -> & -> & Hv).
  { destruct r as [e|live]; cbn [prog_bind_] in Hobj; [destruct (IsNotFound e); cbn [negb] in Hobj|]; destruct Hobj as [-> Hobj];
      try done; injection Hobj as ->; eexists; (split; [done|]); done. }
  destruct Hdep as [-> Hdep]. rewrite Hservice in Hdep. cbn [deref mbind result_bind] in Hdep.
  symmetry in Hdep. apply deploymentFor_template in Hdep as (Hvols & c0 & Hc0 & Hmounts).
  destruct (buildArgsList krmConfig) as [|args]; [done|]. rewrite Hglobal, Hports, Hwebhooks in Hm. cbn [deref mbind result_bind] in Hm.
  change (webhooksEnabled webhooks global) with serving in Hm.
  destruct (containerPorts ports serving) as [|cports]; [done|]. cbn [mbind result_bind] in Hm.
  unfold certSecret in Hm. change (webhooksEnabled webhooks global) with serving in Hm. unfold mountsCertificate.
  destruct serving; [destruct (pwCertSecretName webhooks) as [secret|]; [|done]|];
    cbn [deref mbind result_bind] in Hm; unfold finishDeployment in Hm; rewrite Hc0 in Hm; cbn [mbind result_bind] in Hm;
    injection Hm as ->; eexists _, _; do 5 (split; [reflexivity|]); cbn.
  - by exists secret.
  - split; [done|]. by rewrite Hvols.
Qed.

(** C11: The project controller understands the deployment that the operator
    gives it as the configuration says, and finds the certificate of its webhooks.
    Take any deployment that the operator builds for it from a KRMConfig without
    extra arguments, whose webhook port is in the valid range and whose client
    limits fit an integer.  It has one container, and the binary parses the
    arguments of this container without an error and without a rest; every setting
    of the reconcilers and of the process is the one of the KRMConfig (or the
    binary's own default where the KRMConfig leaves it out or empty); the webhooks
    that it registers are the enabled ones, with the queue webhook when external
    queues are allowed.  If there is any, the secret of the certificate is the one
    volume of the pods and is mounted in the container at the directory where the
    binary looks for it, and the container opens the port that the binary serves.
    If there is none, nothing is mounted in the container, and the volumes of the
    pods are those of the live deployment, so an earlier certificate volume
    stays. *)
Theorem project_controller_reads_its_config baseName tr m :
  exec (deploymentForKRMConfig baseName krmConfig) tr (inr (Some m)) ->
  pcExtraArgs config = [] ->
  (forall p, portOf (csWebhook ports) = Some p -> 0 < p <= 65535)%Z ->
  wordInt (svK8sClientConfig service ≫= QPS) ->
  wordInt (svK8sClientConfig service ≫= Burst) ->
  exists (live : result Deployment) d c values served,
    tr = [Event (Get KDeployment (krmNamespace (krmSpec krmConfig), baseName)) live]
    /\ mObject m = ODeployment d
    /\ ptContainers (deplTemplate d) = [c]
    /\ Parse projectControllerFlags (cArgs c) = inr (values, [])
    /\ projectReconcilerConfigOf values =
       {| ProjectCommon.CreateNamespaces := default false (CreateNamespaces features);
          ProjectCommon.CreateRoleBindings := default false (CreateRoleBindings features);
          ProjectCommon.RoleBindingsCm := roleBindingsConfigMapNameFor config;
          ProjectCommon.RoleBindingsCmNamespace := krmNamespace (krmSpec krmConfig);
          ProjectCommon.cfgLimitRange := default false (featLimitRange features);
          ProjectCommon.IsOpenshift := default false (gOpenshift global);
          ProjectCommon.NodePoolLabelKey := textOr (gNodePoolLabelKey global) kaiNodePoolLabelKey;
          ProjectCommon.DefaultNodepoolName := default "" (gDefaultNodePoolName global);
          ProjectCommon.NamespaceProjectLabelKey := textOr (gNamespaceProjectLabelKey global) kaiNamespaceProjectLabelKey;
          ProjectCommon.ProjectLabelKey := textOr (gProjectLabelKey global) kaiProjectLabelKey;
          ProjectCommon.ProjectIdLabelKey := textOr (paProjectIDLabelKey cargs) defaultProjectIdLabelKey;
          ProjectCommon.QueueDepartmentNameLabelKey :=
            textOr (paQueueDepartmentNameLabelKey cargs) defaultQueueDepartmentNameLabelKey;
          ProjectCommon.NamespaceVersionLabelKey := textOr (paNamespaceVersionLabelKey cargs) defaultNamespaceVersionLabelKey;
          ProjectCommon.EnforceSchedulerAnnotationKey :=
            textOr (gEnforceSchedulerAnnotationKey global) defaultEnforceSchedulerAnnotationKey;
          ProjectCommon.FinalizerDomain := textOr (gFinalizerDomain global) defaultFinalizerDomain;
          ProjectCommon.InstallNamespace := krmNamespace (krmSpec krmConfig);
          ProjectCommon.ProjectNamePrefix := textOr (paProjectNamePrefix cargs) defaultProjectNamePrefix;
          ProjectCommon.ResourceManualOverrideLabelKey :=
            textOr (paResourceManualOverrideLabelKey cargs) defaultResourceManualOverrideLabelKey;
          ProjectCommon.AllowExternalQueues := default false (gAllowExternalQueues global);
          ProjectCommon.LimitRangeName := textOr (paLimitRangeName cargs) defaultLimitRangeName;
          ProjectCommon.GvkDeleteBlockersNamespace := krmNamespace (krmSpec krmConfig) |}
    /\ projectControllerOptionsOf values =
       {| projectMetricsPort := default "" (pretty <$> portOf (csMetrics ports));
          projectDebug := default false (paDebug cargs);
          projectLeaderElection := leaderElect (paLeaderElect cargs) global (pcReplicas config);
          projectQueueLabelKey := textOr (gQueueLabelKey global) kaiQueueLabel;
          EnableProjectValidationWebhook := default true (pwEnableProjectValidation webhooks);
          EnableDepartmentValidationWebhook := default true (pwEnableDepartmentValidation webhooks);
          projectWebhookPort :=
            default 8443%Z (if serving then portOf (csWebhook ports) else None);
          projectWebhookCertDir := certMountPath;
          EnableProfiler := default false (profEnabled profiling);
          ProfilerApiPort := default "" (pretty <$> profAPIPort profiling);
          projectQPS := default 50%Z (svK8sClientConfig service ≫= QPS);
          projectBurst := default 300%Z (svK8sClientConfig service ≫= Burst) |}
    /\ registerValidationWebhooks (projectControllerOptionsOf values) (default false (gAllowExternalQueues global))
       = inr served
    /\ served = servedWebhooks (default true (pwEnableProjectValidation webhooks))
                  (default true (pwEnableDepartmentValidation webhooks)) (default false (gAllowExternalQueues global))
    /\ (served <> [] ->
          (exists secret, pwCertSecretName webhooks = Some secret /\ mountsCertificate secret d c)
          /\ projectWebhookPort (projectControllerOptionsOf values) ∈ cpContainerPort <$> cPorts c)
    /\ (served = [] -> cVolumeMounts c = [] /\
          ptVolumes (deplTemplate d) = match live with inr live => ptVolumes (deplTemplate live) | inl _ => [] end).
Proof.
  intros (live & d & c & -> & Hm & Hc & Hb & Hcports & Hcert)%deployment_inv Hextra Hwp Hqps Hburst.
  destruct (projectController_parses (cArgs c) Hb Hextra Hwp Hqps Hburst)
    as (metrics & profilerPort & defaultName & Hmetrics & Hprof & Hname & Hparse).
  set (slots := projectControllerSlots metrics profilerPort defaultName).
  assert (NoDup slots.*1) as Hnd by distinct_slots.
  match goal with |- context [projectControllerOptionsOf _ = ?o] => assert (projectControllerOptionsOf (readSlots slots) = o) as Hopts end.
  { rewrite Hmetrics, Hprof. unfold projectControllerOptionsOf. read_record Hnd. }
  exists live, d, c, (readSlots slots). eexists. do 3 (split; [done|]).
  split; [exact Hparse|]. split; [rewrite Hname; unfold projectReconcilerConfigOf; read_record Hnd|]. split; [exact Hopts|].
  split; [rewrite Hopts; apply registerValidationWebhooks_ok; [|done]|split; [reflexivity|split]].
  - cbn [projectWebhookPort]. destruct serving, (portOf (csWebhook ports)) as [p|]; cbn [default]; try done. by apply Hwp.
  - intros Hserved. destruct serving eqn:Hs; [|by apply served_nothing in Hs]. split; [done|].
    rewrite Hopts. cbn [projectWebhookPort default]. unfold containerPorts in Hcports.
    destruct (containerPort (csMetrics ports)) as [|mp]; [done|]. cbn [mbind result_bind] in Hcports.
    destruct (containerPort (csWebhook ports)) as [|wp] eqn:Hwport; [done|]. cbn [mbind result_bind] in Hcports.
    injection Hcports as <-. apply list_elem_of_fmap. exists wp. split; [|right; left].
    unfold containerPort, portOf in *. destruct (csWebhook ports) as [pm|]; [|done]. cbn in *.
    destruct (pmName pm), (pmTargetPort pm) as [target|]; try done. by injection Hwport as <-.
  - intros Hserved%served_nothing. by rewrite Hserved in Hcert.
Qed.

End ProjectControllerLine.

Section PodGroupAssignerLine.
Context {FL : FlagLib} {KC : KaiCommon}.
Context (krmConfig : KRMConfig) (config : PodGroupAssignerSpec) (global : GlobalConfig) (ports : ControllerServiceConfig).
Context (cargs : PodGroupAssignerArgs) (webhooks : PodGroupAssignerWebhooks) (service : ServiceConfig).
Import PodGroupAssigner.

Definition podGroupAssignerSlots (webhook : Z) : list (string * Slot) :=
  [("webhook-port", IntSlot (Some webhook));
   ("enable-pod-webhook", BoolSlot (default true (gwEnablePodWebhook webhooks)));
   ("nodepool-label-key", TextSlot (gNodePoolLabelKey global));
   ("queue-label-key", TextSlot (gQueueLabelKey global));
   ("default-nodepool-name", TextSlot (gDefaultNodePoolName global));
   ("scheduler-name", TextSlot (gSchedulerName global));
   ("namespace-project-label-key", TextSlot (gNamespaceProjectLabelKey global));
   ("project-label-key", TextSlot (gProjectLabelKey global));
   ("enforce-scheduler-annotation-key", TextSlot (gEnforceSchedulerAnnotationKey global));
   ("allow-external-queues", SwitchSlot (gAllowExternalQueues global));
   ("unexisting-nodepool-sentinel", TextSlot (gaUnexistingNodepoolSentinel cargs));
   ("annotation-nodepools-key", TextSlot (gaAnnotationNodepoolsKey cargs));
   ("debug", SwitchSlot (gaDebug cargs));
   ("leader-elect", SwitchSlot (Some (leaderElect (gaLeaderElect cargs) global (gaReplicas config))));
   ("qps", IntSlot (svK8sClientConfig service ≫= QPS));
   ("burst", IntSlot (svK8sClientConfig service ≫= Burst))].

Context (Hconfig : krmPodGroupAssigner (krmSpec krmConfig) = Some config).
Context (Hglobal : krmGlobal (krmSpec krmConfig) = Some global).
Context (Hports : gaControllerService config = Some ports).
Context (Hcargs : gaArgs config = Some cargs).
Context (Hwebhooks : gaWebhooks config = Some webhooks).
Context (Hservice : gaService config = Some service).

Lemma podGroupAssigner_slots args :
  buildArgsList krmConfig = inr args ->
  exists webhook, portOf (csWebhook ports) = Some webhook
    /\ args = commandLine (podGroupAssignerSlots webhook) ++ gaExtraArgs config.
Proof.
  unfold buildArgsList. pointer Hconfig. pointer Hglobal. pointer Hports.
  destruct (targetPort (csWebhook ports)) as [|webhook] eqn:Hport; [done|]. pointer Hwebhooks. pointer Hcargs. pointer Hservice.
  intros [= <-]. exists webhook. split; [by apply targetPort_inv|]. line_of_slots podGroupAssignerSlots.
Qed.

Lemma podGroupAssigner_declared webhook : Forall (declared podGroupAssignerFlags) (podGroupAssignerSlots webhook).
Proof. unfold podGroupAssignerSlots, podGroupAssignerFlags. declared_slots. Qed.

(** The pod group assigner understands the command line that the operator
    gives it as the configuration says: whenever the operator builds a command
    line, without extra arguments, the binary parses it without an error and
    without a rest, every setting is the one of the KRMConfig (or the binary's own
    default where the KRMConfig leaves it out or empty), the server listens on
    the port of the service and reads the certificate where the deployment mounts
    it, and the pod webhook is registered exactly when the KRMConfig asks for it. *)
Theorem pod_group_assigner_reads_its_config args :
  buildArgsList krmConfig = inr args ->
  gaExtraArgs config = [] ->
  wordInt (portOf (csWebhook ports)) ->
  wordInt (svK8sClientConfig service ≫= QPS) ->
  wordInt (svK8sClientConfig service ≫= Burst) ->
  exists values,
    Parse podGroupAssignerFlags args = inr (values, [])
    /\ podGroupAssignerConfigOf values =
       {| Assigner.NodePoolLabelKey := textOr (gNodePoolLabelKey global) kaiNodePoolLabelKey;
          Assigner.QueueLabelKey := textOr (gQueueLabelKey global) kaiQueueLabel;
          Assigner.NamespaceProjectLabelKey := textOr (gNamespaceProjectLabelKey global) kaiNamespaceProjectLabelKey;
          Assigner.ProjectLabelKey := textOr (gProjectLabelKey global) kaiProjectLabelKey;
          Assigner.UnexistingNodepoolSentinel := textOr (gaUnexistingNodepoolSentinel cargs) DefaultUnexistingNodepoolSentinel;
          Assigner.DefaultNodepoolName := textOr (gDefaultNodePoolName global) kaiNodePoolName;
          Assigner.AnnotationNodepoolsKey := textOr (gaAnnotationNodepoolsKey cargs) DefaultAnnotationNodepoolsKey;
          Assigner.EnforceSchedulerAnnotationKey :=
            textOr (gEnforceSchedulerAnnotationKey global) assignerEnforceSchedulerAnnotationKey;
          Assigner.SchedulerName := textOr (gSchedulerName global) kaiSchedulerName;
          Assigner.AllowExternalQueues := default false (gAllowExternalQueues global) |}
    /\ podGroupAssignerOptionsOf values =
       {| useDebugLogLevel := default false (gaDebug cargs);
          certDir := certMountPath;
          assignerWebhookPort := default 8443%Z (portOf (csWebhook ports));
          enableProfiler := false;
          profilerApiPort := "8182";
          k8sClientConfigQPS := default 50%Z (svK8sClientConfig service ≫= QPS);
          k8sClientConfigBurst := default 300%Z (svK8sClientConfig service ≫= Burst);
          assignerLeaderElection := leaderElect (gaLeaderElect cargs) global (gaReplicas config);
          enablePodWebhook := default true (gwEnablePodWebhook webhooks) |}
    /\ ("/mutate-pod" ∈ registerWebhooks (podGroupAssignerOptionsOf values) <-> default true (gwEnablePodWebhook webhooks) = true).
Proof.
  intros (webhook & Hport & ->)%podGroupAssigner_slots -> Hwp Hqps Hburst. rewrite Hport in Hwp.
  set (slots := podGroupAssignerSlots webhook).
  assert (NoDup slots.*1) as Hnd by distinct_slots.
  match goal with |- context [podGroupAssignerOptionsOf _ = ?o] => assert (podGroupAssignerOptionsOf (readSlots slots) = o) as Hopts end.
  { rewrite Hport. unfold podGroupAssignerOptionsOf. read_record Hnd. }
  exists (readSlots slots). split; [|split; [|split; [exact Hopts|]]].
  - unfold Parse. rewrite parse_commandLine; [done|apply podGroupAssigner_declared|]. fitting_slots.
  - unfold podGroupAssignerConfigOf. read_record Hnd.
  - rewrite Hopts. unfold registerWebhooks. cbn [enablePodWebhook].
    destruct (default true (gwEnablePodWebhook webhooks)); [split; [done|intros _; right; left]|split; [|done]].
    by intros ?%list_elem_of_singleton.
Qed.

End PodGroupAssignerLine.

(** ** Witnesses *)

Module LineDemo.

#[local] Instance demoFlags : FlagLib :=
  {| kaiNodePoolLabelKey := "kai.scheduler/node-pool"; kaiNodePoolName := "default"; kaiSchedulerName := "kai-scheduler";
     kaiNamespace := "kai-scheduler"; kaiMetricsNamespace := "kai"; kaiQueueLabel := "kai.scheduler/queue";
     kaiNamespaceProjectLabelKey := "kai/project-name"; kaiProjectLabelKey := "kai/project";
     kaiCPUWorkerNodeLabelKey := "node-role/cpu"; kaiGPUWorkerNodeLabelKey := "node-role/gpu";
     kaiMIGWorkerNodeLabelKey := "node-role/mig"; zapFlags := {[ "zap-devel" := BoolFlag ]};
     parsesAsDuration := fun s => s !=? ""; unmarshalArgs := fun _ => inr ∅ |}.

#[local] Instance demoCommon : KaiCommon :=
  {| SetDefault := fun A value d => match value with Some v => Some v | None => d end;
     serviceDefaults := fun image s =>
       {| svEnabled := Some (default true (svEnabled s));
          svImage := Some match svImage s with
            | Some i => {| imgRepository := imgRepository i; imgName := imgName i; imgTag := imgTag i;
                           PullPolicy := Some (default "IfNotPresent" (PullPolicy i)) |}
            | None => {| imgRepository := Some "registry"; imgName := Some image; imgTag := Some "latest";
                         PullPolicy := Some "IfNotPresent" |}
            end;
          svResources := svResources s; svK8sClientConfig := svK8sClientConfig s; svAffinity := svAffinity s |};
     vpaDefaults := fun v => v; imageUrl := fun _ => "registry/image:latest"; GetSecurityContext := gSecurityContext |}.

Definition demoSpec : KRMConfigSpec :=
  SetDefaultsWhereNeeded "kai"
    {| krmNamespace := ""; krmGlobal := None; krmNodePoolController := None; krmProjectController := None;
       krmPodGroupAssigner := None |}.
Definition demoKRMConfig : KRMConfig := {| krmMeta := named "kai"; krmSpec := demoSpec; krmConditions := [] |}.

Definition orEmpty {A} (d : A) (o : option A) : A := Eval cbv in default d o.
Definition demoGlobal := orEmpty emptyGlobal (krmGlobal demoSpec).
Definition demoNodePool := orEmpty emptyNodePoolController (krmNodePoolController demoSpec).
Definition demoProject := orEmpty emptyProjectController (krmProjectController demoSpec).
Definition demoAssigner := orEmpty emptyPodGroupAssigner (krmPodGroupAssigner demoSpec).
Definition answered {A} (d : A) (r : result A) : A := match r with inr a => a | inl _ => d end.

Lemma nodepool_controller_reads_its_config_witness :
  exists args values,
    NodePoolController.buildArgsList demoKRMConfig = inr args
    /\ Parse nodePoolControllerFlags args = inr (values, [])
    /\ NodePoolCommon.SchedulerNamespace (nodePoolControllerConfigOf values) = "kai".
Proof.
  exists (answered [] (NodePoolController.buildArgsList demoKRMConfig)).
  destruct (nodepool_controller_reads_its_config demoKRMConfig demoNodePool demoGlobal
    (orEmpty emptyPorts (ncControllerService demoNodePool)) (orEmpty emptyNodePoolControllerArgs (ncArgs demoNodePool))
    (orEmpty {| nwEnableNodePoolValidation := None; nwCertSecretName := None |} (ncWebhooks demoNodePool))
    (orEmpty emptyService (ncService demoNodePool)) eq_refl eq_refl eq_refl eq_refl eq_refl eq_refl
    (answered [] (NodePoolController.buildArgsList demoKRMConfig)))
    as (values & Hparse & Hconfig & _); [by vm_compute..|].
  exists values. split; [by vm_compute|]. split; [done|]. by rewrite Hconfig.
Defined.

Definition demoProjectDeployment : kube (result (option Managed)) :=
  ProjectController.deploymentForKRMConfig "project-controller" demoKRMConfig.

Lemma project_controller_reads_its_config_witness :
  exists tr m d c values,
    exec demoProjectDeployment tr (inr (Some m))
    /\ mObject m = ODeployment d /\ ptContainers (deplTemplate d) = [c]
    /\ Parse projectControllerFlags (cArgs c) = inr (values, [])
    /\ ProjectCommon.CreateNamespaces (projectReconcilerConfigOf values) = true
    /\ registerValidationWebhooks (projectControllerOptionsOf values) false = inr [ProjectWebhookPath; DepartmentWebhookPath].
Proof.
  pose proof (run_exec memServer demoProjectDeployment emptyStore) as Hex.
  destruct (run memServer demoProjectDeployment emptyStore).1 as [e|[m|]] eqn:Hrun;
    [vm_compute in Hrun; discriminate| |vm_compute in Hrun; discriminate]. clear Hrun.
  destruct (project_controller_reads_its_config demoKRMConfig demoProject demoGlobal
    (orEmpty emptyPorts (pcControllerService demoProject)) (orEmpty emptyProjectControllerArgs (pcArgs demoProject))
    (orEmpty {| pwEnableProjectValidation := None; pwEnableDepartmentValidation := None; pwCertSecretName := None |} (pcWebhooks demoProject))
    (orEmpty {| CreateNamespaces := None; CreateRoleBindings := None; featLimitRange := None |} (pcFeatures demoProject))
    (orEmpty {| profEnabled := None; profAPIPort := None |} (pcProfiling demoProject))
    (orEmpty emptyService (pcService demoProject)) eq_refl eq_refl eq_refl eq_refl eq_refl eq_refl eq_refl eq_refl
    "project-controller" _ m Hex)
    as (live & d & c & values & served & _ & Hm & Hc & Hparse & Hconfig & _ & Hreg & Hserved & _);
    [by vm_compute|vm_compute; intros p [= <-]; split; congruence|by vm_compute|by vm_compute|].
  exists (run_trace memServer demoProjectDeployment emptyStore), m, d, c, values.
  split; [exact Hex|]. split; [exact Hm|]. split; [exact Hc|]. split; [exact Hparse|]. split; [by rewrite Hconfig|].
  change (default false (gAllowExternalQueues demoGlobal)) with false in Hreg. rewrite Hreg, Hserved. reflexivity.
Defined.

Lemma pod_group_assigner_reads_its_config_witness :
  exists args values,
    PodGroupAssigner.buildArgsList demoKRMConfig = inr args
    /\ Parse podGroupAssignerFlags args = inr (values, [])
    /\ Assigner.DefaultNodepoolName (podGroupAssignerConfigOf values) = "default".
Proof.
  exists (answered [] (PodGroupAssigner.buildArgsList demoKRMConfig)).
  destruct (pod_group_assigner_reads_its_config demoKRMConfig demoAssigner demoGlobal
    (orEmpty emptyPorts (gaControllerService demoAssigner)) (orEmpty emptyPodGroupAssignerArgs (gaArgs demoAssigner))
    (orEmpty {| gwEnablePodWebhook := None; gwCertSecretName := None |} (gaWebhooks demoAssigner))
    (orEmpty emptyService (gaService demoAssigner)) eq_refl eq_refl eq_refl eq_refl eq_refl eq_refl
    (answered [] (PodGroupAssigner.buildArgsList demoKRMConfig)))
    as (values & Hparse & Hconfig & _); [by vm_compute..|].
  exists values. split; [by vm_compute|]. split; [done|]. by rewrite Hconfig.
Defined.

End LineDemo.
