(* ===== verification/DeployFacts.v ===== *)
(** * Properties of the deployment of the services

    The difference between the wanted and the owned objects is exact, applying
    it makes the owned objects the wanted ones, and only owned objects are
    pruned. *)

From stdpp Require Import base list gmap strings pretty.
From S2P Require Import Prelude ApiTypes NodePoolCommon OperatorConfig GoFlags Dependencies Operands OperandResources Deployable.
From S2P Require Import NodeFacts.
From S2P Require CommandLineFacts.

(** ** Keys of objects *)

Lemma objectMeta_with f object : objectMeta (object_with_meta f object) = f (objectMeta object).
Proof. by destruct object. Qed.

Lemma GetKey_with f object :
  (forall m, Name (f m) = Name m) -> (forall m, Namespace (f m) = Namespace m) ->
  GetKey (object_with_meta f object) = GetKey object.
Proof. intros Hn Hns. unfold GetKey. rewrite objectMeta_with, Hn, Hns. by destruct object. Qed.

Lemma GetKey_withOwner owner object : GetKey (withOwner owner object) = GetKey object.
Proof. by apply GetKey_with. Qed.

Lemma GetKey_inherit current desired : GetKey (mObject (inheritFieldsFromCurrent current desired)) = GetKey (mObject desired).
Proof.
  unfold inheritFieldsFromCurrent. destruct (mObject desired) as [| | | | |d] eqn:Hd; rewrite ?Hd; try done.
  by destruct (mObject current).
Qed.

(** ** What an execution leaves of the owned objects *)

Definition asObject (K : Kind) : obj K -> option Object :=
  match K with
  | KDeployment => fun o => Some (ODeployment o)
  | KServiceAccount => fun o => Some (OServiceAccount o)
  | KService => fun o => Some (OService o)
  | KConfigMap => fun o => Some (OConfigMap o)
  | KServiceMonitor => fun o => Some (OServiceMonitor o)
  | KVerticalPodAutoscaler => fun o => Some (OVPA o)
  | _ => fun _ => None
  end.

(** The objects by their keys after an answered call: a write that was accepted
    took effect, and a deletion also when the object was gone already. *)
Definition effect {X} (c : KubeCall X) : X -> gmap string Object -> gmap string Object :=
  match c in KubeCall X return X -> gmap string Object -> gmap string Object with
  | Create K o | Update K o => fun r m =>
      match r, asObject K o with
      | inr _, Some object => <[GetKey object := object]> m
      | _, _ => m
      end
  | Delete K o => fun r m =>
      match IgnoreNotFound r, asObject K o with
      | inr _, Some object => delete (GetKey object) m
      | _, _ => m
      end
  | _ => fun _ m => m
  end.

Definition replay (tr : list (event KubeCall)) (m : gmap string Object) : gmap string Object :=
  foldl (fun m e => effect (ev_call e) (ev_reply e) m) m tr.

Lemma replay_app tr1 tr2 m : replay (tr1 ++ tr2) m = replay tr2 (replay tr1 m).
Proof. apply foldl_app. Qed.

Lemma replay_forEach {A} (xs : list A) (f : A -> kube (result unit)) (g : A -> gmap string Object -> gmap string Object) tr m :
  (forall x t m, x ∈ xs -> exec (f x) t (inr tt) -> replay t m = g x m) ->
  exec (forEach xs f) tr (inr tt) -> replay tr m = foldl (fun m x => g x m) m xs.
Proof.
  intros Hf Hex. revert tr m Hex. induction xs as [|x xs IH]; intros tr m Hex.
  - by destruct Hex as [-> _].
  - apply exec_try_ok in Hex as (tr1 & tr2 & [] & -> & Hx & Hex). rewrite replay_app. cbn [foldl].
    rewrite (Hf x tr1 m) by (done || left). apply IH; [|done]. intros y t m' Hy. apply Hf. by right.
Qed.

(** One write: its effect when it succeeds, none when it fails. *)
Lemma replay_createObject object tr r m :
  exec (createObject object) tr r ->
  replay tr m = match r with inr _ => <[GetKey object := object]> m | inl _ => m end.
Proof. destruct object; intros (x & tr' & -> & Hex); destruct x; destruct Hex as [-> ->]; done. Qed.

Lemma replay_updateObject object tr r m :
  exec (updateObject object) tr r ->
  replay tr m = match r with inr _ => <[GetKey object := object]> m | inl _ => m end.
Proof. destruct object; intros (x & tr' & -> & Hex); destruct x; destruct Hex as [-> ->]; done. Qed.

Lemma replay_deleteOwned object tr r m :
  exec (deleteOwnedObject object) tr r ->
  replay tr m = match IgnoreNotFound r with inr _ => delete (GetKey object) m | inl _ => m end.
Proof. destruct object; intros (x & tr' & -> & Hex); destruct Hex as [-> ->]; done. Qed.

Lemma replay_takeOwnership object tr m :
  exec (takeOwnership object) tr (inr tt) -> replay tr m = <[GetKey object := object]> m.
Proof.
  intros (tr1 & tr2 & [e|[]] & -> & Hup & Hret)%exec_bind_inv; destruct Hret as [-> Hr]; [done|].
  rewrite app_nil_r. by apply (replay_updateObject _ _ _ m) in Hup.
Qed.

Lemma replay_create owner desired tr m :
  exec (createObjectForKRMConfig owner desired) tr (inr tt) ->
  replay tr m = <[GetKey (mObject desired) := withOwner owner (mObject desired)]> m.
Proof.
  unfold createObjectForKRMConfig. rewrite <- (GetKey_withOwner owner). set (object := withOwner owner (mObject desired)).
  destruct (decide (ResourceVersion (objectMeta object) = "")) as [Hrv|Hrv].
  - rewrite (bool_decide_true _ Hrv). cbn [negb].
    assert (object_with_meta (meta_with_resourceVersion "") object = object) as Hsame.
    { rewrite <- Hrv. destruct object as [[[]]|[[]]|[[]]|[[]]|[[]]|[[]]]; done. }
    rewrite Hsame. intros (tr1 & tr2 & [e|[]] & -> & Hc & Hrest)%exec_bind_inv; rewrite replay_app;
      rewrite (replay_createObject _ _ _ m Hc).
    + destruct (IsAlreadyExists e); cbn [negb] in Hrest; [|by destruct Hrest].
      by apply replay_takeOwnership.
    + by destruct Hrest as [-> _].
  - rewrite (bool_decide_false _ Hrv). cbn [negb]. apply replay_takeOwnership.
Qed.

(** ** Writing a list of objects into a map *)

Section Folds.
Context {A B : Type} (key : A -> string) (val : A -> B).
Implicit Types m : gmap string B.

Lemma foldl_insert_other xs m k :
  (forall x, x ∈ xs -> key x <> k) -> foldl (fun m x => <[key x := val x]> m) m xs !! k = m !! k.
Proof.
  revert m. induction xs as [|x xs IH]; intros m Hk; [done|]. cbn [foldl].
  rewrite IH by (intros y Hy; apply Hk; by right). apply lookup_insert_ne. apply Hk. left.
Qed.

Lemma foldl_insert_found xs m x :
  x ∈ xs -> (forall y, y ∈ xs -> key y = key x -> val y = val x) ->
  foldl (fun m x => <[key x := val x]> m) m xs !! key x = Some (val x).
Proof.
  revert x m. induction xs as [|y xs IH]; intros x m Hin Hval; [by apply elem_of_nil in Hin|]. cbn [foldl].
  destruct (decide (List.Exists (fun z => key z = key x) xs)) as [(z & Hz & Hkz)%Exists_exists|Hno].
  - rewrite <- Hkz, <- (Hval z) by (done || by right). apply IH; [done|]. intros w Hw Hkw.
    rewrite (Hval z) by (done || by right). apply Hval; [by right|congruence].
  - rewrite foldl_insert_other.
    + apply elem_of_cons in Hin as [->|Hin]; [apply lookup_insert_eq|]. exfalso. apply Hno, Exists_exists. eauto.
    + intros z Hz Hk. apply Hno, Exists_exists. eauto.
Qed.

Lemma foldl_delete_lookup xs m k :
  foldl (fun m x => delete (key x) m) m xs !! k
  = if decide (List.Exists (fun x => key x = k) xs) then None else m !! k.
Proof.
  revert m. induction xs as [|x xs IH]; intros m; [by rewrite decide_False by (by intros ?%Exists_nil)|].
  cbn [foldl]. rewrite IH. destruct (decide (List.Exists (fun x => key x = k) xs)) as [Hex|Hex].
  - by rewrite decide_True by (by right).
  - destruct (decide (key x = k)) as [<-|Hne].
    + rewrite decide_True by (by left). apply lookup_delete_eq.
    + rewrite decide_False by (by intros [|]%Exists_cons). by apply lookup_delete_ne.
Qed.

End Folds.

Lemma insertByRank_elem rank x y l : y ∈ insertByRank rank x l <-> y = x \/ y ∈ l.
Proof.
  induction l as [|z l IH]; cbn [insertByRank]; [by rewrite list_elem_of_singleton, elem_of_nil; naive_solver|].
  destruct (_ <=? _)%nat; rewrite !elem_of_cons, ?IH; naive_solver.
Qed.

Lemma sortObject_elem objects order y : y ∈ sortObjectByCreationOrder objects order <-> y ∈ objects.
Proof.
  unfold sortObjectByCreationOrder. induction objects as [|x l IH]; cbn [foldr]; [done|].
  by rewrite insertByRank_elem, elem_of_cons, IH.
Qed.

(** ** The difference of two states *)

Section Difference.
Context (rangeOrder : forall A, gmap string A -> list (string * A)) (Hrange : isRangeOrder rangeOrder).
Context (desired current : gmap string Managed).
Notation actions := (calculateActionsOnObjects rangeOrder desired current).

Lemma range_elem {A} (m : gmap string A) k a : (k, a) ∈ rangeOrder A m <-> m !! k = Some a.
Proof. rewrite (Hrange A m). apply elem_of_map_to_list. Qed.

Lemma range_NoDup {A} (m : gmap string A) : NoDup (rangeOrder A m).*1.
Proof. rewrite (Hrange A m). apply NoDup_fst_map_to_list. Qed.

(** The entries of the plan under one kind of action, as a map. *)
Lemma planned_lookup (f : string * Action -> option (string * Managed)) (pick : Action -> option Managed) k o :
  (forall k a, f (k, a) = match pick a with Some o => Some (k, o) | None => None end) ->
  (list_to_map (omap f
     ((fun kv : string * Managed => (kv.1, actionOn current kv.1 kv.2)) <$> rangeOrder _ desired)) : gmap string Managed) !! k = Some o
  <-> exists d, desired !! k = Some d /\ pick (actionOn current k d) = Some o.
Proof.
  intros Hf. rewrite <- elem_of_list_to_map.
  - rewrite list_elem_of_omap. split.
    + intros ((k' & a) & Hin & Hpick). apply list_elem_of_fmap in Hin as ((k'' & d) & [= -> ->] & Hin).
      apply range_elem in Hin. cbn [fst snd] in *. rewrite Hf in Hpick. destruct (pick (actionOn current k'' d)) eqn:Hp; [|done].
      injection Hpick as -> ->. eauto.
    + intros (d & Hd & Hpick). exists (k, actionOn current k d). split.
      * apply list_elem_of_fmap. exists (k, d). split; [done|]. by apply range_elem.
      * by rewrite Hf, Hpick.
  - pose proof (range_NoDup desired) as Hnd. revert Hnd. generalize (rangeOrder Managed desired) as l.
    induction l as [|[k' d] l IH]; [intros _; apply NoDup_nil_2|]. cbn [fmap list_fmap fst snd omap list_omap].
    intros [Hni Hnd]%NoDup_cons. rewrite Hf. destruct (pick (actionOn current k' d)); [|by apply IH].
    cbn [fmap list_fmap fst]. apply NoDup_cons. split; [|by apply IH]. intros Hin. apply Hni.
    apply list_elem_of_fmap in Hin as ((k2 & o2) & -> & Hin). apply list_elem_of_omap in Hin as ((k3 & a) & Hin & Hp).
    apply list_elem_of_fmap in Hin as ((k4 & d4) & [= -> ->] & Hin). cbn [fst snd] in *.
    rewrite Hf in Hp. destruct (pick _); [|done]. injection Hp as -> ->. apply list_elem_of_fmap. by exists (k2, d4).
Qed.

Lemma toCreate_iff o : o ∈ objectsToCreate actions <-> exists k, desired !! k = Some o /\ current !! k = None.
Proof.
  cbn [calculateActionsOnObjects objectsToCreate]. rewrite list_elem_of_omap. split.
  - intros ((k & a) & Hin & Hp). apply list_elem_of_fmap in Hin as ((k' & d) & [= -> ->] & Hin%range_elem).
    cbn [snd fst] in *. unfold actionOn in Hp. destruct (current !! k') eqn:Hc; [by destruct (_ ==? _)|].
    injection Hp as ->. eauto.
  - intros (k & Hd & Hc). exists (k, actionOn current k o). split.
    + apply list_elem_of_fmap. exists (k, o). split; [done|]. by apply range_elem.
    + cbn [snd]. unfold actionOn. by rewrite Hc.
Qed.

Lemma toUpdate_iff k o :
  objectsToUpdate actions !! k = Some o
  <-> exists d c, desired !! k = Some d /\ current !! k = Some c /\ o = inheritFieldsFromCurrent c d /\ c <> o.
Proof.
  etransitivity; [apply (planned_lookup _ (fun a => match a with ToUpdate o => Some o | _ => None end) k o); by intros ? []|].
  unfold actionOn. split.
  - intros (d & Hd & Hp). destruct (current !! k) as [c|] eqn:Hc; [|done].
    destruct (decide (c = inheritFieldsFromCurrent c d)) as [He|He].
    + by rewrite (bool_decide_true _ He) in Hp.
    + rewrite (bool_decide_false _ He) in Hp. injection Hp as <-. eauto 10.
  - intros (d & c & Hd & Hc & -> & Hne). exists d. rewrite Hc, (bool_decide_false _ Hne). done.
Qed.

Lemma notToChange_iff k o :
  (list_to_map (omap (fun ka : string * Action => match ka.2 with NotToChange o => Some (ka.1, o) | _ => None end)
     ((fun kv : string * Managed => (kv.1, actionOn current kv.1 kv.2)) <$> rangeOrder _ desired)) : gmap string Managed) !! k = Some o
  <-> exists d, desired !! k = Some d /\ actionOn current k d = NotToChange o.
Proof.
  etransitivity; [apply (planned_lookup _ (fun a => match a with NotToChange o => Some o | _ => None end) k o); by intros ? []|].
  split; intros (d & Hd & Ha); exists d; split; try done; [|by rewrite Ha]. destruct (actionOn current k d); congruence.
Qed.

Lemma toDelete_iff o : o ∈ objectsToDelete actions <-> exists k, current !! k = Some o /\ desired !! k = None.
Proof.
  cbn [calculateActionsOnObjects objectsToDelete]. rewrite list_elem_of_fmap. split.
  - intros ((k & c) & -> & [[Hkeep Hup] Hin%range_elem]%list_elem_of_filter). exists k. split; [done|].
    cbn [fst snd] in *. destruct (desired !! k) as [d|] eqn:Hd; [|done]. exfalso.
    destruct (decide (c = inheritFieldsFromCurrent c d)) as [He|He].
    + apply (eq_None_not_Some _) in Hkeep. apply Hkeep. eexists.
      apply notToChange_iff. exists d. split; [done|].
      unfold actionOn. by rewrite Hin, (bool_decide_true _ He).
    + apply (eq_None_not_Some _) in Hup. apply Hup. eexists. apply toUpdate_iff. eauto 10.
  - intros (k & Hc & Hd). exists (k, o). split; [done|]. apply list_elem_of_filter. split; [|by apply range_elem].
    cbn [fst]. split; apply eq_None_not_Some; intros [x Hx].
    + apply notToChange_iff in Hx as (d & Hd' & _). congruence.
    + apply toUpdate_iff in Hx as (d & c & Hd' & _). congruence.
Qed.

End Difference.

(** ** Applying the difference *)

Definition keyed (m : gmap string Managed) : Prop := forall k o, m !! k = Some o -> GetKey (mObject o) = k.

(** What becomes of a wanted object: it is owned, with the fields that its kind
    inherits; one that is as wanted already stays as it is. *)
Definition deployedAs (owner : OwnerReference) (current : gmap string Managed) (k : string) (d : Managed) : Object :=
  match current !! k with
  | Some c =>
      let d := inheritFieldsFromCurrent c d in
      if c ==? d then mObject c else withOwner owner (mObject d)
  | None => withOwner owner (mObject d)
  end.

Section Apply.
Context (rangeOrder : forall A, gmap string A -> list (string * A)) (Hrange : isRangeOrder rangeOrder).
Context (owner : OwnerReference) (desired current : gmap string Managed).
Context (Hdesired : keyed desired) (Hcurrent : keyed current).
Notation actions := (calculateActionsOnObjects rangeOrder desired current).

Definition insertOwned (d : Managed) (m : gmap string Object) : gmap string Object :=
  <[GetKey (mObject d) := withOwner owner (mObject d)]> m.

Lemma replay_applyActions tr m :
  exec (applyActions rangeOrder owner actions) tr (inr tt) ->
  replay tr m =
    foldl (fun m o => insertOwned o m)
      (foldl (fun m o => delete (GetKey (mObject o)) m)
        (foldl (fun m o => insertOwned o m) m (sortObjectByCreationOrder (objectsToCreate actions) objectsCreationOrder))
        (objectsToDelete actions))
      (snd <$> rangeOrder _ (objectsToUpdate actions)).
Proof.
  unfold applyActions. intros (tr1 & tr2 & [] & -> & Hc & Hex)%exec_try_ok.
  apply exec_try_ok in Hex as (tr3 & tr4 & [] & -> & Hd & Hu). rewrite !replay_app.
  assert (replay tr1 m = foldl (fun m o => insertOwned o m) m (sortObjectByCreationOrder (objectsToCreate actions) objectsCreationOrder))
    as -> by (eapply replay_forEach; [|exact Hc]; intros; by apply replay_create).
  match goal with |- replay tr4 (replay tr3 ?m') = _ =>
    assert (replay tr3 m' = foldl (fun m o => delete (GetKey (mObject o)) m) m' (objectsToDelete actions)) as -> end.
  2: { eapply replay_forEach; [|exact Hu].
    intros x t m' _ (t1 & t2 & [e|[]] & -> & Hup & Hret)%exec_bind_inv; destruct Hret as [-> Hr]; [done|].
    rewrite app_nil_r. rewrite (replay_updateObject _ _ _ m' Hup). unfold insertOwned. by rewrite GetKey_withOwner. }
  eapply (replay_forEach _ _ (fun o => delete (GetKey (mObject o)))); [|exact Hd].
  intros x t m' _ (t1 & t2 & r & -> & Hdel & Hret)%exec_bind_inv.
  pose proof (replay_deleteOwned _ _ _ m' Hdel) as Hrep. destruct (IgnoreNotFound r); destruct Hret as [-> Hr]; [done|].
  by rewrite app_nil_r.
Qed.

Lemma created_other m k :
  (desired !! k = None \/ is_Some (current !! k)) ->
  foldl (fun m o => insertOwned o m) m (sortObjectByCreationOrder (objectsToCreate actions) objectsCreationOrder) !! k = m !! k.
Proof.
  intros Hk. apply (foldl_insert_other (fun o => GetKey (mObject o)) (fun o => withOwner owner (mObject o))).
  intros x Hx <-. apply sortObject_elem, toCreate_iff in Hx as (k & Hd & Hc); [|done].
  rewrite (Hdesired _ _ Hd) in Hk. destruct Hk as [Hk|[? Hk]]; congruence.
Qed.

Lemma created_found m k d :
  desired !! k = Some d -> current !! k = None ->
  foldl (fun m o => insertOwned o m) m (sortObjectByCreationOrder (objectsToCreate actions) objectsCreationOrder) !! k
    = Some (withOwner owner (mObject d)).
Proof.
  intros Hd Hc. rewrite <- (Hdesired _ _ Hd).
  apply (foldl_insert_found (fun o => GetKey (mObject o)) (fun o => withOwner owner (mObject o))).
  - apply sortObject_elem, toCreate_iff; eauto.
  - intros y Hy Hkey. apply sortObject_elem, toCreate_iff in Hy as (k' & Hd' & _); [|done].
    rewrite (Hdesired _ _ Hd), (Hdesired _ _ Hd') in Hkey. congruence.
Qed.

Lemma deleted_lookup (m : gmap string Object) k :
  foldl (fun m o => delete (GetKey (mObject o)) m) m (objectsToDelete actions) !! k
  = match desired !! k, current !! k with None, Some _ => None | _, _ => m !! k end.
Proof.
  rewrite (foldl_delete_lookup (fun o => GetKey (mObject o))).
  destruct (decide _) as [(o & (k' & Hc & Hd)%(toDelete_iff _ Hrange) & Hk)%Exists_exists|Hno].
  - rewrite (Hcurrent _ _ Hc) in Hk. subst k'. by rewrite Hc, Hd.
  - destruct (desired !! k) eqn:Hd; [done|]. destruct (current !! k) as [c|] eqn:Hc; [|done]. exfalso.
    apply Hno, Exists_exists. exists c. split; [apply toDelete_iff; eauto|by apply Hcurrent].
Qed.

Lemma updated_other m k :
  objectsToUpdate actions !! k = None ->
  foldl (fun m o => insertOwned o m) m (snd <$> rangeOrder _ (objectsToUpdate actions)) !! k = m !! k.
Proof.
  intros Hk. apply (foldl_insert_other (fun o => GetKey (mObject o)) (fun o => withOwner owner (mObject o))).
  intros x Hx <-. apply list_elem_of_fmap in Hx as ((k' & o) & -> & Hin%(range_elem _ Hrange)). cbn [snd] in *.
  pose proof Hin as (d & c & Hd & Hc & -> & _)%(toUpdate_iff _ Hrange).
  rewrite GetKey_inherit, (Hdesired _ _ Hd) in Hk. congruence.
Qed.

Lemma updated_found m k o :
  objectsToUpdate actions !! k = Some o ->
  foldl (fun m o => insertOwned o m) m (snd <$> rangeOrder _ (objectsToUpdate actions)) !! k
    = Some (withOwner owner (mObject o)).
Proof.
  assert (forall k o, objectsToUpdate actions !! k = Some o -> GetKey (mObject o) = k) as Hkeys.
  { intros k' o' (d & c & Hd & Hc & -> & _)%(toUpdate_iff _ Hrange). rewrite GetKey_inherit. by apply Hdesired. }
  intros Ho. rewrite <- (Hkeys _ _ Ho).
  apply (foldl_insert_found (fun o => GetKey (mObject o)) (fun o => withOwner owner (mObject o))).
  - apply list_elem_of_fmap. exists (k, o). split; [done|]. by apply range_elem.
  - intros y Hy Hkey. apply list_elem_of_fmap in Hy as ((k' & o') & -> & Hin%(range_elem _ Hrange)). cbn [snd] in *.
    rewrite (Hkeys _ _ Hin), (Hkeys _ _ Ho) in Hkey. congruence.
Qed.

(** After the writes, the owned objects are the wanted ones. *)
Lemma applied_is_desired tr :
  exec (applyActions rangeOrder owner actions) tr (inr tt) ->
  replay tr (mObject <$> current) = map_imap (fun k d => Some (deployedAs owner current k d)) desired.
Proof.
  intros Hex. rewrite (replay_applyActions _ _ Hex). apply map_eq. intros k. rewrite map_lookup_imap. unfold deployedAs.
  destruct (desired !! k) as [d|] eqn:Hd; cbn [mbind option_bind].
  - destruct (current !! k) as [c|] eqn:Hc.
    + destruct (decide (c = inheritFieldsFromCurrent c d)) as [He|He].
      * rewrite (bool_decide_true _ He), updated_other, deleted_lookup, Hd, created_other; [|eauto..|].
        -- by rewrite lookup_fmap, Hc.
        -- apply eq_None_not_Some. intros [o (d' & c' & Hd' & Hc' & -> & Hne)%(toUpdate_iff _ Hrange)]. congruence.
      * rewrite (bool_decide_false _ He). apply updated_found, toUpdate_iff; [done|]. eauto 10.
    + rewrite updated_other, deleted_lookup, Hd by (apply eq_None_not_Some; intros [o (? & ? & ? & ? & _)%(toUpdate_iff _ Hrange)]; congruence).
      by apply created_found.
  - rewrite updated_other, deleted_lookup, Hd by (apply eq_None_not_Some; intros [o (? & ? & ? & ? & _)%(toUpdate_iff _ Hrange)]; congruence).
    destruct (current !! k) as [c|] eqn:Hc; [done|]. rewrite created_other by auto. by rewrite lookup_fmap, Hc.
Qed.

End Apply.

(** ** Where the two states come from *)

(** The list call that asks for the objects of a kind that the KRMConfig owns. *)
Definition ownerList (K : Kind) (owner : KRMConfig) : KubeCall (result (list (obj K))) :=
  List K {| loNamespace := ""; loLabelSelector := []; loMatchingLabels := ∅;
            loFieldSelector := Some (CollectableOwnerKey, ReconcilerKey owner) |}.

(** An object was listed among those that the KRMConfig owns. *)
Definition listedFor (owner : KRMConfig) (tr : list (event KubeCall)) (object : Object) : Prop :=
  exists K (o : obj K) items, asObject K o = Some object /\ o ∈ items /\ Event (ownerList K owner) (inr items) ∈ tr.

Definition collected (owner : KRMConfig) (tr : list (event KubeCall)) (m : gmap string Managed) : Prop :=
  forall k x, m !! k = Some x -> GetKey (mObject x) = k /\ listedFor owner tr (mObject x).

Lemma listedFor_mono owner tr tr' object : tr ⊆ tr' -> listedFor owner tr object -> listedFor owner tr' object.
Proof. intros Hsub (K & o & items & ? & ? & ?). exists K, o, items. auto. Qed.

Lemma collectKind_collected {K} (wrap : obj K -> Object) owner tr m :
  (forall o, asObject K o = Some (wrap o)) ->
  exec (collectKind wrap owner) tr (inr m) -> collected owner tr m.
Proof.
  intros Hwrap (tr1 & tr2 & r & -> & (x & t & -> & [-> ->]) & [-> Hm])%exec_bind_inv k v Hv.
  destruct x as [e|items]; [done|]. injection Hm as ->.
  apply elem_of_list_to_map_2, list_elem_of_fmap in Hv as (o & [= -> ->] & Ho). split; [done|].
  rewrite elem_of_reverse in Ho. exists K, o, items. split; [apply Hwrap|]. split; [done|]. left.
Qed.

Lemma collectOptional_collected {K} (available : bool) (wrap : obj K -> Object) owner tr m :
  (forall o, asObject K o = Some (wrap o)) ->
  exec (collectOptional available wrap owner) tr (inr m) -> collected owner tr m.
Proof.
  intros Hwrap. destruct available; [by apply collectKind_collected|]. intros [-> [= ->]] k v Hv. by rewrite lookup_empty in Hv.
Qed.

Lemma getCurrentState_collected owner (collects : list (kube (result (gmap string Managed)))) tr0 m0 tr m :
  Forall (fun p => forall tr m, exec p tr (inr m) -> collected owner tr m) collects ->
  collected owner tr0 m0 -> exec (getCurrentState collects m0) tr (inr m) -> collected owner (tr0 ++ tr) m.
Proof.
  intros Hall. revert tr0 m0 tr. induction Hall as [|p collects Hp _ IH]; intros tr0 m0 tr H0 Hex.
  - destruct Hex as [-> [= ->]]. by rewrite app_nil_r.
  - apply exec_try_ok in Hex as (tr1 & tr2 & c & -> & Hc & Hex). rewrite app_assoc. apply (IH (tr0 ++ tr1) (c ∪ m0)); [|done].
    intros k x [Hx|[_ Hx]]%lookup_union_Some_raw.
    + destruct (Hp _ _ Hc _ _ Hx) as [? Hl]. split; [done|]. eapply listedFor_mono; [|exact Hl]. set_solver.
    + destruct (H0 _ _ Hx) as [? Hl]. split; [done|]. eapply listedFor_mono; [|exact Hl]. set_solver.
Qed.

Lemma collectables_collected monitors vpas owner tr m :
  exec (getCurrentState (collectables monitors vpas owner) ∅) tr (inr m) -> collected owner tr m.
Proof.
  apply (getCurrentState_collected _ _ []); [|by intros k x Hx; rewrite lookup_empty in Hx].
  repeat (apply Forall_cons; split; [intros ? ?; first [by apply collectKind_collected|by apply collectOptional_collected]|]).
  by apply Forall_nil.
Qed.

(** The kinds that the services may consist of; two of them may be unknown to the
    cluster. *)
Definition serviceKinds (monitors vpas : bool) : list Kind :=
  [KDeployment; KServiceAccount; KService; KConfigMap]
  ++ (if monitors then [KServiceMonitor] else []) ++ (if vpas then [KVerticalPodAutoscaler] else []).

(** The objects of the kind that the KRMConfig owns were listed, and none of them
    is missing. *)
Definition noneMissing (owner : KRMConfig) (tr : list (event KubeCall)) (m : gmap string Managed) (K : Kind) : Prop :=
  exists items, Event (ownerList K owner) (inr items) ∈ tr /\
    forall (o : obj K) object, o ∈ items -> asObject K o = Some object -> is_Some (m !! GetKey object).

Lemma noneMissing_mono owner tr tr' m m' K :
  tr ⊆ tr' -> (forall k, is_Some (m !! k) -> is_Some (m' !! k)) -> noneMissing owner tr m K -> noneMissing owner tr' m' K.
Proof. intros Htr Hm (items & He & Hall). exists items. split; [auto|]. intros o object Ho Hobj. eauto. Qed.

Lemma collectKind_complete {K} (wrap : obj K -> Object) owner tr m :
  (forall o, asObject K o = Some (wrap o)) ->
  exec (collectKind wrap owner) tr (inr m) -> noneMissing owner tr m K.
Proof.
  intros Hwrap (tr1 & tr2 & r & -> & (x & t & -> & [-> ->]) & [-> Hm])%exec_bind_inv.
  destruct x as [e|items]; [done|]. injection Hm as ->. exists items. split; [left|].
  intros o object Ho Hobj. rewrite Hwrap in Hobj. injection Hobj as <-.
  apply elem_of_dom. rewrite dom_list_to_map, elem_of_list_to_set, <- list_fmap_compose.
  apply list_elem_of_fmap. exists o. split; [done|]. by apply elem_of_reverse.
Qed.

(** What one of the collections found is in the result. *)
Lemma getCurrentState_keeps (collects : list (kube (result (gmap string Managed)))) m0 tr m :
  exec (getCurrentState collects m0) tr (inr m) ->
  (forall k, is_Some (m0 !! k) -> is_Some (m !! k)) /\
  forall p, p ∈ collects -> exists tr1 c, tr1 ⊆ tr /\ exec p tr1 (inr c) /\ forall k, is_Some (c !! k) -> is_Some (m !! k).
Proof.
  revert m0 tr. induction collects as [|p collects IH]; intros m0 tr.
  - intros [-> [= ->]]. split; [done|]. by intros p ?%elem_of_nil.
  - intros (tr1 & tr2 & c & -> & Hc & Hex)%exec_try_ok. apply IH in Hex as [Hm Hall]. split.
    + intros k Hk. apply Hm, lookup_union_is_Some. by right.
    + intros q [->|Hq]%elem_of_cons.
      * exists tr1, c. split; [intros e He; apply elem_of_app; by left|]. split; [done|]. intros k Hk. apply Hm, lookup_union_is_Some. by left.
      * destruct (Hall q Hq) as (tr3 & c3 & Hsub & Hex3 & Hk3). exists tr3, c3. split; [|done].
        intros e He. apply elem_of_app. right. by apply Hsub.
Qed.

Lemma collectables_complete monitors vpas owner tr m :
  exec (getCurrentState (collectables monitors vpas owner) ∅) tr (inr m) ->
  Forall (noneMissing owner tr m) (serviceKinds monitors vpas).
Proof.
  intros [_ Hall]%getCurrentState_keeps.
  assert (forall K (wrap : obj K -> Object), (forall o, asObject K o = Some (wrap o)) ->
    collectKind wrap owner ∈ collectables monitors vpas owner -> noneMissing owner tr m K) as Hkind.
  { intros K wrap Hwrap (tr1 & c & Hsub & Hex & Hk)%Hall.
    eapply noneMissing_mono; [exact Hsub|exact Hk|by eapply collectKind_complete]. }
  unfold serviceKinds, collectables, collectOptional in *. apply Forall_forall. intros K HK.
  rewrite !elem_of_app, !elem_of_cons in HK.
  destruct HK as [[->|[->|[->|[->|?%elem_of_nil]]]]|[HK|HK]]; [..|destruct monitors|destruct vpas]; try done;
    try (by apply elem_of_nil in HK); try apply list_elem_of_singleton in HK as ->;
    (eapply Hkind; [|repeat first [apply list_elem_of_here|apply list_elem_of_further]]; done).
Qed.

Lemma addDesired_keyed operand objects m m' : keyed m -> addDesired operand objects m = inr m' -> keyed m'.
Proof.
  revert m. induction objects as [|o objects IH]; intros m Hm; cbn [addDesired]; [by intros [= <-]|].
  destruct (mTyped o); cbn [negb]; [|done]. apply IH. intros k x [[<- <-]|[_ Hx]]%lookup_insert_Some; auto.
Qed.

Lemma getDesiredState_keyed operands krmConfig m tr operands' m' :
  keyed m -> exec (getDesiredState operands krmConfig m) tr (operands', inr m') -> keyed m'.
Proof.
  revert m tr operands'. induction operands as [|[op st] operands IH]; intros m tr operands' Hm; cbn [getDesiredState].
  - by intros [_ [= _ ->]].
  - intros (tr1 & tr2 & [st' [e|objects]] & -> & _ & Hex)%exec_bind_inv; [by destruct Hex|].
    destruct (addDesired (operandName op) objects m) as [e|m1] eqn:Hadd; [by destruct Hex|].
    apply exec_bind_inv in Hex as (tr3 & tr4 & [ops r] & -> & Hex & _ & Hr). injection Hr as _ <-. eapply IH; [|exact Hex]. by eapply addDesired_keyed.
Qed.

(** ** Building the wanted objects only reads *)

Section Reads.
Context {KC : KaiCommon} {Y : YamlLib}.

Lemma reads_readObject like key : reads_only (readObject like key).
Proof. destruct like; unfold readObject, readAs; reads_tac. Qed.
#[local] Hint Resolve reads_readObject : krm.

Lemma reads_ObjectForKRMConfig object name namespace : reads_only (ObjectForKRMConfig object name namespace).
Proof. unfold ObjectForKRMConfig. reads_tac. Qed.
#[local] Hint Resolve reads_ObjectForKRMConfig : krm.

Lemma reads_DeploymentFor krmConfig service name : reads_only (DeploymentForKRMConfig krmConfig service name).
Proof. unfold DeploymentForKRMConfig, wrongType. reads_tac. Qed.
Lemma reads_ServiceAccountFor krmConfig name : reads_only (ServiceAccountForKRMConfig krmConfig name).
Proof. unfold ServiceAccountForKRMConfig, wrongType. reads_tac. Qed.
Lemma reads_ServiceFor krmConfig name ports : reads_only (ServiceForKRMConfig krmConfig name ports).
Proof. unfold ServiceForKRMConfig, wrongType. reads_tac. Qed.
Lemma reads_ServiceMonitorFor krmConfig name port options : reads_only (ServiceMonitorForKRMConfig krmConfig name port options).
Proof. unfold ServiceMonitorForKRMConfig, wrongType. reads_tac. Qed.
#[local] Hint Resolve reads_DeploymentFor reads_ServiceAccountFor reads_ServiceFor reads_ServiceMonitorFor : krm.

Lemma reads_collectObjects fs : Forall reads_only fs -> reads_only (collectObjects fs).
Proof. induction 1 as [|f fs Hf _ IH]; cbn [collectObjects]; reads_tac; done. Qed.

Lemma reads_nodePoolMonitor baseName krmConfig options : reads_only (NodePoolController.buildServiceMonitor baseName krmConfig options).
Proof. unfold NodePoolController.buildServiceMonitor. reads_tac. Qed.
#[local] Hint Resolve reads_nodePoolMonitor : krm.

Lemma reads_nodePoolObjects baseName krmConfig : reads_only (NodePoolController.objectsForKRMConfig baseName krmConfig).
Proof.
  unfold NodePoolController.objectsForKRMConfig. apply reads_try; [apply reads_collectObjects|intros; reads_tac].
  repeat (apply Forall_cons; split); [..|by apply Forall_nil];
    unfold NodePoolController.deploymentForKRMConfig, NodePoolController.serviceForKRMConfig,
      NodePoolController.accountingServiceMonitorForKRMConfig; reads_tac.
Qed.

Lemma reads_configMapFor baseName krmConfig name : reads_only (ProjectController.configMapForKRMConfig baseName krmConfig name).
Proof. unfold ProjectController.configMapForKRMConfig, wrongType. reads_tac. Qed.
#[local] Hint Resolve reads_configMapFor : krm.

Lemma reads_projectObjects baseName krmConfig : reads_only (ProjectController.objectsForKRMConfig baseName krmConfig).
Proof.
  unfold ProjectController.objectsForKRMConfig. apply reads_try; [apply reads_collectObjects|intros; reads_tac].
  repeat (apply Forall_cons; split); [..|by apply Forall_nil];
    unfold ProjectController.roleBindingsConfigMapForKRMConfig, ProjectController.deleteBlockersConfigMapForKRMConfig,
      ProjectController.deploymentForKRMConfig, ProjectController.serviceForKRMConfig,
      ProjectController.serviceMonitorForKRMConfig; reads_tac.
Qed.

Lemma reads_assignerObjects baseName krmConfig : reads_only (PodGroupAssigner.objectsForKRMConfig baseName krmConfig).
Proof.
  unfold PodGroupAssigner.objectsForKRMConfig. apply reads_try; [apply reads_collectObjects|intros; reads_tac].
  repeat (apply Forall_cons; split); [..|by apply Forall_nil];
    unfold PodGroupAssigner.deploymentForKRMConfig, PodGroupAssigner.serviceForKRMConfig; reads_tac.
Qed.

(** The operands of the operator, in any state. *)
Definition services (getSetsTypeMeta : bool) (errorText : error -> string) : list Operand :=
  [nodePoolControllerOperand getSetsTypeMeta errorText; projectControllerOperand getSetsTypeMeta errorText;
   podGroupAssignerOperand getSetsTypeMeta errorText].

Lemma reads_DesiredState getSets text op st krmConfig : op ∈ services getSets text -> reads_only (DesiredState op st krmConfig).
Proof.
  unfold services. rewrite !elem_of_cons, elem_of_nil.
  intros [->|[->|[->|[]]]]; cbn [DesiredState nodePoolControllerOperand projectControllerOperand podGroupAssignerOperand serviceOperand];
    destruct (_ : result bool) as [|[]]; try apply reads_ret; apply reads_bind; try (intros; apply reads_ret).
  - apply reads_nodePoolObjects.
  - apply reads_projectObjects.
  - apply reads_assignerObjects.
Qed.

Lemma reads_getDesiredState getSets text operands krmConfig m :
  Forall (fun op => op.1 ∈ services getSets text) operands -> reads_only (getDesiredState operands krmConfig m).
Proof.
  intros Hall. revert m. induction Hall as [|[op st] operands Hop _ IH]; intros m; cbn [getDesiredState]; [apply reads_ret|].
  apply reads_bind; [by eapply reads_DesiredState|]. intros [st' [e|objects]]; [apply reads_ret|].
  destruct (addDesired _ _ _); [apply reads_ret|]. apply reads_bind; [apply IH|]. intros; apply reads_ret.
Qed.

Lemma reads_collectKind {K} (wrap : obj K -> Object) owner : reads_only (collectKind wrap owner).
Proof. unfold collectKind. reads_tac. Qed.

Lemma reads_getCurrentState monitors vpas owner m : reads_only (getCurrentState (collectables monitors vpas owner) m).
Proof.
  unfold collectables, collectOptional. cbn [getCurrentState].
  repeat (apply reads_try; [first [apply reads_collectKind|destruct (_ : bool); [apply reads_collectKind|apply reads_ret]]|intros ?]).
  apply reads_ret.
Qed.

End Reads.

Lemma reads_exec {A} (p : kube A) tr a :
  reads_only p -> exec p tr a -> Forall (fun e : event KubeCall => is_write (ev_call e) = false) tr.
Proof. intros Hp Hex. exact (issues_exec (fun _ c => is_write c = false) p tr a Hp Hex). Qed.

Lemma replay_reads tr m : Forall (fun e : event KubeCall => is_write (ev_call e) = false) tr -> replay tr m = m.
Proof.
  induction 1 as [|e tr He _ IH]; [done|]. cbn [replay foldl]. rewrite <- IH at 2.
  assert (effect (ev_call e) (ev_reply e) m = m) as ->; [|done]. destruct e as [X c x]. cbn [ev_call ev_reply] in *. by destruct c.
Qed.

(** ** The whole deployment *)

(** The object that a call deletes. *)
Definition isDelete {X} (c : KubeCall X) : bool := match c with Delete _ _ => true | _ => false end.
Definition deletedObject {X} (c : KubeCall X) : option Object :=
  match c with Delete K o => asObject K o | _ => None end.

(** Events that leave a key alone. *)
Lemma replay_keeps tr m k :
  Forall (fun e : event KubeCall => forall m, effect (ev_call e) (ev_reply e) m !! k = m !! k) tr -> replay tr m !! k = m !! k.
Proof. intros Hall. revert m. induction Hall as [|e tr He _ IH]; intros m; [done|]. rewrite <- (He m). apply IH. Qed.

Section Deployment.
Context {KC : KaiCommon} {Y : YamlLib}.
Context (getSetsTypeMeta : bool) (errorText : error -> string).
Context (rangeOrder : forall A, gmap string A -> list (string * A)) (Hrange : isRangeOrder rangeOrder).
Context (kaiGroupVersion : string) (monitorsAvailable vpasAvailable : bool).
Notation noDelete := (fun (X : Type) (c : KubeCall X) => isDelete c = false).

Lemma noDelete_createObject object : issues noDelete (createObject object).
Proof. destruct object; cbn [createObject]; (apply issues_try; [by apply issues_call|done]). Qed.
Lemma noDelete_updateObject object : issues noDelete (updateObject object).
Proof. destruct object; cbn [updateObject]; (apply issues_try; [by apply issues_call|done]). Qed.
Lemma noDelete_takeOwnership object : issues noDelete (takeOwnership object).
Proof. apply issues_bind; [apply noDelete_updateObject|]. by intros [|]. Qed.

Lemma issues_forEach {A} (pre : forall X, KubeCall X -> Prop) (xs : list A) f :
  (forall x, x ∈ xs -> issues pre (f x)) -> issues pre (forEach xs f).
Proof.
  intros Hf. apply wp_forEach; [|done]. intros x Hx. eapply wp_mono; [|exact (Hf x Hx)]. by intros [].
Qed.

Lemma noDelete_creates owner objects : issues noDelete (createObjectsInCluster owner objects).
Proof.
  apply issues_forEach. intros x _. unfold createObjectForKRMConfig. cbv zeta.
  destruct (negb _); [apply noDelete_takeOwnership|]. apply issues_bind; [apply noDelete_createObject|].
  intros [e|]; [|done]. destruct (negb _); [done|apply noDelete_takeOwnership].
Qed.

Lemma noDelete_updates owner objects : issues noDelete (updateObjectsInCluster rangeOrder owner objects).
Proof. apply issues_forEach. intros x _. apply issues_bind; [apply noDelete_updateObject|]. by intros [|]. Qed.

Lemma deletes_objects objects :
  issues (fun X c => exists o, o ∈ objects /\ isDelete c = true /\ deletedObject c = Some (mObject o)) (deleteObjectsInCluster objects).
Proof.
  apply issues_forEach. intros x Hx. apply issues_bind.
  - destruct x as [[] ?]; apply issues_call; eexists; (split; [exact Hx|done]).
  - intros r. by destruct (IgnoreNotFound r).
Qed.

(** The parts of a deployment. *)
Lemma Deploy_inv operands krmConfig tr operands' r :
  exec (Deploy rangeOrder kaiGroupVersion monitorsAvailable vpasAvailable operands krmConfig) tr (operands', r) ->
  (exists tr1 tr2 d, tr = tr1 ++ tr2 /\ exec (getDesiredState operands krmConfig ∅) tr1 (operands', inl d) /\ tr2 = [] /\ isOk r = false)
  \/ exists tr1 tr2 tr3 desired rc,
       tr = tr1 ++ tr2 ++ tr3
       /\ exec (getDesiredState operands krmConfig ∅) tr1 (operands', inr desired)
       /\ exec (getCurrentState (collectables monitorsAvailable vpasAvailable krmConfig) ∅) tr2 rc
       /\ match rc with
          | inl _ => tr3 = [] /\ isOk r = false
          | inr current =>
              exec (applyActions rangeOrder (reconcilerAsOwnerReference kaiGroupVersion krmConfig)
                      (calculateActionsOnObjects rangeOrder desired current)) tr3 r
          end.
Proof.
  unfold Deploy. intros (tr1 & tr2 & [ops [e|desired]] & -> & Hd & Hex)%exec_bind_inv.
  - left. destruct Hex as [-> [= -> ->]]. by exists tr1, [], e.
  - right. apply exec_bind_inv in Hex as (tr3 & tr4 & rc & -> & Hc & Hex). exists tr1, tr3, tr4, desired, rc.
    destruct rc as [e|current]; [by destruct Hex as [-> [= -> ->]]|].
    apply exec_bind_inv in Hex as (tr5 & tr6 & ra & -> & Ha & [-> [= -> ->]]). by rewrite app_nil_r.
Qed.

(** A call of a deployment: what it creates and updates has the owner as its only
    owner, and is of a kind that the operator knows how to write. *)
Definition writesOwned (owner : OwnerReference) : forall X, KubeCall X -> Prop := fun X c =>
  match c with
  | Create K o | Update K o => OwnerReferences (objMeta K o) = [owner] /\ is_Some (asObject K o)
  | Delete _ _ => True
  | c => is_write c = false
  end.

Lemma writesOwned_read owner X (c : KubeCall X) : is_write c = false -> writesOwned owner X c.
Proof. by destruct c. Qed.

Lemma writesOwned_create owner object :
  OwnerReferences (objectMeta object) = [owner] -> issues (writesOwned owner) (createObject object).
Proof. intros Ho. destruct object; cbn [createObject]; (apply issues_try; [apply issues_call; by split|done]). Qed.

Lemma writesOwned_update owner object :
  OwnerReferences (objectMeta object) = [owner] -> issues (writesOwned owner) (updateObject object).
Proof. intros Ho. destruct object; cbn [updateObject]; (apply issues_try; [apply issues_call; by split|done]). Qed.

Lemma withOwner_owned owner object : OwnerReferences (objectMeta (withOwner owner object)) = [owner].
Proof. unfold withOwner. by rewrite objectMeta_with. Qed.

Lemma writesOwned_takeOwnership owner object :
  OwnerReferences (objectMeta object) = [owner] -> issues (writesOwned owner) (takeOwnership object).
Proof. intros Ho. apply issues_bind; [by apply writesOwned_update|]. by intros [|]. Qed.

Lemma applyActions_owned owner actions : issues (writesOwned owner) (applyActions rangeOrder owner actions).
Proof.
  unfold applyActions. apply issues_try; [|intros; apply issues_try; [|intros]]; apply issues_forEach; intros x _.
  - unfold createObjectForKRMConfig. cbv zeta. destruct (negb _); [apply writesOwned_takeOwnership, withOwner_owned|].
    apply issues_bind.
    + apply writesOwned_create. rewrite objectMeta_with. exact (withOwner_owned owner (mObject x)).
    + intros [e|]; [|done]. destruct (negb _); [done|]. apply writesOwned_takeOwnership, withOwner_owned.
  - apply issues_bind; [|intros r; by destruct (IgnoreNotFound r)].
    destruct x as [[] ?]; cbn [mObject deleteOwnedObject]; by apply issues_call.
  - apply issues_bind; [apply writesOwned_update, withOwner_owned|]. by intros [|].
Qed.

Lemma Deploy_writes_owned operands krmConfig tr r :
  Forall (fun op => op.1 ∈ services getSetsTypeMeta errorText) operands ->
  exec (Deploy rangeOrder kaiGroupVersion monitorsAvailable vpasAvailable operands krmConfig) tr r ->
  Forall (fun e => writesOwned (reconcilerAsOwnerReference kaiGroupVersion krmConfig) _ (ev_call e)) tr.
Proof.
  intros Hops Hex. destruct r as [operands' r].
  assert (forall {A} (p : kube A) t a, reads_only p -> exec p t a ->
    Forall (fun e => writesOwned (reconcilerAsOwnerReference kaiGroupVersion krmConfig) _ (ev_call e)) t) as Hread.
  { intros A p t a Hp Hpx. eapply Forall_impl; [exact (reads_exec p t a Hp Hpx)|]. intros e. apply writesOwned_read. }
  apply Deploy_inv in Hex as [(t1 & t2 & d & -> & Hd & -> & _)|(t1 & t2 & t3 & d & rc & -> & Hd & Hc & Ha)].
  - rewrite app_nil_r. eapply Hread, Hd. by apply (reads_getDesiredState getSetsTypeMeta errorText).
  - rewrite !Forall_app. split; [eapply Hread, Hd; by apply (reads_getDesiredState getSetsTypeMeta errorText)|].
    split; [eapply Hread, Hc; apply reads_getCurrentState|]. destruct rc as [e|current]; [by destruct Ha as [-> _]|].
    exact (issues_exec _ _ _ _ (applyActions_owned _ _) Ha).
Qed.

(** C5: A deployment that succeeds makes the owned objects the wanted ones.  The
    wanted objects are those the services ask for.  The owned ones were listed in
    the same run: every kind that a service may consist of was listed for this
    KRMConfig (service monitors and pod autoscalers when the cluster knows them),
    every object that was listed is among them, and nothing else is.  After the
    writes of the run (creations, ownership taken over, updates and deletions, as
    the server accepted them) the owned objects are, key by key, exactly the
    wanted ones: each is there with the KRMConfig as its owner and with the fields
    its kind inherits, an object that was as wanted is untouched, and no other
    object is left. *)
Theorem deploy_reaches_desired operands krmConfig tr operands' :
  Forall (fun op => op.1 ∈ services getSetsTypeMeta errorText) operands ->
  exec (Deploy rangeOrder kaiGroupVersion monitorsAvailable vpasAvailable operands krmConfig) tr (operands', inr tt) ->
  exists desired current trd,
    trd `prefix_of` tr
    /\ exec (getDesiredState operands krmConfig ∅) trd (operands', inr desired)
    /\ collected krmConfig tr current
    /\ Forall (noneMissing krmConfig tr current) (serviceKinds monitorsAvailable vpasAvailable)
    /\ replay tr (mObject <$> current)
       = map_imap (fun k d => Some (deployedAs (reconcilerAsOwnerReference kaiGroupVersion krmConfig) current k d)) desired.
Proof.
  intros Hops [(tr1 & tr2 & d & _ & _ & _ & [=])|(tr1 & tr2 & tr3 & desired & rc & -> & Hd & Hc & Ha)]%Deploy_inv.
  destruct rc as [e|current]; [by destruct Ha|]. exists desired, current, tr1.
  pose proof (collectables_collected _ _ _ _ _ Hc) as Hcol. split; [by exists (tr2 ++ tr3)|]. split; [done|].
  assert (tr2 ⊆ tr1 ++ tr2 ++ tr3) as Hsub by set_solver. split; [|split].
  - intros k x Hx. destruct (Hcol _ _ Hx). split; [done|]. by eapply listedFor_mono.
  - eapply Forall_impl; [by apply collectables_complete|]. intros K. by apply noneMissing_mono.
  - rewrite !replay_app.
    rewrite (replay_reads tr1) by (eapply reads_exec; [|exact Hd]; eapply reads_getDesiredState; exact Hops).
    rewrite (replay_reads tr2) by (eapply reads_exec; [|exact Hc]; apply reads_getCurrentState).
    apply (applied_is_desired rangeOrder Hrange); [| |done].
    + eapply getDesiredState_keyed; [|exact Hd]. intros k o Ho. by rewrite lookup_empty in Ho.
    + intros k o Ho. by apply Hcol.
Qed.

Section AtDeletion.
Context (owner : OwnerReference) (desired current : gmap string Managed).
Context (Hdesired : keyed desired) (Hcurrent : keyed current).
Notation actions := (calculateActionsOnObjects rangeOrder desired current).

(** In the deletions of a run, after the creations. *)
Lemma applyActions_delete tr r before e after :
  exec (applyActions rangeOrder owner actions) tr r -> tr = before ++ e :: after -> isDelete (ev_call e) = true ->
  exists created deleted,
    before = created ++ deleted
    /\ exec (createObjectsInCluster owner (objectsToCreate actions)) created (inr tt)
    /\ Forall (fun e => exists o, o ∈ objectsToDelete actions /\ isDelete (ev_call e) = true
                                  /\ deletedObject (ev_call e) = Some (mObject o)) (deleted ++ [e]).
Proof.
  assert (forall t, Forall (fun e => isDelete (ev_call e) = false) t -> isDelete (ev_call e) = true -> e ∉ t) as Habs.
  { intros t Ht He Hin. rewrite Forall_forall in Ht. rewrite (Ht _ Hin) in He. done. }
  intros [(err & Hc & ->)|(trc & trr & [] & -> & Hc & Hex)]%exec_try_inv Htr He;
    pose proof (issues_exec _ _ _ _ (noDelete_creates owner _) Hc) as Hnc.
  { exfalso. apply (Habs _ Hnc He). subst tr. apply elem_of_app. right. left. }
  apply split_after with (P := fun e => isDelete (ev_call e) = false) in Htr as (deleted & -> & Htr); [|done|by rewrite He].
  exists trc, deleted. split; [done|]. split; [done|].
  assert (exists trd rest, trr = trd ++ rest /\ (exists rd, exec (deleteObjectsInCluster (objectsToDelete actions)) trd rd) /\ e ∉ rest)
    as (trd & rest & -> & [rd Hd] & Hrest).
  { apply exec_try_inv in Hex as [(err & Hd & ->)|(trd & tru & [] & -> & Hd & Hu)].
    - exists trr, []. rewrite app_nil_r. split; [done|]. split; [eauto|]. apply not_elem_of_nil.
    - exists trd, tru. split; [done|]. split; [eauto|]. apply Habs; [|done].
      exact (issues_exec _ _ _ _ (noDelete_updates owner _) Hu). }
  apply split_in in Htr as [[post' ->]|]; [|done]. pose proof (issues_exec _ _ _ _ (deletes_objects _) Hd) as Hall.
  rewrite cons_middle, app_assoc in Hall. by apply Forall_app in Hall as [Hall _].
Qed.

(** The wanted objects are there while others are deleted. *)
Lemma desired_while_deleting created deleted k d :
  exec (createObjectsInCluster owner (objectsToCreate actions)) created (inr tt) ->
  Forall (fun e => exists o, o ∈ objectsToDelete actions /\ isDelete (ev_call e) = true
                             /\ deletedObject (ev_call e) = Some (mObject o)) deleted ->
  desired !! k = Some d -> is_Some (replay (created ++ deleted) (mObject <$> current) !! k).
Proof.
  intros Hc Hdel Hd. rewrite replay_app, replay_keeps.
  - assert (replay created (mObject <$> current) = foldl (fun m o => insertOwned owner o m) (mObject <$> current)
      (sortObjectByCreationOrder (objectsToCreate actions) objectsCreationOrder)) as ->
      by (eapply replay_forEach; [|exact Hc]; intros; by apply replay_create).
    destruct (current !! k) as [c|] eqn:Hk.
    + rewrite (created_other rangeOrder Hrange) by (try done; right; by rewrite Hk). by rewrite lookup_fmap, Hk.
    + by erewrite (created_found rangeOrder Hrange).
  - eapply Forall_impl; [exact Hdel|]. intros e (o & (k' & Hck & Hdk)%(toDelete_iff _ Hrange) & Hisd & Hobj) m.
    destruct e as [X c x]. cbn [ev_call ev_reply] in *. destruct c; try done. cbn [effect deletedObject] in *. rewrite Hobj.
    destruct (IgnoreNotFound x); [done|]. apply lookup_delete_ne. rewrite (Hcurrent _ _ Hck). congruence.
Qed.

End AtDeletion.

(** C6: Pruning is safe: whatever a deployment deletes, also one that fails
    later, was listed in the same run among the objects that this KRMConfig owns
    and is not wanted by any service; and at that moment every wanted object is
    there, because it was owned already or because its creation (or the takeover
    of an existing object) was accepted earlier in the run.  So renaming a service
    never leaves it without its objects. *)
Theorem deploy_prunes_safely operands krmConfig before e after operands' r :
  Forall (fun op => op.1 ∈ services getSetsTypeMeta errorText) operands ->
  exec (Deploy rangeOrder kaiGroupVersion monitorsAvailable vpasAvailable operands krmConfig)
    (before ++ e :: after) (operands', r) ->
  isDelete (ev_call e) = true ->
  exists object desired current trd,
    deletedObject (ev_call e) = Some object
    /\ listedFor krmConfig before object
    /\ trd `prefix_of` before
    /\ exec (getDesiredState operands krmConfig ∅) trd (operands', inr desired)
    /\ desired !! GetKey object = None
    /\ collected krmConfig before current
    /\ forall k d, desired !! k = Some d -> is_Some (replay before (mObject <$> current) !! k).
Proof.
  intros Hops Hdep He. assert (forall X (c : KubeCall X), isDelete c = true -> is_write c <> false) as Hw by (intros X []; done).
  apply Deploy_inv in Hdep as [(tr1 & tr2 & d & Htr & Hd & -> & _)|(tr1 & tr2 & tr3 & desired & rc & Htr & Hd & Hc & Ha)].
  { symmetry in Htr. eapply (split_after (fun e => is_write (ev_call e) = false)) in Htr as (pre & _ & Heq); [by destruct pre| |exact (Hw _ _ He)].
    eapply reads_exec; [|exact Hd]. eapply reads_getDesiredState; exact Hops. }
  symmetry in Htr. eapply (split_after (fun e => is_write (ev_call e) = false)) in Htr as (pre1 & -> & Htr); [|eapply reads_exec; [|exact Hd]; eapply reads_getDesiredState; exact Hops|exact (Hw _ _ He)].
  eapply (split_after (fun e => is_write (ev_call e) = false)) in Htr as (pre2 & -> & Htr); [|eapply reads_exec; [|exact Hc]; apply reads_getCurrentState|exact (Hw _ _ He)].
  destruct rc as [err|current]; [destruct Ha as [-> _]; by destruct pre2|].
  pose proof (collectables_collected _ _ _ _ _ Hc) as Hcol. assert (keyed current) as Hcur by (intros k o Ho; by apply Hcol).
  assert (keyed desired) as Hdes by (eapply getDesiredState_keyed; [|exact Hd]; intros k o Ho; by rewrite lookup_empty in Ho).
  destruct (applyActions_delete _ _ _ _ _ _ _ _ Ha Htr He) as (created & deleted & -> & Hcr & Hall).
  apply Forall_app in Hall as [Hall [(o & (k & Hck & Hdk)%(toDelete_iff _ Hrange) & _ & Hobj) _]%Forall_cons].
  assert (collected krmConfig (tr1 ++ tr2 ++ created ++ deleted) current) as Hcol'.
  { intros k' x Hx. destruct (Hcol _ _ Hx). split; [done|]. eapply listedFor_mono; [|eassumption]. set_solver. }
  exists (mObject o), desired, current, tr1. split; [done|]. split; [by apply (Hcol' _ _ Hck)|]. split; [by eexists|].
  split; [done|]. split; [by rewrite (Hcur _ _ Hck)|]. split; [done|]. intros k' d Hk'.
  rewrite 2!replay_app. rewrite (replay_reads tr1) by (eapply reads_exec; [|exact Hd]; eapply reads_getDesiredState; exact Hops).
  rewrite (replay_reads tr2) by (eapply reads_exec; [|exact Hc]; apply reads_getCurrentState).
  by eapply desired_while_deleting.
Qed.

End Deployment.

(** ** Witnesses *)

Module DeployDemo.
Import CommandLineFacts.LineDemo.
#[local] Existing Instance demoCommon.
#[local] Instance demoYaml : YamlLib := {| marshalRoleBinding := fun _ => inr "rolebinding"; marshalBlockers := fun _ => inr "blockers" |}.

Definition demoErrorText (e : error) : string := "failed".
Definition demoOperands : list (Operand * OperandState) := KRMConfigReconcilerOperands true demoErrorText.

(** A cluster with a deployment that a former configuration asked for. *)
Definition oldDeployment : Deployment :=
  {| deplMeta := meta_with_key "old-controller" "kai" (named ""); deplReplicas := Some 1%Z; deplSelector := None;
     deplTemplate := emptyTemplate; deplOther := ""; UpdatedReplicas := 1; deplConditions := [] |}.
Definition demoCluster : store := store_add (K := KDeployment) oldDeployment emptyStore.
Definition demoDeploy := Deploy demoOrder "kai.resources/v1alpha1" true true demoOperands demoKRMConfig.

Lemma demoOperands_ours : Forall (fun op => op.1 ∈ services true demoErrorText) demoOperands.
Proof.
  unfold demoOperands, KRMConfigReconcilerOperands, services.
  repeat (apply Forall_cons; split; [cbn [fst]; repeat (first [apply list_elem_of_here|apply list_elem_of_further])|]). by apply Forall_nil.
Qed.

Lemma demoDeploy_ok : exec demoDeploy (run_trace memServer demoDeploy demoCluster) ((run memServer demoDeploy demoCluster).1.1, inr tt).
Proof.
  pose proof (run_exec memServer demoDeploy demoCluster) as Hex.
  assert ((run memServer demoDeploy demoCluster).1.2 = inr tt) as Hr by (vm_compute; reflexivity).
  destruct (run memServer demoDeploy demoCluster).1 as [ops r]. cbn [fst snd] in *. by subst r.
Qed.

Lemma deploy_reaches_desired_witness :
  exists tr operands' desired current,
    exec demoDeploy tr (operands', inr tt) /\ collected demoKRMConfig tr current
    /\ Forall (noneMissing demoKRMConfig tr current) (serviceKinds true true)
    /\ replay tr (mObject <$> current)
       = map_imap (fun k d => Some (deployedAs (reconcilerAsOwnerReference "kai.resources/v1alpha1" demoKRMConfig) current k d)) desired.
Proof.
  eexists _, _. destruct (deploy_reaches_desired true demoErrorText demoOrder demoOrder_isRangeOrder "kai.resources/v1alpha1" true true
    demoOperands demoKRMConfig _ _ demoOperands_ours demoDeploy_ok) as (desired & current & trd & _ & _ & Hcol & Hall & Hreplay).
  exists desired, current. split; [exact demoDeploy_ok|]. split; [exact Hcol|]. split; [exact Hall|exact Hreplay].
Defined.

(** The old deployment is deleted after the objects of the services exist. *)
Lemma deploy_prunes_safely_witness :
  exists before object, listedFor demoKRMConfig before object /\ GetKey object = "apps/v1, Kind=Deployment/kai/old-controller".
Proof.
  destruct (list_find (fun e => isDelete (ev_call e) = true) (run_trace memServer demoDeploy demoCluster)) as [[i e]|] eqn:Hfind;
    [|vm_compute in Hfind; discriminate].
  pose proof Hfind as (Hi & He & _)%list_find_Some. pose proof demoDeploy_ok as Hex. rewrite <- (take_drop_middle _ _ _ Hi) in Hex.
  destruct (deploy_prunes_safely true demoErrorText demoOrder demoOrder_isRangeOrder "kai.resources/v1alpha1" true true
    demoOperands demoKRMConfig _ e _ _ _ demoOperands_ours Hex He) as (object & desired & current & trd & Hobj & Hlisted & _).
  eexists _, object. split; [exact Hlisted|].
  assert (deletedObject (ev_call e) = Some (ODeployment oldDeployment)) as Hold
    by (vm_compute in Hfind; injection Hfind as <- <-; vm_compute; reflexivity).
  rewrite Hold in Hobj. injection Hobj as <-. vm_compute. reflexivity.
Defined.

End DeployDemo.
