(* ===== verification/OperatorFacts.v ===== *)
(** * Properties of the operator's configuration and of its status

    A configuration with its defaults filled in has every pointer that the
    builders of the objects follow, so that only the API server (or the encoder
    of a config map) can keep them from being built; and the conditions of the
    KRMConfig say what was asked of the cluster. *)

From stdpp Require Import base list gmap strings pretty.
From S2P Require Import Prelude ApiTypes NodePoolCommon OperatorConfig GoFlags Dependencies Operands OperandResources Deployable.
From S2P Require Import NodeFacts DeployFacts.
From S2P Require CommandLineFacts MigrateFacts HelmHookFacts.

(** What is documented of the scheduler's API module: [SetDefault] fills a nil
    pointer, and the defaults of a service set whether it is enabled and its
    image with a pull policy, and keep resources that are set. *)
Class KaiCommonLaws (KC : KaiCommon) : Prop := {
  SetDefault_some : forall A (v : A) d, SetDefault (Some v) d = Some v;
  SetDefault_none : forall A (d : option A), SetDefault None d = d;
  serviceDefaults_enabled : forall image s, is_Some (svEnabled (serviceDefaults image s));
  serviceDefaults_image : forall image s, exists i p, svImage (serviceDefaults image s) = Some i /\ PullPolicy i = Some p;
  serviceDefaults_resources : forall image s r, svResources s = Some r -> is_Some (svResources (serviceDefaults image s));
}.

Section Complete.
Context {KC : KaiCommon} {KL : KaiCommonLaws KC}.

Lemma setTo_default {A} (v : option A) d : setTo v d = Some (default d v).
Proof. unfold setTo. destruct v; [apply SetDefault_some|apply SetDefault_none]. Qed.

(** ** Configurations without nil pointers *)

Definition portComplete (m : option PortMapping) : Prop :=
  exists n p t, m = Some {| pmName := Some n; pmPort := Some p; pmTargetPort := Some t |}.

Definition serviceComplete (s : option ServiceConfig) : Prop :=
  exists sv enabled image policy res,
    s = Some sv /\ svEnabled sv = Some enabled /\ svImage sv = Some image /\ PullPolicy image = Some policy
    /\ svResources sv = Some res.

Lemma setPortMappingDefaults_complete m n p t : portComplete (setPortMappingDefaults m n p t).
Proof. unfold setPortMappingDefaults. rewrite setTo_default. rewrite !setTo_default. repeat eexists. Qed.

Lemma setServiceDefaults_complete s image res : serviceComplete (setServiceDefaults s image res).
Proof.
  unfold setServiceDefaults. rewrite setTo_default.
  match goal with |- context [serviceDefaults image ?sv] => set (s' := sv) end.
  destruct (serviceDefaults_enabled image s') as [enabled Henabled].
  destruct (serviceDefaults_image image s') as (i & policy & Himage & Hpolicy).
  destruct (serviceDefaults_resources image s' (default res (svResources (default emptyService s)))) as [r Hr].
  { cbn [svResources s']. apply setTo_default. }
  exists (serviceDefaults image s'), enabled, i, policy, r. auto.
Qed.

Definition nodePoolControllerComplete (c : NodePoolControllerSpec) : Prop :=
  serviceComplete (ncService c)
  /\ (exists ports, ncControllerService c = Some ports /\ portComplete (csMetrics ports)
        /\ portComplete (csNodePoolMetrics ports) /\ portComplete (csWebhook ports))
  /\ (exists webhooks secret, ncWebhooks c = Some webhooks /\ nwCertSecretName webhooks = Some secret)
  /\ is_Some (ncArgs c).

Definition projectControllerComplete (c : ProjectControllerSpec) : Prop :=
  serviceComplete (pcService c)
  /\ (exists ports, pcControllerService c = Some ports /\ portComplete (csMetrics ports) /\ portComplete (csWebhook ports))
  /\ (exists webhooks secret, pcWebhooks c = Some webhooks /\ pwCertSecretName webhooks = Some secret)
  /\ is_Some (pcFeatures c)
  /\ (exists profiling port, pcProfiling c = Some profiling /\ profAPIPort profiling = Some port)
  /\ is_Some (pcArgs c).

Definition podGroupAssignerComplete (c : PodGroupAssignerSpec) : Prop :=
  serviceComplete (gaService c)
  /\ (exists ports, gaControllerService c = Some ports /\ portComplete (csWebhook ports))
  /\ (exists webhooks secret, gaWebhooks c = Some webhooks /\ gwCertSecretName webhooks = Some secret)
  /\ is_Some (gaArgs c).

Definition configComplete (spec : KRMConfigSpec) : Prop :=
  krmNamespace spec <> ""
  /\ (exists global name, krmGlobal spec = Some global /\ gDefaultNodePoolName global = Some name)
  /\ (exists c, krmNodePoolController spec = Some c /\ nodePoolControllerComplete c)
  /\ (exists c, krmProjectController spec = Some c /\ projectControllerComplete c)
  /\ (exists c, krmPodGroupAssigner spec = Some c /\ podGroupAssignerComplete c).

Lemma setNodePoolController_complete c global : nodePoolControllerComplete (setNodePoolControllerDefaults c global).
Proof.
  split; [apply setServiceDefaults_complete|]. cbn [ncControllerService ncWebhooks ncArgs setNodePoolControllerDefaults].
  rewrite !setTo_default. cbn [fmap option_fmap option_map]. split; [eexists; split; [done|]|split; [|by eexists]].
  - split; [|split]; apply setPortMappingDefaults_complete.
  - eexists _, _. split; [done|]. apply setTo_default.
Qed.

Lemma setProjectController_complete c global : projectControllerComplete (setProjectControllerDefaults c global).
Proof.
  split; [apply setServiceDefaults_complete|].
  cbn [pcControllerService pcWebhooks pcFeatures pcProfiling pcArgs setProjectControllerDefaults].
  rewrite !setTo_default. cbn [fmap option_fmap option_map].
  split; [eexists; split; [done|]|split; [|split; [by eexists|split; [|by eexists]]]].
  - split; apply setPortMappingDefaults_complete.
  - eexists _, _. split; [done|]. apply setTo_default.
  - eexists _, _. split; [done|]. apply setTo_default.
Qed.

Lemma setPodGroupAssigner_complete c global : podGroupAssignerComplete (setPodGroupAssignerDefaults c global).
Proof.
  split; [apply setServiceDefaults_complete|]. cbn [gaControllerService gaWebhooks gaArgs setPodGroupAssignerDefaults].
  rewrite !setTo_default. cbn [fmap option_fmap option_map]. split; [eexists; split; [done|]|split; [|by eexists]].
  - apply setPortMappingDefaults_complete.
  - eexists _, _. split; [done|]. apply setTo_default.
Qed.

Lemma SetDefaults_complete podNamespace spec : configComplete (SetDefaultsWhereNeeded podNamespace spec).
Proof.
  unfold SetDefaultsWhereNeeded. rewrite !setTo_default. cbn [default]. split; [|split; [|split; [|split]]];
    cbn [krmNamespace krmGlobal krmNodePoolController krmProjectController krmPodGroupAssigner].
  - case_bool_decide as Hlen.
    + unfold OperatorNamespace. by case_bool_decide.
    + by intros Hns; rewrite Hns in Hlen.
  - eexists _, _. split; [done|]. apply setTo_default.
  - eexists. split; [done|]. apply setNodePoolController_complete.
  - eexists. split; [done|]. apply setProjectController_complete.
  - eexists. split; [done|]. apply setPodGroupAssigner_complete.
Qed.

End Complete.

(** ** Building the objects *)

(** The reader answers: with the object, or that there is none. *)
Definition answers {X} (c : KubeCall X) : X -> Prop :=
  match c in KubeCall X return X -> Prop with
  | Get _ _ => fun r => match r with inl e => IsNotFound e = true | inr _ => True end
  | _ => fun _ => True
  end.

(** The program succeeds as long as the reader answers. *)
Definition builds {A} (p : kube (result A)) (Q : A -> Prop) : Prop :=
  wp (C := KubeCall) (fun _ _ => True) (fun _ c x => answers c x) p (fun r => exists a, r = inr a /\ Q a).

Lemma builds_ret {A} (a : A) (Q : A -> Prop) : Q a -> builds (Ret (inr a)) Q.
Proof. intros HQ. by exists a. Qed.

Lemma builds_try {A B} (p : kube (result A)) (f : A -> kube (result B)) Q R :
  builds p Q -> (forall a, Q a -> builds (f a) R) -> builds (x <-? p ;; f x) R.
Proof. intros Hp Hf. apply wp_try. eapply wp_mono; [|exact Hp]. intros r (a & -> & Ha). by apply Hf. Qed.

Lemma builds_object object name namespace :
  builds (ObjectForKRMConfig object name namespace) (fun o => kindName o = kindName object).
Proof.
  destruct object; (split; [done|]); intros [e|live]; cbn [answers]; intros He; cbn [prog_bind_];
    rewrite ?He; cbn [negb]; (eexists; split; [reflexivity|done]).
Qed.

Section Builds.
Context {KC : KaiCommon} {Y : YamlLib}.
Context (krmConfig : KRMConfig) (global : GlobalConfig) (Hglobal : krmGlobal (krmSpec krmConfig) = Some global).

Definition oneContainer (d : Deployment) : Prop := exists c, ptContainers (deplTemplate d) = [c].

Lemma builds_deployment service name :
  serviceComplete service -> builds (DeploymentForKRMConfig krmConfig service name) oneContainer.
Proof.
  intros (sv & enabled & image & policy & res & -> & _ & Himage & Hpolicy & Hres).
  eapply builds_try; [apply builds_object|]. intros [d| | | | |] Hk; try done. unfold deploymentFor. cbn [deref mbind result_bind].
  rewrite Hglobal, Himage. cbn [deref mbind result_bind]. rewrite Hpolicy, Hres. cbn [deref mbind result_bind].
  apply builds_ret. by eexists.
Qed.

Lemma builds_service name ports : builds (ServiceForKRMConfig krmConfig name ports) (fun _ => True).
Proof. eapply builds_try; [apply builds_object|]. intros [] Hk; try done. by apply builds_ret. Qed.

Definition typedObject (m : option Managed) : Prop := match m with Some o => mTyped o = true | None => True end.

Lemma builds_serviceAccount name : builds (ServiceAccountForKRMConfig krmConfig name) typedObject.
Proof. eapply builds_try; [apply builds_object|]. intros [] Hk; try done. by apply builds_ret. Qed.

Lemma builds_monitor name port options : builds (ServiceMonitorForKRMConfig krmConfig name port options) typedObject.
Proof.
  apply wp_bind. eapply wp_mono; [|apply builds_object]. intros r (o & -> & Hk). destruct o; try done. by apply builds_ret.
Qed.

Lemma builds_collect fs : Forall (fun f => builds f typedObject) fs -> builds (collectObjects fs) (Forall (fun o => mTyped o = true)).
Proof.
  induction 1 as [|f fs Hf _ IH]; cbn [collectObjects]; [by apply builds_ret|].
  eapply builds_try; [exact Hf|]. intros o Ho. eapply builds_try; [exact IH|]. intros os Hos. apply builds_ret.
  destruct o; [by constructor|done].
Qed.

Lemma withVPA_typed vpa namespace objects :
  Forall (fun o => mTyped o = true) objects -> Forall (fun o => mTyped o = true) (withVPA vpa namespace objects).
Proof.
  intros Hall. unfold withVPA, BuildVPAFromObjects, BuildVPA. destruct vpa as [spec|]; [|done].
  destruct (negb _); [done|]. destruct (firstDeployment objects); [|done]. apply Forall_app. split; [done|]. by constructor.
Qed.

Lemma containerPort_complete m : portComplete m -> exists p, containerPort m = inr p.
Proof. intros (n & p & t & ->). by eexists. Qed.
Lemma servicePort_complete m : portComplete m -> exists p, servicePort m = inr p.
Proof. intros (n & p & t & ->). by eexists. Qed.
Lemma targetPort_complete m : portComplete m -> exists p, targetPort m = inr p.
Proof. intros (n & p & t & ->). by eexists. Qed.

Lemma finishDeployment_ok replicas args ports secret grace d :
  oneContainer d -> exists d', finishDeployment replicas args ports secret grace d = inr d'.
Proof. intros [c Hc]. unfold finishDeployment. rewrite Hc. by eexists. Qed.

End Builds.

(** Follows the complete port mapping [H] with the lemma [lem]. *)
Ltac port lem H :=
  let p := fresh "p" in let Hp := fresh "Hp" in destruct (lem _ H) as [p Hp]; rewrite ?Hp; cbn [mbind result_bind].

Section NodePoolBuilds.
Context {KC : KaiCommon} (krmConfig : KRMConfig) (global : GlobalConfig) (defaultName : string).
Context (Hglobal : krmGlobal (krmSpec krmConfig) = Some global) (Hname : gDefaultNodePoolName global = Some defaultName).
Context (config : NodePoolControllerSpec) (Hconfig : krmNodePoolController (krmSpec krmConfig) = Some config).
Context (Hcomplete : nodePoolControllerComplete config).
Import NodePoolController.

Lemma nodePool_args_ok : exists args, buildArgsList krmConfig = inr args.
Proof.
  destruct Hcomplete as ((sv & _ & _ & _ & _ & Hs & _) & (ports & Hports & Hm & _ & Hw) & (webhooks & secret & Hwh & _) & [args Hargs]).
  unfold buildArgsList. pointer Hconfig. pointer Hglobal. pointer Hports. port targetPort_complete Hm. pointer Hargs.
  pointer Hwh. pointer Hname. port targetPort_complete Hw. pointer Hs. destruct (webhookEnabled webhooks); by eexists.
Qed.

Lemma builds_nodePoolObjects baseName :
  builds (objectsForKRMConfig baseName krmConfig) (Forall (fun o => mTyped o = true)).
Proof.
  destruct nodePool_args_ok as [args Hargs].
  destruct Hcomplete as (Hservice & (ports & Hports & Hm & Hnm & Hw) & (webhooks & secret & Hwh & Hsecret) & _).
  assert (exists s, certSecret webhooks = inr s) as [s Hcert].
  { unfold certSecret. destruct (webhookEnabled webhooks); [|by eexists]. pointer Hsecret. by eexists. }
  assert (forall options, builds (buildServiceMonitor baseName krmConfig options) typedObject) as Hmonitor.
  { intros options. unfold buildServiceMonitor. rewrite Hglobal. cbn [deref try_bind prog_bind_].
    destruct (gServiceMonitor global) as [sm|]; [|by apply builds_ret]. destruct (negb _); [by apply builds_ret|].
    destruct Hm as (n & p & t & Hm). pointer Hconfig. pointer Hports. pointer Hm. cbn [pmName deref mbind result_bind try_bind prog_bind_].
    apply builds_monitor. }
  unfold objectsForKRMConfig. eapply builds_try; [apply builds_collect|intros os Hos; rewrite Hconfig; cbn [deref try_bind prog_bind_];
    apply builds_ret; by apply withVPA_typed].
  repeat (apply Forall_cons; split); [apply builds_serviceAccount| | |apply Hmonitor| |by apply Forall_nil].
  - unfold deploymentForKRMConfig. rewrite Hconfig. cbn [deref try_bind prog_bind_].
    eapply builds_try; [by eapply builds_deployment|]. intros d Hd. rewrite Hargs. pointer Hports. pointer Hwh.
    unfold containerPorts. port containerPort_complete Hm. port containerPort_complete Hw. rewrite Hcert. cbn [mbind result_bind].
    destruct (webhookEnabled webhooks); cbn [mbind result_bind];
      (edestruct finishDeployment_ok as [d' Hd']; [exact Hd|]; rewrite Hd'; cbn [mbind result_bind]; by apply builds_ret).
  - unfold serviceForKRMConfig. rewrite Hconfig. cbn [deref try_bind prog_bind_]. pointer Hports. pointer Hwh.
    unfold servicePorts. port servicePort_complete Hnm. port servicePort_complete Hm. port servicePort_complete Hw.
    destruct (webhookEnabled webhooks); cbn [try_bind prog_bind_];
      (eapply builds_try; [apply builds_service|]; intros svc _; pointer Hglobal; rewrite Hcert;
       destruct (default false (gOpenshift global)); cbn [mbind result_bind]; by apply builds_ret).
  - unfold accountingServiceMonitorForKRMConfig. rewrite Hglobal. cbn [deref try_bind prog_bind_].
    destruct (gServiceMonitor global); [|by apply builds_ret]. destruct (negb _); [by apply builds_ret|apply Hmonitor].
Qed.

End NodePoolBuilds.

(** The encoder of the config maps does not fail. *)
Definition encodes {Y : YamlLib} : Prop :=
  (forall b, exists s, marshalRoleBinding b = inr s) /\ (forall bs, exists s, marshalBlockers bs = inr s).

Section ProjectBuilds.
Context {KC : KaiCommon} {Y : YamlLib} (Hyaml : encodes).
Context (krmConfig : KRMConfig) (global : GlobalConfig) (defaultName : string).
Context (Hglobal : krmGlobal (krmSpec krmConfig) = Some global) (Hname : gDefaultNodePoolName global = Some defaultName).
Context (config : ProjectControllerSpec) (Hconfig : krmProjectController (krmSpec krmConfig) = Some config).
Context (Hcomplete : projectControllerComplete config).
Import ProjectController.

Lemma project_args_ok : exists args, buildArgsList krmConfig = inr args.
Proof.
  destruct Hcomplete as ((sv & _ & _ & _ & _ & Hs & _) & (ports & Hports & Hm & Hw) & (webhooks & secret & Hwh & _)
    & [features Hf] & (profiling & port & Hprof & Hport) & [args Hargs]).
  unfold buildArgsList. pointer Hconfig. pointer Hglobal. pointer Hports. port targetPort_complete Hm. pointer Hprof.
  pointer Hport. pointer Hname. pointer Hwh. port targetPort_complete Hw. pointer Hargs. pointer Hf. pointer Hs.
  destruct (webhooksEnabled webhooks global); by eexists.
Qed.

Lemma addRoleBindings_ok namespace bindings data : exists data', addRoleBindings namespace bindings data = inr data'.
Proof.
  revert data. induction bindings as [|b bindings IH]; intros data; cbn [addRoleBindings]; [by eexists|].
  unfold addRoleBinding. destruct Hyaml as [Hrb _]. destruct (Hrb (roleBindingFor b namespace)) as [s ->]. apply IH.
Qed.

Lemma builds_configMap baseName name : builds (configMapForKRMConfig baseName krmConfig name) (fun _ => True).
Proof. eapply builds_try; [apply builds_object|]. intros [] Hk; try done. by apply builds_ret. Qed.

Lemma builds_roleBindingsConfigMap baseName : builds (roleBindingsConfigMapForKRMConfig baseName krmConfig) typedObject.
Proof.
  destruct Hcomplete as (_ & _ & _ & [features Hf] & _). unfold roleBindingsConfigMapForKRMConfig. rewrite Hconfig.
  cbn [deref try_bind prog_bind_]. eapply builds_try; [apply builds_configMap|]. intros cm _. pointer Hf.
  unfold roleBindingsData. cbv zeta.
  match goal with |- context [addRoleBindings ?n ?b ∅] => destruct (addRoleBindings_ok n b ∅) as [d1 ->] end. cbn [mbind result_bind].
  match goal with |- context [addRoleBindings ?n ?b ?d] => destruct (addRoleBindings_ok n b d) as [d2 ->] end. cbn [mbind result_bind].
  by apply builds_ret.
Qed.

Lemma builds_deleteBlockersConfigMap baseName : builds (deleteBlockersConfigMapForKRMConfig baseName krmConfig) typedObject.
Proof.
  unfold deleteBlockersConfigMapForKRMConfig. eapply builds_try; [apply builds_configMap|]. intros cm _. pointer Hconfig.
  destruct Hyaml as [_ Hb]. destruct (Hb (pcDeleteBlockers config)) as [s ->]. by apply builds_ret.
Qed.

Lemma builds_projectObjects baseName :
  builds (objectsForKRMConfig baseName krmConfig) (Forall (fun o => mTyped o = true)).
Proof.
  destruct project_args_ok as [args Hargs].
  destruct Hcomplete as (Hservice & (ports & Hports & Hm & Hw) & (webhooks & secret & Hwh & Hsecret) & _).
  assert (exists s, certSecret webhooks global = inr s) as [s Hcert].
  { unfold certSecret. destruct (webhooksEnabled webhooks global); [|by eexists]. pointer Hsecret. by eexists. }
  unfold objectsForKRMConfig. eapply builds_try; [apply builds_collect|intros os Hos; rewrite Hconfig; cbn [deref try_bind prog_bind_];
    apply builds_ret; by apply withVPA_typed].
  repeat (apply Forall_cons; split);
    [apply builds_serviceAccount|apply builds_roleBindingsConfigMap|apply builds_deleteBlockersConfigMap| | | |by apply Forall_nil].
  - unfold deploymentForKRMConfig. rewrite Hconfig. cbn [deref try_bind prog_bind_].
    eapply builds_try; [by eapply builds_deployment|]. intros d Hd. rewrite Hargs. pointer Hglobal. pointer Hports. pointer Hwh.
    unfold containerPorts. port containerPort_complete Hm. port containerPort_complete Hw. rewrite Hcert. cbn [mbind result_bind].
    destruct (webhooksEnabled webhooks global); cbn [mbind result_bind];
      (edestruct finishDeployment_ok as [d' Hd']; [exact Hd|]; rewrite Hd'; cbn [mbind result_bind]; by apply builds_ret).
  - unfold serviceForKRMConfig. rewrite Hconfig. cbn [deref try_bind prog_bind_]. pointer Hports. pointer Hwh. pointer Hglobal.
    unfold servicePorts. port servicePort_complete Hm. port servicePort_complete Hw.
    destruct (webhooksEnabled webhooks global); cbn [try_bind prog_bind_];
      (eapply builds_try; [apply builds_service|]; intros svc _; rewrite Hcert;
       destruct (default false (gOpenshift global)); cbn [mbind result_bind]; by apply builds_ret).
  - unfold serviceMonitorForKRMConfig. rewrite Hglobal. cbn [deref try_bind prog_bind_].
    destruct (gServiceMonitor global) as [sm|]; [|by apply builds_ret]. destruct (negb _); [by apply builds_ret|].
    destruct Hm as (n & p & t & Hm). pointer Hconfig. pointer Hports. pointer Hm. cbn [pmName deref mbind result_bind try_bind prog_bind_].
    apply builds_monitor.
Qed.

End ProjectBuilds.

Section AssignerBuilds.
Context {KC : KaiCommon} (krmConfig : KRMConfig) (global : GlobalConfig).
Context (Hglobal : krmGlobal (krmSpec krmConfig) = Some global).
Context (config : PodGroupAssignerSpec) (Hconfig : krmPodGroupAssigner (krmSpec krmConfig) = Some config).
Context (Hcomplete : podGroupAssignerComplete config).
Import PodGroupAssigner.

Lemma assigner_args_ok : exists args, buildArgsList krmConfig = inr args.
Proof.
  destruct Hcomplete as ((sv & _ & _ & _ & _ & Hs & _) & (ports & Hports & Hw) & (webhooks & secret & Hwh & _) & [args Hargs]).
  unfold buildArgsList. pointer Hconfig. pointer Hglobal. pointer Hports. port targetPort_complete Hw. pointer Hwh.
  pointer Hargs. pointer Hs. by eexists.
Qed.

Lemma builds_assignerObjects baseName :
  builds (objectsForKRMConfig baseName krmConfig) (Forall (fun o => mTyped o = true)).
Proof.
  destruct assigner_args_ok as [args Hargs].
  destruct Hcomplete as (Hservice & (ports & Hports & Hw) & (webhooks & secret & Hwh & Hsecret) & _).
  unfold objectsForKRMConfig. eapply builds_try; [apply builds_collect|intros os Hos; rewrite Hconfig; cbn [deref try_bind prog_bind_];
    apply builds_ret; by apply withVPA_typed].
  repeat (apply Forall_cons; split); [apply builds_serviceAccount| | |by apply Forall_nil].
  - unfold deploymentForKRMConfig. rewrite Hconfig. cbn [deref try_bind prog_bind_].
    eapply builds_try; [by eapply builds_deployment|]. intros d Hd. rewrite Hargs. pointer Hports.
    port containerPort_complete Hw. pointer Hwh. pointer Hsecret.
    edestruct finishDeployment_ok as [d' Hd']; [exact Hd|]. rewrite Hd'. cbn [mbind result_bind]. by apply builds_ret.
  - unfold serviceForKRMConfig. pointer Hconfig. pointer Hports. port servicePort_complete Hw. cbn [try_bind prog_bind_].
    eapply builds_try; [apply builds_service|]. intros svc _. pointer Hglobal. pointer Hwh. pointer Hsecret.
    destruct (default false (gOpenshift global)); cbn [mbind result_bind]; by apply builds_ret.
Qed.

End AssignerBuilds.

(** ** Whatever the configuration leaves out, the objects can be built *)

Section Total.
Context {KC : KaiCommon} {KL : KaiCommonLaws KC} {Y : YamlLib}.
Context (getSetsTypeMeta : bool) (errorText : error -> string).

Definition statesObjects (r : OperandState * result (list Managed)) : Prop :=
  exists os, r.2 = inr os /\ Forall (fun o => mTyped o = true) os.

Lemma builds_serviceOperand name defaultName enabled objectsFor requirements st krmConfig b :
  enabled krmConfig = inr b ->
  (forall baseName, builds (objectsFor baseName krmConfig) (Forall (fun o => mTyped o = true))) ->
  wp (C := KubeCall) (fun _ _ => True) (fun _ c x => answers c x)
    (DesiredState (serviceOperand getSetsTypeMeta errorText name defaultName enabled objectsFor requirements) st krmConfig) statesObjects.
Proof.
  intros Hb Hobjects. cbn [DesiredState serviceOperand]. rewrite Hb. destruct b.
  - apply wp_bind. eapply wp_mono; [|apply Hobjects]. intros r (os & -> & Hos). by exists os.
  - by exists [].
Qed.

Lemma builds_DesiredState op st krmConfig :
  encodes -> configComplete (krmSpec krmConfig) -> op ∈ services getSetsTypeMeta errorText ->
  wp (C := KubeCall) (fun _ _ => True) (fun _ c x => answers c x) (DesiredState op st krmConfig) statesObjects.
Proof.
  intros Hyaml (_ & (global & name & Hg & Hname) & (nc & Hnc & Hncc) & (pc & Hpc & Hpcc) & (ga & Hga & Hgac)).
  unfold services. rewrite !elem_of_cons, elem_of_nil. intros [->|[->|[->|[]]]].
  - pose proof Hncc as [(sv & enabled & _ & _ & _ & Hs & He & _) _].
    eapply builds_serviceOperand; [|intros; by eapply builds_nodePoolObjects].
    unfold NodePoolController.serviceEnabled. pointer Hnc. pointer Hs. by pointer He.
  - pose proof Hpcc as [(sv & enabled & _ & _ & _ & Hs & He & _) _].
    eapply builds_serviceOperand; [|intros; by eapply builds_projectObjects].
    unfold ProjectController.serviceEnabled. pointer Hpc. pointer Hs. by pointer He.
  - pose proof Hgac as [(sv & enabled & _ & _ & _ & Hs & He & _) _].
    eapply builds_serviceOperand; [|intros; by eapply builds_assignerObjects].
    unfold PodGroupAssigner.serviceEnabled. pointer Hga. pointer Hs. by pointer He.
Qed.

Lemma addDesired_ok operand objects m :
  Forall (fun o => mTyped o = true) objects -> exists m', addDesired operand objects m = inr m'.
Proof.
  intros Hall. revert m. induction Hall as [|o objects Ho _ IH]; intros m; cbn [addDesired]; [by eexists|]. rewrite Ho. apply IH.
Qed.

Lemma builds_getDesiredState operands krmConfig m :
  encodes -> configComplete (krmSpec krmConfig) ->
  Forall (fun op => op.1 ∈ services getSetsTypeMeta errorText) operands ->
  wp (C := KubeCall) (fun _ _ => True) (fun _ c x => answers c x) (getDesiredState operands krmConfig m)
    (fun r => exists desired, r.2 = inr desired).
Proof.
  intros Hyaml Hc Hall. revert m. induction Hall as [|[op st] operands Hop _ IH]; intros m; cbn [getDesiredState]; [by eexists|].
  apply wp_bind. eapply wp_mono; [|by apply builds_DesiredState]. intros [st' r] (os & Hr & Hos). cbn [snd] in Hr. subst r.
  destruct (addDesired_ok (operandName op) os m Hos) as [m' ->]. apply wp_bind. eapply wp_mono; [|apply IH].
  intros r (desired & Hd). by exists desired.
Qed.

(** C31: No configuration can keep the operator from building its objects: once
    the defaults are filled in (into whatever the user left out, the whole spec
    included), every pointer that the builders follow is set, so the wanted state
    is computed, without an error or a nil dereference, whenever the API server
    answers the reads (with the object, or that it does not exist) and the
    encoder of the config maps does not fail; every object carries its kind. *)
Theorem defaulted_config_always_builds podNamespace spec operands krmConfig tr operands' r :
  encodes ->
  Forall (fun op => op.1 ∈ services getSetsTypeMeta errorText) operands ->
  krmSpec krmConfig = SetDefaultsWhereNeeded podNamespace spec ->
  exec (getDesiredState operands krmConfig ∅) tr (operands', r) ->
  Forall (fun e => answers (ev_call e) (ev_reply e)) tr ->
  exists desired, r = inr desired /\ krmNamespace (krmSpec krmConfig) <> "".
Proof.
  intros Hyaml Hops Hspec Hex Hans. assert (configComplete (krmSpec krmConfig)) as Hc by (rewrite Hspec; apply SetDefaults_complete).
  destruct (wp_exec _ _ _ _ _ _ (builds_getDesiredState _ _ ∅ Hyaml Hc Hops) Hex Hans) as [_ (desired & Hd)].
  exists desired. split; [exact Hd|apply Hc].
Qed.

End Total.

(** ** What the conditions say *)

Definition kindOf (object : Object) : Kind :=
  match object with
  | ODeployment _ => KDeployment | OServiceAccount _ => KServiceAccount | OService _ => KService
  | OConfigMap _ => KConfigMap | OServiceMonitor _ => KServiceMonitor | OVPA _ => KVerticalPodAutoscaler
  end.

(** A read of the execution answered with this object, under the key and kind
    of the first one. *)
Definition readAs_in (tr : list (event KubeCall)) (like live : Object) : Prop :=
  exists o : obj (kindOf like), asObject (kindOf like) o = Some live
    /\ Event (Get (kindOf like) (objectKey like)) (inr o) ∈ tr.

(** The deployment runs: all replicas are updated and it reports to be available. *)
Definition running (object : Object) : Prop :=
  match object with
  | ODeployment d => deplReplicas d = Some (UpdatedReplicas d) /\ ("Available", "True") ∈ deplConditions d
  | _ => True
  end.

(** The server answers a read with the object under the key. *)
Definition keyedReply (e : event KubeCall) : Prop :=
  match e with
  | Event (Get K key) r => match r with inr o => objKey o = key | inl _ => True end
  | _ => True
  end.

Lemma readObject_in like tr live :
  exec (readObject like (objectKey like)) tr (inr live) -> readAs_in tr like live /\ kindName live = kindName like.
Proof.
  destruct like; intros (x & t & -> & [-> Hr]); destruct x as [|o']; try done; injection Hr as ->;
    (split; [|done]); exists o'; (split; [done|]); left.
Qed.

Lemma readAs_in_mono tr tr' like live : tr ⊆ tr' -> readAs_in tr like live -> readAs_in tr' like live.
Proof. intros Hsub (o & ? & ?). exists o. auto. Qed.

Lemma readAs_in_key tr like live :
  Forall keyedReply tr -> readAs_in tr like live -> objectKey live = objectKey like /\ kindOf live = kindOf like.
Proof.
  intros Hall (o & Ho & Hin). rewrite Forall_forall in Hall. specialize (Hall _ Hin).
  destruct like; injection Ho as <-; done.
Qed.

Lemma isControllerAvailable_running object : isControllerAvailable object "Deployment" = inr true -> running object.
Proof.
  unfold isControllerAvailable. rewrite bool_decide_true by done. cbn [negb]. destruct object as [d| | | | |]; try done.
  destruct (deplReplicas d) as [n|] eqn:Hn; [|done]. cbn [running]. rewrite Hn.
  destruct (decide (UpdatedReplicas d = n)) as [He|He]; [|by rewrite (bool_decide_false _ He)].
  rewrite (bool_decide_true _ He). cbn [negb]. intros [= Hex]. split; [by rewrite He|].
  apply existsb_exists in Hex as ([t s] & Hin & [Ht%bool_decide_eq_true Hs%bool_decide_eq_true]%andb_prop).
  cbn [fst snd] in *. subst. by apply list_elem_of_In.
Qed.

Section Status.
Context (getSetsTypeMeta : bool) (errorText : error -> string).

Lemma AllObjectsExists_true objects tr objects' :
  exec (AllObjectsExists getSetsTypeMeta objects) tr (objects', inr true) ->
  Forall2 (fun o o' => readAs_in tr (mObject o) (mObject o') /\ mTyped o' = getSetsTypeMeta) objects objects'.
Proof.
  revert tr objects'. induction objects as [|o objects IH]; intros tr objects'; cbn [AllObjectsExists].
  - intros [-> [= ->]]. constructor.
  - intros (tr1 & tr2 & [e|live] & -> & Hread & Hex)%exec_bind_inv.
    { destruct Hex as [_ [= _ Hr]]. by destruct (IsNotFound e). }
    apply exec_bind_inv in Hex as (tr3 & tr4 & [later r] & -> & Hex & [-> [= -> <-]]). rewrite app_nil_r.
    apply readObject_in in Hread as [Hread _]. constructor.
    + cbn [mObject mTyped]. split; [|done]. eapply readAs_in_mono; [|exact Hread]. set_solver.
    + eapply Forall2_impl; [by apply IH|]. cbn beta. intros x y [Hxy ?]. split; [|done]. eapply readAs_in_mono; [|exact Hxy]. set_solver.
Qed.

Lemma checkControllers_nil objects tr objects' :
  exec (checkControllers getSetsTypeMeta errorText objects) tr (objects', []) ->
  Forall (fun o => exists live, readAs_in tr (mObject o) live /\ (mTyped o = true -> running live)) objects.
Proof.
  revert tr objects'. induction objects as [|o objects IH]; intros tr objects'; cbn [checkControllers]; [by intros; constructor|].
  cbv zeta. intros (tr1 & tr2 & r & -> & Hread & Hex)%exec_bind_inv.
  apply exec_bind_inv in Hex as (tr3 & tr4 & [later msgs] & -> & Hex & Hret).
  destruct r as [e|live]; [by destruct Hret|]. destruct Hret as [-> Hret]. rewrite app_nil_r.
  injection Hret as _ Hmsgs. symmetry in Hmsgs. apply app_eq_nil in Hmsgs as [Hmsg Hmsgs]. cbn [snd] in Hmsgs. subst msgs.
  apply readObject_in in Hread as [Hread Hkind]. constructor.
  - exists live. split; [eapply readAs_in_mono; [|exact Hread]; set_solver|]. intros Ht. rewrite Ht in Hmsg.
    destruct live as [d| | | | |] eqn:Hlive; try done. cbn [kindName] in Hkind. rewrite <- Hkind in Hmsg.
    rewrite bool_decide_true in Hmsg by left.
    destruct (isControllerAvailable (ODeployment d) "Deployment") as [|[]] eqn:Hav; [done| |done].
    by apply isControllerAvailable_running.
  - eapply Forall_impl; [by eapply IH|]. cbn beta. intros x (l & Hl & ?). exists l. split; [|done].
    eapply readAs_in_mono; [|exact Hl]. set_solver.
Qed.

(** A deployment whose kind a read has stripped is not checked: when every object
    can be read, nothing is reported. *)
Lemma stripped_kind_not_checked objects tr objects' messages :
  Forall (fun o => mTyped o = false) objects ->
  exec (checkControllers getSetsTypeMeta errorText objects) tr (objects', messages) ->
  Forall (fun e : event KubeCall => match e with Event (Get K key) r => isOk r = true | _ => True end) tr -> messages = [].
Proof.
  intros Hall. revert tr objects' messages. induction Hall as [|o objects Ho _ IH]; intros tr objects' messages; cbn [checkControllers].
  - by intros [_ [= _ ->]].
  - cbv zeta. rewrite Ho. intros (tr1 & tr2 & r & -> & Hread & Hex)%exec_bind_inv Hok.
    apply exec_bind_inv in Hex as (tr3 & tr4 & [later msgs] & -> & Hex & Hret). apply Forall_app in Hok as [Hok1 [Hok2 _]%Forall_app].
    destruct r as [e|live].
    { exfalso. destruct (mObject o); destruct Hread as (x & t & -> & [-> Hr]); destruct x; try done; by apply Forall_cons in Hok1 as [[=] _]. }
    destruct Hret as [-> [= -> ->]]. by eapply IH.
Qed.

(** The answers of the operands, when all of them are positive. *)
Lemma aggregate_met desc check operands tr operands' :
  exec (aggregate desc check operands) tr (operands', (true, inr tt)) ->
  Forall2 (fun o o' => o'.1 = o.1 /\ exists t, t ⊆ tr /\ exec (check o.1 o.2) t (o'.2, inr true)) operands operands'.
Proof.
  intros (tr1 & tr2 & [ops [met errs]] & -> & Hex & [-> [= -> <- Hj]])%exec_bind_inv. rewrite app_nil_r.
  symmetry in Hj. apply joinErrors_ok in Hj. revert tr1 ops errs Hex Hj.
  induction operands as [|[op st] operands IH]; intros tr ops errs; cbn [aggregateErrors].
  - intros [-> [= -> ->]] _. constructor.
  - intros (tr3 & tr4 & [st' r] & -> & Hc & Hex)%exec_bind_inv Hj.
    apply exec_bind_inv in Hex as (tr5 & tr6 & [ops' [met' errs']] & -> & Hex & [-> Hr]). rewrite app_nil_r.
    injection Hr as -> Hr. cbn [snd fst] in Hr. destruct r as [e|[]].
    + injection Hr as <- ->. by apply Forall_cons in Hj as [[=] _].
    + injection Hr as <- ->. constructor.
      * split; [done|]. exists tr3. cbn [fst snd]. split; [set_solver|done].
      * eapply Forall2_impl; [by eapply IH|]. cbn beta. intros x y [? (t & ? & ?)]. split; [done|]. exists t. split; [set_solver|done].
    + by injection Hr as [=].
Qed.

(** *** The condition of readiness *)

Context {CN : ConditionNames} {V : VersionLib} {KN : KaiNames} (minimumSchedulerVersion : string).

Definition isCondition (conditionType : string) (generation : Z) (met : bool) (c : MetaCondition) : Prop :=
  mcType c = conditionType /\ mcObservedGeneration c = generation /\ mcStatus c = if met then "True" else "False".

Lemma newCondition_exec conditionType met reason message generation tr c :
  exec (newCondition conditionType met reason message generation) tr c ->
  isCondition conditionType generation met c /\ mcMessage c = message.
Proof. intros (now & t & -> & [-> ->]). done. Qed.

Lemma answerCondition_exec conditionType r1 r2 m1 m2 generation answer tr c :
  exec (answerCondition errorText conditionType r1 r2 m1 m2 generation answer) tr c ->
  isCondition conditionType generation (answer.1 && isOk answer.2) c.
Proof.
  unfold answerCondition. destruct answer as [[] [e|[]]]; cbn [fst snd andb isOk]; by intros [? _]%newCondition_exec.
Qed.

Fixpoint firstUnmet (conditions : list MetaCondition) : option MetaCondition :=
  match conditions with
  | [] => None
  | c :: rest => if mcStatus c !=? "True" then Some c else firstUnmet rest
  end.

Lemma readyCondition_exec generation conditions tr c :
  exec (readyCondition generation conditions) tr c ->
  isCondition TypeReady generation (bool_decide (firstUnmet conditions = None)) c
  /\ mcMessage c = match firstUnmet conditions with Some unmet => mcMessage unmet | None => "System is ready" end.
Proof.
  induction conditions as [|c0 conditions IH]; cbn [readyCondition firstUnmet]; [apply newCondition_exec|].
  destruct (_ !=? _); [|done]. rewrite bool_decide_false by done. apply newCondition_exec.
Qed.

(** The parts of the reported status. *)
Lemma statusConditions_inv operands krmConfig tr operands' conditions :
  exec (statusConditions errorText minimumSchedulerVersion operands krmConfig) tr (operands', conditions) ->
  exists tr1 tr2 tr3 tr4 operands1 deployed available fulfilled ready reconciling,
    tr = tr1 ++ tr2 ++ tr3 ++ tr4
    /\ conditions = [deployed; available; fulfilled; ready; reconciling]
    /\ exec (getDeployedCondition errorText operands (Generation (krmMeta krmConfig))) tr1 (operands1, deployed)
    /\ exec (getAvailableCondition errorText operands1 (Generation (krmMeta krmConfig))) tr2 (operands', available)
    /\ exec (getDependenciesFulfilledCondition errorText minimumSchedulerVersion operands' krmConfig) tr3 fulfilled
    /\ isCondition TypeReady (Generation (krmMeta krmConfig)) (bool_decide (firstUnmet [deployed; available; fulfilled] = None)) ready
    /\ mcMessage ready = match firstUnmet [deployed; available; fulfilled] with
                         | Some unmet => mcMessage unmet | None => "System is ready" end
    /\ isCondition TypeReconciling (Generation (krmMeta krmConfig)) false reconciling.
Proof.
  unfold statusConditions. cbv zeta. intros (tr1 & t1 & [ops1 d] & -> & Hd & Hex)%exec_bind_inv.
  apply exec_bind_inv in Hex as (tr2 & t2 & [ops2 a] & -> & Ha & Hex).
  apply exec_bind_inv in Hex as (tr3 & t3 & f & -> & Hf & Hex).
  apply exec_bind_inv in Hex as (tr4 & t4 & r & -> & Hr & Hex).
  apply exec_bind_inv in Hex as (tr5 & t5 & g & -> & Hg & [-> [= -> ->]]). rewrite app_nil_r. cbn [fst snd] in *.
  apply readyCondition_exec in Hr as [Hr Hmsg]. apply newCondition_exec in Hg as [Hg _].
  exists tr1, tr2, tr3, (tr4 ++ tr5), ops1, d, a, f, r, g. auto 10.
Qed.

Lemma firstUnmet_None d a f :
  firstUnmet [d; a; f] = None <-> mcStatus d = "True" /\ mcStatus a = "True" /\ mcStatus f = "True".
Proof.
  cbn [firstUnmet]. destruct (decide (mcStatus d = "True")) as [Hd|Hd], (decide (mcStatus a = "True")) as [Ha|Ha],
    (decide (mcStatus f = "True")) as [Hf|Hf]; rewrite ?(bool_decide_true _ Hd), ?(bool_decide_true _ Ha), ?(bool_decide_true _ Hf),
    ?(bool_decide_false _ Hd), ?(bool_decide_false _ Ha), ?(bool_decide_false _ Hf); naive_solver.
Qed.

Lemma isCondition_true t g met c : isCondition t g met c -> mcStatus c = "True" -> met = true.
Proof. intros (_ & _ & ->). by destruct met. Qed.

(** *** The condition of the dependencies *)

Lemma concat_empty sep ss x : String.concat sep ss = "" -> x ∈ ss -> x = "".
Proof.
  rewrite list_elem_of_In. induction ss as [|s ss IH]; [done|]. rewrite concat_separator. intros Heq [->|Hin].
  - apply (f_equal String.length) in Heq. rewrite length_append in Heq. by destruct x.
  - destruct s; [|done]. cbn [String.append] in Heq. apply IH; [|done]. destruct ss as [|t ss]; [done|].
    rewrite fmap_cons, concat_empty_cons in Heq. apply (f_equal String.length) in Heq. rewrite !length_append in Heq.
    rewrite concat_separator. cbn in Heq.
    destruct t; [|cbn in Heq; lia]. destruct (String.concat "" _) eqn:Hc; [|cbn in Heq; lia]. done.
Qed.

Lemma missing_none operands krmConfig tr ms errs :
  exec (missingDependencies operands krmConfig) tr (ms, errs) -> Forall (fun r => r = inr tt) errs -> (forall m, m ∈ ms -> m = "") ->
  Forall (fun o => exists t, t ⊆ tr /\ exec (HasMissingDependencies o.1 krmConfig) t (inr "")) operands.
Proof.
  revert tr ms errs. induction operands as [|[op st] operands IH]; intros tr ms errs; [by constructor|]. cbn [missingDependencies].
  intros (tr1 & tr2 & r & -> & Hm & Hex)%exec_bind_inv. apply exec_bind_inv in Hex as (tr3 & tr4 & [ms' errs'] & -> & Hex & [-> Hr]).
  rewrite app_nil_r. intros Herrs Hms. cbn [fst snd] in Hr. destruct r as [e|message].
  { injection Hr as -> ->. by apply Forall_cons in Herrs as [[=] _]. }
  assert (message = "" /\ ms = ms' /\ errs = errs') as (-> & -> & ->).
  { destruct (decide (message = "")) as [He|He].
    - rewrite (bool_decide_true _ He) in Hr. by injection Hr as -> ->.
    - rewrite (bool_decide_false _ He) in Hr. cbn [negb] in Hr. injection Hr as -> ->. exfalso.
      pose proof (Hms _ (list_elem_of_here _ _)) as Hsp. apply (f_equal String.length) in Hsp. revert Hsp.
      change (sprintf "%s is missing %s" [operandName op; message]) with (operandName op +:+ (" is missing " +:+ (message +:+ ""))).
      rewrite !length_append. cbn. lia. }
  constructor.
  - exists tr1. split; [set_solver|done].
  - eapply Forall_impl; [by eapply IH|]. cbn beta. intros x (t & ? & ?). exists t. split; [set_solver|done].
Qed.

Context (HerrorText : forall e, errorText e <> "").

Lemma fulfilled_truth operands krmConfig tr c :
  exec (getDependenciesFulfilledCondition errorText minimumSchedulerVersion operands krmConfig) tr c -> mcStatus c = "True" ->
  Forall (fun o => exists t, t ⊆ tr /\ exec (HasMissingDependencies o.1 krmConfig) t (inr "")) operands
  /\ exists t, t ⊆ tr /\ exec (KAISchedulerCheck minimumSchedulerVersion) t (inr "").
Proof.
  intros (tr1 & tr2 & unmet & -> & Hun & Hc)%exec_bind_inv Hs.
  assert (unmet = "") as ->.
  { destruct unmet; [done|]. cbn [String.length Nat.ltb Nat.leb] in Hc. apply newCondition_exec in Hc as [Hc _]. by apply isCondition_true in Hc. }
  apply exec_bind_inv in Hun as (t1 & t2 & [m1 e1] & -> & H1 & Hun).
  apply exec_bind_inv in Hun as (t3 & t4 & [m2 e2] & -> & H2 & [-> Hcat]). cbn [fst snd] in Hcat. symmetry in Hcat.
  pose proof (fun x => concat_empty _ _ x Hcat) as Hall. destruct (joinErrors [e1; e2]) as [err|[]] eqn:Hj.
  { exfalso. apply (HerrorText err), Hall. left. }
  apply joinErrors_ok in Hj. apply Forall_cons in Hj as [-> [-> _]%Forall_cons].
  assert (m1 = "" /\ m2 = "") as [-> ->].
  { split; [destruct (decide (m1 = "")) as [|Hne]|destruct (decide (m2 = "")) as [|Hne]]; try done; apply Hall, list_elem_of_filter;
      (split; [done|]); [left|right; left]. }
  rewrite app_nil_r. split.
  - apply exec_bind_inv in H1 as (t5 & t6 & [ms errs] & -> & H1 & [-> [= Hms Herrs]]). symmetry in Herrs. apply joinErrors_ok in Herrs.
    eapply Forall_impl; [eapply missing_none; [exact H1|exact Herrs|]|].
    + intros m. by apply (concat_empty "; ").
    + cbn beta. intros x (t & ? & ?). exists t. split; [set_solver|done].
  - apply exec_bind_inv in H2 as (t5 & t6 & [e|message] & -> & H2 & [-> Hr]); [done|]. injection Hr as Hm.
    exists t5. split; [set_solver|]. destruct (decide (message = "")) as [->|Hne]; [done|].
    rewrite (bool_decide_false _ Hne) in Hm. cbn in Hm. by rewrite <- Hm in H2.
Qed.

End Status.

Section Ready.
Context {KC : KaiCommon} {Y : YamlLib} {CN : ConditionNames} {V : VersionLib} {KN : KaiNames}.
Context (getSetsTypeMeta : bool) (errorText : error -> string) (HerrorText : forall e, errorText e <> "").
Context (minimumSchedulerVersion : string).
Context (rangeOrder : forall A, gmap string A -> list (string * A)).
Context (kaiGroupVersion : string) (monitorsAvailable vpasAvailable : bool).
Notation ours := (services getSetsTypeMeta errorText).

Lemma IsDeployed_service op st t st' :
  op ∈ ours -> exec (IsDeployed op st) t (st', inr true) ->
  Forall2 (fun o o' => readAs_in t (mObject o) (mObject o') /\ mTyped o' = getSetsTypeMeta) (lastDesiredState st) (lastDesiredState st').
Proof.
  unfold services. rewrite !elem_of_cons, elem_of_nil.
  intros [->|[->|[->|[]]]] (t1 & t2 & [os r] & -> & Hex & [-> [= -> <-]])%exec_bind_inv; rewrite app_nil_r;
    by eapply AllObjectsExists_true.
Qed.

Lemma IsAvailable_service op st t st' :
  op ∈ ours -> exec (IsAvailable op st) t (st', inr true) ->
  Forall (fun o => exists live, readAs_in t (mObject o) live /\ (mTyped o = true -> running live)) (lastDesiredState st).
Proof.
  unfold services. rewrite !elem_of_cons, elem_of_nil.
  intros [->|[->|[->|[]]]] (t1 & t2 & [os r] & -> & Hex & [-> [= -> <-]])%exec_bind_inv; rewrite app_nil_r;
    apply exec_bind_inv in Hex as (t3 & t4 & [os' [|m ms]] & -> & Hex & [-> [= Hr]]); try done; rewrite app_nil_r;
    by eapply checkControllers_nil.
Qed.

Lemma answer_met conditionType r1 r2 m1 m2 generation check desc operands tr operands' c :
  exec (r <- aggregate desc check operands ;;
        condition <- answerCondition errorText conditionType r1 r2 m1 m2 generation r.2 ;; Ret (r.1, condition)) tr (operands', c) ->
  isCondition conditionType generation (bool_decide (mcStatus c = "True")) c
  /\ (mcStatus c = "True" -> exists t, t ⊆ tr /\ exec (aggregate desc check operands) t (operands', (true, inr tt))).
Proof.
  intros (t1 & t2 & [ops answer] & -> & Hag & Hex)%exec_bind_inv.
  apply exec_bind_inv in Hex as (t3 & t4 & c' & -> & Hans & [-> [= -> ->]]). apply answerCondition_exec in Hans. cbn [fst snd] in *.
  destruct Hans as (Ht & Hg & Hs). split.
  - repeat split; [done|done|]. rewrite Hs. by destruct (_ && _).
  - rewrite Hs. destruct answer as [[] [e|[]]]; cbn [fst snd andb isOk] in *; try done. intros _. exists t1. split; [set_solver|done].
Qed.

Lemma readAs_in_same tr like like' live :
  objectKey like' = objectKey like -> kindOf like' = kindOf like -> readAs_in tr like' live -> readAs_in tr like live.
Proof. unfold readAs_in. intros Hkey Hkind. rewrite <- Hkey, <- Hkind. done. Qed.

(** Deployed and available: every object was read, and every deployment runs. *)
Lemma objects_running operands operands1 operands2 tr td ta :
  Forall (fun op => op.1 ∈ ours) operands -> Forall keyedReply tr ->
  td ⊆ tr ->
  Forall2 (fun o o' => o'.1 = o.1 /\ exists t, t ⊆ td /\ exec (IsDeployed o.1 o.2) t (o'.2, inr true)) operands operands1 ->
  ta ⊆ tr ->
  Forall2 (fun o o' => o'.1 = o.1 /\ exists t, t ⊆ ta /\ exec (IsAvailable o.1 o.2) t (o'.2, inr true)) operands1 operands2 ->
  forall op st o, (op, st) ∈ operands -> o ∈ lastDesiredState st ->
    exists live, readAs_in tr (mObject o) live /\ (getSetsTypeMeta = true -> running live).
Proof.
  intros Hops Hkeyed Htd Hdep Hta Hav op st o Hin Ho.
  assert (op ∈ ours) as Hop by (rewrite Forall_forall in Hops; exact (Hops _ Hin)).
  apply list_elem_of_lookup in Hin as [i Hi]. destruct (Forall2_lookup_l _ _ _ _ _ Hdep Hi) as ([op1 st1] & Hi1 & Hop1 & t1 & Ht1 & Hex1).
  destruct (Forall2_lookup_l _ _ _ _ _ Hav Hi1) as ([op2 st2] & _ & _ & t2 & Ht2 & Hex2). cbn [fst snd] in *. subst op1.
  apply (IsDeployed_service _ _ _ _ Hop) in Hex1. apply (IsAvailable_service _ _ _ _ Hop) in Hex2.
  apply list_elem_of_lookup in Ho as [j Hj]. destruct (Forall2_lookup_l _ _ _ _ _ Hex1 Hj) as (o1 & Hj1 & Hread1 & Htyped).
  rewrite Forall_lookup in Hex2. destruct (Hex2 _ _ Hj1) as (live & Hread2 & Hrun). exists live. split; [|intros ->; by apply Hrun].
  apply (readAs_in_mono _ tr) in Hread1; [|set_solver]. apply (readAs_in_mono _ tr) in Hread2; [|set_solver].
  destruct (readAs_in_key _ _ _ Hkeyed Hread1) as [Hkey Hkind]. by eapply readAs_in_same.
Qed.

(** What a service asked for is what it remembers. *)
Lemma DesiredState_remembered op st krmConfig tr st' objects :
  op ∈ ours -> exec (DesiredState op st krmConfig) tr (st', inr objects) -> lastDesiredState st' = objects.
Proof.
  unfold services. rewrite !elem_of_cons, elem_of_nil.
  intros [->|[->|[->|[]]]]; cbn [DesiredState nodePoolControllerOperand projectControllerOperand podGroupAssignerOperand serviceOperand];
    (destruct (_ : result bool) as [|[]]; [by intros [_ ?]| |by intros [_ [= -> ->]]]);
    (intros (t1 & t2 & [e|os] & _ & _ & [_ Hr])%exec_bind_inv; [done|]; by injection Hr as -> ->).
Qed.

Lemma getDesiredState_asked operands krmConfig m tr operands' m' :
  Forall (fun op => op.1 ∈ ours) operands ->
  exec (getDesiredState operands krmConfig m) tr (operands', inr m') ->
  Forall2 (fun o o' => o'.1 = o.1 /\ exists t, t ⊆ tr /\ exec (DesiredState o.1 o.2 krmConfig) t (o'.2, inr (lastDesiredState o'.2)))
    operands operands'.
Proof.
  intros Hops. revert m tr operands'. induction Hops as [|[op st] operands Hop _ IH]; intros m tr operands'; cbn [getDesiredState].
  - intros [_ [= -> _]]. constructor.
  - intros (tr1 & tr2 & [st' [e|objects]] & -> & Hd & Hex)%exec_bind_inv; [by destruct Hex|].
    destruct (addDesired _ _ _) as [e|m1]; [by destruct Hex|].
    apply exec_bind_inv in Hex as (tr3 & tr4 & [ops r] & -> & Hex & [-> [= -> Hr]]). rewrite app_nil_r. cbn [fst snd] in *. subst r.
    constructor.
    + split; [done|]. exists tr1. split; [set_solver|]. cbn [fst snd]. by rewrite (DesiredState_remembered _ _ _ _ _ _ Hop Hd).
    + eapply Forall2_impl; [by eapply IH|]. cbn beta. intros x y [? (t & ? & ?)]. split; [done|]. exists t. split; [set_solver|done].
Qed.

(** C15: After a deployment that succeeded, what the KRMConfig reports is true.
    The five conditions are reported in their order, for the generation that was
    reconciled; Ready is True exactly when Deployed, Available and
    DependenciesFulfilled are, and otherwise carries the message of the first of
    them that is not.  When Ready is True, then in this very run every object that
    a service asked for in the deployment was read from the cluster; if the reader
    fills the kind of an object that it reads, as the client of the manager does,
    every deployment among them had all its replicas updated and reported to be
    available; no definition that a service needs was missing; and the scheduler
    was found to be compatible.  (After a deployment that failed the conditions
    may be those of an earlier one: [failed_deployment_reported_ready].) *)
Theorem ready_means_running operands krmConfig trD operands1 tr operands' conditions :
  Forall (fun op => op.1 ∈ ours) operands ->
  exec (Deploy rangeOrder kaiGroupVersion monitorsAvailable vpasAvailable operands krmConfig) trD (operands1, inr tt) ->
  Forall keyedReply tr ->
  exec (statusConditions errorText minimumSchedulerVersion operands1 krmConfig) tr (operands', conditions) ->
  exists deployed available fulfilled ready reconciling,
    conditions = [deployed; available; fulfilled; ready; reconciling]
    /\ mcType <$> conditions = [TypeDeployed; TypeAvailable; TypeDependenciesFulfilled; TypeReady; TypeReconciling]
    /\ Forall (fun c => mcObservedGeneration c = Generation (krmMeta krmConfig)) conditions
    /\ mcStatus reconciling = "False"
    /\ (mcStatus ready = "True" <-> mcStatus deployed = "True" /\ mcStatus available = "True" /\ mcStatus fulfilled = "True")
    /\ (mcStatus ready <> "True" -> exists unmet, firstUnmet [deployed; available; fulfilled] = Some unmet /\ mcMessage ready = mcMessage unmet)
    /\ (mcStatus ready = "True" ->
        Forall (fun op : Operand * OperandState => exists t st' objects,
          t ⊆ trD /\ exec (DesiredState op.1 op.2 krmConfig) t (st', inr objects) /\
          Forall (fun o => exists live, readAs_in tr (mObject o) live /\ (getSetsTypeMeta = true -> running live)) objects) operands
        /\ Forall (fun o => exists t, t ⊆ tr /\ exec (HasMissingDependencies o.1 krmConfig) t (inr "")) operands'
        /\ exists t, t ⊆ tr /\ exec (KAISchedulerCheck minimumSchedulerVersion) t (inr "")).
Proof.
  intros Hops0 Hdeploy Hkeyed Hst.
  apply Deploy_inv in Hdeploy as [(? & ? & ? & _ & _ & _ & [=])|(trd & t2 & t3 & desired & rc & -> & Hasked & _ & _)].
  pose proof (getDesiredState_asked _ _ _ _ _ _ Hops0 Hasked) as Hall.
  assert (Forall (fun op => op.1 ∈ ours) operands1) as Hops.
  { clear -Hall Hops0. induction Hall as [|x y xs ys [Heq _] _ IH]; [done|]. apply Forall_cons in Hops0 as [Hx Hxs].
    constructor; [by rewrite Heq|by apply IH]. }
  destruct (statusConditions_inv _ _ _ _ _ _ _ Hst) as (tr1 & tr2 & tr3 & tr4 & ops1 & d & a & f & r & g & -> & -> & Hd & Ha & Hf & Hr & Hmsg & Hg).
  pose proof (answer_met _ _ _ _ _ _ _ _ _ _ _ _ Hd) as [(Hdt & Hdg & _) Hdmet].
  pose proof (answer_met _ _ _ _ _ _ _ _ _ _ _ _ Ha) as [(Hat & Hag & _) Hamet].
  assert (exists met, isCondition TypeDependenciesFulfilled (Generation (krmMeta krmConfig)) met f) as [met (Hft & Hfg & _)].
  { apply exec_bind_inv in Hf as (? & ? & unmet & _ & _ & Hf). cbv zeta in Hf. destruct (_ <? _)%nat; apply newCondition_exec in Hf as [Hf _]; eauto. }
  destruct Hr as (Hrt & Hrg & Hrs), Hg as (Hgt & Hgg & Hgs).
  assert (mcStatus r = "True" <-> mcStatus d = "True" /\ mcStatus a = "True" /\ mcStatus f = "True") as Hiff.
  { rewrite Hrs, <- firstUnmet_None. case_bool_decide; naive_solver. }
  exists d, a, f, r, g. split; [done|]. split; [by rewrite 5!fmap_cons, Hdt, Hat, Hft, Hrt, Hgt|].
  split; [by repeat constructor|]. split; [done|]. split; [done|]. split.
  - intros Hnr. destruct (firstUnmet [d; a; f]) as [u|]; [by exists u|]. rewrite Hrs in Hnr. by rewrite bool_decide_true in Hnr.
  - intros (Hds & Has & Hfs)%Hiff. destruct (Hdmet Hds) as (td & Htd & Hdep). destruct (Hamet Has) as (ta & Hta & Hav).
    apply aggregate_met in Hdep, Hav. split.
    + assert (td ⊆ tr1 ++ tr2 ++ tr3 ++ tr4) as Htd' by set_solver. assert (ta ⊆ tr1 ++ tr2 ++ tr3 ++ tr4) as Hta' by set_solver.
      pose proof (objects_running _ _ _ _ _ _ Hops Hkeyed Htd' Hdep Hta' Hav) as Hrun.
      apply Forall_lookup. intros i [op st] Hi. destruct (Forall2_lookup_l _ _ _ _ _ Hall Hi) as ([op1 st1] & Hi1 & Heq & t & Ht & Hex).
      cbn [fst snd] in *. subst op1. exists t, st1, (lastDesiredState st1). split; [set_solver|]. split; [done|].
      apply Forall_forall. intros o Ho. eapply Hrun; [by eapply list_elem_of_lookup_2|done].
    + apply (fulfilled_truth errorText minimumSchedulerVersion HerrorText) in Hf as [Hm (t & Ht & Hk)]; [|done]. split.
      * eapply Forall_impl; [exact Hm|]. cbn beta. intros x (t' & ? & ?). exists t'. split; [set_solver|done].
      * exists t. split; [set_solver|done].
Qed.

End Ready.

(** ** A certificate that is not mounted any more *)

Section Volume.
Context {KC : KaiCommon}.
Import NodePoolController.

Lemma deploymentFor_volumes krmConfig service name live d :
  deploymentFor krmConfig service name live = inr d -> ptVolumes (deplTemplate d) = ptVolumes (deplTemplate live).
Proof.
  unfold deploymentFor. destruct (krmGlobal (krmSpec krmConfig)); [|done]. cbn [deref mbind result_bind].
  destruct (svImage service) as [i|]; [|done]. cbn [deref mbind result_bind]. destruct (PullPolicy i); [|done].
  cbn [deref mbind result_bind]. destruct (svResources service); [|done]. cbn [deref mbind result_bind]. by intros [= <-].
Qed.

Lemma finishDeployment_volumes replicas args ports secret grace d d' :
  finishDeployment replicas args ports secret grace d = inr d' ->
  ptVolumes (deplTemplate d') = match secret with
    | Some secret => [{| volName := certVolumeName; volSecretName := Some secret; volOther := "" |}]
    | None => ptVolumes (deplTemplate d) end.
Proof. unfold finishDeployment. destruct (ptContainers (deplTemplate d)); [done|]. by intros [= <-]. Qed.

(** The volume of the serving certificate outlives the webhook: with the
    node pool webhook turned off, the wanted deployment has exactly the volumes of
    the live one, so the secret of the certificate that an earlier configuration
    mounted stays a volume of the pods (with the webhook on, it is their only
    volume). *)
Theorem certificate_volume_outlives_webhook baseName krmConfig config webhooks tr m :
  krmNodePoolController (krmSpec krmConfig) = Some config ->
  ncWebhooks config = Some webhooks ->
  exec (deploymentForKRMConfig baseName krmConfig) tr (inr (Some m)) ->
  exists (r : result Deployment) d,
    tr = [Event (Get KDeployment (krmNamespace (krmSpec krmConfig), baseName)) r]
    /\ mObject m = ODeployment d
    /\ if webhookEnabled webhooks
       then exists secret, ptVolumes (deplTemplate d) = [{| volName := certVolumeName; volSecretName := Some secret; volOther := "" |}]
       else ptVolumes (deplTemplate d) = match r with inr live => ptVolumes (deplTemplate live) | inl _ => [] end.
Proof.
  intros Hconfig Hwh Hex. unfold deploymentForKRMConfig in Hex. rewrite Hconfig in Hex. cbn [deref try_bind prog_bind_] in Hex.
  apply exec_try_ok in Hex as (t1 & t2 & dep & -> & Hdep & [-> Hm]). rewrite app_nil_r.
  apply exec_try_ok in Hdep as (t3 & t4 & o & -> & (r & t & -> & Hobj) & Hdep). exists r.
  assert (exists live0, o = ODeployment live0 /\ t = [] /\
    ptVolumes (deplTemplate live0) = match r with inr live => ptVolumes (deplTemplate live) | inl _ => [] end) as (live0 & -> & -> & Hv).
  { destruct r as [e|live]; cbn [prog_bind_] in Hobj; [destruct (IsNotFound e); cbn [negb] in Hobj|]; destruct Hobj as [-> Hobj];
      try done; injection Hobj as ->; eexists; (split; [done|]); done. }
  destruct Hdep as [-> Hdep]. destruct (ncService config) as [s|]; [|done]. cbn [deref mbind result_bind] in Hdep.
  symmetry in Hdep. apply deploymentFor_volumes in Hdep.
  destruct (buildArgsList krmConfig); [done|]. cbn [mbind result_bind] in Hm. destruct (ncControllerService config); [|done].
  rewrite Hwh in Hm. cbn [deref mbind result_bind] in Hm. destruct (containerPorts _ _); [done|]. cbn [mbind result_bind] in Hm.
  destruct (certSecret webhooks) as [|secret] eqn:Hcert; [done|]. cbn [mbind result_bind] in Hm.
  destruct (finishDeployment _ _ _ _ _ _) as [|d] eqn:Hfin; [done|]. cbn [mbind result_bind] in Hm. injection Hm as ->.
  exists d. split; [done|]. split; [done|]. apply finishDeployment_volumes in Hfin. unfold certSecret in Hcert.
  destruct (webhookEnabled webhooks).
  - destruct (nwCertSecretName webhooks) as [s'|]; [|done]. injection Hcert as <-. by exists s'.
  - injection Hcert as <-. exact (eq_trans Hfin (eq_trans Hdep Hv)).
Qed.

End Volume.

(** ** Witnesses *)

Module OperatorDemo.
Import CommandLineFacts.LineDemo DeployFacts.DeployDemo.
#[local] Existing Instances demoCommon demoYaml HelmHookFacts.HookDemo.demoVersionLib MigrateFacts.Demo.demoNames.

Lemma demoCommonLaws : KaiCommonLaws demoCommon.
Proof.
  split; [done|done|by eexists| |intros image s r Hr; by exists r].
  intros image s. cbn. destruct (svImage s) as [i|]; by repeat eexists.
Qed.

Lemma demoEncodes : encodes (Y := demoYaml).
Proof. split; intros; by eexists. Qed.

Lemma defaulted_config_always_builds_witness :
  exists tr operands' desired, exec (getDesiredState demoOperands demoKRMConfig ∅) tr (operands', inr desired).
Proof.
  set (p := getDesiredState demoOperands demoKRMConfig ∅). pose proof (run_exec memServer p demoCluster) as Hex.
  destruct (run memServer p demoCluster).1 as [operands' r] eqn:Hrun.
  destruct (defaulted_config_always_builds (KL := demoCommonLaws) true demoErrorText "kai"
    {| krmNamespace := ""; krmGlobal := None; krmNodePoolController := None; krmProjectController := None; krmPodGroupAssigner := None |}
    demoOperands demoKRMConfig _ operands' r demoEncodes demoOperands_ours eq_refl Hex) as (desired & -> & _).
  { vm_compute. repeat (apply Forall_cons; split; [reflexivity || exact I|]). by apply Forall_nil. }
  eexists _, operands', desired. exact Hex.
Defined.

#[local] Instance demoConditions : ConditionNames := {|
  TypeDeployed := "Deployed"; TypeAvailable := "Available"; TypeDependenciesFulfilled := "DependenciesFulfilled";
  TypeReady := "Ready"; TypeReconciling := "Reconciling"; ReasonDeployed := "deployed"; ReasonNotDeployed := "not_deployed";
  ReasonAvailable := "available"; ReasonNotAvailable := "not_available"; ReasonDependenciesFulfilled := "fulfilled";
  ReasonDependenciesMissing := "missing"; ReasonReady := "ready"; ReasonNotReady := "not_ready";
  ReasonReconciling := "reconciling"; ReasonReconciled := "reconciled" |}.

(** The deployment of the project controller alone. *)
Definition projectOperands : list (Operand * OperandState) :=
  [(projectControllerOperand true demoErrorText, {| lastDesiredState := []; BaseResourceName := "" |})].
Definition projectDeploy := Deploy demoOrder "kai.resources/v1alpha1" true true projectOperands demoKRMConfig.

(** The cluster after the first deployment, when the pods have started. *)
Definition started (d : Deployment) : Deployment :=
  {| deplMeta := deplMeta d; deplReplicas := deplReplicas d; deplSelector := deplSelector d; deplTemplate := deplTemplate d;
     deplOther := deplOther d; UpdatedReplicas := default 0%Z (deplReplicas d); deplConditions := [("Available", "True")] |}.
Definition queueDefinition : CustomResourceDefinition :=
  {| crdMeta := named "queues.scheduling.run.ai"; crdVersions := [("v2", true)]; crdConditions := [] |}.
Definition readyScheduler : KaiConfig :=
  {| kcMeta := named DefaultKAIConfigSingletonInstanceName; kcNamespace := "kai"; kcGlobal := None;
     kcConditions := [{| mcType := KaiConditionTypeReady; mcStatus := "True"; mcReason := ""; mcMessage := "";
                         mcObservedGeneration := 0; mcLastTransitionTime := 0 |}] |}.
Definition newCluster : store :=
  store_add (K := KCustomResourceDefinition) queueDefinition (store_add (K := KKaiConfig) readyScheduler emptyStore).
Definition startPods (s : store) : store :=
  match s KDeployment !! ("kai", "project-controller") with
  | Some d => store_add (K := KDeployment) (started d) s
  | None => s
  end.

Definition projectRun : (list (Operand * OperandState) * result unit) * store := run memServer projectDeploy newCluster.
Definition readyCluster : store := startPods projectRun.2.
Definition readyStatus := statusConditions demoErrorText "v0.18.0" projectRun.1.1 demoKRMConfig.

Lemma ready_means_running_witness :
  exists trD operands1 tr operands' conditions ready,
    exec projectDeploy trD (operands1, inr tt)
    /\ exec (statusConditions demoErrorText "v0.18.0" operands1 demoKRMConfig) tr (operands', conditions)
    /\ conditions !! 3 = Some ready /\ mcStatus ready = "True"
    /\ Forall (fun op : Operand * OperandState => exists t st' objects,
         t ⊆ trD /\ exec (DesiredState op.1 op.2 demoKRMConfig) t (st', inr objects) /\
         Forall (fun o => exists live, readAs_in tr (mObject o) live /\ running live) objects) projectOperands.
Proof.
  assert (exec projectDeploy (run_trace memServer projectDeploy newCluster) (projectRun.1.1, inr tt)) as Hdeploy.
  { pose proof (run_exec memServer projectDeploy newCluster) as Hex. fold projectRun in Hex.
    assert (projectRun.1.2 = inr tt) as Hr by (vm_compute; reflexivity).
    rewrite (surjective_pairing projectRun.1), Hr in Hex. exact Hex. }
  pose proof (run_exec memServer readyStatus readyCluster) as Hex.
  assert (mcStatus <$> (run memServer readyStatus readyCluster).1.2 = ["True"; "True"; "True"; "True"; "False"]) as Hstatus
    by (vm_compute; reflexivity).
  destruct (run memServer readyStatus readyCluster).1 as [operands' conditions]. cbn [snd] in Hstatus.
  destruct (ready_means_running true demoErrorText (fun _ => ltac:(discriminate)) "v0.18.0" demoOrder "kai.resources/v1alpha1" true true
    projectOperands demoKRMConfig (run_trace memServer projectDeploy newCluster) projectRun.1.1
    (run_trace memServer readyStatus readyCluster) operands' conditions)
    as (d & a & f & r & g & Hc & _ & _ & _ & _ & _ & Hready); [|exact Hdeploy| |exact Hex|].
  - apply Forall_cons. split; [right; left|by apply Forall_nil].
  - vm_compute. repeat (apply Forall_cons; split; [reflexivity || exact I|]). by apply Forall_nil.
  - rewrite Hc in Hstatus. injection Hstatus as _ _ _ Hr _. destruct (Hready Hr) as [Hobjects _].
    exists (run_trace memServer projectDeploy newCluster), projectRun.1.1, (run_trace memServer readyStatus readyCluster), operands', conditions, r. split; [exact Hdeploy|]. split; [exact Hex|]. split; [by rewrite Hc|]. split; [exact Hr|].
    eapply Forall_impl; [exact Hobjects|]. cbn beta. intros op (t & st' & objects & Ht & Hasked & Hall).
    exists t, st', objects. split; [exact Ht|]. split; [exact Hasked|]. eapply Forall_impl; [exact Hall|]. cbn beta.
    intros o (live & Hread & Hrun). exists live. split; [exact Hread|exact (Hrun eq_refl)].
Defined.

(** The webhook is turned off while the live deployment has the volume. *)
Definition offSpec : KRMConfigSpec :=
  SetDefaultsWhereNeeded "kai"
    {| krmNamespace := "kai"; krmGlobal := None;
       krmNodePoolController := Some
         {| ncService := None; ncReplicas := None; ncVPA := None; ncControllerService := None;
            ncWebhooks := Some {| nwEnableNodePoolValidation := Some false; nwCertSecretName := None |};
            ncArgs := None; ncExtraArgs := [] |};
       krmProjectController := None; krmPodGroupAssigner := None |}.
Definition offConfig : KRMConfig := {| krmMeta := named "kai"; krmSpec := offSpec; krmConditions := [] |}.
Definition certVolume : Volume := {| volName := certVolumeName; volSecretName := Some "nodepool-controller-tls-secret"; volOther := "" |}.
Definition liveDeployment : Deployment :=
  {| deplMeta := meta_with_key "nodepool-controller" "kai" (named ""); deplReplicas := Some 1%Z; deplSelector := None;
     deplTemplate := {| ptLabels := ∅; ptServiceAccountName := ""; ptNodeSelector := ∅; ptTolerations := []; ptPriorityClassName := "";
                        ptAffinity := None; ptContainers := []; ptImagePullSecrets := []; ptVolumes := [certVolume];
                        ptTerminationGracePeriodSeconds := None; ptOther := "" |};
     deplOther := ""; UpdatedReplicas := 1; deplConditions := [] |}.
Definition offProgram := NodePoolController.deploymentForKRMConfig "nodepool-controller" offConfig.
Definition offCluster : store := store_add (K := KDeployment) liveDeployment emptyStore.

Lemma certificate_volume_outlives_webhook_witness :
  exists m d, exec offProgram (run_trace memServer offProgram offCluster) (inr (Some m))
    /\ mObject m = ODeployment d /\ ptVolumes (deplTemplate d) = [certVolume].
Proof.
  pose proof (run_exec memServer offProgram offCluster) as Hex.
  destruct (run memServer offProgram offCluster).1 as [e|[m|]] eqn:Hrun; [vm_compute in Hrun; discriminate| |vm_compute in Hrun; discriminate].
  destruct (certificate_volume_outlives_webhook "nodepool-controller" offConfig
    (orEmpty emptyNodePoolController (krmNodePoolController offSpec))
    (orEmpty {| nwEnableNodePoolValidation := None; nwCertSecretName := None |}
       (ncWebhooks (orEmpty emptyNodePoolController (krmNodePoolController offSpec)))) _ m eq_refl eq_refl Hex)
    as (r & d & _ & Hm & Hvol).
  exists m, d. split; [exact Hex|]. split; [exact Hm|]. vm_compute in Hrun. injection Hrun as <-. cbn in Hm. injection Hm as <-.
  vm_compute. reflexivity.
Defined.

End OperatorDemo.
