(* ===== verification/Watches.v ===== *)
(** * What the controllers watch

    The [SetupWithManager] functions of the controllers: the fields they index,
    the kinds they watch, how an object of an event becomes reconcile requests,
    and the filters an event passes first. *)

From stdpp Require Import base list gmap strings.
From S2P Require Import Prelude ApiTypes ControllerRuntime NodePoolUtils NodePoolCommon Assigner.
From S2P Require Import ProjectCommon ProjectReconciler Nodes ManagedNodes TopologyController NodePools Operands Deployable.

(** Requests for objects without a namespace. *)
Definition requestsFor (names : kube (list string)) : kube (list NamespacedName) :=
  r <- names ;; Ret (requestFor <$> r).

(** ** The node pool controller ([nodepool_controller.go], [nodepool_event_filter.go], [nrt_health_handler.go]) *)

Section NodePoolWatches.
Context {M : MetaLib} {CR : ControllerRuntime} (cfg : NodePoolControllerConfig).

Definition serviceMonitorCRDName := "servicemonitors.monitoring.coreos.com".
Definition nrtCRDName := "noderesourcetopologies.topology.node.k8s.io".

Definition isNrtCRDInstalled : kube bool := IsCRDInstalled nrtCRDName.

Definition ControllerPredicateFuncs : Predicate := fun K e =>
  match e with
  | Created _ => true
  | Updated old new => filterUpdateEvents K old new
  | Deleted _ => true
  | Generic _ => true
  end.

Definition indexNodePoolFields : setup (result unit) :=
  _ <-? call (IndexField KNodePool IsDeletingPhaseField NodePoolIsDeletingPhaseIndexer) ;;
  _ <-? call (IndexField KPod PodRunningWithKaiSchedulerNodeNameField (PodRunningWithKaiSchedulerNodeNameIndexer cfg)) ;;
  call (IndexField KSchedulingShard SchedulingShardPartitionField SchedulingShardPartitionIndexer).

(** Whether a definition lets the watcher restart the process. *)
Definition isEstablishedNrtCRD (crd : CustomResourceDefinition) : bool :=
  (Name (crdMeta crd) ==? nrtCRDName)
  && existsb (fun c => (c.1 ==? "Established") && (c.2 ==? "True")) (crdConditions crd).

Definition watchForNrtCRD : setup (result unit) :=
  _ <-? call (GetInformer KCustomResourceDefinition) ;;
  call (ExitOnAdd isEstablishedNrtCRD).

(** The watches, given which of the optional definitions are there. *)
Definition nodePoolBuilder (serviceMonitorEnabled nrtEnabled : bool) : Builder NamespacedName :=
  let builder :=
    WithEventFilter ControllerPredicateFuncs
      (Watches KProject (fun _ => requestsFor MapProjectToNodePoolEvents) []
        (Watches KNode (fun node => requestsFor (MapNodeToNodePoolEvent cfg node)) []
          (Owns KSchedulingShard
            (For KNodePool [] NewControllerManagedBy)))) in
  let builder := if serviceMonitorEnabled then Owns KServiceMonitor builder else builder in
  if nrtEnabled
  then Watches KNodeResourceTopology
         (fun nrt => requestsFor (MapNrtToNodePoolEvent cfg (Name (nrtMeta nrt)))) [] builder
  else builder.

(** [NodePoolController.SetupWithManager]: [(serviceMonitorEnabled, nrtEnabled)]. *)
Definition SetupNodePoolController : setup (result (bool * bool)) :=
  _ <-? indexNodePoolFields ;;
  serviceMonitorEnabled <- viaReader (IsCRDInstalled serviceMonitorCRDName) ;;
  nrtEnabled <- viaReader isNrtCRDInstalled ;;
  _ <-? call (Complete _ (nodePoolBuilder serviceMonitorEnabled nrtEnabled)) ;;
  if (nrtEnabled : bool) then Ret (inr (serviceMonitorEnabled, nrtEnabled))
  else
    _ <-? watchForNrtCRD ;;
    Ret (inr (serviceMonitorEnabled, nrtEnabled)).

(** [ManagedNodesConfigController.SetupWithManager]; the sources are typed, so
    each predicate only sees objects of its kind. *)
Definition mncPredicate : Predicate := fun K =>
  match K return WatchEvent (obj K) -> bool with
  | KManagedNodesConfig => MNCPredicate cfg
  | _ => fun _ => true
  end.

Definition nodePredicate : Predicate := fun K =>
  match K return WatchEvent (obj K) -> bool with
  | KNode => NodePredicate
  | _ => fun _ => true
  end.

Definition managedNodesBuilder : Builder MNCReconcileRequest :=
  WatchesRawSource FromCache KNode (fun node => Ret (MapNodeToManagedNodesConfigEvent node)) [nodePredicate]
    (WatchesRawSource FromCache KManagedNodesConfig (fun mnc => Ret (MapManagedNodesConfigToEvent mnc)) [mncPredicate]
      NewControllerManagedBy).

Definition SetupManagedNodesConfigController : setup (result unit) := call (Complete _ managedNodesBuilder).

(** [KaiTopologyController.SetupWithManager]. *)
Definition topologyBuilder : Builder NamespacedName :=
  Watches KClusterTopologyBinding (fun grove => Ret (requestFor <$> mapGroveToKaiReconcileRequest (Some grove))) []
    (For KTopology [] NewControllerManagedBy).

Definition SetupKaiTopologyController : setup (result unit) := call (Complete _ topologyBuilder).

End NodePoolWatches.

(** ** The controllers of projects, departments and the default limit range *)

Section ProjectWatches.
Context {M : MetaLib} {CR : ControllerRuntime} (cfg : ProjectReconcilerConfig).

(** The objects the filters tell apart. *)
Definition asWatched (K : Kind) : obj K -> watched :=
  match K return obj K -> watched with
  | KRoleBinding => WRoleBinding
  | KConfigMap => WConfigMap
  | KNamespace => WNamespace
  | KLimitRange => WLimitRange
  | KQueue => WQueue
  | KProject => WProject
  | K => fun o => WOther (objMeta K o)
  end.

Definition ProjectEventFilter : Predicate := NewPredicateFuncs (fun K o => FilterProjectEvent cfg (asWatched K o)).

Definition QueuePlacementChangedPredicate : Predicate := fun K =>
  match K return WatchEvent (obj K) -> bool with
  | KQueue => fun e => match e with Updated old new => QueuePlacementChanged old new | _ => true end
  | _ => fun e => match e with Updated _ _ => false | _ => true end
  end.

Definition projectBuilder : Builder NamespacedName :=
  let result :=
    Watches KQueue (MapQueueToChildProjects groupOf kaiGroup) [QueuePlacementChangedPredicate]
      (Owns KQueue
        (Watches KRoleBinding (MapRoleBindingToProjectEvent cfg) []
          (Watches KNamespace (fun namespace => Ret (MapNamespaceToProjectEvent cfg namespace)) []
            (WatchesRawSource FromChannel KProject (fun p => Ret (EnqueueRequestForObject (prjMeta p))) []
              (For KProject [GenerationChangedPredicate] NewControllerManagedBy))))) in
  let result :=
    if CreateRoleBindings cfg && (RoleBindingsCm cfg !=? "")
    then Watches KConfigMap (MapRoleBindingsConfigMapToProjectEvents cfg) [] result else result in
  let result := if cfgLimitRange cfg then Owns KLimitRange result else result in
  WithEventFilter ProjectEventFilter result.

Definition SetupProjectReconciler : setup (result unit) := call (Complete _ projectBuilder).

Definition limitRangeBuilder : Builder NamespacedName :=
  WithEventFilter (NewPredicateFuncs (fun K o => FilterConfigmapEvent cfg (asWatched K o)))
    (For KConfigMap [] NewControllerManagedBy).

Definition SetupLimitRangeReconciler : setup (result unit) := call (Complete _ limitRangeBuilder).

Definition departmentBuilder : Builder NamespacedName :=
  Watches KQueue (MapQueueToChildDepartments groupOf kaiGroup) [QueuePlacementChangedPredicate]
    (Owns KQueue (For KDepartment [] NewControllerManagedBy)).

Definition SetupDepartmentReconciler : setup (result unit) :=
  _ <-? call (IndexField KProject ProjectDepartmentIndexField IndexProjectByDepartment) ;;
  _ <-? call (IndexField KDepartment DepartmentParentIndexField IndexDepartmentByParent) ;;
  call (Complete _ departmentBuilder).

(** The events [triggerEventsForAllProjects] sends into the channel, one per
    project, each from a goroutine of its own. *)
Definition triggerEventsForAllProjects (projects : list Project) : list Notification :=
  (fun p => {| nSource := FromChannel; nKind := KProject; nEvent := Generic (p : obj KProject) |}) <$> projects.

End ProjectWatches.

(** ** The pod group assigner ([pod_group_controller.go]) *)

Section PodGroupWatches.
Context {L : LabelsLib} {CR : ControllerRuntime} (cfg : PodGroupAssignerConfig).
Context (PodGroupAnnotationForPod : string).

Definition indexPodGroupFields : setup (result unit) :=
  call (IndexField KPod PodByPodGroupIndexerName (PodByPodGroupIndexer PodGroupAnnotationForPod)).

Definition podGroupBuilder : Builder NamespacedName :=
  WithEventFilter (NewPredicateFuncs FilterPodGroupControllerEvents)
    (Watches KNodePool (fun nodePool => MapNodePoolToPodGroupEvent cfg (Name (npMeta nodePool))) []
      (For KPodGroup [] NewControllerManagedBy)).

Definition SetupPodGroupReconciler : setup (result unit) :=
  _ <-? indexPodGroupFields ;;
  call (Complete _ podGroupBuilder).

End PodGroupWatches.

(** ** The operator ([krmconfig_controller.go], [known_types.go]) *)

Section OperatorWatches.
Context {M : MetaLib} {CR : ControllerRuntime} (kaiGroupVersion : string).

(** [KRMConfigOwned]: the kinds an operand may own, and whether a kind may be
    unknown to the cluster. *)
Record Collectable := { cKind : Kind; cOptional : bool }.
#[export] Instance Collectable_eq_dec : EqDecision Collectable.
Proof. solve_decision. Defined.

Definition KRMConfigOwned : list Collectable :=
  [{| cKind := KDeployment; cOptional := false |};
   {| cKind := KServiceAccount; cOptional := false |};
   {| cKind := KService; cOptional := false |};
   {| cKind := KConfigMap; cOptional := false |};
   {| cKind := KServiceMonitor; cOptional := true |};
   {| cKind := KVerticalPodAutoscaler; cOptional := true |}].

(** The state of the registry: the collectables whose index is registered, and
    the optional ones that were found available. *)
Record Registry := { Initiated : list Collectable; availableKinds : list Collectable }.

Definition setAvailable (collectable : Collectable) (available : bool) (r : Registry) : Registry :=
  {| Initiated := Initiated r;
     availableKinds := filter (fun c => c <> collectable) (availableKinds r) ++ (if available then [collectable] else []) |}.

Definition addInitiated (collectable : Collectable) (r : Registry) : Registry :=
  {| Initiated := Initiated r ++ [collectable]; availableKinds := availableKinds r |}.

Definition isAvailable (r : Registry) (collectable : Collectable) : bool :=
  negb (cOptional collectable) || bool_decide (collectable ∈ availableKinds r).

Definition InitWithManager (collectable : Collectable) (r : Registry) : setup (Registry * result unit) :=
  let index := call (IndexField (cKind collectable) CollectableOwnerKey
                       (fun o => ownerIndexer kaiGroupVersion (objMeta _ o))) in
  if negb (cOptional collectable) then x <- index ;; Ret (r, x)
  else
    m <- call (RESTMapping (cKind collectable)) ;;
    match m with
    | inl err =>
        if IsNoMatchError err then Ret (setAvailable collectable false r, inr tt) else Ret (r, inl err)
    | inr _ =>
        let r := setAvailable collectable true r in
        x <- index ;; Ret (r, x)
    end.

Definition InitWithBuilder (r : Registry) (collectable : Collectable) (b : Builder NamespacedName) : Builder NamespacedName :=
  if isAvailable r collectable then Owns (cKind collectable) b else b.

Fixpoint initCollectables (collectables : list Collectable) (r : Registry) : setup (Registry * result unit) :=
  match collectables with
  | [] => Ret (r, inr tt)
  | collectable :: rest =>
      if bool_decide (collectable ∈ Initiated r) then initCollectables rest r
      else
        x <- InitWithManager collectable r ;;
        match x with
        | (r, inl err) => Ret (r, inl err)
        | (r, inr _) => initCollectables rest (addInitiated collectable r)
        end
  end.

Definition krmConfigBuilder (r : Registry) : Builder NamespacedName :=
  fold_left (fun b collectable => InitWithBuilder r collectable b) KRMConfigOwned (For KKRMConfig [] NewControllerManagedBy).

(** [KRMConfigReconciler.SetupWithManager]. *)
Definition SetupKRMConfigReconciler (r : Registry) : setup (Registry * result unit) :=
  x <- initCollectables KRMConfigOwned r ;;
  match x with
  | (r, inl err) => Ret (r, inl err)
  | (r, inr _) => x <- call (Complete _ (krmConfigBuilder r)) ;; Ret (r, x)
  end.

(** The collectables that [Deploy] lists, by the state of the registry. *)
Definition collectablesOf (r : Registry) (owner : KRMConfig) : list (kube (result (gmap string Managed))) :=
  collectables (isAvailable r {| cKind := KServiceMonitor; cOptional := true |})
               (isAvailable r {| cKind := KVerticalPodAutoscaler; cOptional := true |}) owner.

End OperatorWatches.
