(* ===== verification/WatchFacts.v ===== *)
(** * What wakes the controllers

    Facts about the watches of [Watches.v]: which events of the cluster lead to
    which reconcile requests, that the optional parts of the set-up follow what
    the cluster offers, and that what the operator lists is indexed. *)

From stdpp Require Import base list gmap strings.
From S2P Require Import Prelude ApiTypes ControllerRuntime NodePoolUtils NodePoolCommon Assigner.
From S2P Require Import ProjectCommon ProjectReconciler Nodes ManagedNodes TopologyController NodePools Operands Deployable.
From S2P Require Import Watches.
From S2P Require OperatorConfig OperandResources DeployFacts.

(** ** Delivery *)

Lemma notification_inj s s' K (e e' : WatchEvent (obj K)) :
  {| nSource := s; nKind := K; nEvent := e |} = {| nSource := s'; nKind := K; nEvent := e' |} -> s = s' /\ e = e'.
Proof.
  intros H. split; [exact (f_equal nSource H)|].
  apply (Eqdep_dec.inj_pair2_eq_dec Kind Kind_eq_dec (fun K => WatchEvent (obj K))).
  exact (f_equal (fun n => existT (nKind n) (nEvent n)) H).
Qed.

Lemma notification_kind s s' K K' (e : WatchEvent (obj K)) (e' : WatchEvent (obj K')) :
  {| nSource := s; nKind := K; nEvent := e |} = {| nSource := s'; nKind := K'; nEvent := e' |} -> K = K'.
Proof. intros H. exact (f_equal nKind H). Qed.

Section Delivery.
Context {CR : ControllerRuntime} {M : MetaLib} {Laws : ControllerRuntimeLaws}.

(** A request comes from a watch of the event's kind. *)
Definition enqueuedBy {R} (b : Builder R) s K (e : WatchEvent (obj K)) (tr : list (event KubeCall)) (req : R) (w : Watch R) : Prop :=
  exists (e' : WatchEvent (obj (wKind w))) o tr1 tr2 tr3 found,
    {| nSource := s; nKind := K; nEvent := e |} = {| nSource := s; nKind := wKind w; nEvent := e' |} /\
    passes b w s e' /\ o ∈ eventObjects e' /\
    tr = tr1 ++ tr2 ++ tr3 /\ exec (wEnqueue w o) tr2 found /\ req ∈ found.

Lemma delivered_from {R} (b : Builder R) s K (e : WatchEvent (obj K)) tr reqs req :
  exec (deliver b {| nSource := s; nKind := K; nEvent := e |}) tr reqs -> req ∈ reqs ->
  List.Exists (enqueuedBy b s K e tr req) (bWatches b).
Proof.
  intros Hex Hin. destruct (deliver_sound _ b _ _ _ _ Hex Hin) as (w & e' & o & tr1 & tr2 & tr3 & found & Hw & Hn & Hrest).
  apply Exists_exists. exists w. split; [exact Hw|]. exists e', o, tr1, tr2, tr3, found. by split.
Qed.

(** A watch that an event passes adds its requests. *)
Lemma delivered_to {R} (b : Builder R) i w s (e : WatchEvent (obj (wKind w))) o tr reqs :
  bWatches b !! i = Some w -> passes b w s e -> o ∈ eventObjects e ->
  exec (deliver b {| nSource := s; nKind := wKind w; nEvent := e |}) tr reqs ->
  exists tr1 tr2 tr3 found, tr = tr1 ++ tr2 ++ tr3 /\ exec (wEnqueue w o) tr2 found /\ (forall req, req ∈ found -> req ∈ reqs).
Proof. intros Hw%list_elem_of_lookup_2 Hp Ho Hex. exact (deliver_complete _ b w s e o tr reqs Hw Hp Ho Hex). Qed.

End Delivery.

(** The watches a request can come from: those of other kinds are ruled out. *)
Ltac from_watches H :=
  repeat (apply Exists_cons in H as [(e' & o & t1 & t2 & t3 & found & Hn & Hp & Ho & Htr & Hf & Hin)|H];
          [try (apply notification_kind in Hn; discriminate Hn)|]);
  try (by apply Exists_nil in H).

Lemma no_requests {R} (reqs : list R) : (forall req, req ∈ reqs -> False) -> reqs = [].
Proof. destruct reqs as [|req reqs]; [done|]. intros H. destruct (H req); left. Qed.

(** The watches of a list, one by one. *)
Ltac each_watch Hw :=
  repeat match type of Hw with
  | _ ∈ _ :: _ => apply elem_of_cons in Hw as [->|Hw]
  | _ ∈ _ ++ _ => apply elem_of_app in Hw as [Hw|Hw]
  | _ ∈ [] => by apply elem_of_nil in Hw
  | _ ∈ (if ?c then _ else _) => destruct c
  end.

(** ** Reading the cache

    A cached list by a field answers with the objects whose indexed values, by
    the function registered for the field at start-up, include the value. *)

Definition valuesOf (K : Kind) (field : string) (o : obj K) (e : event ManagerCall) : list string :=
  match ev_call e with
  | IndexField K' field' indexer =>
      match decide (K = K') with
      | left same => if field' ==? field then indexer (eq_rect K obj o K' same) else []
      | right _ => []
      end
  | _ => []
  end.

Definition indexedValues (calls : list (event ManagerCall)) (K : Kind) (field : string) (o : obj K) : list string :=
  mjoin (valuesOf K field o <$> calls).

(** The reply agrees with the objects of the cluster and with the indexes of the
    start-up. *)
Definition answeredFrom (calls : list (event ManagerCall)) (s : store) (e : event KubeCall) : Prop :=
  match e with
  | Event (Get K key) r => match r with inr o => s K !! key = Some o | inl _ => s K !! key = None end
  | Event (List K opts) r =>
      exists items, r = inr items /\
        forall o, o ∈ items <->
          (exists key, s K !! key = Some o) /\ selected opts (objMeta K o) = true /\
          match loFieldSelector opts with Some (field, value) => value ∈ indexedValues calls K field o | None => True end
  | _ => True
  end.

Lemma exec_requestsFor p tr reqs :
  exec (requestsFor p) tr reqs -> exists names, exec p tr names /\ reqs = requestFor <$> names.
Proof.
  unfold requestsFor. intros (tr1 & tr2 & names & -> & Hex & [-> ->])%exec_bind_inv.
  rewrite app_nil_r. eauto.
Qed.

Lemma Forall_middle {A} (P : A -> Prop) l1 l2 l3 : Forall P (l1 ++ l2 ++ l3) -> Forall P l2.
Proof. intros [_ [H _]%Forall_app]%Forall_app. exact H. Qed.

(** Reads register nothing. *)
Lemma viaReader_indexes {A} (p : kube A) tr a {K field} {o : obj K} :
  exec (viaReader p) tr a -> mjoin (valuesOf K field o <$> tr) = [].
Proof.
  revert tr. induction p as [a'|X c k IH]; intros tr; [by intros [-> ->]|].
  intros (x & tr' & -> & Hex). rewrite fmap_cons. cbn [mjoin list_join valuesOf ev_call app]. exact (IH x tr' Hex).
Qed.

(** The reads of a set-up agree with the cluster. *)
Definition readerAnswered (s : store) (e : event ManagerCall) : Prop :=
  match e with
  | Event (Reader c) r => answeredFrom [] s (Event c r)
  | _ => True
  end.

(** A definition of the cluster that is established. *)
Definition isEstablished (s : store) (crdName : string) : bool :=
  match s KCustomResourceDefinition !! ("", crdName) with
  | Some crd => existsb (fun c => (c.1 ==? "Established") && (c.2 ==? "True")) (crdConditions crd)
  | None => false
  end.

Lemma IsCRDInstalled_exact s crdName tr installed :
  exec (viaReader (IsCRDInstalled crdName)) tr installed -> Forall (readerAnswered s) tr ->
  installed = isEstablished s crdName.
Proof.
  unfold IsCRDInstalled, isEstablished. intros (r & t & -> & Hex) [Hr _]%Forall_cons.
  destruct r as [err|crd]; destruct Hex as [_ ->].
  - by match goal with |- _ = match ?x with _ => _ end => assert (x = None) as -> by exact Hr end.
  - by match goal with |- _ = match ?x with _ => _ end => assert (x = Some crd) as -> by exact Hr end.
Qed.

(** The events of an object by its successive versions. *)
Fixpoint updatesOf {A} (version : A) (later : list A) : list (WatchEvent A) :=
  match later with
  | [] => []
  | next :: later => Updated version next :: updatesOf next later
  end.

Definition historyEvents {A} (versions : list A) : list (WatchEvent A) :=
  match versions with
  | [] => []
  | first :: later => Created first :: updatesOf first later
  end.

(** An object enters a filtered set exactly when one of its versions is in it. *)
Lemma enters_once {CR : ControllerRuntime} {M : MetaLib} {Laws : ControllerRuntimeLaws} {A} (f : A -> bool) versions :
  existsb (callsAddFunc f) (historyEvents versions) = existsb f versions.
Proof.
  destruct versions as [|first later]; [done|]. cbn [historyEvents existsb]. rewrite callsAddFunc_enters.
  destruct (f first) eqn:Hfirst; [done|]. cbn [orb]. revert first Hfirst.
  induction later as [|next later IH]; intros first Hfirst; [done|]. cbn [updatesOf existsb].
  rewrite callsAddFunc_enters, Hfirst, andb_true_r. destruct (f next) eqn:Hnext; [done|]. by apply IH.
Qed.

(** ** The node pool controller *)

Section NodePoolController.
Context {M : MetaLib} {CR : ControllerRuntime} {Laws : ControllerRuntimeLaws} (cfg : NodePoolControllerConfig).

(** What a successful set-up did. *)
Lemma setup_inv calls flags :
  exec (SetupNodePoolController cfg) calls (inr flags) ->
  exists reads, 
    calls = Event (IndexField KNodePool IsDeletingPhaseField NodePoolIsDeletingPhaseIndexer) (inr tt)
         :: Event (IndexField KPod PodRunningWithKaiSchedulerNodeNameField (PodRunningWithKaiSchedulerNodeNameIndexer cfg)) (inr tt)
         :: Event (IndexField KSchedulingShard SchedulingShardPartitionField SchedulingShardPartitionIndexer) (inr tt)
         :: reads
         ++ Event (Complete _ (nodePoolBuilder cfg flags.1 flags.2)) (inr tt)
         :: (if flags.2 then [] else [Event (GetInformer KCustomResourceDefinition) (inr tt);
                                      Event (ExitOnAdd isEstablishedNrtCRD) (inr tt)]) /\
    exists tr1 tr2, reads = tr1 ++ tr2 /\ exec (viaReader (IsCRDInstalled serviceMonitorCRDName)) tr1 flags.1 /\
      exec (viaReader isNrtCRDInstalled) tr2 flags.2.
Proof.
  unfold SetupNodePoolController, indexNodePoolFields.
  intros (t1 & t2 & [] & -> & Hix & Hex)%exec_try_ok.
  apply exec_try_ok in Hix as (i1 & i2 & [] & -> & (? & ? & -> & -> & <-) & Hix).
  apply exec_try_ok in Hix as (j1 & j2 & [] & -> & (? & ? & -> & -> & <-) & (? & ? & -> & -> & <-)).
  apply exec_bind_inv in Hex as (s1 & s2 & sm & -> & Hsm & Hex).
  apply exec_bind_inv in Hex as (n1 & n2 & nrt & -> & Hnrt & Hex).
  apply exec_try_ok in Hex as (c1 & c2 & [] & -> & (? & ? & -> & -> & <-) & Hex).
  destruct nrt.
  - destruct Hex as [-> [= ->]]. exists (s1 ++ n1). split; [|by exists s1, n1]. by rewrite <- !app_assoc.
  - apply exec_try_ok in Hex as (w1 & w2 & [] & -> & Hw & [-> [= ->]]).
    apply exec_try_ok in Hw as (i1 & i2 & [] & -> & (? & ? & -> & -> & <-) & (? & ? & -> & -> & <-)).
    exists (s1 ++ n1). split; [|by exists s1, n1]. by rewrite <- !app_assoc.
Qed.

(** The indexes after the set-up. *)
Lemma setup_indexes calls flags pool :
  exec (SetupNodePoolController cfg) calls (inr flags) ->
  indexedValues calls KNodePool IsDeletingPhaseField pool = NodePoolIsDeletingPhaseIndexer pool.
Proof.
  intros (reads & -> & tr1 & tr2 & -> & Hr1 & Hr2)%setup_inv.
  unfold indexedValues. rewrite !fmap_cons, !fmap_app, fmap_cons. cbn [mjoin list_join].
  rewrite !join_app, (viaReader_indexes _ _ _ Hr1), (viaReader_indexes _ _ _ Hr2).
  by destruct flags as [sm []].
Qed.

(** The pool a node belongs to, by its label: the default pool when there is no
    pool of that name. *)
Definition poolOfNode (s : store) (node : Node) : string :=
  let name := nodePoolNameOfLabels cfg (nodeLabels node) in
  if decide (is_Some (s KNodePool !! ("", name))) then name else NodePoolCommon.DefaultNodepoolName cfg.

(** A node that the controller looks after: not excluded, and not in a partition
    that someone else manages. *)
Definition tracked (s : store) (node : Node) : Prop :=
  let name := nodePoolNameOfLabels cfg (nodeLabels node) in
  name <> ExcludedNodepoolName cfg /\
  forall key shard, s KSchedulingShard !! key = Some shard -> IsUnmanaged shard = true ->
    PartitionLabelValue (shardSpec shard) <> name.

Lemma unmanaged_listed calls s tr unmanaged p :
  exec ListPartitionLabelValues tr (inr unmanaged) -> Forall (answeredFrom calls s) tr -> p ∈ unmanaged ->
  exists key shard, s KSchedulingShard !! key = Some shard /\ IsUnmanaged shard = true /\ PartitionLabelValue (shardSpec shard) = p.
Proof.
  unfold ListPartitionLabelValues. intros (r & t & -> & Hex) [Hr _]%Forall_cons Hin.
  destruct r as [err|items]; destruct Hex as [-> Heq]; [done|]. injection Heq as ->.
  destruct Hr as (items' & [= <-] & Hitems).
  apply elem_of_list_to_set, list_elem_of_fmap in Hin as (shard & -> & [Hun Hsh]%list_elem_of_filter).
  apply Hitems in Hsh as ((key & Hkey) & _). eauto.
Qed.

Lemma MapNode_wakes calls s node tr names :
  exec (MapNodeToNodePoolEvent cfg node) tr names -> Forall (answeredFrom calls s) tr -> tracked s node ->
  poolOfNode s node ∈ names.
Proof.
  intros Hex Hall [Hexcl Hman]. unfold MapNodeToNodePoolEvent in Hex.
  rewrite (bool_decide_false _ Hexcl) in Hex.
  apply exec_bind_inv in Hex as (t1 & t2 & r & -> & Hlist & Hex). apply Forall_app in Hall as [Hall1 Hall2].
  match type of Hex with exec (if ?c then _ else _) _ _ => assert (c = false) as Hm end.
  { destruct r as [|unmanaged]; [done|]. apply bool_decide_false. intros Hin.
       destruct (unmanaged_listed _ _ _ _ _ Hlist Hall1 Hin) as (key & shard & Hk & Hun & Hp). by apply (Hman key shard). }
  rewrite Hm in Hex.
  destruct Hex as (got & t3 & -> & Hex). apply Forall_cons in Hall2 as [Hgot _].
  apply exec_bind_inv in Hex as (t4 & t5 & r' & _ & [_ ->] & Hex).
  apply exec_bind_inv in Hex as (t6 & t7 & others & _ & _ & _ & ->).
  unfold poolOfNode. destruct got as [err|pool]; cbn in Hgot |- *.
  - rewrite decide_False; [left|]. intros [? H]. by pose proof (eq_trans (eq_sym Hgot) H).
  - rewrite decide_True; [left|by eexists].
Qed.

(** The filter of the controller is the only one, for every watch. *)
Lemma nodePool_delivers sm nrt i w (e : WatchEvent (obj (wKind w))) o tr reqs :
  bWatches (nodePoolBuilder cfg sm nrt) !! i = Some w -> wSource w = FromCache -> wPredicates w = [] ->
  ControllerPredicateFuncs _ e = true -> o ∈ eventObjects e ->
  exec (deliver (nodePoolBuilder cfg sm nrt) {| nSource := FromCache; nKind := wKind w; nEvent := e |}) tr reqs ->
  exists tr1 tr2 tr3 found, tr = tr1 ++ tr2 ++ tr3 /\ exec (wEnqueue w o) tr2 found /\ (forall req, req ∈ found -> req ∈ reqs).
Proof.
  intros Hw Hs Hp Hf Ho Hex. apply (delivered_to (nodePoolBuilder cfg sm nrt) i w FromCache e); try done.
  split; [done|]. rewrite Hp. split; [apply Forall_nil_2|]. intros _. by destruct sm, nrt; repeat constructor.
Qed.

(** C24: Nodes wake their pools.  Every event of a node that the filter lets pass
    (a creation, a deletion, or an update of its labels, its phase or its
    schedulability) leads to a request for the pool of the node, before and
    after an update: a node that moves wakes both pools.  A node whose label
    names no pool wakes the default pool. *)
Theorem node_events_wake_its_pools sm nrt calls s (e : WatchEvent Node) tr reqs node :
  (forall old new, e = Updated old new ->
     nodeLabels old <> nodeLabels new \/ nodePhase old <> nodePhase new \/ Unschedulable old <> Unschedulable new) ->
  exec (deliver (nodePoolBuilder cfg sm nrt) {| nSource := FromCache; nKind := KNode; nEvent := e |}) tr reqs ->
  Forall (answeredFrom calls s) tr ->
  node ∈ eventObjects e -> tracked s node ->
  requestFor (poolOfNode s node) ∈ reqs.
Proof.
  intros Hupd Hex Hall Hnode Htr.
  assert (ControllerPredicateFuncs KNode e = true) as Hpass.
  { destruct e as [o|o|old new|o]; try done. cbn. unfold FilterNodeUpdatesForNPController.
    destruct (Hupd _ _ eq_refl) as [H|[H|H]].
    - rewrite (bool_decide_false _ H). cbn. by rewrite !orb_true_r.
    - by rewrite (bool_decide_false _ H).
    - assert (Bool.eqb (Unschedulable old) (Unschedulable new) = false) as -> by (by apply eqb_false_iff). by rewrite orb_true_r. }
  assert (bWatches (nodePoolBuilder cfg sm nrt) !! 2%nat
    = Some {| wSource := FromCache; wKind := KNode; wEnqueue := fun node => requestsFor (MapNodeToNodePoolEvent cfg node);
              wPredicates := []; wFiltered := true |}) as Hw by (by destruct sm, nrt).
  destruct (nodePool_delivers _ _ _ _ _ _ _ _ Hw eq_refl eq_refl Hpass Hnode Hex)
    as (tr1 & tr2 & tr3 & found & -> & (names & Hn & ->)%exec_requestsFor & Hsub).
  apply Hsub, list_elem_of_fmap. eexists. split; [done|].
  eapply MapNode_wakes; [exact Hn|by eapply Forall_middle|done].
Qed.

(** Changes of a node's topology resource wake no pool.  The filter of the
    controller lets no update of a [NodeResourceTopology] pass, so that although
    its kind is watched, and its creation wakes the pool of the node it is named
    after, an update leads to no request. *)
Theorem nrt_updates_wake_no_pool sm :
  (forall old new tr reqs,
     exec (deliver (nodePoolBuilder cfg sm true)
             {| nSource := FromCache; nKind := KNodeResourceTopology; nEvent := Updated old new |}) tr reqs -> reqs = []) /\
  (forall calls s nrt node tr reqs,
     exec (deliver (nodePoolBuilder cfg sm true)
             {| nSource := FromCache; nKind := KNodeResourceTopology; nEvent := Created nrt |}) tr reqs ->
     Forall (answeredFrom calls s) tr ->
     s KNode !! ("", Name (nrtMeta nrt)) = Some node -> tracked s node ->
     requestFor (poolOfNode s node) ∈ reqs).
Proof.
  split.
  - intros old new tr reqs Hex. apply no_requests. intros req H%(delivered_from _ _ _ _ _ _ _ Hex).
    destruct sm; cbn [bWatches nodePoolBuilder Owns WithEventFilter Watches addWatch For bFor NewControllerManagedBy app] in H;
      from_watches H; destruct Hp as (_ & _ & Hfilter);
      apply notification_inj in Hn as [_ <-]; specialize (Hfilter eq_refl); by apply Forall_cons in Hfilter as [? _].
  - intros calls s nrt node tr reqs Hex Hall Hnode Htr.
    assert (bWatches (nodePoolBuilder cfg sm true) !! (if sm then 5%nat else 4%nat)
      = Some {| wSource := FromCache; wKind := KNodeResourceTopology;
                wEnqueue := fun nrt => requestsFor (MapNrtToNodePoolEvent cfg (Name (nrtMeta nrt)));
                wPredicates := []; wFiltered := true |}) as Hw by (by destruct sm).
    assert (nrt ∈ eventObjects (Created nrt)) as Hobj by left.
    assert (ControllerPredicateFuncs KNodeResourceTopology (Created nrt) = true) as Hpass by done.
    destruct (nodePool_delivers _ _ _ _ _ _ _ _ Hw eq_refl eq_refl Hpass Hobj Hex)
      as (tr1 & tr2 & tr3 & found & -> & (names & Hn & ->)%exec_requestsFor & Hsub).
    apply Hsub, list_elem_of_fmap. eexists. split; [done|].
    apply Forall_middle in Hall. destruct Hn as (r & t & -> & Hn). apply Forall_cons in Hall as [Hr Hall].
    destruct r as [err|node']; [by pose proof (eq_trans (eq_sym Hr) Hnode)|].
    assert (node' = node) as -> by (by pose proof (eq_trans (eq_sym Hr) Hnode) as [= ->]).
    by eapply MapNode_wakes.
Qed.

(** A released pool is looked at again.  When an update of a project changes
    the set of node pools its queues name, and when a project is created or
    deleted, every node pool that is being deleted is requested, so that the
    deletion that waited for the reference goes on. *)
Theorem released_references_wake_deleting_pools calls flags s (e : WatchEvent Project) tr reqs key nodePool :
  exec (SetupNodePoolController cfg) calls (inr flags) ->
  (forall old new, e = Updated old new -> getProjectNodePoolRefs old <> getProjectNodePoolRefs new) ->
  exec (deliver (nodePoolBuilder cfg flags.1 flags.2) {| nSource := FromCache; nKind := KProject; nEvent := e |}) tr reqs ->
  Forall (answeredFrom calls s) tr ->
  s KNodePool !! key = Some nodePool ->
  is_Some (DeletionTimestamp (npMeta nodePool)) \/ npPhase nodePool = NodePoolDeleting ->
  requestFor (Name (npMeta nodePool)) ∈ reqs.
Proof.
  intros Hsetup Hupd Hex Hall Hkey Hdel.
  assert (ControllerPredicateFuncs KProject e = true) as Hpass.
  { destruct e as [o|o|old new|o]; try done. cbn. by rewrite (bool_decide_false _ (Hupd _ _ eq_refl)). }
  assert (bWatches (nodePoolBuilder cfg flags.1 flags.2) !! 3%nat
    = Some {| wSource := FromCache; wKind := KProject; wEnqueue := fun _ => requestsFor MapProjectToNodePoolEvents;
              wPredicates := []; wFiltered := true |}) as Hw by (by destruct flags as [[] []]).
  assert (eventObject e ∈ eventObjects e) as Hobj by (destruct e; cbn; set_solver).
  destruct (nodePool_delivers _ _ _ _ _ _ _ _ Hw eq_refl eq_refl Hpass Hobj Hex)
    as (tr1 & tr2 & tr3 & found & -> & (names & Hn & ->)%exec_requestsFor & Hsub).
  apply Hsub, list_elem_of_fmap. eexists. split; [done|].
  apply Forall_middle in Hall. destruct Hn as (r & t & -> & Hn). apply Forall_cons in Hall as [(items & -> & Hitems) Hall].
  destruct Hn as [_ ->]. apply list_elem_of_fmap. exists nodePool. split; [done|]. apply Hitems.
  split; [by exists key|]. split; [done|]. cbn [loFieldSelector]. rewrite (setup_indexes _ _ _ Hsetup).
  unfold NodePoolIsDeletingPhaseIndexer, isDeletingPhase. apply list_elem_of_singleton.
  destruct Hdel as [Hd|Hd]; [by rewrite (bool_decide_true _ Hd)|]. by rewrite Hd, orb_true_r.
Qed.

(** Topology resources are watched as soon as the cluster has them.  A
    set-up that succeeds registers the controller with the watch of
    [NodeResourceTopology] objects exactly when their definition is established
    then; otherwise it leaves a handler that ends the process, so that it
    starts anew, exactly when a version of the definition is established,
    whether it is created so or becomes so.  Service monitors are owned exactly
    when their definition is established at the set-up. *)
Theorem nrt_watched_or_awaited calls flags s :
  exec (SetupNodePoolController cfg) calls (inr flags) -> Forall (readerAnswered s) calls ->
  Event (Complete _ (nodePoolBuilder cfg flags.1 flags.2)) (inr tt) ∈ calls /\
  (KNodeResourceTopology ∈ wKind <$> bWatches (nodePoolBuilder cfg flags.1 flags.2) <-> isEstablished s nrtCRDName = true) /\
  (KServiceMonitor ∈ wKind <$> bWatches (nodePoolBuilder cfg flags.1 flags.2) <-> isEstablished s serviceMonitorCRDName = true) /\
  (isEstablished s nrtCRDName = false ->
     Event (ExitOnAdd isEstablishedNrtCRD) (inr tt) ∈ calls /\
     forall versions, existsb (callsAddFunc isEstablishedNrtCRD) (historyEvents versions)
                      = existsb isEstablishedNrtCRD versions).
Proof.
  intros (reads & -> & tr1 & tr2 & -> & Hr1 & Hr2)%setup_inv Hall.
  do 3 apply Forall_cons in Hall as [_ Hall]. apply Forall_app in Hall as [[Hall1 Hall2]%Forall_app _].
  rewrite <- (IsCRDInstalled_exact _ _ _ _ Hr1 Hall1), <- (IsCRDInstalled_exact _ _ _ _ Hr2 Hall2).
  destruct flags as [sm nrt]; cbn [fst snd].
  split; [do 3 right; apply elem_of_app; right; left|].
  split; [destruct sm, nrt; cbn; set_solver|]. split; [destruct sm, nrt; cbn; set_solver|].
  intros ->. split; [do 3 right; apply elem_of_app; right; do 2 right; left|]. intros versions. apply enters_once.
Qed.

End NodePoolController.

(** ** Projects and departments *)

Section ProjectController.
Context {M : MetaLib} {CR : ControllerRuntime} {Laws : ControllerRuntimeLaws} (cfg : ProjectReconcilerConfig).

(** What the set-up of the department controller indexes. *)
Lemma department_setup_inv calls :
  exec SetupDepartmentReconciler calls (inr tt) ->
  calls = [Event (IndexField KProject ProjectDepartmentIndexField IndexProjectByDepartment) (inr tt);
           Event (IndexField KDepartment DepartmentParentIndexField IndexDepartmentByParent) (inr tt);
           Event (Complete _ departmentBuilder) (inr tt)].
Proof.
  unfold SetupDepartmentReconciler.
  intros (t1 & t2 & [] & -> & (? & ? & -> & -> & <-) & (t3 & t4 & [] & -> & (? & ? & -> & -> & <-) & (? & ? & -> & -> & <-))%exec_try_ok)%exec_try_ok.
  done.
Qed.

(** The children of the department that owns a queue. *)
Definition childOfOwner (K : Kind) (parentOf : obj K -> string) (s : store) (queue : Queue) (req : NamespacedName) : Prop :=
  exists owner key child,
    ProjectOrDepartmentOwner groupOf kaiGroup (OwnerReferences (qMeta queue)) = Some owner /\
    OwnerKind owner = DepartmentKind /\ s K !! key = Some child /\ parentOf child = OwnerName owner /\ OwnerName owner <> "" /\
    req = requestFor (Name (objMeta K child)).

Lemma mapQueueToChildren_exact K field (parentOf : obj K -> string) calls s queue tr found req :
  (forall o, indexedValues calls K field o = if parentOf o ==? "" then [] else [parentOf o]) ->
  exec (mapQueueToDepartmentChildren groupOf kaiGroup K queue field) tr found -> Forall (answeredFrom calls s) tr ->
  req ∈ found <-> childOfOwner K parentOf s queue req.
Proof.
  intros Hix Hex Hall. unfold mapQueueToDepartmentChildren, childOfOwner in *.
  destruct (ProjectOrDepartmentOwner _ _ _) as [owner|].
  2: { destruct Hex as [-> ->]. rewrite elem_of_nil. naive_solver. }
  destruct (decide (OwnerKind owner = DepartmentKind)) as [Hk|Hk].
  2: { rewrite (bool_decide_false _ Hk) in Hex. destruct Hex as [-> ->]. rewrite elem_of_nil. naive_solver. }
  rewrite (bool_decide_true _ Hk) in Hex. destruct Hex as (r & t & -> & Hex).
  apply Forall_cons in Hall as [(items & -> & Hitems) _]. destruct Hex as [_ ->].
  change (List.map ?f items) with (f <$> items). rewrite list_elem_of_fmap.
  assert (forall o, OwnerName owner ∈ indexedValues calls K field o <-> parentOf o = OwnerName owner /\ OwnerName owner <> "") as Hval.
  { intros o. rewrite Hix. destruct (decide (parentOf o = "")) as [He|He].
    - rewrite (bool_decide_true _ He), He, elem_of_nil. split; [done|]. by intros [<- ?].
    - rewrite (bool_decide_false _ He), list_elem_of_singleton. split; [by intros ->|by intros [-> _]]. }
  split.
  - intros (o & -> & ((key & Hkey) & _ & [Hp Hne]%Hval)%Hitems). by exists owner, key, o.
  - intros (owner' & key & child & [= <-] & _ & Hkey & Hp & Hne & ->). exists child. split; [done|].
    apply Hitems. split; [by exists key|]. split; [done|]. by apply Hval.
Qed.

(** The object controlled by a project or a department asks for its owner. *)
Definition controllerIs (K : Kind) (m : ObjectMeta) (req : NamespacedName) : Prop :=
  exists owner, GetControllerOf m = Some owner /\ OwnerKind owner = ownerKindName K /\
    groupOf (OwnerAPIVersion owner) = Some kaiGroup /\ req = ("", OwnerName owner).

(** A queue that appears, disappears or moves to another parent. *)
Definition placed (e : WatchEvent Queue) : Prop :=
  match e with Updated old new => ParentQueue (qSpec old) <> ParentQueue (qSpec new) | _ => True end.

Lemma placement_passes (e : WatchEvent Queue) : QueuePlacementChangedPredicate KQueue e = true <-> placed e.
Proof.
  destruct e as [o|o|old new|o]; try done. cbn. unfold QueuePlacementChanged.
  destruct (decide (ParentQueue (qSpec old) = ParentQueue (qSpec new))) as [H|H];
    [rewrite (bool_decide_true _ H)|rewrite (bool_decide_false _ H)]; done.
Qed.

Lemma project_filters : bEventFilters (projectBuilder cfg) = [ProjectEventFilter cfg].
Proof. unfold projectBuilder. by destruct (CreateRoleBindings cfg && _), (cfgLimitRange cfg). Qed.

Lemma project_filter_exact K (e : WatchEvent (obj K)) :
  Forall (fun p : Predicate => p K e = true) (bEventFilters (projectBuilder cfg)) <->
  FilterProjectEvent cfg (asWatched K (eventObject e)) = true.
Proof.
  rewrite project_filters, Forall_singleton. unfold ProjectEventFilter. by rewrite newPredicateFuncs_filters.
Qed.

(** The watches of the project controller. *)
Definition queueOwnersWatch (K : Kind) : Watch NamespacedName :=
  {| wSource := FromCache; wKind := KQueue; wEnqueue := fun o => Ret (EnqueueRequestForOwner K (objMeta KQueue o));
     wPredicates := []; wFiltered := true |}.

Definition queueChildrenWatch (f : Queue -> kube (list NamespacedName)) : Watch NamespacedName :=
  {| wSource := FromCache; wKind := KQueue; wEnqueue := f; wPredicates := [QueuePlacementChangedPredicate]; wFiltered := true |}.

Lemma project_watches :
  bWatches (projectBuilder cfg) =
  [{| wSource := FromCache; wKind := KProject; wEnqueue := fun o => Ret (EnqueueRequestForObject (objMeta KProject o));
      wPredicates := [GenerationChangedPredicate]; wFiltered := true |};
   {| wSource := FromChannel; wKind := KProject; wEnqueue := fun p => Ret (EnqueueRequestForObject (prjMeta p));
      wPredicates := []; wFiltered := false |};
   {| wSource := FromCache; wKind := KNamespace; wEnqueue := fun namespace => Ret (MapNamespaceToProjectEvent cfg namespace);
      wPredicates := []; wFiltered := true |};
   {| wSource := FromCache; wKind := KRoleBinding; wEnqueue := MapRoleBindingToProjectEvent cfg;
      wPredicates := []; wFiltered := true |};
   queueOwnersWatch KProject; queueChildrenWatch (MapQueueToChildProjects groupOf kaiGroup)]
  ++ (if CreateRoleBindings cfg && (RoleBindingsCm cfg !=? "")
      then [{| wSource := FromCache; wKind := KConfigMap; wEnqueue := MapRoleBindingsConfigMapToProjectEvents cfg;
               wPredicates := []; wFiltered := true |}] else [])
  ++ (if cfgLimitRange cfg
      then [{| wSource := FromCache; wKind := KLimitRange;
               wEnqueue := fun o => Ret (EnqueueRequestForOwner KProject (objMeta KLimitRange o));
               wPredicates := []; wFiltered := true |}] else []).
Proof. unfold projectBuilder. by destruct (CreateRoleBindings cfg && _), (cfgLimitRange cfg). Qed.

Lemma department_indexes calls :
  exec SetupDepartmentReconciler calls (inr tt) ->
  (forall o, indexedValues calls KProject ProjectDepartmentIndexField o = if prjParent o ==? "" then [] else [prjParent o]) /\
  (forall o, indexedValues calls KDepartment DepartmentParentIndexField o = if depParent o ==? "" then [] else [depParent o]).
Proof.
  intros ->%department_setup_inv. split; intros o.
  - transitivity (IndexProjectByDepartment o ++ []); [done|]. by rewrite app_nil_r.
  - transitivity (IndexDepartmentByParent o ++ []); [done|]. by rewrite app_nil_r.
Qed.

(** A queue event, once it has passed the filters of a builder with the two
    queue watches. *)
Lemma queue_requests (b : Builder NamespacedName) K i j f (children : Queue -> NamespacedName -> Prop) s calls (e : WatchEvent Queue) tr reqs req :
  bWatches b !! i = Some (queueOwnersWatch K) -> bWatches b !! j = Some (queueChildrenWatch f) ->
  (forall w, w ∈ bWatches b -> wKind w = KQueue -> w = queueOwnersWatch K \/ w = queueChildrenWatch f) ->
  (forall queue tr found, exec (f queue) tr found -> Forall (answeredFrom calls s) tr -> req ∈ found <-> children queue req) ->
  exec (deliver b {| nSource := FromCache; nKind := KQueue; nEvent := e |}) tr reqs ->
  Forall (answeredFrom calls s) tr ->
  req ∈ reqs <->
  Forall (fun p : Predicate => p KQueue e = true) (bEventFilters b) /\
  exists queue, queue ∈ eventObjects e /\ (controllerIs K (qMeta queue) req \/ placed e /\ children queue req).
Proof.
  intros Hi Hj Hall Hchildren Hex Hans. split.
  - intros (w & Hw & e' & o & t1 & t2 & t3 & found & Hn & Hp & Ho & -> & Hf & Hin)%(delivered_from _ _ _ _ _ _ _ Hex)%Exists_exists.
    apply Forall_middle in Hans. pose proof (notification_kind _ _ _ _ _ _ Hn) as Hk.
    destruct (Hall w Hw (eq_sym Hk)) as [->| ->]; apply notification_inj in Hn as [_ <-];
      destruct Hp as (_ & Hown & Hfil); (split; [by apply Hfil|]); exists o; (split; [done|]).
    + left. destruct Hf as [_ ->]. by apply forOwner_enqueues in Hin.
    + right. apply Forall_cons in Hown as [Hpl _]. split; [by apply placement_passes|]. by apply (Hchildren o t2 found).
  - intros (Hfil & queue & Ho & [Hc|[Hpl Hc]]).
    + assert (passes b (queueOwnersWatch K) FromCache e) as Hp by (split; [done|]; split; [apply Forall_nil_2|done]).
      destruct (delivered_to _ _ _ _ _ _ _ _ Hi Hp Ho Hex) as (t1 & t2 & t3 & found & -> & [_ ->] & Hsub).
      by apply Hsub, forOwner_enqueues.
    + assert (passes b (queueChildrenWatch f) FromCache e) as Hp.
      { split; [done|]. split; [|done]. apply Forall_cons. split; [by apply placement_passes|apply Forall_nil_2]. }
      destruct (delivered_to _ _ _ _ _ _ _ _ Hj Hp Ho Hex) as (t1 & t2 & t3 & found & -> & Hf & Hsub).
      apply Hsub. apply (Hchildren queue t2 found); [exact Hf|by eapply Forall_middle|done].
Qed.

(** C23: A queue event wakes exactly the right projects and departments.  An event
    of a queue leads to requests for the project that controls it and, when the
    queue appears, disappears or changes its parent, for the projects of the
    department that owns it, before and after the change, unless the queue is
    marked as overridden; and likewise, marked or not, for the department that
    controls it and for the child departments. *)
Theorem queue_events_wake_owners_and_children calls s (e : WatchEvent Queue) tr reqs req :
  exec SetupDepartmentReconciler calls (inr tt) -> Forall (answeredFrom calls s) tr ->
  (exec (deliver (projectBuilder cfg) {| nSource := FromCache; nKind := KQueue; nEvent := e |}) tr reqs ->
   req ∈ reqs <->
   IsManuallyOverridden cfg (qMeta (eventObject e)) = false /\
   exists queue, queue ∈ eventObjects e /\
     (controllerIs KProject (qMeta queue) req \/ placed e /\ childOfOwner KProject prjParent s queue req)) /\
  (exec (deliver departmentBuilder {| nSource := FromCache; nKind := KQueue; nEvent := e |}) tr reqs ->
   req ∈ reqs <->
   exists queue, queue ∈ eventObjects e /\
     (controllerIs KDepartment (qMeta queue) req \/ placed e /\ childOfOwner KDepartment depParent s queue req)).
Proof.
  intros [Hprj Hdep]%department_indexes Hans. split; intros Hex.
  - rewrite (queue_requests (projectBuilder cfg) KProject 4 5 (MapQueueToChildProjects groupOf kaiGroup) (childOfOwner KProject prjParent s) s calls e tr reqs req);
      [|by rewrite project_watches..| | |exact Hex|exact Hans].
    + rewrite project_filter_exact. cbn [asWatched FilterProjectEvent]. unfold FilterProjectEvent, skipIfOverridden.
      cbn [watchedMeta]. by destruct (IsManuallyOverridden cfg _); split; intros [H1 H2].
    + intros w Hw Hk. rewrite project_watches in Hw. each_watch Hw; try discriminate Hk; auto.
    + intros queue tr' found Hf Ha. by eapply mapQueueToChildren_exact.
  - rewrite (queue_requests departmentBuilder KDepartment 1 2 (MapQueueToChildDepartments groupOf kaiGroup) (childOfOwner KDepartment depParent s) s calls e tr reqs req);
      [|done|done| | |exact Hex|exact Hans].
    + split; [by intros [_ ?]|]. intros H. split; [apply Forall_nil_2|exact H].
    + intros w Hw Hk. unfold departmentBuilder in Hw.
      cbn [bWatches Watches addWatch Owns For bFor NewControllerManagedBy app] in Hw. each_watch Hw; try discriminate Hk; auto.
    + intros queue tr' found Hf Ha. by eapply mapQueueToChildren_exact.
Qed.

(** Requests of the project controller for an event of another kind. *)
Lemma project_request_from s K (e : WatchEvent (obj K)) tr reqs req :
  exec (deliver (projectBuilder cfg) {| nSource := s; nKind := K; nEvent := e |}) tr reqs -> req ∈ reqs ->
  exists w, w ∈ bWatches (projectBuilder cfg) /\ enqueuedBy (projectBuilder cfg) s K e tr req w.
Proof. intros Hex Hin. by apply Exists_exists, (delivered_from _ _ _ _ _ _ _ Hex). Qed.

(** Nothing from the cluster gets past the filter. *)
Lemma project_filtered K (e : WatchEvent (obj K)) tr reqs :
  exec (deliver (projectBuilder cfg) {| nSource := FromCache; nKind := K; nEvent := e |}) tr reqs ->
  FilterProjectEvent cfg (asWatched K (eventObject e)) = false -> reqs = [].
Proof.
  intros Hex Hfilter. apply no_requests.
  intros req (w & Hw & e' & o & t1 & t2 & t3 & found & Hn & (Hsrc & _ & Hfil) & _)%(project_request_from _ _ _ _ _ _ Hex).
  assert (wFiltered w = true) as Hw'.
  { rewrite project_watches in Hw. each_watch Hw; try discriminate Hsrc; done. }
  specialize (Hfil Hw'). apply project_filter_exact in Hfil.
  pose proof (notification_kind _ _ _ _ _ _ Hn) as ->. apply notification_inj in Hn as [_ ->]. congruence.
Qed.

(** The project controller does not wake itself.  An update of a project that
    leaves its generation, as the writes of its status, its labels and its
    finalizers do, leads to no request, and a deletion or an update with a new
    generation leads to exactly one, unless the project is overridden. *)
Theorem project_events_exact (e : WatchEvent Project) tr reqs req :
  exec (deliver (projectBuilder cfg) {| nSource := FromCache; nKind := KProject; nEvent := e |}) tr reqs ->
  req ∈ reqs <->
  IsManuallyOverridden cfg (prjMeta (eventObject e)) = false /\
  (forall old new, e = Updated old new -> Generation (prjMeta old) <> Generation (prjMeta new)) /\
  exists project, project ∈ eventObjects e /\ req = (Namespace (prjMeta project), Name (prjMeta project)).
Proof.
  intros Hex.
  assert (FilterProjectEvent cfg (WProject (eventObject e)) = true <-> IsManuallyOverridden cfg (prjMeta (eventObject e)) = false) as Hov.
  { unfold FilterProjectEvent, skipIfOverridden. cbn [watchedMeta]. by destruct (IsManuallyOverridden cfg _). }
  assert (GenerationChangedPredicate KProject e = true <->
    (forall old new, e = Updated old new -> Generation (prjMeta old) <> Generation (prjMeta new))) as Hgen.
  { destruct e as [o|o|old new|o].
    1,2,4: (rewrite generationChanged_others by done; by split).
    rewrite generationChanged_updates. cbn [objMeta].
    destruct (decide (Generation (prjMeta old) = Generation (prjMeta new))) as [H|H].
    - rewrite (bool_decide_true _ H). split; [done|]. intros Hne. by destruct (Hne old new eq_refl).
    - rewrite (bool_decide_false _ H). split; [|done]. by intros _ o n [= -> ->]. }
  split.
  - intros (w & Hw & e' & o & t1 & t2 & t3 & found & Hn & (Hsrc & Hown & Hfil) & Ho & -> & Hf & Hin)%(project_request_from _ _ _ _ _ _ Hex).
    pose proof (notification_kind _ _ _ _ _ _ Hn) as Hk. rewrite project_watches in Hw.
    cbn [app] in Hw. apply elem_of_cons in Hw as [->|Hw].
    + apply notification_inj in Hn as [_ <-]. destruct Hf as [_ ->]. rewrite forObject_enqueues, list_elem_of_singleton in Hin.
      specialize (Hfil eq_refl). apply (project_filter_exact KProject) in Hfil. apply Forall_cons in Hown as [Hown _].
      split; [by apply Hov|]. split; [by apply Hgen|]. by exists o.
    + exfalso. each_watch Hw; solve [discriminate Hsrc|discriminate Hk].
  - intros (Hm & Hg & project & Ho & ->).
    assert (bWatches (projectBuilder cfg) !! 0%nat
      = Some {| wSource := FromCache; wKind := KProject; wEnqueue := fun o => Ret (EnqueueRequestForObject (objMeta KProject o));
                wPredicates := [GenerationChangedPredicate]; wFiltered := true |}) as Hw by (by rewrite project_watches).
    match type of Hw with _ = Some ?w => assert (passes (projectBuilder cfg) w FromCache e) as Hp end.
    { split; [done|]. split; [apply Forall_singleton; by apply Hgen|]. intros _. apply (project_filter_exact KProject). by apply Hov. }
    destruct (delivered_to _ _ _ _ _ _ _ _ Hw Hp Ho Hex) as (t1 & t2 & t3 & found & -> & [_ ->] & Hsub).
    apply Hsub. rewrite forObject_enqueues. by left.
Qed.

(** Changes the project controller does not see.  The filter looks at the
    new object and at the prefix of a namespace: no event of a limit range in a
    namespace without the prefix leads to a request, although a project may ask
    for a namespace of any name and its limit range is owned by it; and when a
    namespace loses the label of its project, the project is not woken, although
    the mapping would have named it for the old object. *)
Theorem project_changes_unnoticed :
  (forall (e : WatchEvent LimitRange) tr reqs,
     exec (deliver (projectBuilder cfg) {| nSource := FromCache; nKind := KLimitRange; nEvent := e |}) tr reqs ->
     isProjectPrefixedNamespace cfg (Namespace (lrMeta (eventObject e))) = false -> reqs = []) /\
  (forall (old new : NamespaceObj) tr reqs,
     exec (deliver (projectBuilder cfg) {| nSource := FromCache; nKind := KNamespace; nEvent := Updated old new |}) tr reqs ->
     Labels (nsMeta new) !! NamespaceProjectLabelKey cfg = None -> reqs = []).
Proof.
  split.
  - intros e tr reqs Hex Hp. apply (project_filtered KLimitRange e tr reqs Hex).
    transitivity (if IsManuallyOverridden cfg (lrMeta (eventObject e)) then false
                  else isProjectPrefixedNamespace cfg (Namespace (lrMeta (eventObject e)))); [done|].
    rewrite Hp. by destruct (IsManuallyOverridden _ _).
  - intros old new tr reqs Hex Hl. apply (project_filtered KNamespace (Updated old new) tr reqs Hex).
    unfold FilterProjectEvent, skipIfOverridden, asWatched, eventObject, isNamespaceObjectOfProjectByLabel, getProjectNameFromNamespace, mapGet.
    rewrite Hl. by destruct (IsManuallyOverridden _ _).
Qed.

(** A change of the default limit range reaches every project.  An event of
    the config map of the default limits asks for it, the reconcile that follows
    sends one event per listed project, and each of these events, which no
    filter sees, asks for its project. *)
Theorem limit_range_change_reaches_every_project (e : WatchEvent ConfigMap) tr reqs projects project n tr' reqs' :
  Namespace (cmMeta (eventObject e)) = InstallNamespace cfg ->
  Name (cmMeta (eventObject e)) = DefaultLimitRangeConfigMapName ->
  exec (deliver (limitRangeBuilder cfg) {| nSource := FromCache; nKind := KConfigMap; nEvent := e |}) tr reqs ->
  exec ReconcileLimitRangeConfig [Event (List KProject listAll) (inr projects)] (inr (projectNames projects)) /\
  (InstallNamespace cfg, DefaultLimitRangeConfigMapName) ∈ reqs /\
  (project ∈ projects -> n = {| nSource := FromChannel; nKind := KProject; nEvent := Generic project |} ->
   n ∈ triggerEventsForAllProjects projects /\
   (exec (deliver (projectBuilder cfg) n) tr' reqs' -> (Namespace (prjMeta project), Name (prjMeta project)) ∈ reqs')).
Proof.
  intros Hns Hname Hex. split; [|split].
  - by eexists _, [].
  - assert (bWatches (limitRangeBuilder cfg) !! 0%nat
      = Some {| wSource := FromCache; wKind := KConfigMap; wEnqueue := fun o => Ret (EnqueueRequestForObject (objMeta KConfigMap o));
                wPredicates := []; wFiltered := true |}) as Hw by done.
    match type of Hw with _ = Some ?w => assert (passes (limitRangeBuilder cfg) w FromCache e) as Hp end.
    { split; [done|]. split; [apply Forall_nil_2|]. intros _. apply Forall_singleton.
      rewrite newPredicateFuncs_filters.
      transitivity ((Namespace (cmMeta (eventObject e)) ==? InstallNamespace cfg)
                    && (Name (cmMeta (eventObject e)) ==? DefaultLimitRangeConfigMapName)); [done|].
      by rewrite (bool_decide_true _ Hns), (bool_decide_true _ Hname). }
    assert (eventObject e ∈ eventObjects e) as Hobj by (destruct e; cbn; set_solver).
    destruct (delivered_to _ _ _ _ _ _ _ _ Hw Hp Hobj Hex) as (t1 & t2 & t3 & found & -> & [_ ->] & Hsub).
    apply Hsub. rewrite forObject_enqueues. apply list_elem_of_singleton. by rewrite <- Hns, <- Hname.
  - intros Hin ->. split; [apply list_elem_of_fmap; by exists project|]. intros Hex'.
    assert (bWatches (projectBuilder cfg) !! 1%nat
      = Some {| wSource := FromChannel; wKind := KProject; wEnqueue := fun p => Ret (EnqueueRequestForObject (prjMeta p));
                wPredicates := []; wFiltered := false |}) as Hw by (by rewrite project_watches).
    match type of Hw with _ = Some ?w => assert (passes (projectBuilder cfg) w FromChannel (Generic project)) as Hp end.
    { split; [done|]. split; [apply Forall_nil_2|done]. }
    assert (project ∈ eventObjects (Generic project)) as Hobj by left.
    destruct (delivered_to _ _ _ _ _ _ _ _ Hw Hp Hobj Hex') as (t1 & t2 & t3 & found & -> & [_ ->] & Hsub).
    apply Hsub. rewrite forObject_enqueues. by left.
Qed.

End ProjectController.

(** ** The operator *)

Section OperatorController.
Context {M : MetaLib} {CR : ControllerRuntime} {Laws : ControllerRuntimeLaws} (kaiGroupVersion : string).

Definition emptyRegistry : Registry := {| Initiated := []; availableKinds := [] |}.

Definition ownsWatch (K : Kind) : Watch NamespacedName :=
  {| wSource := FromCache; wKind := K; wEnqueue := fun o => Ret (EnqueueRequestForOwner KKRMConfig (objMeta K o));
     wPredicates := []; wFiltered := true |}.

Lemma krmConfig_watches r :
  bWatches (krmConfigBuilder r) =
  {| wSource := FromCache; wKind := KKRMConfig; wEnqueue := fun o => Ret (EnqueueRequestForObject (objMeta KKRMConfig o));
     wPredicates := []; wFiltered := true |}
  :: (ownsWatch ∘ cKind <$> filter (fun c => isAvailable r c = true) KRMConfigOwned).
Proof.
  unfold krmConfigBuilder, InitWithBuilder, KRMConfigOwned. cbn [fold_left]. rewrite !filter_cons, filter_nil.
  assert (forall K, isAvailable r {| cKind := K; cOptional := false |} = true) as Hreq by done. rewrite !Hreq.
  destruct (isAvailable r {| cKind := KServiceMonitor; cOptional := true |}),
           (isAvailable r {| cKind := KVerticalPodAutoscaler; cOptional := true |}); done.
Qed.

Lemma setAvailable_same c b r : cOptional c = true -> isAvailable (setAvailable c b r) c = b.
Proof.
  intros Ho. unfold isAvailable, setAvailable. rewrite Ho. cbn [negb orb availableKinds].
  destruct b; [apply bool_decide_true, elem_of_app; right; left|].
  apply bool_decide_false. rewrite app_nil_r, list_elem_of_filter. by intros [Hne _].
Qed.

Lemma setAvailable_other c c' b r : c <> c' -> isAvailable (setAvailable c b r) c' = isAvailable r c'.
Proof.
  intros Hne. unfold isAvailable, setAvailable. cbn [availableKinds]. f_equal. apply bool_decide_ext.
  rewrite elem_of_app, list_elem_of_filter. split.
  - intros [[_ H]|H]; [done|]. destruct b; [by apply list_elem_of_singleton in H as ->|by apply elem_of_nil in H].
  - intros H. left. by split; [intros ->|].
Qed.

(** What the set-up found out about a kind. *)
Definition initiatedAs (calls : list (event ManagerCall)) (c : Collectable) (available : bool) : Prop :=
  if available
  then Event (IndexField (cKind c) CollectableOwnerKey (fun o => ownerIndexer kaiGroupVersion (objMeta _ o))) (inr tt) ∈ calls
  else exists err, IsNoMatchError err = true /\ Event (RESTMapping (cKind c)) (inl err) ∈ calls.

Lemma initiatedAs_mono calls calls' c available :
  calls ⊆ calls' -> initiatedAs calls c available -> initiatedAs calls' c available.
Proof. intros Hsub. destruct available; cbn; [auto|]. intros (err & ? & ?). eauto. Qed.

Lemma InitWithManager_inv c r calls r' :
  exec (InitWithManager kaiGroupVersion c r) calls (r', inr tt) ->
  initiatedAs calls c (isAvailable r' c) /\ Initiated r' = Initiated r /\
  forall c', c <> c' -> isAvailable r' c' = isAvailable r c'.
Proof.
  unfold InitWithManager. destruct (cOptional c) eqn:Ho; cbn [negb].
  - intros (m & t & -> & Hex). destruct m as [err|[]].
    + cbn [prog_bind_] in Hex. destruct (IsNoMatchError err) eqn:Hno; [|by destruct Hex as [_ [=]]].
      destruct Hex as [-> [= ->]]. rewrite setAvailable_same by done. split; [exists err; split; [done|left]|].
      split; [done|]. intros c' Hne. by apply setAvailable_other.
    + destruct Hex as (x & t' & -> & -> & [= -> <-]). rewrite setAvailable_same by done. split; [right; left|].
      split; [done|]. intros c' Hne. by apply setAvailable_other.
  - intros (x & t & -> & -> & [= -> <-]). unfold isAvailable at 1. rewrite Ho. split; [left|done].
Qed.

Lemma addInitiated_available c c' r : isAvailable (addInitiated c r) c' = isAvailable r c'.
Proof. done. Qed.

Lemma initCollectables_inv cs r calls r' :
  NoDup cs -> (forall c, c ∈ cs -> c ∉ Initiated r) ->
  exec (initCollectables kaiGroupVersion cs r) calls (r', inr tt) ->
  (forall c, c ∈ cs -> initiatedAs calls c (isAvailable r' c)) /\
  (forall c, c ∉ cs -> isAvailable r' c = isAvailable r c).
Proof.
  revert r calls. induction cs as [|c cs IH]; intros r calls Hnd Hnew Hex.
  { destruct Hex as [-> [= ->]]. split; [intros c Hc; by apply elem_of_nil in Hc|done]. }
  apply NoDup_cons in Hnd as [Hc Hnd]. cbn [initCollectables] in Hex.
  rewrite bool_decide_false in Hex by (apply Hnew; left).
  apply exec_bind_inv in Hex as (t1 & t2 & [r1 [err|[]]] & -> & Hinit & Hex); [by destruct Hex as [_ [=]]|].
  apply InitWithManager_inv in Hinit as (Hini & Hsame & Hother).
  destruct (IH (addInitiated c r1) t2 Hnd) as [Hin Hout]; [|exact Hex|].
  { intros c' Hc'. cbn [addInitiated Initiated]. rewrite Hsame. intros [Hi|Hi%list_elem_of_singleton]%elem_of_app; [|by subst].
    apply (Hnew c'); [by right|done]. }
  split.
  - intros c' [->|Hc']%elem_of_cons.
    + rewrite (Hout _ Hc), addInitiated_available. eapply initiatedAs_mono; [|exact Hini]. intros x Hx. apply elem_of_app. by left.
    + eapply initiatedAs_mono; [|by apply Hin]. intros x Hx. apply elem_of_app. by right.
  - intros c' [Hne Hc']%not_elem_of_cons. rewrite (Hout _ Hc'), addInitiated_available. by apply Hother.
Qed.

(** A call of the collection: a list by owner of an indexed kind. *)
Definition listsIndexed (calls : list (event ManagerCall)) (owner : KRMConfig) : forall X, KubeCall X -> Prop := fun _ c =>
  match c with
  | List K opts =>
      loFieldSelector opts = Some (CollectableOwnerKey, ReconcilerKey owner) /\
      Event (IndexField K CollectableOwnerKey (fun o => ownerIndexer kaiGroupVersion (objMeta _ o))) (inr tt) ∈ calls
  | _ => False
  end.

(** The operator lists only what it has indexed.  When its set-up succeeds,
    every kind it may own is either indexed by owner and watched, or was unknown
    to the cluster, in which case it is neither; the collection of the owned
    objects, whatever the API answers, only lists kinds that are indexed, by the
    indexed field. *)
Theorem collected_kinds_are_indexed calls r :
  exec (SetupKRMConfigReconciler kaiGroupVersion emptyRegistry) calls (r, inr tt) ->
  Event (Complete _ (krmConfigBuilder r)) (inr tt) ∈ calls /\
  (forall c, c ∈ KRMConfigOwned ->
     initiatedAs calls c (isAvailable r c) /\
     (cKind c ∈ wKind <$> bWatches (krmConfigBuilder r) <-> isAvailable r c = true)) /\
  (forall owner collect, collect ∈ collectablesOf r owner -> issues (listsIndexed calls owner) collect).
Proof.
  unfold SetupKRMConfigReconciler. intros (t1 & t2 & [r1 [err|[]]] & -> & Hinit & Hex)%exec_bind_inv; [by destruct Hex as [_ [=]]|].
  apply exec_bind_inv in Hex as (t3 & t4 & x & -> & (x' & t & -> & -> & ->) & [-> [= -> <-]]).
  apply initCollectables_inv in Hinit as [Hini _]; [|by apply (bool_decide_unpack _)|intros c _ Hc; by apply elem_of_nil in Hc].
  assert (forall c, c ∈ KRMConfigOwned -> initiatedAs (t1 ++ [Event (Complete _ (krmConfigBuilder r1)) (inr tt)]) c (isAvailable r1 c)) as Hc.
  { intros c Hc. eapply initiatedAs_mono; [|by apply Hini]. intros e He. apply elem_of_app. by left. }
  rewrite app_nil_r. split; [apply elem_of_app; right; left|]. split.
  - intros c Hin. split; [by apply Hc|]. rewrite krmConfig_watches, fmap_cons, elem_of_cons.
    rewrite <- list_fmap_compose. split.
    + intros [He|(c' & He & [Ha Hin']%list_elem_of_filter)%list_elem_of_fmap].
      * exfalso. unfold KRMConfigOwned in Hin. each_watch Hin; discriminate He.
      * unfold KRMConfigOwned in Hin, Hin'. each_watch Hin; each_watch Hin'; try discriminate He; exact Ha.
    + intros Ha. right. apply list_elem_of_fmap. exists c. split; [done|]. by apply list_elem_of_filter.
  - intros owner collect Hcol. unfold collectablesOf, collectables in Hcol.
    assert (forall (K : Kind) wrap, initiatedAs (t1 ++ [Event (Complete _ (krmConfigBuilder r1)) (inr tt)]) {| cKind := K; cOptional := false |} true ->
      issues (listsIndexed (t1 ++ [Event (Complete _ (krmConfigBuilder r1)) (inr tt)]) owner) (collectKind (K := K) wrap owner)) as Hlist.
    { intros K wrap Hix. split; [by split|]. done. }
    assert (forall (K : Kind) wrap, {| cKind := K; cOptional := true |} ∈ KRMConfigOwned ->
      issues (listsIndexed (t1 ++ [Event (Complete _ (krmConfigBuilder r1)) (inr tt)]) owner)
        (collectOptional (K := K) (isAvailable r1 {| cKind := K; cOptional := true |}) wrap owner)) as Hopt.
    { intros K wrap Hin. specialize (Hc _ Hin). unfold collectOptional.
      destruct (isAvailable r1 _); [|done]. by apply Hlist. }
    each_watch Hcol;
      [match goal with |- issues _ (collectKind (K := ?K) _ _) => apply Hlist, (Hc {| cKind := K; cOptional := false |}) end..
      |apply Hopt|apply Hopt]; by apply (bool_decide_unpack _).
Qed.

(** An event of an object of a watched kind leads to a request for its owner. *)
Lemma owned_event_wakes r krmConfig (c : Collectable) (e : WatchEvent (obj (cKind c))) o tr reqs :
  (forall m owner, OwnerReferences m = [owner] -> OwnerController owner = Some true -> GetControllerOf m = Some owner) ->
  groupOf kaiGroupVersion = Some kaiGroup ->
  c ∈ KRMConfigOwned -> isAvailable r c = true ->
  exec (deliver (krmConfigBuilder r) {| nSource := FromCache; nKind := cKind c; nEvent := e |}) tr reqs ->
  o ∈ eventObjects e -> OwnerReferences (objMeta _ o) = [reconcilerAsOwnerReference kaiGroupVersion krmConfig] ->
  ("", Name (krmMeta krmConfig)) ∈ reqs.
Proof.
  intros Hctl Hgroup Hc Ha Hex Ho Hrefs.
  assert (ownsWatch (cKind c) ∈ bWatches (krmConfigBuilder r)) as Hw.
  { rewrite krmConfig_watches. right. apply list_elem_of_fmap. exists c. split; [done|]. by apply list_elem_of_filter. }
  assert (passes (krmConfigBuilder r) (ownsWatch (cKind c)) FromCache e) as Hp.
  { split; [done|]. split; [apply Forall_nil_2|]. intros _.
    assert (bEventFilters (krmConfigBuilder r) = []) as ->; [|apply Forall_nil_2].
    unfold krmConfigBuilder, InitWithBuilder. cbn [fold_left KRMConfigOwned]. by repeat case_match. }
  destruct (deliver_complete _ _ (ownsWatch (cKind c)) _ e o _ _ Hw Hp Ho Hex) as (t1 & t2 & t3 & found & -> & [_ ->] & Hsub).
  apply Hsub, forOwner_enqueues. exists (reconcilerAsOwnerReference kaiGroupVersion krmConfig).
  split; [by apply Hctl|]. by split.
Qed.

(** What the set-up of the operator leaves: a kind that was not found unknown to
    the cluster is available. *)
Lemma SetupKRMConfigReconciler_available calls r c :
  exec (SetupKRMConfigReconciler kaiGroupVersion emptyRegistry) calls (r, inr tt) -> c ∈ KRMConfigOwned ->
  (forall err, Event (RESTMapping (cKind c)) (inl err) ∈ calls -> IsNoMatchError err = false) -> isAvailable r c = true.
Proof.
  unfold SetupKRMConfigReconciler. intros (t1 & t2 & [r1 [err|[]]] & -> & Hinit & Hex)%exec_bind_inv Hc Hknown; [by destruct Hex as [_ [=]]|].
  apply exec_bind_inv in Hex as (t3 & t4 & x & -> & _ & [-> [= -> _]]).
  apply initCollectables_inv in Hinit as [Hini _]; [|by apply (bool_decide_unpack _)|intros c' _ Hc'; by apply elem_of_nil in Hc'].
  specialize (Hini c Hc). destruct (isAvailable r1 c); [done|]. destruct Hini as (err & Hno & Hin).
  rewrite (Hknown err) in Hno; [done|]. apply elem_of_app. by left.
Qed.

(** The event is the creation or the update of an object. *)
Definition wrote (K : Kind) (o : obj K) (tr : list (event KubeCall)) : Prop :=
  exists reply : result (obj K), Event (Create K o) reply ∈ tr \/ Event (Update K o) reply ∈ tr.

(** C32: Drift wakes the operator.  When the operator was set up, every object that
    a deployment creates or updates, of whatever kind, has the configuration as
    its only owner; and every event of an object of that kind with that owner, an
    edit or a removal by hand for instance, leads to a request for the
    configuration.  A kind that the cluster did not know when the operator was
    set up (the service monitors and the pod autoscalers are optional) is not
    watched. *)
Theorem drift_wakes_the_operator {KC : OperatorConfig.KaiCommon} {Y : OperandResources.YamlLib} getSetsTypeMeta errorText rangeOrder
    calls r operands krmConfig trD rD (K : Kind) (written : obj K) (e : WatchEvent (obj K)) o tr reqs :
  (forall m owner, OwnerReferences m = [owner] -> OwnerController owner = Some true -> GetControllerOf m = Some owner) ->
  groupOf kaiGroupVersion = Some kaiGroup ->
  exec (SetupKRMConfigReconciler kaiGroupVersion emptyRegistry) calls (r, inr tt) ->
  Forall (fun op => op.1 ∈ DeployFacts.services getSetsTypeMeta errorText) operands ->
  exec (Deploy rangeOrder kaiGroupVersion (isAvailable r {| cKind := KServiceMonitor; cOptional := true |})
          (isAvailable r {| cKind := KVerticalPodAutoscaler; cOptional := true |}) operands krmConfig) trD rD ->
  wrote K written trD ->
  OwnerReferences (objMeta K written) = [reconcilerAsOwnerReference kaiGroupVersion krmConfig] /\
  ((forall err, Event (RESTMapping K) (inl err) ∈ calls -> IsNoMatchError err = false) ->
   o ∈ eventObjects e -> OwnerReferences (objMeta K o) = OwnerReferences (objMeta K written) ->
   exec (deliver (krmConfigBuilder r) {| nSource := FromCache; nKind := K; nEvent := e |}) tr reqs ->
   ("", Name (krmMeta krmConfig)) ∈ reqs).
Proof.
  intros Hctl Hgroup Hsetup Hops Hdeploy (reply & Hwrote).
  pose proof (DeployFacts.Deploy_writes_owned _ _ _ _ _ _ _ _ _ _ Hops Hdeploy) as Howned. rewrite Forall_forall in Howned.
  assert (OwnerReferences (objMeta K written) = [reconcilerAsOwnerReference kaiGroupVersion krmConfig]
    /\ is_Some (DeployFacts.asObject K written)) as [Hrefs Hkind] by (destruct Hwrote as [Hw|Hw]; exact (Howned _ Hw)).
  split; [done|]. intros Hknown Ho Hsame Hex. rewrite Hrefs in Hsame.
  assert (forall optional, {| cKind := K; cOptional := optional |} ∈ KRMConfigOwned -> ("", Name (krmMeta krmConfig)) ∈ reqs) as Hwakes.
  { intros optional Hin. apply (owned_event_wakes r krmConfig {| cKind := K; cOptional := optional |} e o tr reqs); try done.
    by apply (SetupKRMConfigReconciler_available calls). }
  destruct K; try (by destruct Hkind); first [apply (Hwakes false); by apply (bool_decide_unpack _)|apply (Hwakes true); by apply (bool_decide_unpack _)].
Qed.

End OperatorController.

(** ** Pod groups *)

Section PodGroupController.
Context {L : LabelsLib} {M : MetaLib} {CR : ControllerRuntime} {Laws : ControllerRuntimeLaws} (cfg : PodGroupAssignerConfig).

(** The pod groups of a node pool, by the selector of its label. *)
Definition podGroupOf (s : store) (nodePoolName : string) (req : NamespacedName) : Prop :=
  exists requirement key podGroup,
    GetNodePoolLabelSelector nodePoolName (Assigner.NodePoolLabelKey cfg) (Assigner.DefaultNodepoolName cfg) = inr requirement /\
    s KPodGroup !! key = Some podGroup /\ requirementHolds requirement (Labels (pgMeta podGroup)) = true /\
    req = (Namespace (pgMeta podGroup), Name (pgMeta podGroup)).

Lemma MapNodePool_exact calls s nodePoolName tr found req :
  exec (MapNodePoolToPodGroupEvent cfg nodePoolName) tr found -> Forall (answeredFrom calls s) tr ->
  req ∈ found <-> podGroupOf s nodePoolName req.
Proof.
  unfold MapNodePoolToPodGroupEvent, podGroupOf. intros Hex Hall.
  destruct (GetNodePoolLabelSelector _ _ _) as [err|requirement].
  { destruct Hex as [_ ->]. rewrite elem_of_nil. split; [done|]. by intros (? & ? & ? & [=] & _). }
  destruct Hex as (r & t & -> & Hex). apply Forall_cons in Hall as [(items & -> & Hitems) _]. destruct Hex as [_ ->].
  assert (forall pg, selected {| loNamespace := ""; loLabelSelector := [requirement]; loMatchingLabels := ∅; loFieldSelector := None |} (pgMeta pg)
    = requirementHolds requirement (Labels (pgMeta pg))) as Hsel.
  { intros pg. unfold selected. cbn [loNamespace loLabelSelector loMatchingLabels forallb].
    rewrite map_to_list_empty. cbn [forallb]. by rewrite !andb_true_r. }
  rewrite list_elem_of_fmap. split.
  - intros (pg & -> & ((key & Hkey) & Hs & _)%Hitems). exists requirement, key, pg. by rewrite <- Hsel.
  - intros (requirement' & key & pg & [= <-] & Hkey & Hh & ->). exists pg. split; [done|]. apply Hitems.
    split; [by exists key|]. split; [by rewrite <- Hh, <- Hsel|done].
Qed.

(** A node pool that can no longer take work wakes its pod groups.  An event
    of a node pool leads to requests exactly when the pool, as it is after the
    event, is being deleted or is unschedulable, and then for exactly the pod
    groups that the selector of the pool's label selects. *)
Theorem unusable_pools_wake_their_pod_groups calls s (e : WatchEvent NodePool) tr reqs req :
  exec (deliver (podGroupBuilder cfg) {| nSource := FromCache; nKind := KNodePool; nEvent := e |}) tr reqs ->
  Forall (answeredFrom calls s) tr ->
  req ∈ reqs <->
  (npPhase (eventObject e) = NodePoolDeleting \/ npPhase (eventObject e) = NodePoolUnschedulable) /\
  exists nodePool, nodePool ∈ eventObjects e /\ podGroupOf s (Name (npMeta nodePool)) req.
Proof.
  intros Hex Hans.
  assert (NewPredicateFuncs FilterPodGroupControllerEvents KNodePool e = true <->
    npPhase (eventObject e) = NodePoolDeleting \/ npPhase (eventObject e) = NodePoolUnschedulable) as Hfilter.
  { rewrite newPredicateFuncs_filters.
    transitivity ((npPhase (eventObject e) ==? NodePoolDeleting) || (npPhase (eventObject e) ==? NodePoolUnschedulable) = true); [done|].
    by rewrite orb_true_iff, !bool_decide_eq_true. }
  split.
  - intros H%(delivered_from _ _ _ _ _ _ _ Hex). unfold podGroupBuilder in H.
    cbn [bWatches Watches addWatch WithEventFilter For bFor NewControllerManagedBy app] in H. from_watches H.
    apply notification_inj in Hn as [_ <-]. destruct Hp as (_ & _ & Hfil). specialize (Hfil eq_refl).
    apply Forall_cons in Hfil as [Hfil _]. split; [by apply Hfilter|]. exists o. split; [done|].
    rewrite Htr in Hans. apply Forall_middle in Hans. by apply (MapNodePool_exact calls s _ t2 found).
  - intros (Hphase & nodePool & Ho & Hpg).
    assert (bWatches (podGroupBuilder cfg) !! 1%nat
      = Some {| wSource := FromCache; wKind := KNodePool;
                wEnqueue := fun nodePool => MapNodePoolToPodGroupEvent cfg (Name (npMeta nodePool));
                wPredicates := []; wFiltered := true |}) as Hw by done.
    match type of Hw with _ = Some ?w => assert (passes (podGroupBuilder cfg) w FromCache e) as Hp end.
    { split; [done|]. split; [apply Forall_nil_2|]. intros _. apply Forall_singleton. by apply Hfilter. }
    destruct (delivered_to _ _ _ _ _ _ _ _ Hw Hp Ho Hex) as (t1 & t2 & t3 & found & -> & Hf & Hsub).
    apply Hsub. apply (MapNodePool_exact calls s _ t2 found) in Hpg; [done|exact Hf|by eapply Forall_middle].
Qed.

End PodGroupController.
