(* ===== verification/WatchExamples.v ===== *)
(** * Examples of what wakes the controllers

    A delivery of events that has the documented behaviour, and the theorems of
    [WatchFacts.v] on concrete clusters. *)

From stdpp Require Import base list gmap strings.
From S2P Require Import Prelude ApiTypes ControllerRuntime NodePoolUtils NodePoolCommon Assigner AssignerFacts.
From S2P Require Import ProjectCommon ProjectReconciler QueueFacts Nodes ManagedNodes TopologyController NodePools NodeFacts NodePoolFacts.
From S2P Require Import Operands Deployable Watches WatchFacts.
From S2P Require CommandLineFacts DeployFacts.

(** ** A delivery that obeys the laws *)

Fixpoint collectAll {R} (ps : list (kube (list R))) : kube (list R) :=
  match ps with
  | [] => Ret []
  | p :: ps => r <- p ;; rs <- collectAll ps ;; Ret (r ++ rs)
  end.

Lemma collectAll_sound {R} (ps : list (kube (list R))) tr reqs req :
  exec (collectAll ps) tr reqs -> req ∈ reqs ->
  exists p tr1 tr2 tr3 found, p ∈ ps /\ tr = tr1 ++ tr2 ++ tr3 /\ exec p tr2 found /\ req ∈ found.
Proof.
  revert tr reqs. induction ps as [|p ps IH]; intros tr reqs Hex Hin.
  { destruct Hex as [_ ->]. by apply elem_of_nil in Hin. }
  apply exec_bind_inv in Hex as (t1 & t2 & r & -> & Hp & Hex).
  apply exec_bind_inv in Hex as (t3 & t4 & rs & -> & Hps & [-> ->]). apply elem_of_app in Hin as [Hin|Hin].
  - exists p, [], t1, (t3 ++ []), r. split; [left|]. by split.
  - destruct (IH _ _ Hps Hin) as (p' & a & b & c & found & Hp' & -> & Hex & Hf).
    exists p', (t1 ++ a), b, (c ++ []), found. split; [by right|]. split; [by rewrite <- !app_assoc|done].
Qed.

Lemma collectAll_complete {R} (ps : list (kube (list R))) p tr reqs :
  exec (collectAll ps) tr reqs -> p ∈ ps ->
  exists tr1 tr2 tr3 found, tr = tr1 ++ tr2 ++ tr3 /\ exec p tr2 found /\ (forall req, req ∈ found -> req ∈ reqs).
Proof.
  revert tr reqs. induction ps as [|q ps IH]; intros tr reqs Hex Hin; [by apply elem_of_nil in Hin|].
  apply exec_bind_inv in Hex as (t1 & t2 & r & -> & Hq & Hex).
  apply exec_bind_inv in Hex as (t3 & t4 & rs & -> & Hps & [-> ->]). apply elem_of_cons in Hin as [->|Hin].
  - exists [], t1, (t3 ++ []), r. split; [done|]. split; [done|]. intros req Hr. apply elem_of_app. by left.
  - destruct (IH _ _ Hps Hin) as (a & b & c & found & -> & Hex & Hsub).
    exists (t1 ++ a), b, (c ++ []), found. split; [by rewrite <- !app_assoc|]. split; [done|].
    intros req Hr. apply elem_of_app. right. by apply Hsub.
Qed.

(** [passes] as a test. *)
Definition passesb {R} (b : Builder R) (w : Watch R) (s : Source) (e : WatchEvent (obj (wKind w))) : bool :=
  bool_decide (wSource w = s) && forallb (fun p : Predicate => p _ e) (wPredicates w)
  && (negb (wFiltered w) || forallb (fun p : Predicate => p _ e) (bEventFilters b)).

Lemma passesb_exact {R} (b : Builder R) w s e : passesb b w s e = true <-> passes b w s e.
Proof.
  unfold passesb, passes. rewrite !andb_true_iff, orb_true_iff, bool_decide_eq_true, negb_true_iff.
  rewrite !forallb_forall, !List.Forall_forall. destruct (wFiltered w).
  - split; [|by intros (? & ? & H); auto]. intros [[? ?] [[=]|?]]. auto.
  - split; [by intros [[? ?] _]|]. intros (? & ? & _). auto.
Qed.

Definition programsOf {R} (b : Builder R) (n : Notification) (w : Watch R) : list (kube (list R)) :=
  match decide (nKind n = wKind w) with
  | left same =>
      let e := eq_rect (nKind n) (fun K => WatchEvent (obj K)) (nEvent n) (wKind w) same in
      if passesb b w (nSource n) e then wEnqueue w <$> eventObjects e else []
  | right _ => []
  end.

#[export] Instance demoRuntime : ControllerRuntime := {|
  NewPredicateFuncs := fun f K e => f K (eventObject e);
  GenerationChangedPredicate := fun K e =>
    match e with Updated old new => Generation (objMeta K old) !=? Generation (objMeta K new) | _ => true end;
  EnqueueRequestForObject := fun m => [(Namespace m, Name m)];
  EnqueueRequestForOwner := fun K m =>
    match GetControllerOf m with
    | Some owner =>
        if (OwnerKind owner ==? ownerKindName K) && bool_decide (groupOf (OwnerAPIVersion owner) = Some kaiGroup)
        then [("", OwnerName owner)] else []
    | None => []
    end;
  deliver := fun R b n => collectAll (mjoin (programsOf b n <$> bWatches b));
  callsAddFunc := fun A f e =>
    match e with Created o => f o | Updated old new => f new && negb (f old) | _ => false end;
|}.


#[export] Instance demoRuntimeLaws : ControllerRuntimeLaws.
Proof.
  split; try done.
  - intros K e Hne. destruct e as [o|o|old new|o]; try done. by destruct (Hne old new).
  - intros K m req. cbn [EnqueueRequestForOwner demoRuntime]. destruct (GetControllerOf m) as [owner|].
    2: { rewrite elem_of_nil. split; [done|]. by intros (? & [=] & _). }
    destruct (decide (OwnerKind owner = ownerKindName K)) as [Hk|Hk];
      [rewrite (bool_decide_true _ Hk)|rewrite (bool_decide_false _ Hk)]; cbn [andb].
    2: { rewrite elem_of_nil. split; [done|]. by intros (? & [= <-] & ? & _). }
    destruct (decide (groupOf (OwnerAPIVersion owner) = Some kaiGroup)) as [Hg|Hg];
      [rewrite (bool_decide_true _ Hg)|rewrite (bool_decide_false _ Hg)].
    2: { rewrite elem_of_nil. split; [done|]. by intros (? & [= <-] & _ & ? & _). }
    rewrite list_elem_of_singleton. split; [intros ->; eauto|]. by intros (? & [= <-] & _ & _ & ->).
  - intros R b n tr reqs req Hex Hin. destruct (collectAll_sound _ _ _ _ Hex Hin) as (p & t1 & t2 & t3 & found & Hp & Ht & Hf & Hr).
    apply list_elem_of_join in Hp as (l & Hp & (w & -> & Hw)%list_elem_of_fmap). unfold programsOf in Hp.
    destruct (decide (nKind n = wKind w)) as [same|]; [|by apply elem_of_nil in Hp].
    destruct n as [s K e]. cbn [nKind nSource nEvent] in *. destruct w as [src K' enq preds filt]. cbn [wKind] in *.
    destruct same. cbn [eq_rect] in Hp. destruct (passesb _ _ _ _) eqn:Hpass; [|by apply elem_of_nil in Hp].
    apply list_elem_of_fmap in Hp as (o & -> & Ho). apply passesb_exact in Hpass.
    exists {| wSource := src; wKind := K; wEnqueue := enq; wPredicates := preds; wFiltered := filt |}, e, o, t1, t2, t3, found.
    exact (conj Hw (conj eq_refl (conj Hpass (conj Ho (conj Ht (conj Hf Hr)))))).
  - intros R b w s e o tr reqs Hw Hpass Ho Hex. eapply collectAll_complete; [exact Hex|].
    apply list_elem_of_join. exists (programsOf b {| nSource := s; nKind := wKind w; nEvent := e |} w).
    split; [|apply list_elem_of_fmap; by exists w].
    unfold programsOf. cbn [nKind nSource nEvent]. destruct (decide (wKind w = wKind w)) as [same|]; [|done].
    rewrite <- (Eqdep_dec.eq_rect_eq_dec Kind_eq_dec). apply passesb_exact in Hpass. rewrite Hpass.
    apply list_elem_of_fmap. by exists o.
Qed.

(** Reads that the in-memory server answers as the cache would. *)
Definition plainRead (calls : list (event ManagerCall)) (s : store) {X} (c : KubeCall X) : Prop :=
  match c with
  | Get _ _ => True
  | List K opts =>
      match loFieldSelector opts with
      | Some (field, value) => forall key o, s K !! key = Some o -> value ∈ indexedValues calls K field o
      | None => True
      end
  | _ => False
  end.

Lemma memServer_answers {A} calls s (p : kube A) :
  Forall (fun e => plainRead calls s (ev_call e)) (run_trace memServer p s) ->
  Forall (answeredFrom calls s) (run_trace memServer p s).
Proof.
  induction p as [a|X c k IH]; [done|]. cbn [run_trace].
  destruct (memServer X c s) as [x s'] eqn:Hc. intros [Hp Hall]%Forall_cons. cbn [ev_call] in Hp.
  assert (s' = s /\ answeredFrom calls s (Event c x)) as [-> Hx].
  { destruct c; cbn in Hc; try done; injection Hc as <- <-; (split; [done|]).
    - cbn. by destruct (s K !! key).
    - cbn [answeredFrom]. eexists. split; [done|]. intros o. rewrite list_elem_of_filter, list_elem_of_fmap. split.
      + intros (Hsel & [key o'] & -> & Hin%elem_of_map_to_list). split; [by exists key|]. split; [done|].
        cbn [plainRead] in Hp. destruct (loFieldSelector opts) as [[field value]|]; [|done]. by apply (Hp key).
      + intros ((key & Hkey) & Hsel & _). split; [done|]. exists (key, o). split; [done|]. by apply elem_of_map_to_list. }
  constructor; [done|]. by apply IH.
Qed.

(** The reads without a field selector, decided. *)
Definition unindexedRead (e : event KubeCall) : bool :=
  match e with
  | Event (Get _ _) _ => true
  | Event (List _ opts) _ => bool_decide (loFieldSelector opts = None)
  | _ => false
  end.

Lemma memServer_unindexed {A} calls s (p : kube A) :
  forallb unindexedRead (run_trace memServer p s) = true -> Forall (answeredFrom calls s) (run_trace memServer p s).
Proof.
  rewrite forallb_forall. intros Hall. apply memServer_answers. apply Forall_forall. intros [X c x] Hin%list_elem_of_In%Hall.
  destruct c; try done. cbn in *. apply bool_decide_eq_true in Hin. by rewrite Hin.
Qed.

Definition demoTrace {R} (b : Builder R) (n : Notification) (s : store) : list (event KubeCall) := run_trace memServer (deliver b n) s.
Definition demoRequests {R} (b : Builder R) (n : Notification) (s : store) : list R := (run memServer (deliver b n) s).1.

Lemma demo_exec {R} (b : Builder R) n s : exec (deliver b n) (demoTrace b n s) (demoRequests b n s).
Proof. apply run_exec. Qed.
#[export] Hint Resolve demo_exec : krm.

(** *** Node pools *)

Definition poolStore : store :=
  store_add (K := KNodePool) (demoPool "a" NodePoolReady) (store_add (K := KNodePool) (demoPool "b" NodePoolReady) emptyStore).

Definition nodeIn (pool : string) : Node := demoNode "n1" {["kai/node-pool" := pool]}.
Definition nodeMove : WatchEvent Node := Updated (nodeIn "a") (nodeIn "b").
Definition poolWatches := nodePoolBuilder demoNpcConfig false false.
Definition moved : Notification := {| nSource := FromCache; nKind := KNode; nEvent := nodeMove |}.

Lemma nodeMove_seen old new : nodeMove = Updated old new -> nodeLabels old <> nodeLabels new.
Proof. intros [= <- <-] H. discriminate (f_equal (fun m => m !! "kai/node-pool") H). Qed.

Lemma poolStore_tracks node :
  nodePoolNameOfLabels demoNpcConfig (nodeLabels node) <> "excluded" -> tracked demoNpcConfig poolStore node.
Proof. intros H. split; [exact H|]. intros key shard Hk. vm_compute in Hk. by destruct key. Qed.

Lemma node_events_wake_its_pools_witness :
  poolOfNode demoNpcConfig poolStore (nodeIn "a") = "a" /\ poolOfNode demoNpcConfig poolStore (nodeIn "b") = "b" /\
  requestFor (poolOfNode demoNpcConfig poolStore (nodeIn "a")) ∈ demoRequests poolWatches moved poolStore /\
  requestFor (poolOfNode demoNpcConfig poolStore (nodeIn "b")) ∈ demoRequests poolWatches moved poolStore.
Proof.
  assert (Forall (answeredFrom [] poolStore) (demoTrace poolWatches moved poolStore)) as Hall
    by (apply memServer_unindexed; vm_compute; reflexivity).
  split; [vm_compute; reflexivity|]. split; [vm_compute; reflexivity|].
  split; apply (node_events_wake_its_pools demoNpcConfig false false [] poolStore nodeMove (demoTrace poolWatches moved poolStore)).
  - intros old new H. left. by apply nodeMove_seen.
  - apply demo_exec.
  - exact Hall.
  - left.
  - apply poolStore_tracks. vm_compute. discriminate.
  - intros old new H. left. by apply nodeMove_seen.
  - apply demo_exec.
  - exact Hall.
  - right. left.
  - apply poolStore_tracks. vm_compute. discriminate.
Defined.

Definition demoNrt (zones : list string) : NodeResourceTopology :=
  {| nrtMeta := named "n1"; nrtAttributes := []; nrtZoneTypes := zones |}.
Definition nrtStore : store := store_add (K := KNode) (nodeIn "a") poolStore.
Definition nrtWatches := nodePoolBuilder demoNpcConfig false true.
Definition nrtUpdated : Notification :=
  {| nSource := FromCache; nKind := KNodeResourceTopology; nEvent := Updated (demoNrt []) (demoNrt ["Node"]) |}.
Definition nrtCreated : Notification := {| nSource := FromCache; nKind := KNodeResourceTopology; nEvent := Created (demoNrt []) |}.

Lemma nrt_updates_wake_no_pool_witness :
  demoRequests nrtWatches nrtUpdated nrtStore = [] /\
  requestFor (poolOfNode demoNpcConfig nrtStore (nodeIn "a")) ∈ demoRequests nrtWatches nrtCreated nrtStore.
Proof.
  split.
  - apply (proj1 (nrt_updates_wake_no_pool demoNpcConfig false) (demoNrt []) (demoNrt ["Node"]) (demoTrace nrtWatches nrtUpdated nrtStore)).
    apply demo_exec.
  - apply (proj2 (nrt_updates_wake_no_pool demoNpcConfig false) [] nrtStore (demoNrt []) (nodeIn "a") (demoTrace nrtWatches nrtCreated nrtStore)).
    + apply demo_exec.
    + apply memServer_unindexed. vm_compute. reflexivity.
    + vm_compute. reflexivity.
    + split; [vm_compute; discriminate|]. intros key shard Hk. vm_compute in Hk. by destruct key.
Defined.

(** A manager whose calls succeed. *)
Definition demoManager : Prelude.handler ManagerCall store := fun X c =>
  match c in ManagerCall X return store -> X * store with
  | Reader c => fun s => memServer _ c s
  | WaitForCacheSync | WaitForNamedCacheSync _ => fun s => (true, s)
  | NewManager _ | NewCache | AddNodeEventHandler | IndexField _ _ _ | Complete _ _ | RESTMapping _ | GetInformer _ | ExitOnAdd _
  | AddWebhookServer _ _ _ | AddWebhookFor _ | AddHealthzCheck | AddReadyzCheck | StartManager => fun s => (inr tt, s)
  end.

Definition nodePoolSetup := run_trace demoManager (SetupNodePoolController demoNpcConfig) emptyStore.

Lemma nodePoolSetup_exec : exec (SetupNodePoolController demoNpcConfig) nodePoolSetup (inr (false, false)).
Proof.
  change (inr (false, false)) with (run demoManager (SetupNodePoolController demoNpcConfig) emptyStore).1. apply run_exec.
Qed.

Lemma nrt_watched_or_awaited_witness :
  Event (Complete _ poolWatches) (inr tt) ∈ nodePoolSetup /\
  (KNodeResourceTopology ∈ wKind <$> bWatches poolWatches <-> isEstablished emptyStore nrtCRDName = true) /\
  (KServiceMonitor ∈ wKind <$> bWatches poolWatches <-> isEstablished emptyStore serviceMonitorCRDName = true) /\
  (isEstablished emptyStore nrtCRDName = false ->
     Event (ExitOnAdd isEstablishedNrtCRD) (inr tt) ∈ nodePoolSetup /\
     forall versions, existsb (callsAddFunc isEstablishedNrtCRD) (historyEvents versions)
                      = existsb isEstablishedNrtCRD versions).
Proof.
  apply (nrt_watched_or_awaited demoNpcConfig nodePoolSetup (false, false) emptyStore nodePoolSetup_exec).
  unfold nodePoolSetup. cbn. repeat constructor.
Defined.

(** A project gives up a node pool that is being deleted. *)
Definition dyingStore : store := store_add (K := KNodePool) (demoPool "a" NodePoolDeleting) emptyStore.
Definition projectWith (pools : list string) : Project :=
  {| prjMeta := named "p"; prjParent := ""; prjNamespace := ""; prjQueues := demoSpecQueue <$> pools; DefaultNodePools := [];
     EnforceKaiScheduler := false; prjDeletionType := None; prjStatus := prjStatus (demoProject "p" "" "") |}.
Definition release : WatchEvent Project := Updated (projectWith ["a"]) (projectWith []).
Definition released : Notification := {| nSource := FromCache; nKind := KProject; nEvent := release |}.

Lemma released_references_wake_deleting_pools_witness :
  requestFor "a" ∈ demoRequests poolWatches released dyingStore.
Proof.
  apply (released_references_wake_deleting_pools demoNpcConfig nodePoolSetup (false, false) dyingStore release
           (demoTrace poolWatches released dyingStore) _ ("", "a") (demoPool "a" NodePoolDeleting)).
  - apply nodePoolSetup_exec.
  - intros old new [= <- <-] H. apply (f_equal (fun m => bool_decide ("a" ∈ m))) in H. by vm_compute in H.
  - apply demo_exec.
  - apply memServer_answers.
    assert (forall key o, dyingStore KNodePool !! key = Some o ->
              "true" ∈ indexedValues nodePoolSetup KNodePool IsDeletingPhaseField o) as Hix.
    { intros key o Ho. rewrite (setup_indexes _ _ _ _ nodePoolSetup_exec).
      change (({[("", "a") := demoPool "a" NodePoolDeleting]} : gmap NamespacedName NodePool) !! key = Some o) in Ho.
      apply lookup_singleton_Some in Ho as [_ <-]. left. }
    match goal with |- Forall _ ?t => let t' := eval vm_compute in t in change t with t' end.
    repeat (apply Forall_cons; split); [exact Hix|exact Hix|apply Forall_nil_2].
  - vm_compute. reflexivity.
  - right. vm_compute. reflexivity.
Defined.

(** *** Projects and departments *)

Definition departmentSetup := run_trace demoManager SetupDepartmentReconciler emptyStore.

Lemma departmentSetup_exec : exec SetupDepartmentReconciler departmentSetup (inr tt).
Proof. change (inr tt) with (run demoManager SetupDepartmentReconciler emptyStore).1. apply run_exec. Qed.

(** Project x of department p, and the queue of the department. *)
Definition familyStore : store := store_add (K := KProject) (demoProject "x" "uid-x" "p") emptyStore.
Definition projectWatches := projectBuilder demoProjectConfig.
Definition queueAdded : Notification := {| nSource := FromCache; nKind := KQueue; nEvent := Created (demoDeptQueue : obj KQueue) |}.

Lemma familyStore_indexed key o : familyStore KProject !! key = Some o ->
  "p" ∈ indexedValues departmentSetup KProject ProjectDepartmentIndexField o.
Proof.
  intros Ho. rewrite (proj1 (department_indexes _ departmentSetup_exec)).
  change (({[("", "x") := demoProject "x" "uid-x" "p"]} : gmap NamespacedName Project) !! key = Some o) in Ho.
  apply lookup_singleton_Some in Ho as [_ <-]. left.
Qed.

Lemma queue_events_wake_owners_and_children_witness :
  ("", "x") ∈ demoRequests projectWatches queueAdded familyStore.
Proof.
  assert (Forall (answeredFrom departmentSetup familyStore) (demoTrace projectWatches queueAdded familyStore)) as Hans.
  { apply memServer_answers.
    match goal with |- Forall _ ?t => let t' := eval vm_compute in t in change t with t' end.
    apply Forall_cons. split; [exact familyStore_indexed|apply Forall_nil_2]. }
  apply (proj1 (queue_events_wake_owners_and_children demoProjectConfig departmentSetup familyStore (Created demoDeptQueue)
           (demoTrace projectWatches queueAdded familyStore) _ _ departmentSetup_exec Hans) (demo_exec _ _ _)).
  split; [vm_compute; reflexivity|]. exists demoDeptQueue. split; [left|]. right. split; [exact I|].
  eexists _, ("", "x"), (demoProject "x" "uid-x" "p"). split; [vm_compute; reflexivity|].
  split; [vm_compute; reflexivity|]. split; [vm_compute; reflexivity|]. split; [vm_compute; reflexivity|].
  split; [vm_compute; discriminate|vm_compute; reflexivity].
Defined.

(** The status of a project is written: its generation stays. *)
Definition statusWrite : Notification :=
  {| nSource := FromCache; nKind := KProject; nEvent := Updated (projectWith []) (projectWith []) |}.
Definition projectAdded : Notification := {| nSource := FromCache; nKind := KProject; nEvent := Created (projectWith []) |}.

Lemma project_events_exact_witness :
  ("", "p") ∉ demoRequests projectWatches statusWrite emptyStore /\ ("", "p") ∈ demoRequests projectWatches projectAdded emptyStore.
Proof.
  split.
  - intros (_ & Hgen & _)%(project_events_exact demoProjectConfig (Updated (projectWith []) (projectWith []))
      (demoTrace projectWatches statusWrite emptyStore) _ _ (demo_exec _ _ _)). by apply (Hgen _ _ eq_refl).
  - apply (project_events_exact demoProjectConfig (Created (projectWith [])) (demoTrace projectWatches projectAdded emptyStore) _ _ (demo_exec _ _ _)).
    split; [vm_compute; reflexivity|]. split; [done|]. exists (projectWith []). split; [left|reflexivity].
Defined.

Definition strayLimitRange : LimitRange :=
  {| lrMeta := {| Name := "kai-limit-range"; Namespace := "team-space"; UID := ""; Labels := ∅; Annotations := ∅;
                  OwnerReferences := []; Finalizers := []; DeletionTimestamp := None; ResourceVersion := ""; Generation := 0 |};
     Limits := [] |}.
Definition limitRangeRemoved : Notification := {| nSource := FromCache; nKind := KLimitRange; nEvent := Deleted (strayLimitRange : obj KLimitRange) |}.
Definition projectNamespace (labels : gmap string string) : NamespaceObj :=
  {| nsKind := "Namespace"; nsAPIVersion := "v1"; nsMeta := meta_with_labels (fun _ => labels) (named "kai-p") |}.
Definition labelRemoved : Notification :=
  {| nSource := FromCache; nKind := KNamespace;
     nEvent := Updated (projectNamespace {["kai.scheduler/project" := "p"]} : obj KNamespace) (projectNamespace ∅) |}.

Lemma project_changes_unnoticed_witness :
  demoRequests projectWatches limitRangeRemoved emptyStore = [] /\ demoRequests projectWatches labelRemoved emptyStore = [].
Proof.
  split.
  - apply (proj1 (project_changes_unnoticed demoProjectConfig) (Deleted strayLimitRange) (demoTrace projectWatches limitRangeRemoved emptyStore));
      [apply demo_exec|vm_compute; reflexivity].
  - apply (proj2 (project_changes_unnoticed demoProjectConfig) (projectNamespace {["kai.scheduler/project" := "p"]}) (projectNamespace ∅)
             (demoTrace projectWatches labelRemoved emptyStore)); [apply demo_exec|vm_compute; reflexivity].
Defined.

Definition defaultLimits : ConfigMap :=
  {| cmMeta := {| Name := "default-limit-range"; Namespace := "kai"; UID := ""; Labels := ∅; Annotations := ∅;
                  OwnerReferences := []; Finalizers := []; DeletionTimestamp := None; ResourceVersion := ""; Generation := 0 |};
     cmData := ∅ |}.
Definition limitsEdited : Notification := {| nSource := FromCache; nKind := KConfigMap; nEvent := Created (defaultLimits : obj KConfigMap) |}.
Definition projectTold : Notification := {| nSource := FromChannel; nKind := KProject; nEvent := Generic (projectWith []) |}.

Lemma limit_range_change_reaches_every_project_witness :
  ("kai", "default-limit-range") ∈ demoRequests (limitRangeBuilder demoProjectConfig) limitsEdited emptyStore /\
  projectTold ∈ triggerEventsForAllProjects [projectWith []] /\
  ("", "p") ∈ demoRequests projectWatches projectTold emptyStore.
Proof.
  destruct (limit_range_change_reaches_every_project demoProjectConfig (Created defaultLimits)
    (demoTrace (limitRangeBuilder demoProjectConfig) limitsEdited emptyStore) _ [projectWith []] (projectWith []) projectTold
    (demoTrace projectWatches projectTold emptyStore) (demoRequests projectWatches projectTold emptyStore)
    eq_refl eq_refl (demo_exec _ _ _)) as (_ & Hkey & Hprj).
  split; [exact Hkey|]. destruct (Hprj ltac:(left) eq_refl) as [Hsent Hreq]. split; [exact Hsent|].
  apply Hreq. apply demo_exec.
Defined.

(** *** The operator *)

Definition operatorSetup := run_trace demoManager (SetupKRMConfigReconciler "kai/v1" emptyRegistry) emptyStore.
Definition operatorRegistry : Registry := (run demoManager (SetupKRMConfigReconciler "kai/v1" emptyRegistry) emptyStore).1.1.

Lemma operatorSetup_exec :
  exec (SetupKRMConfigReconciler "kai/v1" emptyRegistry) operatorSetup (operatorRegistry, inr tt).
Proof.
  change (operatorRegistry, inr tt) with (run demoManager (SetupKRMConfigReconciler "kai/v1" emptyRegistry) emptyStore).1. apply run_exec.
Qed.

Lemma collected_kinds_are_indexed_witness :
  Event (Complete _ (krmConfigBuilder operatorRegistry)) (inr tt) ∈ operatorSetup /\
  (forall c, c ∈ KRMConfigOwned ->
     initiatedAs "kai/v1" operatorSetup c (isAvailable operatorRegistry c) /\
     (cKind c ∈ wKind <$> bWatches (krmConfigBuilder operatorRegistry) <-> isAvailable operatorRegistry c = true)) /\
  (forall owner collect, collect ∈ collectablesOf operatorRegistry owner -> issues (listsIndexed "kai/v1" operatorSetup owner) collect).
Proof. apply (collected_kinds_are_indexed "kai/v1" operatorSetup operatorRegistry operatorSetup_exec). Defined.

(** A deployment creates the config map of the project controller, and somebody
    deletes it. *)
#[local] Existing Instances CommandLineFacts.LineDemo.demoCommon DeployFacts.DeployDemo.demoYaml.
Notation driftConfig := CommandLineFacts.LineDemo.demoKRMConfig.
Definition driftDeploy :=
  Deploy demoOrder "kai/v1" true true DeployFacts.DeployDemo.demoOperands driftConfig.
Definition createdMap (e : event KubeCall) : option ConfigMap :=
  match ev_call e with Create KConfigMap o => Some o | _ => None end.

Lemma createdMap_wrote (m : ConfigMap) tr : m ∈ omap createdMap tr -> wrote KConfigMap m tr.
Proof.
  intros ([X c x] & Hin & Hm)%list_elem_of_omap. unfold createdMap in Hm. simpl in Hm.
  destruct c as [| | | |K o| | | | | | | | |]; try done. destruct K; try done. injection Hm as ->. exists x. by left.
Qed.

Lemma drift_wakes_the_operator_witness :
  exists m, omap createdMap (run_trace memServer driftDeploy emptyStore) !! 0%nat = Some m /\
    ("", Name (krmMeta driftConfig)) ∈
      demoRequests (krmConfigBuilder operatorRegistry)
        {| nSource := FromCache; nKind := KConfigMap; nEvent := Deleted m : WatchEvent (obj KConfigMap) |} emptyStore.
Proof.
  destruct (omap createdMap (run_trace memServer driftDeploy emptyStore)) as [|m rest] eqn:Hmaps; [vm_compute in Hmaps; discriminate|].
  exists m. split; [reflexivity|].
  destruct (drift_wakes_the_operator "kai/v1" true DeployFacts.DeployDemo.demoErrorText demoOrder
    operatorSetup operatorRegistry DeployFacts.DeployDemo.demoOperands driftConfig
    (run_trace memServer driftDeploy emptyStore) (run memServer driftDeploy emptyStore).1 KConfigMap m (Deleted m : WatchEvent (obj KConfigMap)) m
    (demoTrace (krmConfigBuilder operatorRegistry)
       {| nSource := FromCache; nKind := KConfigMap; nEvent := Deleted m : WatchEvent (obj KConfigMap) |} emptyStore)
    (demoRequests (krmConfigBuilder operatorRegistry)
       {| nSource := FromCache; nKind := KConfigMap; nEvent := Deleted m : WatchEvent (obj KConfigMap) |} emptyStore)) as [_ Hwakes].
  - intros md owner Hm _. cbn. by rewrite Hm.
  - reflexivity.
  - exact operatorSetup_exec.
  - exact DeployFacts.DeployDemo.demoOperands_ours.
  - exact (run_exec memServer driftDeploy emptyStore).
  - apply createdMap_wrote. rewrite Hmaps. left.
  - apply Hwakes.
    + intros err Hin. exfalso. vm_compute in Hin. repeat (apply elem_of_cons in Hin as [Hin|Hin]; [discriminate Hin|]). by apply elem_of_nil in Hin.
    + left.
    + reflexivity.
    + apply demo_exec.
Defined.

(** *** Pod groups *)

Definition podGroupWatches := podGroupBuilder demoConfig.
Definition pooledGroup : PodGroup :=
  {| pgMeta := meta_with_labels (fun _ => {["kai.scheduler/node-pool" := "a"]}) (named "pg");
     pgMarkUnschedulable := None; pgSchedulingBackoff := None; pgQueue := "";
     pgTopologyConstraint := emptyTopologyConstraint; pgSchedulingConditions := [] |}.
Definition groupStore : store := store_add (K := KPodGroup) pooledGroup emptyStore.
Definition poolDying : Notification :=
  {| nSource := FromCache; nKind := KNodePool; nEvent := Updated (demoPool "a" NodePoolReady : obj KNodePool) (demoPool "a" NodePoolDeleting) |}.

Lemma unusable_pools_wake_their_pod_groups_witness :
  ("", "pg") ∈ demoRequests podGroupWatches poolDying groupStore.
Proof.
  assert (Forall (answeredFrom [] groupStore) (demoTrace podGroupWatches poolDying groupStore)) as Hans
    by (apply memServer_unindexed; vm_compute; reflexivity).
  apply (unusable_pools_wake_their_pod_groups demoConfig [] groupStore
           (Updated (demoPool "a" NodePoolReady) (demoPool "a" NodePoolDeleting))
           (demoTrace podGroupWatches poolDying groupStore) _ _ (demo_exec _ _ _) Hans).
  split; [left; reflexivity|]. exists (demoPool "a" NodePoolDeleting). split; [right; left|].
  eexists _, ("", "pg"), pooledGroup. split; [vm_compute; reflexivity|]. split; [vm_compute; reflexivity|].
  split; [vm_compute; reflexivity|reflexivity].
Defined.
