(* ===== verification/Mains.v ===== *)
(** * The processes

    [cmd/*/main.go] and [cmd/krm-operator/app/app.go]: what each process hands
    to its manager before it starts it, in order.  A step that fails ends the
    process with status 1; the manager runs until it is told to stop. *)

From stdpp Require Import base list gmap strings.
From S2P Require Import Prelude ApiTypes ControllerRuntime NodePoolUtils NodePoolCommon Assigner ProjectCommon.
From S2P Require Import TopologyController GoFlags Dependencies CommandLine Watches.

(** [os.Exit(1)] on an error. *)
Definition exitStatus (r : result unit) : Z := match r with inl _ => 1 | inr _ => 0 end.

(** A set-up and, once it is complete, the manager. *)
Definition startAfter (setUp : setup (result unit)) : setup Z :=
  r <- (_ <-? setUp ;; call StartManager) ;; Ret (exitStatus r).

(** ** The project controller *)

Section ProjectControllerMain.
Context {M : MetaLib} {CR : ControllerRuntime}.

Definition webhookPath (w : ProjectWebhook) : string :=
  match w with
  | ProjectWebhookPath => "/validate-project"
  | DepartmentWebhookPath => "/validate-department"
  | QueueWebhookPath => "/validate-queue"
  end.

Definition addValidationWebhooks (opts : ProjectControllerOptions) (cfg : ProjectReconcilerConfig) : setup (result unit) :=
  match registerValidationWebhooks opts (ProjectCommon.AllowExternalQueues cfg) with
  | inl err => Ret (inl err)
  | inr [] => Ret (inr tt)
  | inr webhooks => call (AddWebhookServer (projectWebhookPort opts) (projectWebhookCertDir opts) (webhookPath <$> webhooks))
  end.

Definition setUpProjectController (opts : ProjectControllerOptions) (cfg : ProjectReconcilerConfig) : setup (result unit) :=
  _ <-? call (NewManager {| LeaderElection := projectLeaderElection opts;
                            LeaderElectionID := "project-controller." +:+ ProjectCommon.FinalizerDomain cfg;
                            MetricsBindAddress := ":" +:+ projectMetricsPort opts; HealthProbeBindAddress := "";
                            WebhookServer := None;
                            ConfigMapNamespaces := Some (configMapCacheNamespaces cfg) |}) ;;
  _ <-? SetupProjectReconciler cfg ;;
  _ <-? SetupLimitRangeReconciler cfg ;;
  _ <-? SetupDepartmentReconciler ;;
  addValidationWebhooks opts cfg.

Definition projectControllerMain (opts : ProjectControllerOptions) (cfg : ProjectReconcilerConfig) : setup Z :=
  startAfter (setUpProjectController opts cfg).

End ProjectControllerMain.

(** ** The node pool controller *)

Section NodePoolControllerMain.
Context {M : MetaLib} {CR : ControllerRuntime} {F : FlagLib}.

Definition setUpNodePoolController (opts : NodePoolControllerOptions) (cfg : NodePoolControllerConfig) : setup (result unit) :=
  _ <-? call (NewManager {| LeaderElection := EnableLeaderElection opts;
                            LeaderElectionID := "node-pool-controller." +:+ NodePoolCommon.FinalizerDomain cfg;
                            MetricsBindAddress := ":" +:+ MetricsPort opts; HealthProbeBindAddress := "";
                            WebhookServer := if EnableNodepoolValidationWebhook opts
                                             then Some (WebhookPort opts, WebhookCertDir opts) else None;
                            ConfigMapNamespaces := None |}) ;;
  _ <-? SetupNodePoolController cfg ;;
  _ <-? SetupManagedNodesConfigController cfg ;;
  if EnableNodepoolValidationWebhook opts then
    _ <-? call (AddWebhookFor KNodePool) ;; call (AddWebhookFor KSchedulingShard)
  else Ret (inr tt).

(** The arguments are read first. *)
Definition nodePoolControllerMain (values : flagValues) : setup Z :=
  match parseNodePoolControllerParams values with
  | inl _ => Ret 1%Z
  | inr _ => startAfter (setUpNodePoolController (nodePoolControllerOptionsOf values) (nodePoolControllerConfigOf values))
  end.

(** [cachedclient.NewCachedClient] and [StartInformers]; a failure is fatal. *)
Definition NewCachedClient : setup (result unit) :=
  _ <-? call NewCache ;; call (GetInformer KNode).

Definition StartInformers : setup (result unit) :=
  synced <- call WaitForCacheSync ;;
  if negb synced then Ret (inl (Errorf "Failed waiting for cache to sync" []))
  else
    synced <- call (WaitForNamedCacheSync "node") ;;
    if negb synced then Ret (inl (Errorf "failed waiting for node cache to sync" [])) else Ret (inr tt).

(** [MetricsHandler.Start]. *)
Definition StartMetrics : setup (result unit) :=
  _ <-? call AddNodeEventHandler ;; StartInformers.

(** What runs beside the manager once the process is the leader: the metrics, and
    the topology controller as soon as the watcher finds its definition. *)
Definition whenElected (events : list WatcherEvent) : setup Z :=
  r <- (_ <-? NewCachedClient ;;
        _ <-? StartMetrics ;;
        watched <- viaReader (StartWhenCRDReady events) ;;
        if watched.1 : bool then SetupKaiTopologyController else Ret (inr tt)) ;;
  Ret (exitStatus r).

End NodePoolControllerMain.

(** ** The pod group assigner *)

Section PodGroupAssignerMain.
Context {L : LabelsLib} {CR : ControllerRuntime} (PodGroupAnnotationForPod : string).

Definition setUpPodGroupAssigner (opts : PodGroupAssignerOptions) (cfg : PodGroupAssignerConfig) : setup (result unit) :=
  _ <-? call (NewManager {| LeaderElection := assignerLeaderElection opts;
                            LeaderElectionID := "pod-group-assigner.kai.resources";
                            MetricsBindAddress := "0"; HealthProbeBindAddress := "";
                            WebhookServer := None; ConfigMapNamespaces := None |}) ;;
  _ <-? call (AddWebhookServer (assignerWebhookPort opts) (certDir opts) (registerWebhooks opts)) ;;
  _ <-? SetupPodGroupReconciler cfg PodGroupAnnotationForPod ;;
  _ <-? call AddHealthzCheck ;;
  call AddReadyzCheck.

Definition podGroupAssignerMain (opts : PodGroupAssignerOptions) (cfg : PodGroupAssignerConfig) : setup Z :=
  startAfter (setUpPodGroupAssigner opts cfg).

End PodGroupAssignerMain.

(** ** The operator *)

Section OperatorMain.
Context {M : MetaLib} {CR : ControllerRuntime} {F : FlagLib} {KN : KaiNames} (kaiGroupVersion : string).

(** [app.New] and the part of [App.Run] before the manager starts. *)
Definition setUpOperator (options : list string) : setup (result unit) :=
  match parseOperatorOptions options with
  | inl err => Ret (inl err)
  | inr opts =>
      _ <-? call (NewManager {| LeaderElection := operatorLeaderElection opts;
                                LeaderElectionID := "krm-operator.kai.resources";
                                MetricsBindAddress := MetricsAddr opts; HealthProbeBindAddress := ProbeAddr opts;
                                WebhookServer := None; ConfigMapNamespaces := None |}) ;;
      x <- SetupKRMConfigReconciler kaiGroupVersion {| Initiated := []; availableKinds := [] |} ;;
      match x with
      | (_, inl err) => Ret (inl err)
      | (_, inr _) => _ <-? call AddHealthzCheck ;; call AddReadyzCheck
      end
  end.

Definition operatorMain (options : list string) : setup Z := startAfter (setUpOperator options).

End OperatorMain.
