(* ===== verification/ProcessFacts.v ===== *)
(** * The processes and what they rely on

    A process starts its manager only when everything before succeeded, and the
    reconcilers of a started process list by fields only where the fields were
    indexed. *)

From stdpp Require Import base list gmap strings.
From S2P Require Import Prelude ApiTypes ControllerRuntime NodePoolUtils NodePoolCommon Assigner ProjectCommon.
From S2P Require Import TopologyController GoFlags Dependencies CommandLine Shards Nodes ManagedNodes NodePools NodePoolWebhooks.
From S2P Require Import Hierarchy Queues ProjectHandlers RoleBindings ProjectDeletion ProjectReconciler Watches WatchFacts Mains.

(** ** Starting *)

Definition isStart {X} (c : ManagerCall X) : bool := match c with StartManager => true | _ => false end.

Definition started (calls : list (event ManagerCall)) : Prop := List.Exists (fun e => isStart (ev_call e) = true) calls.

(** A set-up leaves the start to the end of the process. *)
Definition neverStarts {A} (p : setup A) : Prop :=
  wp (C := ManagerCall) (fun _ c => isStart c = false) any_reply p (fun _ => True).

Lemma neverStarts_ret {A} (a : A) : neverStarts (Ret a).
Proof. done. Qed.

Lemma neverStarts_call {X} (c : ManagerCall X) : isStart c = false -> neverStarts (call c).
Proof. by split. Qed.

Lemma neverStarts_bind {A B} (p : setup A) (f : A -> setup B) :
  neverStarts p -> (forall a, neverStarts (f a)) -> neverStarts (x <- p ;; f x).
Proof. intros Hp Hf. apply wp_bind. eapply wp_mono; [|exact Hp]. intros a _. apply Hf. Qed.

Lemma neverStarts_try {A B} (p : setup (result A)) (f : A -> setup (result B)) :
  neverStarts p -> (forall a, neverStarts (f a)) -> neverStarts (x <-? p ;; f x).
Proof. intros Hp Hf. apply neverStarts_bind; [done|]. intros [e|a]; [done|apply Hf]. Qed.

Lemma neverStarts_reader {A} (p : kube A) : neverStarts (viaReader p).
Proof. induction p as [a|X c k IH]; [done|]. split; [done|]. intros x _. apply IH. Qed.

#[export] Hint Resolve neverStarts_reader : krm.

(** Structural proof that a set-up does not start the manager. *)
Ltac never_starts :=
  repeat (cbv beta zeta; match goal with
  | |- neverStarts (prog_bind_ _ _) => apply neverStarts_bind; [|intros ?]
  | |- neverStarts (try_bind _ _) => apply neverStarts_try; [|intros ?]
  | |- neverStarts (call _) => apply neverStarts_call; reflexivity
  | |- neverStarts (Ret _) => apply neverStarts_ret
  | |- neverStarts (match ?x with _ => _ end) => destruct x
  | |- neverStarts _ => solve [eauto with krm]
  end).

(** Starting is the last call, after a set-up that succeeded; a process that
    ends with status 0 has started its manager. *)
Lemma startAfter_inv setUp calls code :
  neverStarts setUp -> exec (startAfter setUp) calls code -> started calls \/ code = 0%Z ->
  exists before r, calls = before ++ [Event StartManager r] /\ code = exitStatus r /\ exec setUp before (inr tt).
Proof.
  intros Hnever (t1 & t2 & r & -> & Hex & [-> ->])%exec_bind_inv Hst. rewrite app_nil_r in Hst |- *.
  apply exec_try_inv in Hex as [(err & Hex & ->)|(t3 & t4 & [] & -> & Hex & (x & t & -> & -> & ->))].
  - exfalso. destruct Hst as [Hst|[=]]. destruct (wp_exec_any _ _ _ _ _ Hnever Hex) as [Hall _].
    apply Exists_exists in Hst as (e & He & Hs). rewrite Forall_forall in Hall. rewrite (Hall e He) in Hs. done.
  - by exists t3, x.
Qed.

(** ** Listing by indexed fields *)

(** The call lists by a field only if the field was indexed at the start. *)
Definition selectsIndexed (calls : list (event ManagerCall)) : forall X, KubeCall X -> Prop := fun _ c =>
  match c with
  | List K opts =>
      match loFieldSelector opts with
      | Some (field, _) => exists indexer, Event (IndexField K field indexer) (inr tt) ∈ calls
      | None => True
      end
  | _ => True
  end.

(** Structural proof that a program lists by indexed fields: the definitions are
    unfolded, the calls by field are left to the hints. *)
Ltac head_of t := lazymatch t with ?f _ => head_of f | _ => t end.
Ltac issues_step :=
  match goal with
  | |- issues _ (prog_bind_ _ _) => apply issues_bind; [|intros ?]
  | |- issues _ (try_bind _ _) => apply issues_try; [|intros ?]
  | |- issues _ (call _) => apply issues_call; first [exact I|assumption|solve [eauto with fields]]
  | |- issues _ (Ret _) => apply issues_ret
  | |- issues _ (match ?x with _ => _ end) => destruct x
  | |- issues _ _ => solve [eauto with fields]
  | |- issues _ ?p => let f := head_of p in progress unfold f
  end.
Ltac issues_tac := repeat (cbv beta zeta; issues_step).
Create HintDb fields discriminated.

Section NodePoolFields.
Context {L : LabelsLib} {M : MetaLib} {Sch : SchedulerAPI} {api : NodePoolAPI}.
Context (cfg : NodePoolControllerConfig) (params : NodePoolControllerParams) (nrtEnabled serviceMonitorEnabled : bool).
Context (rangeOrder : forall A, gmap string A -> list (string * A)) (errorText : error -> string).
Context (MatchNodeSelectorTerms : Node -> NodeSelector -> result bool).
Context (calls : list (event ManagerCall)).
Hypothesis pools_indexed : exists indexer, Event (IndexField KNodePool IsDeletingPhaseField indexer) (inr tt) ∈ calls.
Hypothesis pods_indexed : exists indexer, Event (IndexField KPod PodRunningWithKaiSchedulerNodeNameField indexer) (inr tt) ∈ calls.
Hypothesis shards_indexed : exists indexer, Event (IndexField KSchedulingShard SchedulingShardPartitionField indexer) (inr tt) ∈ calls.

Local Notation indexed p := (issues (selectsIndexed calls) p).

Lemma indexed_overNodes op nodes resultNodes errs :
  (forall node, indexed (op node)) -> indexed (overNodes op nodes resultNodes errs).
Proof. intros Hop. revert resultNodes errs. induction nodes as [|node nodes IH]; intros; cbn [overNodes]; issues_tac; auto. Qed.

Lemma indexed_listNodes requirements : indexed (listNodes requirements).
Proof.
  unfold listNodes. generalize (@nil Requirement). induction requirements as [|r rs IH]; intros built; cbn [listNodesFrom];
    unfold ListNodesWithRequirements; issues_tac; auto.
Qed.

Lemma indexed_filterGroups groups pods : indexed (filterGroups cfg groups pods).
Proof. revert pods. induction groups as [|g gs IH]; intros; cbn [filterGroups]; issues_tac; auto. Qed.

Lemma indexed_CreateOrUpdateResources nodePool resources : indexed (CreateOrUpdateResources nodePool resources).
Proof. induction resources as [|r rs IH]; cbn [CreateOrUpdateResources]; issues_tac; auto. Qed.

#[local] Hint Extern 5 (issues _ (overNodes _ _ _ _)) => (apply indexed_overNodes; intros ?; solve [issues_tac]) : fields.
#[local] Hint Resolve indexed_listNodes indexed_filterGroups indexed_CreateOrUpdateResources : fields.

Lemma indexed_validateNodeStatus same node name : indexed (validateNodeStatus cfg rangeOrder same node name).
Proof. issues_tac. Qed.

#[local] Hint Resolve indexed_validateNodeStatus : fields.

Lemma indexed_reconcileNodes nodePool : indexed (reconcileNodes cfg nrtEnabled rangeOrder nodePool).
Proof. issues_tac. Qed.

Lemma indexed_callInTurn {A} (functions : list (NodePool -> string -> kube (result A))) nodePool name :
  Forall (fun f => indexed (f nodePool name)) functions -> indexed (callInTurn functions nodePool name).
Proof. induction 1 as [|f fs Hf _ IH]; cbn [callInTurn]; issues_tac; auto. Qed.

Lemma indexed_operandStatus nodePool : indexed (operandStatus cfg serviceMonitorEnabled nodePool).
Proof.
  apply issues_try; [|intros ?; apply issues_ret]. apply indexed_callInTurn. unfold resourceStatusFunctions.
  destruct serviceMonitorEnabled; repeat first [apply Forall_nil_2|apply Forall_cons_2]; issues_tac.
Qed.

Lemma indexed_reconcileScheduler nodePool : indexed (reconcileScheduler cfg params serviceMonitorEnabled nodePool).
Proof.
  apply wp_bind, wp_bind. eapply wp_mono; [|apply indexed_callInTurn; unfold resourceFunctions;
    destruct serviceMonitorEnabled; repeat first [apply Forall_nil_2|apply Forall_cons_2]; issues_tac].
  intros [err|resources] _; [done|]. apply issues_bind; [apply indexed_CreateOrUpdateResources|].
  intros []; apply issues_ret.
Qed.

#[local] Hint Resolve indexed_operandStatus indexed_reconcileScheduler : fields.

Lemma indexed_reconcileNodePoolStatus nodePool nodes :
  indexed (reconcileNodePoolStatus cfg serviceMonitorEnabled rangeOrder errorText nodePool nodes).
Proof. issues_tac. Qed.

#[local] Hint Resolve indexed_reconcileNodes indexed_reconcileNodePoolStatus : fields.

Lemma indexed_Reconcile req : indexed (NodePools.Reconcile cfg params nrtEnabled serviceMonitorEnabled rangeOrder errorText req).
Proof. issues_tac. Qed.

Lemma indexed_excludeNodes nodes errs marked : indexed (excludeNodes cfg rangeOrder nodes errs marked).
Proof. revert errs marked. induction nodes as [|node nodes IH]; intros; cbn [excludeNodes]; issues_tac; auto. Qed.

Lemma indexed_includeNodes nodes errs : indexed (includeNodes cfg rangeOrder nodes errs).
Proof. revert errs. induction nodes as [|node nodes IH]; intros; cbn [includeNodes]; issues_tac; auto. Qed.

Lemma indexed_unmarkNodes nodes errs : indexed (unmarkNodes cfg nodes errs).
Proof. revert errs. induction nodes as [|node nodes IH]; intros; cbn [unmarkNodes]; issues_tac; auto. Qed.

#[local] Hint Resolve indexed_excludeNodes indexed_includeNodes indexed_unmarkNodes : fields.

Lemma indexed_ReconcileManagedNodes req : indexed (ManagedNodes.Reconcile cfg rangeOrder MatchNodeSelectorTerms req).
Proof. issues_tac. Qed.

Lemma indexed_NodePoolValidator nodePool : indexed (NodePoolValidator.ValidateCreate cfg nodePool).
Proof. issues_tac. Qed.

Lemma indexed_ShardValidator shard : indexed (ShardValidator.ValidateCreate cfg shard).
Proof. issues_tac. Qed.

Lemma indexed_mapping node : indexed (MapNodeToNodePoolEvent cfg node) /\ indexed MapProjectToNodePoolEvents.
Proof. split; issues_tac. Qed.

End NodePoolFields.

(** ** The node pool controller *)

Section NodePoolProcess.
Context {L : LabelsLib} {M : MetaLib} {Sch : SchedulerAPI} {api : NodePoolAPI} {CR : ControllerRuntime} {F : FlagLib}.

Lemma nodePool_neverStarts opts cfg : neverStarts (setUpNodePoolController opts cfg).
Proof.
  unfold setUpNodePoolController, SetupNodePoolController, indexNodePoolFields, watchForNrtCRD, SetupManagedNodesConfigController.
  never_starts.
Qed.

(** What a complete set-up of the process has done. *)
Lemma nodePool_setUp_inv opts cfg calls :
  exec (setUpNodePoolController opts cfg) calls (inr tt) ->
  exists options flags own rest,
    calls = Event (NewManager options) (inr tt) :: own ++ Event (Complete _ (managedNodesBuilder cfg)) (inr tt) :: rest /\
    exec (SetupNodePoolController cfg) own (inr flags) /\
    rest = (if EnableNodepoolValidationWebhook opts
            then [Event (AddWebhookFor KNodePool) (inr tt); Event (AddWebhookFor KSchedulingShard) (inr tt)] else []).
Proof.
  unfold setUpNodePoolController, SetupManagedNodesConfigController.
  intros (t1 & t2 & [] & -> & (? & ? & -> & -> & <-) & Hex)%exec_try_ok.
  apply exec_try_ok in Hex as (own & t3 & flags & -> & Hown & Hex).
  apply exec_try_ok in Hex as (t4 & rest & [] & -> & (? & ? & -> & -> & <-) & Hex).
  eexists _, flags, own, rest. split; [done|]. split; [done|].
  destruct (EnableNodepoolValidationWebhook opts).
  - by apply exec_try_ok in Hex as (t5 & t6 & [] & -> & (? & ? & -> & -> & <-) & (? & ? & -> & -> & <-)).
  - by destruct Hex as [-> _].
Qed.

(** The node pool controller starts with everything in place.  When the
    process has started its manager (or ends without an error), its controllers
    are registered, its webhooks too when they are enabled, and every field that
    the reconcilers of node pools and of managed nodes, the webhooks and the
    mapping of events list by, whatever the API answers, was indexed before. *)
Theorem nodepool_process_reads_indexed_fields values calls code :
  let cfg := nodePoolControllerConfigOf values in
  exec (nodePoolControllerMain values) calls code -> started calls \/ code = 0%Z ->
  (exists flags, Event (Complete _ (nodePoolBuilder cfg flags.1 flags.2)) (inr tt) ∈ calls) /\
  Event (Complete _ (managedNodesBuilder cfg)) (inr tt) ∈ calls /\
  (EnableNodepoolValidationWebhook (nodePoolControllerOptionsOf values) = true ->
     Event (AddWebhookFor KNodePool) (inr tt) ∈ calls /\ Event (AddWebhookFor KSchedulingShard) (inr tt) ∈ calls) /\
  (forall params nrt sm rangeOrder errorText req,
     issues (selectsIndexed calls) (NodePools.Reconcile cfg params nrt sm rangeOrder errorText req)) /\
  (forall rangeOrder matchTerms req, issues (selectsIndexed calls) (ManagedNodes.Reconcile cfg rangeOrder matchTerms req)) /\
  (forall nodePool shard node,
     issues (selectsIndexed calls) (NodePoolValidator.ValidateCreate cfg nodePool) /\
     issues (selectsIndexed calls) (ShardValidator.ValidateCreate cfg shard) /\
     issues (selectsIndexed calls) (MapNodeToNodePoolEvent cfg node) /\
     issues (selectsIndexed calls) MapProjectToNodePoolEvents).
Proof.
  intros cfg. unfold nodePoolControllerMain. destruct (parseNodePoolControllerParams values).
  { intros [-> ->] [H|H]; [by apply Exists_nil in H|done]. }
  intros Hex Hst. destruct (startAfter_inv _ _ _ (nodePool_neverStarts _ _) Hex Hst) as (before & r & -> & _ & Hset).
  apply nodePool_setUp_inv in Hset as (options & flags & own & rest & -> & Hown & ->).
  apply setup_inv in Hown as (reads & -> & _). fold cfg.
  match goal with |- context [selectsIndexed ?l] => set (calls := l) end.
  assert (exists indexer, Event (IndexField KNodePool IsDeletingPhaseField indexer) (inr tt) ∈ calls) as Hpools
    by (eexists; right; left).
  assert (exists indexer, Event (IndexField KPod PodRunningWithKaiSchedulerNodeNameField indexer) (inr tt) ∈ calls) as Hpods
    by (eexists; do 2 right; left).
  assert (exists indexer, Event (IndexField KSchedulingShard SchedulingShardPartitionField indexer) (inr tt) ∈ calls) as Hshards
    by (eexists; do 3 right; left).
  split; [|split; [|split; [|split; [|split]]]].
  - exists flags. unfold calls. cbn [app]. do 4 right. rewrite <- !app_assoc. apply elem_of_app. right. left.
  - unfold calls. cbn [app]. do 4 right. rewrite <- !app_assoc. apply elem_of_app. right. right. apply elem_of_app. right. left.
  - intros Hweb. unfold calls. rewrite Hweb. cbn [app]. rewrite <- !app_assoc.
    split; do 4 right; apply elem_of_app; right; right; apply elem_of_app; right; right; [left|right; left].
  - intros. by apply indexed_Reconcile.
  - intros. by apply indexed_ReconcileManagedNodes.
  - intros. split; [by apply indexed_NodePoolValidator|]. split; [by apply indexed_ShardValidator|]. by apply indexed_mapping.
Qed.

End NodePoolProcess.

(** ** The project controller *)

(** Lists by indexed fields, and reads of config maps through the cache only in
    the namespaces the cache is bound to. *)
Definition readsPrepared (cfg : ProjectReconcilerConfig) (calls : list (event ManagerCall)) : forall X, KubeCall X -> Prop := fun _ c =>
  match c with
  | List K opts =>
      match loFieldSelector opts with
      | Some (field, _) => exists indexer, Event (IndexField K field indexer) (inr tt) ∈ calls
      | None => True
      end
  | Get KConfigMap key => key.1 = "" \/ key.1 ∈ configMapCacheNamespaces cfg
  | _ => True
  end.

Section ProjectFields.
Context {L : LabelsLib} {M : MetaLib} (cfg : ProjectReconcilerConfig) (kaiAPIVersion : string) (errorText : error -> string).
Context (decodeRoleBinding : string -> result RoleBinding).
Context (rangeOrder : forall A, gmap string A -> list (string * A)).
Context (ControllerOf : ObjectMeta -> option OwnerReference) (ControlledBy : ObjectMeta -> ObjectMeta -> bool).
Context (ParseQuantity : string -> option Z) (LabelSelectorAsSelector : string -> result (list Requirement)).
Context (calls : list (event ManagerCall)).
Hypothesis projects_indexed : exists indexer, Event (IndexField KProject ProjectDepartmentIndexField indexer) (inr tt) ∈ calls.
Hypothesis departments_indexed : exists indexer, Event (IndexField KDepartment DepartmentParentIndexField indexer) (inr tt) ∈ calls.

Local Notation prepared p := (issues (readsPrepared cfg calls) p).

Lemma prepared_config_maps namespace name :
  namespace = ProjectCommon.InstallNamespace cfg \/ namespace = RoleBindingsCmNamespace cfg ->
  readsPrepared cfg calls _ (Get KConfigMap (namespace, name)).
Proof.
  intros Hns. destruct (decide (namespace = "")) as [|Hne]; [by left|]. right. unfold configMapCacheNamespaces.
  apply elem_of_list_to_set, list_elem_of_filter. split; [done|]. destruct Hns as [-> | ->]; [left|right; left].
Qed.

#[local] Hint Extern 2 (readsPrepared _ _ _ _) => (apply prepared_config_maps; auto) : fields.

Lemma prepared_queueLoop fuel seen queueName name : prepared (queueLoopFrom fuel seen queueName name).
Proof.
  revert seen name. induction fuel as [|fuel IH]; intros; cbn [queueLoopFrom]; issues_tac; auto.
Qed.

Lemma prepared_deleteQueues reconciled uid kind queues errs : prepared (deleteQueues cfg reconciled uid kind queues errs).
Proof. revert errs. induction queues as [|q qs IH]; intros; cbn [deleteQueues]; issues_tac; auto. Qed.

Lemma prepared_tryQueueNames tries p d s uid n name : prepared (tryQueueNames cfg tries p d s uid n name).
Proof. revert name. induction tries as [|tries IH]; intros; cbn [tryQueueNames]; issues_tac; auto. Qed.

#[local] Hint Resolve prepared_queueLoop prepared_deleteQueues prepared_tryQueueNames : fields.

Lemma prepared_projectQueues project queues reconciled errs :
  prepared (reconcileProjectQueues cfg kaiAPIVersion project queues reconciled errs).
Proof. revert reconciled errs. induction queues as [|q qs IH]; intros; cbn [reconcileProjectQueues]; issues_tac; auto. Qed.

Lemma prepared_departmentQueues fuel department queues reconciled held errs :
  prepared (reconcileDepartmentQueues cfg kaiAPIVersion fuel department queues reconciled held errs).
Proof. revert reconciled held errs. induction queues as [|q qs IH]; intros; cbn [reconcileDepartmentQueues]; issues_tac; auto. Qed.

#[local] Hint Resolve prepared_projectQueues prepared_departmentQueues : fields.

Lemma prepared_ReconcileDepartment fuel req : prepared (ReconcileDepartment cfg kaiAPIVersion fuel req).
Proof. issues_tac. Qed.

Lemma prepared_mapping queue :
  prepared (MapQueueToChildProjects groupOf kaiGroup queue) /\ prepared (MapQueueToChildDepartments groupOf kaiGroup queue).
Proof. split; issues_tac. Qed.

Lemma prepared_forEach {A} (xs : list A) f : (forall x, prepared (f x)) -> prepared (forEach xs f).
Proof. intros Hf. induction xs as [|x xs IH]; cbn [forEach]; issues_tac; auto. Qed.

Lemma prepared_remainingObjects namespace blockers : prepared (remainingObjects LabelSelectorAsSelector namespace blockers).
Proof. induction blockers as [|b bs IH]; cbn [remainingObjects]; issues_tac; auto. Qed.

Lemma prepared_deleteProjectQueues project queues errs : prepared (deleteProjectQueues cfg project queues errs).
Proof. revert errs. induction queues as [|q qs IH]; intros; cbn [deleteProjectQueues]; issues_tac; auto. Qed.

Lemma prepared_updateConditions conditions updates : prepared (UpdateProjectConditions conditions updates).
Proof. revert conditions. induction updates as [|u us IH]; intros; cbn [UpdateProjectConditions]; issues_tac; auto. Qed.

#[local] Hint Extern 5 (issues _ (forEach _ _)) => (apply prepared_forEach; intros ?; solve [issues_tac]) : fields.
#[local] Hint Resolve prepared_remainingObjects prepared_deleteProjectQueues prepared_updateConditions : fields.

Lemma prepared_runDeletion handlers project errs changed :
  (forall h p, h ∈ handlers -> prepared (h p)) -> prepared (runDeletion handlers project errs changed).
Proof.
  revert project errs changed. induction handlers as [|h hs IH]; intros project errs changed Hh; cbn [runDeletion].
  - issues_tac.
  - apply issues_bind; [apply Hh; left|]. intros [conditions err]. issues_tac. apply IH. intros h' p Hin. apply Hh. by right.
Qed.

Lemma prepared_runHandlers handlers cache project errs changed :
  (forall h c p, h ∈ handlers -> prepared (h c p)) -> prepared (runHandlers handlers cache project errs changed).
Proof.
  revert cache project errs changed. induction handlers as [|h hs IH]; intros cache project errs changed Hh; cbn [runHandlers].
  - issues_tac.
  - apply issues_bind; [apply Hh; left|]. intros [c [conditions err]]. issues_tac. apply IH. intros h' c' p Hin. apply Hh. by right.
Qed.

Lemma prepared_handlers h c p :
  h ∈ reconcilers cfg kaiAPIVersion errorText decodeRoleBinding rangeOrder ControllerOf ControlledBy ParseQuantity -> prepared (h c p).
Proof. intros Hh. unfold reconcilers in Hh. each_watch Hh; unfold stateless; issues_tac. Qed.

Lemma prepared_deletionHandlers h p : h ∈ deletionHandlers cfg errorText -> prepared (h p).
Proof. intros Hh. unfold deletionHandlers in Hh. each_watch Hh; issues_tac. Qed.

Lemma prepared_blockers groups h p : h ∈ deletionBlockers cfg errorText LabelSelectorAsSelector groups -> prepared (h p).
Proof. unfold deletionBlockers. intros (g & -> & _)%list_elem_of_fmap. issues_tac. Qed.

#[local] Hint Resolve prepared_runDeletion prepared_runHandlers prepared_handlers prepared_deletionHandlers prepared_blockers : fields.

Lemma prepared_ReconcileProject groups cache req :
  prepared (ReconcileProject cfg kaiAPIVersion errorText decodeRoleBinding rangeOrder ControllerOf ControlledBy ParseQuantity
              LabelSelectorAsSelector groups cache req).
Proof. issues_tac. Qed.

End ProjectFields.

Section ProjectProcess.
Context {L : LabelsLib} {M : MetaLib} {CR : ControllerRuntime}.

Lemma project_neverStarts opts cfg : neverStarts (setUpProjectController opts cfg).
Proof.
  unfold setUpProjectController, SetupProjectReconciler, SetupLimitRangeReconciler, SetupDepartmentReconciler, addValidationWebhooks.
  never_starts.
Qed.

(** What a complete set-up of the process has done. *)
Lemma project_setUp_inv opts cfg calls :
  exec (setUpProjectController opts cfg) calls (inr tt) ->
  exists options webhooks,
    calls = [Event (NewManager options) (inr tt); Event (Complete _ (projectBuilder cfg)) (inr tt);
             Event (Complete _ (limitRangeBuilder cfg)) (inr tt);
             Event (IndexField KProject ProjectDepartmentIndexField IndexProjectByDepartment) (inr tt);
             Event (IndexField KDepartment DepartmentParentIndexField IndexDepartmentByParent) (inr tt);
             Event (Complete _ departmentBuilder) (inr tt)]
            ++ (if decide (webhooks = []) then []
                else [Event (AddWebhookServer (projectWebhookPort opts) (projectWebhookCertDir opts) (webhookPath <$> webhooks)) (inr tt)]) /\
    ConfigMapNamespaces options = Some (configMapCacheNamespaces cfg) /\
    registerValidationWebhooks opts (ProjectCommon.AllowExternalQueues cfg) = inr webhooks.
Proof.
  unfold setUpProjectController, SetupProjectReconciler, SetupLimitRangeReconciler.
  intros (t1 & t2 & [] & -> & (? & ? & -> & -> & <-) & Hex)%exec_try_ok.
  apply exec_try_ok in Hex as (t3 & t4 & [] & -> & (? & ? & -> & -> & <-) & Hex).
  apply exec_try_ok in Hex as (t5 & t6 & [] & -> & (? & ? & -> & -> & <-) & Hex).
  apply exec_try_ok in Hex as (t7 & t8 & [] & -> & ->%department_setup_inv & Hex).
  unfold addValidationWebhooks in Hex. destruct (registerValidationWebhooks _ _) as [err|webhooks]; [by destruct Hex as [_ [=]]|].
  eexists _, webhooks. split; [|shelve].
  destruct webhooks as [|w ws]; [|rewrite decide_False by done; by destruct Hex as (? & ? & -> & -> & <-)].
  rewrite decide_True by done. by destruct Hex as [-> _].
  Unshelve. by split.
Qed.

(** C34: The project controller starts with everything in place.  When the process
    has started its manager (or ends without an error), its three controllers are
    registered and exactly the enabled webhooks are served; the reconcilers and
    the mapping of events, whatever the API answers, list only by fields that
    were indexed before, and read config maps through the cache only in
    namespaces the cache was bound to (or in none). *)
Theorem project_process_reads_what_it_prepared opts cfg calls code :
  exec (projectControllerMain opts cfg) calls code -> started calls \/ code = 0%Z ->
  Event (Complete _ (projectBuilder cfg)) (inr tt) ∈ calls /\ Event (Complete _ (limitRangeBuilder cfg)) (inr tt) ∈ calls /\
  Event (Complete _ departmentBuilder) (inr tt) ∈ calls /\
  (exists options, Event (NewManager options) (inr tt) ∈ calls /\ ConfigMapNamespaces options = Some (configMapCacheNamespaces cfg)) /\
  (exists webhooks, registerValidationWebhooks opts (ProjectCommon.AllowExternalQueues cfg) = inr webhooks /\
     (webhooks <> [] -> Event (AddWebhookServer (projectWebhookPort opts) (projectWebhookCertDir opts) (webhookPath <$> webhooks)) (inr tt) ∈ calls)) /\
  (forall kaiAPIVersion errorText decode rangeOrder controllerOf controlledBy parseQuantity selector groups cache req,
     issues (readsPrepared cfg calls)
       (ReconcileProject cfg kaiAPIVersion errorText decode rangeOrder controllerOf controlledBy parseQuantity selector groups cache req)) /\
  (forall kaiAPIVersion fuel req, issues (readsPrepared cfg calls) (ReconcileDepartment cfg kaiAPIVersion fuel req)) /\
  (forall queue, issues (readsPrepared cfg calls) (MapQueueToChildProjects groupOf kaiGroup queue) /\
                 issues (readsPrepared cfg calls) (MapQueueToChildDepartments groupOf kaiGroup queue)).
Proof.
  intros Hex Hst. destruct (startAfter_inv _ _ _ (project_neverStarts _ _) Hex Hst) as (before & r & -> & _ & Hset).
  apply project_setUp_inv in Hset as (options & webhooks & -> & Hoptions & Hweb).
  match goal with |- context [readsPrepared cfg ?l] => set (calls := l) end.
  assert (exists indexer, Event (IndexField KProject ProjectDepartmentIndexField indexer) (inr tt) ∈ calls) as Hprj
    by (eexists; do 3 right; left).
  assert (exists indexer, Event (IndexField KDepartment DepartmentParentIndexField indexer) (inr tt) ∈ calls) as Hdep
    by (eexists; do 4 right; left).
  split; [do 1 right; left|]. split; [do 2 right; left|]. split; [do 5 right; left|].
  split; [exists options; split; [left|done]|].
  split; [exists webhooks; split; [done|]; intros Hne; unfold calls; rewrite decide_False by done; do 6 right; left|].
  split; [intros; by apply prepared_ReconcileProject|]. split; [intros; by apply prepared_ReconcileDepartment|].
  intros. by apply prepared_mapping.
Qed.

End ProjectProcess.

(** ** The pod group assigner *)

Section AssignerProcess.
Context {L : LabelsLib} {CR : ControllerRuntime} (PodGroupAnnotationForPod : string).

Lemma assigner_neverStarts opts cfg : neverStarts (setUpPodGroupAssigner PodGroupAnnotationForPod opts cfg).
Proof. unfold setUpPodGroupAssigner, SetupPodGroupReconciler, indexPodGroupFields. never_starts. Qed.

Lemma indexed_tryNextNodePools calls requested previous params indices :
  issues (selectsIndexed calls) (tryNextNodePools requested previous params indices).
Proof. revert params. induction indices as [|i rest IH]; intros; cbn [tryNextNodePools]; issues_tac; auto. Qed.

#[local] Hint Resolve indexed_tryNextNodePools : fields.

Lemma indexed_assigner cfg calls cache req :
  (exists indexer, Event (IndexField KPod PodByPodGroupIndexerName indexer) (inr tt) ∈ calls) ->
  issues (selectsIndexed calls) (Assigner.Reconcile cfg cache req).
Proof. intros Hpods. issues_tac. Qed.

(** The pod group assigner starts with everything in place.  When the process
    has started its manager (or ends without an error), its controller and the
    webhooks are registered and its reconcile, whatever the API answers, lists
    pods only by the indexed field.  The health checks it registers are not
    served: the manager is given no address for them. *)
Theorem assigner_process_reads_indexed_fields opts cfg calls code :
  exec (podGroupAssignerMain PodGroupAnnotationForPod opts cfg) calls code -> started calls \/ code = 0%Z ->
  Event (Complete _ (podGroupBuilder cfg)) (inr tt) ∈ calls /\
  Event (AddWebhookServer (assignerWebhookPort opts) (certDir opts) (registerWebhooks opts)) (inr tt) ∈ calls /\
  (forall cache req, issues (selectsIndexed calls) (Assigner.Reconcile cfg cache req)) /\
  exists options, Event (NewManager options) (inr tt) ∈ calls /\ Event AddHealthzCheck (inr tt) ∈ calls /\
    HealthProbeBindAddress options = "".
Proof.
  intros Hex Hst. destruct (startAfter_inv _ _ _ (assigner_neverStarts _ _) Hex Hst) as (before & r & -> & _ & Hset).
  unfold setUpPodGroupAssigner, SetupPodGroupReconciler, indexPodGroupFields in Hset.
  apply exec_try_ok in Hset as (t1 & t2 & [] & -> & (? & ? & -> & -> & <-) & Hset).
  apply exec_try_ok in Hset as (t3 & t4 & [] & -> & (? & ? & -> & -> & <-) & Hset).
  apply exec_try_ok in Hset as (t5 & t6 & [] & -> & Hctl & Hset).
  apply exec_try_ok in Hctl as (t7 & t8 & [] & -> & (? & ? & -> & -> & <-) & (? & ? & -> & -> & <-)).
  apply exec_try_ok in Hset as (t9 & t10 & [] & -> & (? & ? & -> & -> & <-) & (? & ? & -> & -> & <-)).
  split; [do 3 right; left|]. split; [do 1 right; left|].
  split; [intros; apply indexed_assigner; eexists; do 2 right; left|].
  eexists. split; [left|]. split; [do 4 right; left|done].
Qed.

End AssignerProcess.
