(* ===== verification/ProcessExamples.v ===== *)
(** * Examples of the processes

    The theorems of [ProcessFacts.v] on a manager whose calls succeed. *)

From stdpp Require Import base list gmap strings.
From S2P Require Import Prelude ApiTypes ControllerRuntime NodePoolUtils NodePoolCommon Assigner AssignerFacts ProjectCommon QueueFacts.
From S2P Require Import NodeFacts NodePools ManagedNodes NodePoolWebhooks ProjectReconciler NodePoolWebhookFacts GoFlags CommandLine CommandLineFacts.
From S2P Require Import Watches WatchFacts WatchExamples Mains ProcessFacts.

#[local] Existing Instance LineDemo.demoFlags.

Lemma run_ends {A} (p : setup A) a : (run demoManager p emptyStore).1 = a -> exec p (run_trace demoManager p emptyStore) a.
Proof. intros <-. apply run_exec. Qed.

Definition assignerCalls := run_trace demoManager (podGroupAssignerMain "pod-group" (podGroupAssignerOptionsOf ∅) demoConfig) emptyStore.

Lemma assigner_process_reads_indexed_fields_witness :
  Event (Complete _ (podGroupBuilder demoConfig)) (inr tt) ∈ assignerCalls /\
  forall cache req, issues (selectsIndexed assignerCalls) (Assigner.Reconcile demoConfig cache req).
Proof.
  destruct (assigner_process_reads_indexed_fields "pod-group" (podGroupAssignerOptionsOf ∅) demoConfig assignerCalls 0)
    as (Hctl & _ & Hreads & _); [by apply run_ends|by right|]. by split.
Defined.

Definition projectCalls :=
  run_trace demoManager (projectControllerMain (projectControllerOptionsOf ∅) demoProjectConfig) emptyStore.

Lemma project_process_reads_what_it_prepared_witness :
  Event (Complete _ (projectBuilder demoProjectConfig)) (inr tt) ∈ projectCalls /\
  forall kaiAPIVersion fuel req, issues (readsPrepared demoProjectConfig projectCalls) (ReconcileDepartment demoProjectConfig kaiAPIVersion fuel req).
Proof.
  destruct (project_process_reads_what_it_prepared (projectControllerOptionsOf ∅) demoProjectConfig projectCalls 0)
    as (Hctl & _ & _ & _ & _ & _ & Hreads & _); [by apply run_ends|by right|]. by split.
Defined.

Definition nodePoolCalls := run_trace demoManager (nodePoolControllerMain ∅) emptyStore.

Lemma nodepool_process_reads_indexed_fields_witness :
  Event (Complete _ (managedNodesBuilder (nodePoolControllerConfigOf ∅))) (inr tt) ∈ nodePoolCalls /\
  forall nodePool, issues (selectsIndexed nodePoolCalls) (NodePoolValidator.ValidateCreate (nodePoolControllerConfigOf ∅) nodePool).
Proof.
  destruct (nodepool_process_reads_indexed_fields ∅ nodePoolCalls 0)
    as (_ & Hctl & _ & _ & _ & Hreads); [by apply run_ends|by right|]. split; [done|]. intros nodePool.
  by apply (Hreads nodePool foreignShard (nodeIn "a")).
Defined.
