(* ===== verification/Concurrency.v ===== *)
(** * The goroutines of the controllers

    The pod group assigner with its cache of node pool lists as shared memory
    ([pod_group_assigner.go]), the ticker that clears it, and the goroutines of
    [DeleteResources] with the errors they collect ([controller_resource.go]). *)

From stdpp Require Import base list gmap strings.
From S2P Require Import Prelude ApiTypes Goroutines NodePoolUtils NodePoolCommon Assigner.

(** ** The pod group assigner *)

Section SharedAssigner.
Context {L : LabelsLib} (cfg : PodGroupAssignerConfig).

Notation assigner A := (shared KubeCall nodePoolListCache A).

(** The list is looked up and stored in critical sections of their own; between
    them other goroutines run. *)
Definition sharedGetRequestedNodePools (podGroup : PodGroup) (podGroupPods : list Pod)
    : assigner (result (list string)) :=
  found <- call (Locked (fun cache : nodePoolListCache => (cache !! UID (pgMeta podGroup), cache))) ;;
  match found with
  | Some requestedNodePools => Ret (inr requestedNodePools)
  | None =>
      requestedNodePools <-? outside (GetRequestedNodePoolsForPodGroup cfg (pgMeta podGroup) podGroupPods) ;;
      _ <- call (Locked (fun cache : nodePoolListCache => (tt, <[UID (pgMeta podGroup) := requestedNodePools]> cache))) ;;
      Ret (inr requestedNodePools)
  end.

Definition sharedHandleNodePoolAssignment (podGroup : PodGroup) (lastSchedulingCondition : option SchedulingCondition)
    (podGroupPods : list Pod) : assigner (result unit) :=
  requestedNodePools <-? sharedGetRequestedNodePools podGroup podGroupPods ;;
  outside (params <-? GetNodePoolAssignmentParams (pgMarkUnschedulable podGroup) lastSchedulingCondition
                        (getAssignedNodePool cfg podGroup) requestedNodePools ;;
           assignToNodePool cfg podGroup params).

Definition sharedRun (podGroup : PodGroup) : assigner (result unit) :=
  external <-? outside (IsExternalNamespace cfg (Namespace (pgMeta podGroup))) ;;
  if external : bool then Ret (inr tt) else
  eligible <-? outside (isEligibleForNodePoolAssignment cfg podGroup) ;;
  let '(isUpForAssignment, lastSchedulingCondition) := eligible in
  if negb isUpForAssignment then Ret (inr tt) else
  podGroupPods <-? outside (getPodGroupPods (pgMeta podGroup)) ;;
  match podGroupPods with
  | [] => Ret (inl (Errorf "didn't find any pods for pod group <%s>" [getPodGroupNamespacedName (pgMeta podGroup)]))
  | _ =>
      if negb (isEligibleForAssignmentByPods podGroupPods) then Ret (inr tt)
      else sharedHandleNodePoolAssignment podGroup lastSchedulingCondition podGroupPods
  end.

Definition sharedReconcile (req : NamespacedName) : assigner (Result * option error) :=
  r <- outside (getPodGroupForRequest req) ;;
  match r with
  | inl err => Ret ({| Requeue := true; RequeueAfter := 0 |}, Some err)
  | inr None => Ret ({| Requeue := false; RequeueAfter := 0 |}, None)
  | inr (Some podgroup) =>
      match DeletionTimestamp (pgMeta podgroup) with
      | Some _ => Ret ({| Requeue := false; RequeueAfter := 0 |}, None)
      | None =>
          r <- sharedRun podgroup ;;
          match r with
          | inl err => Ret ({| Requeue := true; RequeueAfter := requeueTimeout |}, Some err)
          | inr _ => Ret ({| Requeue := false; RequeueAfter := 0 |}, None)
          end
      end
  end.

(** [ClearNodePoolListCachePeriodically]: at any moment the ticker may empty the
    cache, between two critical sections. *)
Definition ClearNodePoolListCachePeriodically (cache cache' : nodePoolListCache) : Prop :=
  cache' = clearNodePoolListCache cache.

(** The process: any number of reconciles, of any pod groups, and the ticker. *)
Definition assignerProcess := process KubeCall nodePoolListCache NamespacedName (Result * option error).

Definition assignerStarts : assignerProcess := {| memory := ∅; goroutines := [] |}.

Definition assignerStep (reply : forall X, KubeCall X -> X -> Prop) : assignerProcess -> assignerProcess -> Prop :=
  step reply ClearNodePoolListCachePeriodically sharedReconcile (fun _ => True).

End SharedAssigner.

(** ** Deletion of resources *)

(** A goroutine of [DeleteResources]; it ends with its own outcome, which only
    the statements about it look at. *)
Definition deleteGoroutine (resource : OperandResource) : shared KubeCall (list error) (result unit) :=
  r <- outside (deleteOperandResource resource) ;;
  match r with
  | inl err => _ <- call (Locked (fun errsAcc : list error => (tt, appendErr errsAcc err))) ;; Ret (inl err)
  | inr _ => Ret (inr tt)
  end.

Definition deletionProcess := process KubeCall (list error) OperandResource (result unit).

Definition deletionStarts (resources : list OperandResource) : deletionProcess :=
  {| memory := []; goroutines := started deleteGoroutine <$> resources |}.

(** [wg.Wait()] returns when every goroutine is done. *)
Definition waited (P : deletionProcess) : Prop := Forall (fun g => exists r, finished g r) (goroutines P).

(** What [DeleteResources] returns then. *)
Definition deletionAnswer (P : deletionProcess) : result unit := errorOf (memory P).
