(* ===== verification/ConcurrencyFacts.v ===== *)
(** * Properties of the goroutines

    Reconciles of the pod group assigner that run beside each other and beside
    the ticker behave like reconciles that run alone; the deletion of resources
    ends and reports exactly the errors of its goroutines. *)

From stdpp Require Import base list gmap strings relations well_founded.
From S2P Require Import Prelude ApiTypes Goroutines NodePoolUtils NodePoolCommon Assigner AssignerFacts Concurrency.

(** ** The pod group assigner *)

Section AssignerGoroutines.
Context {L : LabelsLib} (cfg : PodGroupAssignerConfig) (reply : forall X, KubeCall X -> X -> Prop).

(** Every list of the cache was computed for a pod group of its UID. *)
Definition computed (cache : nodePoolListCache) : Prop :=
  map_Forall (fun uid pools => exists podGroup pods tr, UID (pgMeta podGroup) = uid /\ replied reply tr /\
    exec (GetRequestedNodePoolsForPodGroup cfg (pgMeta podGroup) pods) tr (inr pools)) cache.

Lemma computed_empty : computed ∅.
Proof. apply map_Forall_empty. Qed.

(** [p] behaves like [q] from a cache that was computed. *)
Definition refines {A} (p : shared KubeCall nodePoolListCache A) (q : nodePoolListCache -> kube (nodePoolListCache * A)) :=
  forall tr, safe reply computed p tr (fun tr' a => exists tr1 cache cache',
    tr' = tr ++ tr1 /\ computed cache /\ replied reply tr1 /\ exec (q cache) tr1 (cache', a)).

Lemma refines_ret {A} (a : A) : refines (Ret a) (fun cache => Ret (cache, a)).
Proof. intros tr. exists [], ∅, ∅. rewrite app_nil_r. split_and!; [done|apply computed_empty|by apply Forall_nil|done]. Qed.

(** A step outside of the lock, in the sequential program with the same cache. *)
Lemma refines_outside {A B} (p : kube A) (f : A -> shared KubeCall nodePoolListCache B) f' :
  (forall a, refines (f a) (f' a)) ->
  refines (x <- outside p ;; f x) (fun cache => x <- p ;; f' x cache).
Proof.
  intros Hf tr. apply safe_bind, safe_outside. intros tr1 a Ha Hrep.
  eapply safe_mono; [|apply (Hf a)]. intros tr' b (tr2 & c & c' & -> & Hc & Hrep2 & Hex).
  exists (tr1 ++ tr2), c, c'. rewrite app_assoc. split_and!; [done|done|by apply Forall_app|by eapply exec_bind].
Qed.

Lemma refines_keep {A} (p : kube (result A)) (f : A -> shared KubeCall nodePoolListCache (result unit)) f' :
  (forall a, refines (f a) (fun cache => f' cache a)) ->
  refines (x <-? outside p ;; f x) (fun cache => keepCache cache p (f' cache)).
Proof.
  intros Hf. apply (refines_outside p _ (fun r cache => match r with inl err => Ret (cache, inl err) | inr a => f' cache a end)).
  intros [err|a]; [apply refines_ret|apply Hf].
Qed.

Lemma computed_lookup cache uid pools : computed cache -> cache !! uid = Some pools ->
  exists podGroup pods tr, UID (pgMeta podGroup) = uid /\ replied reply tr /\
    exec (GetRequestedNodePoolsForPodGroup cfg (pgMeta podGroup) pods) tr (inr pools).
Proof. intros Hc Hl. exact (Hc _ _ Hl). Qed.

Lemma refines_getRequested podGroup pods :
  refines (sharedGetRequestedNodePools cfg podGroup pods)
    (fun cache => getRequestedNodePoolsForPodGroup cfg cache podGroup pods).
Proof.
  intros tr. unfold sharedGetRequestedNodePools, getRequestedNodePoolsForPodGroup.
  apply safe_bind, safe_locked. intros cache Hc. split; [done|]. simpl.
  destruct (cache !! UID (pgMeta podGroup)) as [pools|] eqn:Hl.
  { exists [], cache, cache. rewrite app_nil_r, Hl. split_and!; [done|done|by apply Forall_nil|done]. }
  apply safe_bind, safe_outside. intros tr1 [err|pools] Hex Hrep.
  { exists tr1, cache, cache. rewrite Hl. split_and!; [done..|].
    rewrite <- (app_nil_r tr1). by eapply exec_bind. }
  intros cache2 Hc2. split.
  { apply map_Forall_insert_2; [|done]. by exists podGroup, pods, tr1. }
  exists tr1, cache, (<[UID (pgMeta podGroup) := pools]> cache). rewrite Hl. split_and!; [done..|].
  rewrite <- (app_nil_r tr1). by eapply exec_bind.
Qed.

Lemma refines_handle podGroup c pods :
  refines (sharedHandleNodePoolAssignment cfg podGroup c pods)
    (fun cache => handleNodePoolAssignment cfg cache podGroup c pods).
Proof.
  intros tr. apply safe_bind. eapply safe_mono; [|apply refines_getRequested].
  intros tr' r (tr1 & cache & cache' & -> & Hc & Hrep & Hex). destruct r as [err|pools].
  { exists tr1, cache, cache'. split_and!; [done..|]. rewrite <- (app_nil_r tr1). by eapply exec_bind. }
  apply safe_outside. intros tr2 r Hex2 Hrep2. exists (tr1 ++ tr2), cache, cache'.
  split_and!; [by rewrite app_assoc|done|by apply Forall_app|]. eapply exec_bind; [done|]. simpl.
  rewrite <- (app_nil_r tr2). by eapply exec_bind.
Qed.

Lemma refines_Run podGroup : refines (sharedRun cfg podGroup) (fun cache => Run cfg cache podGroup).
Proof.
  apply (refines_keep _ _ (fun cache (external : bool) => _)). intros [|]; [apply refines_ret|].
  apply (refines_keep _ _ (fun cache eligible => _)). intros [up condition].
  destruct (negb up); [apply refines_ret|].
  apply (refines_keep _ _ (fun cache podGroupPods => _)). intros [|pod pods]; [apply refines_ret|].
  destruct (negb _); [apply refines_ret|apply refines_handle].
Qed.

Lemma refines_Reconcile req : refines (sharedReconcile cfg req) (fun cache => Reconcile cfg cache req).
Proof.
  apply (refines_outside _ _ (fun r cache => _)). intros [err|[podGroup|]]; [apply refines_ret| |apply refines_ret].
  destruct (DeletionTimestamp (pgMeta podGroup)); [apply refines_ret|].
  intros tr. apply safe_bind. eapply safe_mono; [|apply refines_Run].
  intros tr' r (tr1 & cache & cache' & -> & Hc & Hrep & Hex). destruct r as [err|[]];
    exists tr1, cache, cache'; (split_and!; [done..|]); rewrite <- (app_nil_r tr1); by eapply exec_bind.
Qed.

Lemma assigner_processOk P :
  rtc (assignerStep cfg reply) assignerStarts P ->
  processOk reply computed (fun req tr a => exists cache cache',
    computed cache /\ replied reply tr /\ exec (Reconcile cfg cache req) tr (cache', a)) P.
Proof.
  intros Hsteps. eapply safe_together; [| |exact Hsteps|].
  - intros s s' -> _. apply computed_empty.
  - intros req _. eapply safe_mono; [|apply refines_Reconcile]. simpl.
    intros tr a (tr1 & cache & cache' & -> & Hc & Hrep & Hex). by exists cache, cache'.
  - split; [apply computed_empty|by apply Forall_nil].
Qed.

(** C12: Reconciles that run beside each other, and beside the ticker that clears
    the cache at any moment, behave like reconciles that run alone.  In every
    reachable state of the process each cached list was computed for a pod group
    of its UID, and the calls and the answer of a finished reconcile are those of
    the sequential reconcile from a cache of such lists. *)
Theorem concurrent_reconciles_are_sequential P :
  rtc (assignerStep cfg reply) assignerStarts P ->
  computed (memory P) /\
  forall g answer, g ∈ goroutines P -> finished g answer ->
    exists cache cache', computed cache /\ exec (Reconcile cfg cache (gFor g)) (gCalls g) (cache', answer).
Proof.
  intros Hok%assigner_processOk. split; [apply Hok|]. intros g answer Hg Hf.
  destruct (safe_finished _ _ _ _ _ _ Hok Hg Hf) as (cache & cache' & ? & _ & ?). by exists cache, cache'.
Qed.

End AssignerGoroutines.

(** ** No reconcile panics *)

Section AssignerPanics.
Context {L : LabelsLib} (cfg : PodGroupAssignerConfig).
Hypothesis requirementsOk : forall k op vs, noPanic (NewRequirement k op vs).

Lemma computed_cacheOk reply cache : computed cfg reply cache -> cacheOk cache.
Proof.
  intros Hc uid pools (podGroup & pods & tr & _ & _ & Hex)%Hc. unfold GetRequestedNodePoolsForPodGroup in Hex.
  destruct (getPodFromPodGroup _ pods) as [e|pod]; [by destruct Hex|]. by eapply GetRequestedNodePools_nonempty.
Qed.

(** Whatever the interleaving, no reconcile of the process panics. *)
Theorem concurrent_reconciles_never_panic P g result err :
  rtc (assignerStep cfg saneReply) assignerStarts P ->
  g ∈ goroutines P -> finished g (result, Some err) -> forall w, err <> RuntimePanic w.
Proof.
  intros Hok%assigner_processOk Hg Hf. destruct (safe_finished _ _ _ _ _ _ Hok Hg Hf) as (cache & cache' & Hc & Hrep & Hex).
  unfold Reconcile in Hex. apply exec_bind_inv in Hex as (tr1 & tr2 & r & Htr & H1 & H2).
  rewrite Htr in Hrep. apply Forall_app in Hrep as [Hrep1 Hrep2]. intros w ->.
  destruct r as [e|[pg|]]; [|destruct (DeletionTimestamp (pgMeta pg)); [by destruct H2|]|by destruct H2].
  - destruct H2 as [_ [= _ _ <-]]. unfold getPodGroupForRequest in H1.
    apply exec_bind_inv in H1 as (t1 & t2 & x & -> & (y & t3 & -> & -> & <-) & H1).
    apply Forall_app in Hrep1 as [[Hx _]%Forall_cons _]. destruct x as [e|pg]; [|by destruct H1].
    destruct (IsNotFound e); [by destruct H1|]. destruct H1 as [_ [= <-]]. by apply (Hx w).
  - apply exec_bind_inv in H2 as (t1 & t2 & [c r] & -> & H3 & H4). apply Forall_app in Hrep2 as [Hrep2 _].
    destruct (Run_never_panics cfg _ _ _ _ _ requirementsOk (computed_cacheOk _ _ Hc) H3 Hrep2) as (_ & _ & Hp).
    destruct r as [e|[]]; [|by destruct H4]. destruct H4 as [_ [= _ _ <-]]. by apply (Hp w).
Qed.

End AssignerPanics.

(** ** Deletion of resources *)

Section Deletion.
Context (reply : forall X, KubeCall X -> X -> Prop).

Definition deletionStep : deletionProcess -> deletionProcess -> Prop :=
  step reply (fun _ _ => False) deleteGoroutine (fun _ => False).

(** The errors a goroutine has put into the shared list. *)
Definition contribution (g : goroutine KubeCall (list error) OperandResource (result unit)) : list error :=
  match gRest g with Ret (inl err) => appendErr [] err | _ => [] end.

(** A goroutine has made a part of the calls of its deletion, or all of them and
    then ends with their outcome. *)
Definition onItsWay (g : goroutine KubeCall (list error) OperandResource (result unit)) : Prop :=
  (exists p, gRest g = (r <- outside p ;;
      match r with
      | inl err => _ <- call (Locked (fun errsAcc : list error => (tt, appendErr errsAcc err))) ;; Ret (inl err)
      | inr _ => Ret (inr tt)
      end) /\ forall tr r, exec p tr r -> exec (deleteOperandResource (gFor g)) (gCalls g ++ tr) r) \/
  (exists r, finished g r /\ exec (deleteOperandResource (gFor g)) (gCalls g) r).

Lemma appendErr_app errs e : appendErr errs e = errs ++ appendErr [] e.
Proof. done. Qed.

Definition deletionInv (resources : list OperandResource) (P : deletionProcess) : Prop :=
  gFor <$> goroutines P = resources /\ Forall onItsWay (goroutines P) /\
  memory P ≡ₚ (goroutines P ≫= contribution).

Lemma onItsWay_step s g s' g' :
  gstep reply s g s' g' -> onItsWay g ->
  gFor g' = gFor g /\ onItsWay g' /\ contribution g = [] /\ s' = s ++ contribution g'.
Proof.
  intros Hstep%gstep_inv [(p & Hp & Hex)|(r & Hf & _)]; [|unfold finished in Hf; by rewrite Hf in Hstep].
  unfold contribution. rewrite Hp in *. destruct p as [[err|[]]|X c k]; simpl in *; [|done|].
  - destruct Hstep as [-> ->]. simpl. split_and!; [done| |done|apply appendErr_app].
    right. exists (inl err). split; [done|]. simpl. rewrite <- (app_nil_r (gCalls g)). by apply Hex.
  - destruct Hstep as (x & _ & -> & ->). simpl. split_and!; [done| |done|].
    + left. exists (k x). split; [done|]. intros tr r Hr. simpl. rewrite <- app_assoc. apply Hex. by exists x, tr.
    + assert (contribution {| gFor := gFor g; gCalls := gCalls g ++ [Event c x];
        gRest := (r <- outside (k x) ;; match r with
          | inl err => _ <- call (Locked (fun errsAcc : list error => (tt, appendErr errsAcc err))) ;; Ret (inl err)
          | inr _ => Ret (inr tt) end) |} = []) as Hnone by (unfold contribution; simpl; destruct (k x) as [[]|]; done).
      unfold contribution in Hnone. simpl in Hnone. by rewrite Hnone, app_nil_r.
Qed.

Lemma contributions_insert gs i g g' :
  gs !! i = Some g -> contribution g = [] ->
  (<[i := g']> gs ≫= contribution) ≡ₚ (gs ≫= contribution) ++ contribution g'.
Proof.
  intros Hi Hg. rewrite <- (take_drop_middle gs i g Hi) at 2. rewrite insert_take_drop by by eapply lookup_lt_Some.
  rewrite !bind_app, !bind_cons, Hg. simpl. rewrite <- app_assoc. f_equiv. by rewrite Permutation_app_comm.
Qed.

Lemma started_contribution resource : contribution (started deleteGoroutine resource) = [].
Proof. unfold contribution, started, deleteGoroutine. simpl. by destruct (deleteOperandResource resource) as [[]|]. Qed.

Lemma deletionInv_starts resources : deletionInv resources (deletionStarts resources).
Proof.
  split_and!; simpl.
  - rewrite <- list_fmap_compose. by rewrite list_fmap_id.
  - apply Forall_fmap, Forall_true. intros resource. left. by exists (deleteOperandResource resource).
  - induction resources as [|resource resources IH]; [done|].
    rewrite fmap_cons, bind_cons, started_contribution. exact IH.
Qed.

Lemma deletionInv_step resources P P' : deletionStep P P' -> deletionInv resources P -> deletionInv resources P'.
Proof.
  intros Hstep (Hfor & Hall & Hmem). destruct Hstep as [s s' gs i g g' Hi Hg| |]; [|done|done]. simpl in *.
  destruct (onItsWay_step _ _ _ _ Hg (Forall_lookup_1 _ _ _ _ Hall Hi)) as (Hl & Hway & Hnone & ->). split_and!; simpl.
  - rewrite list_fmap_insert, Hl, list_insert_id; [done|]. by rewrite list_lookup_fmap, Hi.
  - by apply Forall_insert.
  - by rewrite (contributions_insert gs i g g' Hi Hnone), Hmem.
Qed.

Lemma deletionInv_reachable resources P : rtc deletionStep (deletionStarts resources) P -> deletionInv resources P.
Proof.
  intros Hsteps. pose proof (deletionInv_starts resources) as Hinv. revert Hinv.
  induction Hsteps as [|P1 P2 P3 Hstep _ IH]; [done|]. intros Hinv. apply IH. by eapply deletionInv_step.
Qed.

Lemma onItsWay_finished g r : onItsWay g -> finished g r -> exec (deleteOperandResource (gFor g)) (gCalls g) r.
Proof.
  unfold finished. intros [(p & Hp & Hex)|(r' & Hf & Hex)] Hr; [|unfold finished in Hf; congruence].
  rewrite Hr in Hp. destruct p as [[err|[]]|X c k]; [done| |done]. injection Hp as ->.
  rewrite <- (app_nil_r (gCalls g)). by apply Hex.
Qed.

(** The calls end with the object of the resource missing or deleted.  Nothing is
    said of an object that has annotations: the comment of [DeleteResources] makes
    an exception for a retention policy ([retained_resource_is_deleted]). *)
Definition seenGone (resource : OperandResource) (tr : list (event KubeCall)) : Prop :=
  exists t object, t `prefix_of` tr /\ exec (resourceObject resource) t (inr object) /\
    (Annotations (objMeta (aoKind object) (aoObject object)) = ∅ ->
     (exists err, Event (Get (aoKind object) (objKey (aoObject object))) (inl err) ∈ tr /\
        IsNotFound err || IsNoMatchError err) \/
     (exists r, Event (Delete (aoKind object) (aoObject object)) r ∈ tr /\
        match r with inl err => IsNotFound err || IsNoMatchError err | inr _ => true end)).

Lemma deleteOperandResource_ok resource tr : exec (deleteOperandResource resource) tr (inr tt) -> seenGone resource tr.
Proof.
  intros (tr1 & tr2 & object & -> & Hobject & H)%exec_try_ok. exists tr1, object.
  split; [by eexists|]. split; [done|]. intros _.
  apply exec_bind_inv in H as (t1 & t2 & r & -> & (x & t3 & -> & -> & <-) & H).
  destruct r as [err|existing].
  - destruct (IsNotFound err || IsNoMatchError err) eqn:Herr; [|by destruct H]. left. exists err.
    rewrite Herr. split; [|done]. set_solver.
  - apply exec_bind_inv in H as (t4 & t5 & r & -> & (x & t6 & -> & -> & <-) & H). right. exists r.
    split; [set_solver|]. destruct r as [err|[]]; [|done].
    destruct (IsNotFound err), (IsNoMatchError err); simpl in *; try done. by destruct H.
Qed.

(** C35: [DeleteResources] reports exactly what its goroutines met.  However the
    goroutines interleave, once all are done each has the calls and the outcome of
    the deletion of its resource alone, the collected errors are those of the
    goroutines (in some order), and nil is returned if and only if none of them met
    an error.  Then every resource whose object has no annotations was found
    missing or was deleted.  (The comment of the function says that resources with
    a retention policy, an annotation, are skipped; that is a finding, and nothing
    is claimed of annotated objects here.) *)
Theorem deletion_reports_every_error resources P :
  rtc deletionStep (deletionStarts resources) P -> waited P ->
  gFor <$> goroutines P = resources /\
  (forall g r, g ∈ goroutines P -> finished g r -> exec (deleteOperandResource (gFor g)) (gCalls g) r) /\
  memory P ≡ₚ (goroutines P ≫= contribution) /\
  (deletionAnswer P = inr tt <-> Forall (fun g => finished g (inr tt)) (goroutines P)) /\
  (deletionAnswer P = inr tt -> Forall (fun g => seenGone (gFor g) (gCalls g)) (goroutines P)).
Proof.
  intros (Hfor & Hall & Hmem)%deletionInv_reachable Hwait. rewrite Forall_forall in Hall.
  assert (deletionAnswer P = inr tt <-> Forall (fun g => finished g (inr tt)) (goroutines P)) as Hnil.
  { unfold deletionAnswer, errorOf. transitivity (memory P = []); [by destruct (memory P)|]. split.
    - intros Hm. rewrite Hm in Hmem. symmetry in Hmem. apply Permutation_nil_r in Hmem.
      apply Forall_forall. intros g Hg. unfold waited in Hwait. rewrite Forall_forall in Hwait.
      destruct (Hwait g Hg) as [[err|[]] Hr]; [|done]. exfalso. apply (appendErr_nonempty [] err).
      assert (contribution g = []) as Hc; [|unfold contribution in Hc; by rewrite Hr in Hc].
      destruct (contribution g) as [|e es] eqn:Hc; [done|]. exfalso.
      assert (e ∈ goroutines P ≫= contribution) as He; [|rewrite Hmem in He; by apply elem_of_nil in He].
      apply list_elem_of_bind. exists g. rewrite Hc. split; [apply list_elem_of_here|done].
    - intros Hdone. apply Permutation_nil_r. rewrite Hmem. clear -Hdone.
      induction Hdone as [|g gs Hg _ IH]; [done|]. rewrite bind_cons, IH. unfold contribution. by rewrite Hg. }
  split_and!; [done|intros g r Hg; by apply onItsWay_finished, Hall|done|done|].
  intros Hok%Hnil. apply Forall_forall. intros g Hg. rewrite Forall_forall in Hok.
  eapply deleteOperandResource_ok, onItsWay_finished; [by apply Hall|by apply Hok].
Qed.

Lemma deletionStep_joining P P' : deletionStep P P' -> joining reply P' P.
Proof. intros []; [|done|done]. by eexists _, _, _. Qed.

(** [DeleteResources] always returns.  With a server that answers every call,
    no interleaving of its goroutines goes on for ever, and when none of them can
    go on, all are done. *)
Theorem deletion_always_returns resources :
  (forall X (c : KubeCall X), exists x, reply X c x) ->
  Acc (flip deletionStep) (deletionStarts resources) /\
  forall P, rtc deletionStep (deletionStarts resources) P -> (forall P', ~ deletionStep P P') -> waited P.
Proof.
  intros Hreply. split.
  - apply (wf_projected (joining reply) id); [|apply joining_wf]. intros P' P HP. by apply deletionStep_joining.
  - intros P _ Hend. apply (joining_progress reply P Hreply). intros P' HP. eapply Hend, joining_step, HP.
Qed.

End Deletion.

(** The comment of [DeleteResources] says that resources with the Retain policy
    are skipped; a resource that is found is deleted, whatever its annotations. *)
Theorem retained_resource_is_deleted {S} (h : handler KubeCall S) s s' name object existing :
  h _ (Get (aoKind object) (objKey (aoObject object))) s = (inr existing, s') ->
  run_trace h (deleteOperandResource {| OperandName := name; resourceObject := Ret (inr object) |}) s =
    [Event (Get (aoKind object) (objKey (aoObject object))) (inr existing);
     Event (Delete (aoKind object) (aoObject object)) (h _ (Delete (aoKind object) (aoObject object)) s').1].
Proof.
  intros Hget. unfold deleteOperandResource. simpl. rewrite Hget. simpl.
  destruct (h _ (Delete (aoKind object) (aoObject object)) s') as [[err|[]] s2]; simpl; [|done].
  by destruct (negb _ && _).
Qed.

(** ** Witnesses *)

Module ConcurrencyDemo.

(** Two reconciles of the demo pod group, call by call in turns; both miss the
    cache, the first one stores its list, a tick drops it, the second one stores. *)
Definition demoSchedule : list (action NamespacedName) :=
  [Go ("", "pg"); Go ("", "pg")] ++ concat (repeat [Turn 0; Turn 1] 4) ++ [Turn 0; Tick] ++
  concat (repeat [Turn 1; Turn 0] 8).

Definition demoInterleaved : assignerProcess :=
  (schedule memServer clearNodePoolListCache (sharedReconcile demoConfig) (demoStore, assignerStarts) demoSchedule).2.

Lemma concurrent_reconciles_are_sequential_witness :
  (map_to_list (memory demoInterleaved) = [("", ["b"])] /\
   Forall (fun g => finished g ({| Requeue := false; RequeueAfter := 0 |}, None)) (goroutines demoInterleaved)) /\
  computed demoConfig any_reply (memory demoInterleaved) /\
  forall g answer, g ∈ goroutines demoInterleaved -> finished g answer ->
    exists cache cache', computed demoConfig any_reply cache /\
      exec (Reconcile demoConfig cache (gFor g)) (gCalls g) (cache', answer).
Proof.
  split; [split; vm_compute; [reflexivity|repeat constructor]|].
  apply (concurrent_reconciles_are_sequential demoConfig any_reply demoInterleaved).
  apply (schedule_steps memServer clearNodePoolListCache _ _ _ (demoStore, assignerStarts) demoSchedule).
  apply Forall_forall. intros [i| |l] _; done.
Defined.

(** A resource that exists, one that does not, and one that cannot be built. *)
Definition demoDeletable (name : string) : OperandResource :=
  {| OperandName := "a";
     resourceObject := Ret (inr {| aoKind := KNodePool; aoObject := demoPool name NodePoolReady |}) |}.

Definition demoBroken : OperandResource := {| OperandName := "a"; resourceObject := Ret (inl (Errorf "no object" [])) |}.

Definition demoResources : list OperandResource := [demoDeletable "a"; demoDeletable "z"; demoBroken].

Definition demoDeletion : deletionProcess :=
  (schedule memServer id deleteGoroutine (demoStore, deletionStarts demoResources) [Turn 0; Turn 1; Turn 2; Turn 0]).2.

Lemma deletion_reports_every_error_witness :
  deletionAnswer demoDeletion = inl (Joined [Errorf "no object" []]) /\
  gFor <$> goroutines demoDeletion = demoResources /\
  (forall g r, g ∈ goroutines demoDeletion -> finished g r -> exec (deleteOperandResource (gFor g)) (gCalls g) r) /\
  memory demoDeletion ≡ₚ (goroutines demoDeletion ≫= contribution) /\
  (deletionAnswer demoDeletion = inr tt <-> Forall (fun g => finished g (inr tt)) (goroutines demoDeletion)) /\
  (deletionAnswer demoDeletion = inr tt -> Forall (fun g => seenGone (gFor g) (gCalls g)) (goroutines demoDeletion)).
Proof.
  split; [vm_compute; reflexivity|]. apply (deletion_reports_every_error any_reply demoResources demoDeletion).
  - apply (schedule_steps memServer id _ (fun _ _ => False) (fun _ => False) (demoStore, deletionStarts demoResources)).
    by repeat constructor.
  - vm_compute. repeat (apply Forall_cons; split); [by eexists..|apply Forall_nil; exact I].
Defined.

Lemma deletion_always_returns_witness :
  Acc (flip (deletionStep any_reply)) (deletionStarts demoResources) /\
  (forall P, rtc (deletionStep any_reply) (deletionStarts demoResources) P ->
     (forall P', ~ deletionStep any_reply P P') -> waited P).
Proof.
  apply (deletion_always_returns any_reply demoResources).
  intros X c. exists (memServer X c emptyStore).1. exact I.
Defined.

End ConcurrencyDemo.
