(* ===== verification/StatusFacts.v ===== *)
(** * The status of the KRMConfig across reconciles

    Every patch of the status wakes the operator again, so a status that never
    settles is a loop.  Here: a status that was written is the one that was
    computed, and as long as the same is computed nothing is written any more. *)

From stdpp Require Import base list gmap strings pretty.
From S2P Require Import Prelude ApiTypes NodePoolCommon OperatorConfig GoFlags Dependencies Operands OperandResources Deployable.
From S2P Require Import NodeFacts DeployFacts OperatorFacts.
From S2P Require CommandLineFacts MigrateFacts HelmHookFacts.

(** ** Conditions by their type *)

(** The first condition of a type, the one that the code compares. *)
Fixpoint conditionOf (conditionType : string) (conditions : list MetaCondition) : option MetaCondition :=
  match conditions with
  | [] => None
  | c :: rest => if mcType c ==? conditionType then Some c else conditionOf conditionType rest
  end.

(** Two conditions that differ at most in the time of their transition. *)
Definition sameReport (c1 c2 : MetaCondition) : Prop :=
  mcType c1 = mcType c2 /\ mcObservedGeneration c1 = mcObservedGeneration c2 /\ mcStatus c1 = mcStatus c2 /\
  mcReason c1 = mcReason c2 /\ mcMessage c1 = mcMessage c2.

#[export] Instance sameReport_equiv : Equivalence sameReport.
Proof. unfold sameReport. split; [by intros c|by intros c d (? & ? & ? & ? & ?)|intros c d e; intuition congruence]. Qed.

Definition reported (conditions : list MetaCondition) (c : MetaCondition) : Prop :=
  exists e, conditionOf (mcType c) conditions = Some e /\ sameReport e c.

#[export] Instance reported_proper conditions : Proper (sameReport ==> iff) (reported conditions).
Proof.
  assert (forall c d, sameReport c d -> reported conditions c -> reported conditions d) as H.
  { intros c d Hcd (e & He & Hec). exists e. split; [by rewrite <- (proj1 Hcd)|by transitivity c]. }
  intros c d Hcd. split; apply H; [done|by symmetry].
Qed.

Lemma sameReport_bool e c : mcType e = mcType c ->
  (mcObservedGeneration e ==? mcObservedGeneration c) && (mcStatus e ==? mcStatus c) && (mcReason e ==? mcReason c)
    && (mcMessage e ==? mcMessage c) = true <-> sameReport e c.
Proof. intros Ht. rewrite !andb_true_iff, !bool_decide_eq_true. unfold sameReport. tauto. Qed.

(** Nothing is written exactly when the condition is reported. *)
Lemma updatedConditions_None conditions c : updatedConditions conditions c = None <-> reported conditions c.
Proof.
  unfold reported. induction conditions as [|e rest IH]; cbn [updatedConditions conditionOf]; [by split; [|intros (? & ? & ?)]|].
  destruct (decide (mcType e = mcType c)) as [He|He]; [rewrite (bool_decide_true _ He)|rewrite (bool_decide_false _ He)].
  - destruct (_ && _) eqn:Hb; split; try done.
    + intros _. exists e. split; [done|]. by apply sameReport_bool.
    + intros (e' & [= <-] & Hs%sameReport_bool); [congruence|done].
  - rewrite <- IH. by destruct (updatedConditions rest c).
Qed.

Lemma conditionOf_None t conditions : conditionOf t conditions = None <-> t ∉ (mcType <$> conditions).
Proof.
  induction conditions as [|c rest IH]; cbn [conditionOf]; [by split; [intros _ ?%elem_of_nil|]|].
  rewrite fmap_cons, not_elem_of_cons. destruct (decide (mcType c = t)) as [Hc|Hc];
    [rewrite (bool_decide_true _ Hc)|rewrite (bool_decide_false _ Hc)]; [naive_solver|]. rewrite IH. naive_solver.
Qed.

(** What a write changes: the condition of its type, and nothing else. *)
Lemma updatedConditions_Some conditions c conditions' : updatedConditions conditions c = Some conditions' ->
  conditionOf (mcType c) conditions' = Some c /\
  (forall t, t <> mcType c -> conditionOf t conditions' = conditionOf t conditions) /\
  (mcType <$> conditions') = (mcType <$> conditions) ++ (if conditionOf (mcType c) conditions then [] else [mcType c]).
Proof.
  revert conditions'. induction conditions as [|e rest IH]; cbn [updatedConditions]; intros conditions'.
  - intros [= <-]. cbn. rewrite bool_decide_true by done. split_and!; [done| |done]. intros t Ht.
    by rewrite bool_decide_false by congruence.
  - cbn [conditionOf]. destruct (decide (mcType e = mcType c)) as [He|He]; [rewrite (bool_decide_true _ He)|rewrite (bool_decide_false _ He)].
    + destruct (_ && _); [done|]. intros [= <-]. cbn [conditionOf]. rewrite bool_decide_true by done. split_and!; [done| |].
      * intros t Ht. by rewrite !bool_decide_false by congruence.
      * by rewrite !fmap_cons, He, app_nil_r.
    + destruct (updatedConditions rest c) as [l|] eqn:Hl; [|done]. intros [= <-]. destruct (IH _ eq_refl) as (H1 & H2 & H3).
      cbn [conditionOf]. rewrite (bool_decide_false _ He). split_and!; [done| |].
      * intros t Ht. case_bool_decide; [done|by apply H2].
      * by rewrite !fmap_cons, H3.
Qed.

(** ** One reconcile of the status *)

(** The server keeps the conditions that it is sent. *)
Definition keepsStatus (e : event KubeCall) : Prop :=
  match e with
  | Event (PatchStatus KKRMConfig _ after) r =>
      match r with inr updated => krmConditions updated = krmConditions after | inl _ => True end
  | _ => True
  end.

(** What became of the stored conditions. *)
Definition follows (types : list string) (before after : KRMConfig) : Prop :=
  Generation (krmMeta after) = Generation (krmMeta before) /\
  (forall t, t ∉ types -> conditionOf t (krmConditions after) = conditionOf t (krmConditions before)) /\
  (NoDup (mcType <$> krmConditions before) -> NoDup (mcType <$> krmConditions after)).

Lemma follows_refl types krmConfig : follows types krmConfig krmConfig.
Proof. done. Qed.

Lemma follows_trans types1 types2 k1 k2 k3 : follows types1 k1 k2 -> follows types2 k2 k3 -> follows (types1 ++ types2) k1 k3.
Proof.
  intros (Hg1 & Ho1 & Hn1) (Hg2 & Ho2 & Hn2). split_and!; [congruence| |auto].
  intros t Ht. rewrite elem_of_app in Ht. rewrite Ho2, Ho1 by tauto. done.
Qed.

Lemma reconcileCondition_reports krmConfig c tr krmConfig' :
  exec (reconcileCondition krmConfig c) tr (krmConfig', inr tt) -> Forall keepsStatus tr ->
  reported (krmConditions krmConfig') c /\ follows [mcType c] krmConfig krmConfig'.
Proof.
  unfold reconcileCondition. destruct (updatedConditions (krmConditions krmConfig) c) as [conditions|] eqn:Hu.
  - intros (r & t & -> & Hex) [Hkeep _]%Forall_cons. destruct r as [e|updated]; destruct Hex as [-> Hr]; [done|].
    injection Hr as ->. cbn in Hkeep. destruct (updatedConditions_Some _ _ _ Hu) as (H1 & H2 & H3).
    split; [exists c; cbn [krmConditions]; by rewrite Hkeep|]. split_and!; [done| |]; cbn [krmConditions]; rewrite Hkeep.
    + intros t Ht. apply H2. by rewrite list_elem_of_singleton in Ht.
    + rewrite H3. destruct (conditionOf (mcType c) (krmConditions krmConfig)) eqn:Hc; [by rewrite app_nil_r|].
      apply conditionOf_None in Hc. intros Hnd. apply NoDup_app. split_and!; [done| |apply NoDup_singleton].
      intros t Ht ->%list_elem_of_singleton. done.
  - intros [-> [= ->]] _. split; [by apply updatedConditions_None|apply follows_refl].
Qed.

(** All the conditions of one reconcile. *)
Lemma reconcileConditions_reports krmConfig conditions tr krmConfig' : NoDup (mcType <$> conditions) ->
  exec (reconcileConditions krmConfig conditions) tr (krmConfig', inr tt) -> Forall keepsStatus tr ->
  Forall (reported (krmConditions krmConfig')) conditions /\ follows (mcType <$> conditions) krmConfig krmConfig'.
Proof.
  revert krmConfig tr. induction conditions as [|c conditions IH]; intros krmConfig tr; cbn [reconcileConditions].
  - intros _ [-> [= ->]] _. split; [by apply Forall_nil|apply follows_refl].
  - rewrite fmap_cons. intros [Hc Hnd]%NoDup_cons (t1 & t2 & [k r] & -> & H1 & H2)%exec_bind_inv [Hk1 Hk2]%Forall_app.
    cbn [fst snd] in H2. destruct r as [e|[]]; [by destruct H2|].
    destruct (reconcileCondition_reports _ _ _ _ H1 Hk1) as [(e & He & Hec) Hf1]. destruct (IH _ _ Hnd H2 Hk2) as [Hall Hf2].
    split; [|by apply (follows_trans [mcType c] _ _ k)]. apply Forall_cons. split; [|done].
    exists e. split; [|done]. by rewrite (proj1 (proj2 Hf2)).
Qed.

(** Reported conditions are left alone. *)
Lemma reconcileConditions_quiet krmConfig conditions :
  Forall (reported (krmConditions krmConfig)) conditions -> reconcileConditions krmConfig conditions = Ret (krmConfig, inr tt).
Proof.
  induction 1 as [|c conditions Hc _ IH]; [done|]. cbn [reconcileConditions]. unfold reconcileCondition.
  by rewrite (proj2 (updatedConditions_None _ _) Hc).
Qed.

Lemma hasReconciling_conditionOf `{CN : ConditionNames} conditions generation :
  hasReconcilingConditionForGeneration conditions generation = true <->
  exists e, conditionOf TypeReconciling conditions = Some e /\ mcObservedGeneration e = generation.
Proof.
  induction conditions as [|c rest IH]; cbn [hasReconcilingConditionForGeneration conditionOf]; [by split; [|intros (? & ? & ?)]|].
  destruct (_ ==? TypeReconciling); [|done]. rewrite bool_decide_eq_true. naive_solver.
Qed.

(** ** Asking the services only reads *)

Section Reads.
Context (getSetsTypeMeta : bool) (errorText : error -> string).

Lemma reads_AllObjectsExists objects : reads_only (AllObjectsExists getSetsTypeMeta objects).
Proof. pose proof reads_readObject. induction objects as [|o objects IH]; cbn [AllObjectsExists]; reads_tac; eauto. Qed.

Lemma reads_checkControllers objects : reads_only (checkControllers getSetsTypeMeta errorText objects).
Proof. pose proof reads_readObject. induction objects as [|o objects IH]; cbn [checkControllers]; reads_tac; eauto. Qed.

Lemma reads_aggregate description check operands :
  Forall (fun o => forall st, reads_only (check o.1 st)) operands -> reads_only (aggregate description check operands).
Proof.
  intros Hall. unfold aggregate. apply reads_bind; [|intros [? []]; apply reads_ret].
  induction Hall as [|[op st] operands Ho _ IH]; cbn [aggregateErrors]; [done|].
  apply reads_bind; [apply Ho|]. intros r. apply reads_bind; [done|]. intros [? []]. apply reads_ret.
Qed.

Lemma reads_MissingCRDs requirements : reads_only (MissingCRDs requirements).
Proof.
  unfold MissingCRDs. apply reads_try; [|intros ?; apply reads_ret]. generalize (@nil string).
  induction requirements as [|r requirements IH]; intros missing; cbn [missingRequirements]; reads_tac; eauto.
Qed.

Context {KC : KaiCommon} {Y : YamlLib} {CN : ConditionNames} {V : VersionLib} {KN : KaiNames} (minimumSchedulerVersion : string).

Lemma reads_KAISchedulerCheck : reads_only (KAISchedulerCheck minimumSchedulerVersion).
Proof. unfold KAISchedulerCheck, unsupportedVersionMessage, runningVersion, operatorVersionTag, readerGet. reads_tac. Qed.

Notation ours := (services getSetsTypeMeta errorText).

(** Every question to a service only reads. *)
Lemma reads_service op : op ∈ ours ->
  (forall st, reads_only (IsDeployed op st)) /\ (forall st, reads_only (IsAvailable op st)) /\
  (forall krmConfig, reads_only (HasMissingDependencies op krmConfig)).
Proof.
  intros Hop. assert (exists n d enabled objects reqs, op = serviceOperand getSetsTypeMeta errorText n d enabled objects reqs)
    as (n & d & enabled & objects & reqs & ->).
  { unfold services in Hop. rewrite !elem_of_cons, elem_of_nil in Hop. destruct Hop as [->|[->|[->|[]]]]; by do 5 eexists. }
  cbn [serviceOperand IsDeployed IsAvailable HasMissingDependencies]. split_and!; intros ?.
  - apply reads_bind; [apply reads_AllObjectsExists|intros; apply reads_ret].
  - apply reads_bind; [|intros; apply reads_ret]. apply reads_bind; [apply reads_checkControllers|intros; apply reads_ret].
  - destruct (enabled _) as [|[]]; [done| |done]. apply reads_MissingCRDs.
Qed.

Lemma reads_answer ct r1 r2 m1 m2 generation answer : reads_only (answerCondition errorText ct r1 r2 m1 m2 generation answer).
Proof. unfold answerCondition, newCondition. reads_tac. Qed.

Lemma aggregate_ops description check operands tr operands' r :
  exec (aggregate description check operands) tr (operands', r) -> operands'.*1 = operands.*1.
Proof.
  intros (t1 & t2 & [ops [met errs]] & -> & Hex & [-> [= -> _]])%exec_bind_inv. revert t1 ops met errs Hex.
  induction operands as [|[op st] operands IH]; intros t1 ops met errs; cbn [aggregateErrors]; [by intros [_ [= ->]]|].
  intros (t3 & t4 & r1 & -> & _ & Hex)%exec_bind_inv.
  apply exec_bind_inv in Hex as (t5 & t6 & [ops' [met' errs']] & -> & Hex & [-> [= -> _]]).
  rewrite !fmap_cons. f_equal. by eapply IH.
Qed.

Lemma ours_stay (operands operands' : list (Operand * OperandState)) : operands'.*1 = operands.*1 ->
  Forall (fun op => op.1 ∈ ours) operands -> Forall (fun op => op.1 ∈ ours) operands'.
Proof.
  intros Heq Hops. apply (Forall_fmap fst (fun op => op ∈ ours)). rewrite Heq. by apply (Forall_fmap fst (fun op => op ∈ ours)).
Qed.

Lemma reads_missingDependencies operands krmConfig :
  Forall (fun op => op.1 ∈ ours) operands -> reads_only (missingDependencies operands krmConfig).
Proof.
  induction 1 as [|[op st] operands Hop _ IH]; cbn [missingDependencies]; [done|].
  apply reads_bind; [by apply reads_service|]. intros r. apply reads_bind; [done|]. intros; apply reads_ret.
Qed.

Lemma reads_fulfilled operands krmConfig : Forall (fun op => op.1 ∈ ours) operands ->
  reads_only (getDependenciesFulfilledCondition errorText minimumSchedulerVersion operands krmConfig).
Proof.
  intros Hops. unfold getDependenciesFulfilledCondition, newCondition. apply reads_bind; [|intros; reads_tac].
  unfold unmetDependencies, operandsMissingDependencies, unmetInstallationDependencies.
  pose proof reads_KAISchedulerCheck. pose proof (reads_missingDependencies operands krmConfig Hops).
  apply reads_bind; [by apply reads_bind; [|intros; apply reads_ret]|]. intros r1.
  apply reads_bind; [by apply reads_bind; [|intros; apply reads_ret]|]. intros; apply reads_ret.
Qed.

Lemma reads_ready generation conditions : reads_only (readyCondition generation conditions).
Proof. unfold readyCondition, newCondition. induction conditions; reads_tac; done. Qed.

(** A condition that the services answer: the operands stay, and only reads are
    made. *)
Lemma asked_condition description check ct r1 r2 m1 m2 generation operands tr operands' c :
  (forall op st, op ∈ ours -> reads_only (check op st)) -> Forall (fun op => op.1 ∈ ours) operands ->
  exec (r <- aggregate description check operands ;;
        condition <- answerCondition errorText ct r1 r2 m1 m2 generation r.2 ;; Ret (r.1, condition)) tr (operands', c) ->
  writes tr = [] /\ Forall (fun op => op.1 ∈ ours) operands'.
Proof.
  intros Hcheck Hops (t1 & t2 & [ops answer] & -> & Hag & Hex)%exec_bind_inv.
  apply exec_bind_inv in Hex as (t3 & t4 & c' & -> & Hans & [-> [= -> ->]]). rewrite app_nil_r, writes_app. split.
  - rewrite (reads_only_writes _ _ _ (reads_answer _ _ _ _ _ _ _) Hans), app_nil_r. eapply reads_only_writes; [|exact Hag].
    apply reads_aggregate. eapply Forall_impl; [exact Hops|]. cbn beta. auto.
  - eapply ours_stay; [by eapply aggregate_ops|done].
Qed.

(** The whole status is computed by reads. *)
Lemma statusConditions_writes operands krmConfig tr r :
  Forall (fun op => op.1 ∈ ours) operands ->
  exec (statusConditions errorText minimumSchedulerVersion operands krmConfig) tr r -> writes tr = [].
Proof.
  unfold statusConditions. cbv zeta. intros Hops (t1 & ? & [ops1 d] & -> & Hd & Hex)%exec_bind_inv.
  apply (asked_condition "not deployed" IsDeployed) in Hd as [Hd Hops1]; [|intros; by apply reads_service|done].
  apply exec_bind_inv in Hex as (t2 & ? & [ops2 a] & -> & Ha & Hex). cbn [fst snd] in *.
  apply (asked_condition "not available" IsAvailable) in Ha as [Ha Hops2]; [|intros; by apply reads_service|done].
  rewrite !writes_app, Hd, Ha. eapply reads_only_writes; [|exact Hex].
  apply reads_bind; [by apply reads_fulfilled|]. intros f. apply reads_bind; [apply reads_ready|]. intros r0.
  unfold getReconcilingCondition, newCondition. reads_tac.
Qed.

End Reads.

(** ** The status settles *)

Section Settles.
Context {KC : KaiCommon} {Y : YamlLib} {CN : ConditionNames} {V : VersionLib} {KN : KaiNames}.
Context (getSetsTypeMeta : bool) (errorText : error -> string) (minimumSchedulerVersion : string).

Notation ours := (services getSetsTypeMeta errorText).
Notation askedConditions := (statusConditions errorText minimumSchedulerVersion).
Notation reconcileStatus := (ReconcileStatus errorText minimumSchedulerVersion).

(** The types of the conditions of a reconcile, in their order. *)
Definition conditionTypes : list string :=
  [TypeDeployed; TypeAvailable; TypeDependenciesFulfilled; TypeReady; TypeReconciling].

Lemma answerCondition_type ct r1 r2 m1 m2 generation answer tr c :
  exec (answerCondition errorText ct r1 r2 m1 m2 generation answer) tr c -> mcType c = ct /\ mcObservedGeneration c = generation.
Proof. by intros (? & ? & _)%answerCondition_exec. Qed.

Lemma statusConditions_types operands krmConfig tr operands' conditions :
  exec (askedConditions operands krmConfig) tr (operands', conditions) ->
  (mcType <$> conditions) = conditionTypes /\
  Forall (fun c => mcObservedGeneration c = Generation (krmMeta krmConfig)) conditions.
Proof.
  intros (? & ? & ? & ? & ? & d & a & f & r & g & _ & -> & Hd & Ha & Hf & (Hrt & Hrg & _) & _ & (Hgt & Hgg & _))%statusConditions_inv.
  apply exec_bind_inv in Hd as (? & ? & ? & _ & _ & (? & ? & ? & _ & [Hdt Hdg]%answerCondition_type & [_ [= _ ->]])%exec_bind_inv).
  apply exec_bind_inv in Ha as (? & ? & ? & _ & _ & (? & ? & ? & _ & [Hat Hag]%answerCondition_type & [_ [= _ ->]])%exec_bind_inv).
  apply exec_bind_inv in Hf as (? & ? & unmet & _ & _ & Hf). cbv zeta in Hf.
  assert (mcType f = TypeDependenciesFulfilled /\ mcObservedGeneration f = Generation (krmMeta krmConfig)) as [Hft Hfg].
  { destruct (_ <? _)%nat; by apply newCondition_exec in Hf as [(? & ? & _) _]. }
  split; [by rewrite !fmap_cons, Hdt, Hat, Hft, Hrt, Hgt|by repeat constructor].
Qed.

(** C33: The status settles.  After a reconcile of the status that succeeded on a
    server that keeps what it is sent, the first stored condition of each of the
    five types is the computed one, for the current generation; conditions of
    other types are as before, and no type is there twice if none was.  From then
    on, as long as the questions to the cluster give the same answers for the same
    generation, neither the start of a reconcile nor its end writes anything, so
    the last patch of the status wakes the operator only once more. *)
Theorem status_settles operands krmConfig tr1 operands1 conditions tr2 krmConfig1 :
  NoDup conditionTypes ->
  exec (askedConditions operands krmConfig) tr1 (operands1, conditions) ->
  exec (reconcileConditions krmConfig conditions) tr2 (krmConfig1, inr tt) -> Forall keepsStatus tr2 ->
    exec (reconcileStatus operands krmConfig) (tr1 ++ tr2) (operands1, (krmConfig1, inr tt)) /\
    (forall t, t ∈ conditionTypes -> exists c e, c ∈ conditions /\ conditionOf t (krmConditions krmConfig1) = Some e /\
       sameReport e c /\ mcObservedGeneration e = Generation (krmMeta krmConfig)) /\
    (forall t, t ∉ conditionTypes -> conditionOf t (krmConditions krmConfig1) = conditionOf t (krmConditions krmConfig)) /\
    (NoDup (mcType <$> krmConditions krmConfig) -> NoDup (mcType <$> krmConditions krmConfig1)) /\
    forall operands2 krmConfig2 tr operands3 conditions2,
      Forall (fun op => op.1 ∈ ours) operands2 ->
      krmConditions krmConfig2 = krmConditions krmConfig1 ->
      Generation (krmMeta krmConfig2) = Generation (krmMeta krmConfig1) ->
      exec (askedConditions operands2 krmConfig2) tr (operands3, conditions2) -> Forall2 sameReport conditions conditions2 ->
      UpdateStartReconcileStatus errorText operands2 krmConfig2 = Ret (operands2, (krmConfig2, inr tt)) /\
      exec (reconcileStatus operands2 krmConfig2) tr (operands3, (krmConfig2, inr tt)) /\ writes tr = [].
Proof.
  intros Hnd Hc Hr Hkeep. destruct (statusConditions_types _ _ _ _ _ Hc) as [Htypes Hgen].
  destruct (reconcileConditions_reports krmConfig conditions tr2 krmConfig1) as [Hrep (Hg & Hother & Hdup)]; [by rewrite Htypes|done..|].
  rewrite Htypes in Hother. split.
  { eapply exec_bind; [exact Hc|]. rewrite <- (app_nil_r tr2). by eapply exec_bind. }
  assert (forall t, t ∈ conditionTypes -> exists c e, c ∈ conditions /\ conditionOf t (krmConditions krmConfig1) = Some e /\
    sameReport e c /\ mcObservedGeneration e = Generation (krmMeta krmConfig)) as Hstored.
  { intros t. rewrite <- Htypes, list_elem_of_fmap. intros (c & -> & Hin).
    rewrite Forall_forall in Hrep. rewrite Forall_forall in Hgen. destruct (Hrep c Hin) as (e & He & Hec).
    exists c, e. split_and!; [done..|]. rewrite <- (Hgen c Hin). apply Hec. }
  split_and!; [done|done|done|]. intros operands2 krmConfig2 tr operands3 conditions2 Hops Hsame Hgen2 Hex2 Hagree.
  split_and!; [| |by eapply statusConditions_writes].
  - unfold UpdateStartReconcileStatus. destruct (Hstored TypeReconciling) as (_ & e & _ & He & _ & Heg); [do 4 right; left|].
    rewrite (proj2 (hasReconciling_conditionOf _ _)); [done|]. exists e. rewrite Hsame. split; [done|]. congruence.
  - rewrite <- (app_nil_r tr). unfold ReconcileStatus. eapply exec_bind; [exact Hex2|]. cbn [fst snd].
    rewrite reconcileConditions_quiet; [done|]. rewrite Hsame. apply Forall_lookup. intros i c2 Hi.
    destruct (Forall2_lookup_r _ _ _ _ _ Hagree Hi) as (c & Hci & <-). rewrite Forall_lookup in Hrep. by eapply Hrep.
Qed.

(** A reconcile that starts on a freshly started operator. *)
Definition fresh : list (Operand * OperandState) := KRMConfigReconcilerOperands getSetsTypeMeta errorText.

Lemma fresh_deployed generation tr operands' c :
  exec (getDeployedCondition errorText fresh generation) tr (operands', c) ->
  isCondition TypeDeployed generation true c /\ mcMessage c = "Resources deployed" /\ exists now, tr = [Event Now now].
Proof.
  unfold getDeployedCondition. cbn. intros (now & t & -> & [-> [= _ ->]]). split_and!; [done|done|by exists now].
Qed.

(** The condition Deployed comes before the deployment: an operator that has
    just started and finds a generation it has not started yet reports it as
    deployed, without a single read, whatever the cluster holds. *)
Theorem fresh_operator_reports_deployed krmConfig tr operands' krmConfig' :
  TypeDeployed <> TypeReconciling ->
  hasReconcilingConditionForGeneration (krmConditions krmConfig) (Generation (krmMeta krmConfig)) = false ->
  exec (UpdateStartReconcileStatus errorText fresh krmConfig) tr (operands', (krmConfig', inr tt)) -> Forall keepsStatus tr ->
  (exists c, reported (krmConditions krmConfig') c /\ isCondition TypeDeployed (Generation (krmMeta krmConfig)) true c /\
     mcMessage c = "Resources deployed") /\
  Forall (fun e => match ev_call e with Now | PatchStatus _ _ _ => True | _ => False end) tr.
Proof.
  intros Hne Hstart Hex Hkeep. unfold UpdateStartReconcileStatus in Hex. rewrite Hstart in Hex.
  destruct Hex as (now & t & -> & Hex). apply Forall_cons in Hkeep as [_ Hkeep]. cbn [prog_bind_] in Hex.
  apply exec_bind_inv in Hex as (t1 & t2 & [k1 r1] & -> & H1 & Hex). apply Forall_app in Hkeep as [Hk1 Hk2].
  cbn [fst snd] in Hex. destruct r1 as [e|[]]; [by destruct Hex|].
  apply exec_bind_inv in Hex as (t3 & t4 & [ops d] & -> & Hd & Hex). apply Forall_app in Hk2 as [_ Hk2].
  apply exec_bind_inv in Hex as (t5 & t6 & r & -> & H2 & [-> [= -> <-]]). rewrite app_nil_r in Hk2 |- *. cbn [fst snd] in H2.
  apply fresh_deployed in Hd as (Hd & Hmsg & now' & ->). split.
  - exists d. split; [|done]. by eapply reconcileCondition_reports.
  - assert (forall krmConfig c tr r, exec (reconcileCondition krmConfig c) tr r ->
      Forall (fun e => match ev_call e with Now | PatchStatus _ _ _ => True | _ => False end) tr) as Hcalls.
    { intros k c tr r0. unfold reconcileCondition. destruct (updatedConditions _ _); [|by intros [-> _]; apply Forall_nil].
      intros (x & t & -> & Hx). destruct x; destruct Hx as [-> _]; by repeat constructor. }
    apply Forall_cons. split; [done|]. apply Forall_app. split; [by eapply Hcalls|]. apply Forall_cons. split; [done|].
    by eapply Hcalls.
Qed.

End Settles.

(** ** Evaluation on a concrete cluster *)

Module StatusDemo.
Import CommandLineFacts.LineDemo DeployFacts.DeployDemo OperatorFacts.OperatorDemo.
#[local] Existing Instances demoCommon demoYaml demoConditions HelmHookFacts.HookDemo.demoVersionLib MigrateFacts.Demo.demoNames.

Definition definition (r : CRDRequirement) : CustomResourceDefinition :=
  {| crdMeta := named (reqName r); crdVersions := [(reqVersion r, true)]; crdConditions := [] |}.

(** A cluster with the scheduler, every definition the services need, and a
    KRMConfig that no reconcile has seen. *)
Definition newCluster : store :=
  foldr (fun r s => store_add (K := KCustomResourceDefinition) (definition r) s)
    (store_add (K := KKaiConfig) readyScheduler (store_add (K := KKRMConfig) demoKRMConfig emptyStore))
    (NodePoolController.requirements ++ ProjectController.requirements ++ PodGroupAssigner.requirements).

(** A server on which deployments cannot be read. *)
Definition unreadable : handler KubeCall store := fun X c =>
  match c in KubeCall X return store -> X * store with
  | Get KDeployment _ => fun s => (inl (APIError ReasonForbidden ""), s)
  | c => memServer _ c
  end.

Definition demoReconcile :=
  Reconcile demoErrorText demoOrder "kai.resources/v1alpha1" true true "v0.18.0" "kai" 30 "kai" demoOperands ("", "kai").

Definition storedConditions (s : store) : list (string * string * string) :=
  match s KKRMConfig !! ("", "kai") with
  | Some krmConfig => (fun c => (mcType c, mcStatus c, mcMessage c)) <$> krmConditions krmConfig
  | None => []
  end.

(** A failed first deployment is reported as a ready installation: when the
    operator has just started and the state it wants cannot be calculated, the
    reconcile answers the error, no object of a service exists, and yet every
    condition is met, Ready says that the system is ready, and Reconciling that
    the reconciliation was completed successfully. *)
Theorem failed_deployment_reported_ready :
  let out := run unreadable demoReconcile newCluster in
  isOk out.1.2.2 = false /\ map_size (out.2 KDeployment) = 0%nat /\
  storedConditions out.2 =
    [("Reconciling", "False", "Reconciliation completed successfully"); ("Deployed", "True", "Resources deployed");
     ("Available", "True", "System available"); ("DependenciesFulfilled", "True", "Dependencies are fulfilled");
     ("Ready", "True", "System is ready")].
Proof. vm_compute. repeat split. Qed.

Definition firstStatus := statusConditions demoErrorText "v0.18.0" demoOperands demoKRMConfig.
Definition firstConditions : list MetaCondition := (run memServer firstStatus newCluster).1.2.
Definition firstWrites := reconcileConditions demoKRMConfig firstConditions.
Definition settledConfig : KRMConfig := (run memServer firstWrites newCluster).1.1.
Definition nextStatus := statusConditions demoErrorText "v0.18.0" demoOperands settledConfig.

(** The first status writes five conditions, the second none. *)
Lemma status_settles_witness :
  length (writes (run_trace memServer firstWrites newCluster)) = 5%nat /\
  exists operands3, exec (ReconcileStatus demoErrorText "v0.18.0" demoOperands settledConfig)
    (run_trace memServer nextStatus newCluster) (operands3, (settledConfig, inr tt)) /\
    writes (run_trace memServer nextStatus newCluster) = [].
Proof.
  split; [by vm_compute|].
  pose proof (run_exec memServer firstStatus newCluster) as Hfirst. pose proof (run_exec memServer firstWrites newCluster) as Hwrites.
  pose proof (run_exec memServer nextStatus newCluster) as Hnext.
  assert ((run memServer firstWrites newCluster).1 = (settledConfig, inr tt)) as Hok by (vm_compute; reflexivity).
  assert ((run memServer nextStatus newCluster).1.2 = firstConditions) as Hsame by (vm_compute; reflexivity).
  assert (Forall keepsStatus (run_trace memServer firstWrites newCluster)) as Hkeep
    by (vm_compute; repeat (apply Forall_cons; split; [reflexivity|]); by apply Forall_nil).
  unfold firstWrites, firstConditions in Hkeep. unfold firstConditions in Hsame. rewrite Hok in Hwrites. unfold firstWrites, firstConditions in Hwrites.
  destruct (run memServer firstStatus newCluster).1 as [operands1 conditions].
  destruct (run memServer nextStatus newCluster).1 as [operands3 conditions3]. cbn [snd] in *. subst conditions3. exists operands3.
  eapply (status_settles true demoErrorText "v0.18.0" demoOperands demoKRMConfig _ operands1 conditions _ settledConfig).
  - apply (bool_decide_unpack _). vm_compute. exact I.
  - exact Hfirst.
  - exact Hwrites.
  - exact Hkeep.
  - exact demoOperands_ours.
  - reflexivity.
  - reflexivity.
  - exact Hnext.
  - apply Forall2_same_length_lookup_2; [done|]. intros i c d Hc Hd. rewrite Hc in Hd. by injection Hd as ->.
Defined.

End StatusDemo.
