(* ===== verification/CompositionFacts.v ===== *)
(** * The services together

    The services only meet in API objects and in the settings the operator gives
    them.  Here: the settings of the services agree when one KRMConfig configures
    them, and the queues that the project controller writes are the ones that the
    pod group assigner finds. *)

From stdpp Require Import base list gmap strings.
From S2P Require Import Prelude ApiTypes NodePoolUtils NodePoolCommon Assigner AssignerFacts ProjectCommon Queues QueueFacts.
From S2P Require Import GoFlags OperatorConfig Operands OperandResources CommandLine CommandLineFacts.

(** The continuation of a program only runs after the program. *)
Lemma issues_after {A B} (pre : forall X, KubeCall X -> Prop) (p : kube A) (f : A -> kube B) :
  issues pre p -> (forall tr a, exec p tr a -> issues pre (f a)) -> issues pre (x <- p ;; f x).
Proof.
  induction p as [a|X c k IH]; simpl; intros Hp Hf; [by apply (Hf [])|]. destruct Hp as [Hc Hk].
  split; [done|]. intros x Hx. apply IH; [by apply Hk|]. intros tr a Hex. apply (Hf (Event c x :: tr)). by exists x, tr.
Qed.

(** ** What the project controller promises to the pod group assigner *)

(** The settings on which two services have to agree. *)
Class SharedKeys (pcfg : ProjectReconcilerConfig) (acfg : PodGroupAssignerConfig) : Prop := {
  same_project_key : Assigner.ProjectLabelKey acfg = ProjectCommon.ProjectLabelKey pcfg;
  same_pool_key : Assigner.NodePoolLabelKey acfg = ProjectCommon.NodePoolLabelKey pcfg;
  same_default_pool : Assigner.DefaultNodepoolName acfg = ProjectCommon.DefaultNodepoolName pcfg;
}.

(** No two labels of a queue share a key. *)
Class DistinctKeys (pcfg : ProjectReconcilerConfig) : Prop := {
  queue_keys_distinct :
    NoDup [ProjectCommon.ProjectLabelKey pcfg; ProjectCommon.NodePoolLabelKey pcfg;
           ProjectCommon.ProjectIdLabelKey pcfg; ProjectCommon.QueueDepartmentNameLabelKey pcfg];
}.

Section Queues.
Context {L : LabelsLib} {LL : LabelsLaws L} (pcfg : ProjectReconcilerConfig) (acfg : PodGroupAssignerConfig).
Context {SK : SharedKeys pcfg acfg} {DK : DistinctKeys pcfg} (kaiAPIVersion : string).

(** A queue as the project controller writes it for a queue of the spec, under
    the name that it ended up with. *)
Definition writtenFor (project : Project) (spec : QueueConfig) (queue : Queue) : Prop :=
  exists tr built, exec (buildProjectQueueFromSpec pcfg kaiAPIVersion spec project) tr (inr built) /\
    Labels (qMeta queue) = Labels (qMeta built) /\ OwnerReferences (qMeta queue) = OwnerReferences (qMeta built).

Definition writesQueuesOf (project : Project) (specs : list QueueConfig) : forall X, KubeCall X -> Prop := fun _ c =>
  match c with
  | Create K o | Update K o | Patch K _ o =>
      match K return obj K -> Prop with
      | KQueue => fun queue => exists spec, spec ∈ specs /\ writtenFor project spec queue
      | _ => fun _ => True
      end o
  | _ => True
  end.

Lemma writesQueuesOf_read project specs X (c : KubeCall X) : is_write c = false -> writesQueuesOf project specs X c.
Proof. by destruct c. Qed.

Lemma writes_reconcileProjectQueue project specs spec queue name uid pool :
  spec ∈ specs -> writtenFor project spec queue ->
  issues (writesQueuesOf project specs) (reconcileProjectQueue pcfg queue name uid pool).
Proof.
  intros Hspec Hw. pose proof (writesQueuesOf_read project specs) as Hread.
  apply issues_bind; [by apply issues_reads, getExistingOfResource_reads|]. intros [e|existing].
  - destruct (IsNotFound e); [|done]. apply issues_bind; [by apply issues_reads, generate_reads|]. intros n.
    apply issues_try; [|done]. apply issues_bind; [apply issues_call; by exists spec|].
    intros [e'|q]; [by destruct (IsAlreadyExists e')|done].
  - apply issues_try; [|done]. unfold handleExistingProjectQueue, updateExistingQueue.
    destruct (areQueuesEqual _ _); [done|]. destruct (IsManuallyOverridden _ _); [done|].
    destruct (IsExternalQueue _ _ _); [done|]. apply issues_try; [apply issues_call; by exists spec|done].
Qed.

Lemma writes_reconcileProjectQueues project specs queues names errs :
  (forall spec, spec ∈ queues -> spec ∈ specs) ->
  issues (writesQueuesOf project specs) (reconcileProjectQueues pcfg kaiAPIVersion project queues names errs).
Proof.
  revert names errs. induction queues as [|spec queues IH]; intros names errs Hsub; simpl; [done|].
  apply issues_bind; [|intros [e|n]; apply IH; intros s Hs; apply Hsub; by right].
  assert (reads_only (buildProjectQueueFromSpec pcfg kaiAPIVersion spec project)) as Hreads.
  { unfold buildProjectQueueFromSpec. pose proof (departmentQueueName_reads pcfg). reads_tac. }
  apply issues_after; [by apply issues_reads, Hreads; apply writesQueuesOf_read|].
  intros tr [err|built] Hex; [done|]. apply (writes_reconcileProjectQueue project specs spec); [apply Hsub; by left|].
  by exists tr, built.
Qed.

Lemma writes_handleProjectQueues project :
  issues (writesQueuesOf project (prjQueues project)) (handleProjectQueues pcfg kaiAPIVersion project).
Proof.
  apply issues_bind; [by apply writes_reconcileProjectQueues|]. intros [names errs].
  destruct (errorOf errs); [done|]. eapply wp_pre_mono; [|apply wp_deleteUnnecessary].
  intros X c Hc. by destruct c as [| | | | |K|K| |K| |K| | |].
Qed.

Lemma queue_keys_apart :
  ProjectCommon.ProjectLabelKey pcfg <> ProjectCommon.NodePoolLabelKey pcfg /\
  ProjectCommon.ProjectLabelKey pcfg <> ProjectCommon.ProjectIdLabelKey pcfg /\
  ProjectCommon.ProjectLabelKey pcfg <> ProjectCommon.QueueDepartmentNameLabelKey pcfg /\
  ProjectCommon.NodePoolLabelKey pcfg <> ProjectCommon.ProjectIdLabelKey pcfg /\
  ProjectCommon.NodePoolLabelKey pcfg <> ProjectCommon.QueueDepartmentNameLabelKey pcfg.
Proof.
  destruct DK as [Hnd]. apply NoDup_cons in Hnd as [H1 [H2 _]%NoDup_cons].
  rewrite !not_elem_of_cons in H1. rewrite !not_elem_of_cons in H2. tauto.
Qed.

(** The labels and the owner of a written queue. *)
Lemma writtenFor_labels project spec queue : writtenFor project spec queue ->
  Labels (qMeta queue) !! ProjectCommon.ProjectLabelKey pcfg = Some (Name (prjMeta project)) /\
  Labels (qMeta queue) !! ProjectCommon.NodePoolLabelKey pcfg =
    (if qcNodepool spec ==? ProjectCommon.DefaultNodepoolName pcfg then None else Some (qcNodepool spec)) /\
  exists owner, OwnerReferences (qMeta queue) = [owner] /\ OwnerKind owner = ProjectKind.
Proof.
  intros (tr & built & (tr1 & tr2 & parent & -> & _ & [_ [= ->]])%exec_try_ok & -> & ->). simpl.
  destruct queue_keys_apart as (H1 & H2 & H3 & H4 & H5). unfold addNodePoolLabelIfNeeded.
  split_and!; [| |by eexists].
  - destruct (negb _); [rewrite lookup_insert_ne by congruence|];
      rewrite !lookup_insert_ne by congruence; by rewrite lookup_insert_eq.
  - destruct (decide (qcNodepool spec = ProjectCommon.DefaultNodepoolName pcfg)) as [He|He];
      [rewrite (bool_decide_true _ He)|rewrite (bool_decide_false _ He)]; simpl; [|by rewrite lookup_insert_eq].
    rewrite !lookup_insert_ne by congruence. apply lookup_empty.
Qed.

(** A list is answered with the objects of the cluster that its selector matches. *)
Definition listsMatching (s : store) (e : event KubeCall) : Prop :=
  match e with
  | Event (List K opts) r =>
      exists items, r = inr items /\ forall o, o ∈ items <->
        (exists key, s K !! key = Some o) /\
        Forall (fun requirement => Matches requirement (Labels (objMeta K o)) = true) (loLabelSelector opts)
  | _ => True
  end.

(** The selector of the pod group assigner selects the queues of a project in a
    node pool. *)
Lemma requirements_match name pool requirements labels :
  Assigner.createRequirementsForQueuesList acfg name pool = inr requirements ->
  Forall (fun requirement => Matches requirement labels = true) requirements <->
  labels !! ProjectCommon.ProjectLabelKey pcfg = Some name /\
  labels !! ProjectCommon.NodePoolLabelKey pcfg =
    (if pool ==? ProjectCommon.DefaultNodepoolName pcfg then None else Some pool).
Proof.
  unfold Assigner.createRequirementsForQueuesList. destruct (_ || _); [done|].
  rewrite same_project_key, same_pool_key, same_default_pool.
  destruct (NewRequirement _ DoubleEquals [name]) as [e|r1] eqn:H1; [done|].
  destruct (decide (pool = ProjectCommon.DefaultNodepoolName pcfg)) as [He|He];
    [rewrite !(bool_decide_true _ He)|rewrite !(bool_decide_false _ He)].
  - destruct (NewRequirement _ DoesNotExist []) as [e|r2] eqn:H2; [done|]. intros [= <-].
    rewrite !Forall_cons, (matches_double_equals _ _ _ _ H1), (matches_does_not_exist _ _ _ H2), !bool_decide_eq_true.
    rewrite Forall_nil. tauto.
  - destruct (NewRequirement _ DoubleEquals [pool]) as [e|r2] eqn:H2; [done|]. intros [= <-].
    rewrite !Forall_cons, (matches_double_equals _ _ _ _ H1), (matches_double_equals _ _ _ _ H2), !bool_decide_eq_true.
    rewrite Forall_nil. tauto.
Qed.

(** Two specifications with the same label are of the same pool. *)
Lemma pool_label_inj pool1 pool2 :
  (if pool1 ==? ProjectCommon.DefaultNodepoolName pcfg then None else Some pool1) =
  (if pool2 ==? ProjectCommon.DefaultNodepoolName pcfg then None else Some pool2) -> pool1 = pool2.
Proof. repeat case_bool_decide; congruence. Qed.

(** C13: The queues that the project controller writes are the ones that the pod
    group assigner finds.  Whatever the API answers, every queue that the
    reconcile of a project writes is labelled and owned for a queue of its spec.
    In a cluster in which the queues labelled with the project were written so,
    the assigner, asked for a node pool, answers the name of a queue written for
    exactly this project and node pool, and fails only when there is none. *)
Theorem project_queues_serve_the_assigner project pool requirements s tr r :
  Assigner.createRequirementsForQueuesList acfg (Name (prjMeta project)) pool = inr requirements ->
  (forall key queue, s KQueue !! key = Some queue ->
     Labels (qMeta queue) !! ProjectCommon.ProjectLabelKey pcfg = Some (Name (prjMeta project)) ->
     exists spec, spec ∈ prjQueues project /\ writtenFor project spec queue) ->
  exec (GetQueueNameOfNodePool acfg (Name (prjMeta project)) pool) tr r -> Forall (listsMatching s) tr ->
  issues (writesQueuesOf project (prjQueues project)) (handleProjectQueues pcfg kaiAPIVersion project) /\
  let serves queue := exists key spec, s KQueue !! key = Some queue /\ spec ∈ prjQueues project /\
                        qcNodepool spec = pool /\ writtenFor project spec queue in
  match r with
  | inr name => exists queue, Name (qMeta queue) = name /\ serves queue
  | inl _ => forall queue, ~ serves queue
  end.
Proof.
  intros Hreq Hworld Hex Hans. split; [apply writes_handleProjectQueues|]. intros serves.
  apply exec_bind_inv in Hex as (t1 & t2 & x & -> & Hex & Hr). unfold Assigner.getExistingQueueByLabels in Hex.
  rewrite Hreq in Hex. apply exec_bind_inv in Hex as (t3 & t4 & reply & -> & (y & t & -> & -> & <-) & Hx).
  apply Forall_app in Hans as [[[Hlist _]%Forall_cons _]%Forall_app _].
  destruct Hlist as (items & -> & Hitems).
  assert (forall queue, queue ∈ items <-> serves queue) as Hserves.
  { intros queue. rewrite Hitems. simpl. rewrite (requirements_match _ _ _ _ Hreq). split.
    - intros ((key & Hkey) & Hprj & Hpool). destruct (Hworld key queue Hkey Hprj) as (spec & Hspec & Hw).
      exists key, spec. split_and!; try done. destruct (writtenFor_labels _ _ _ Hw) as (_ & Hl & _).
      apply pool_label_inj. by rewrite <- Hl, <- Hpool.
    - intros (key & spec & Hkey & Hspec & <- & Hw). destruct (writtenFor_labels _ _ _ Hw) as (Hp & Hl & _).
      split; [by exists key|]. by split. }
  set (kept := if Assigner.AllowExternalQueues acfg then ownedByProjectOrDepartment items else items) in *.
  assert (forall queue, queue ∈ kept <-> serves queue) as Hkept.
  { intros queue. unfold kept. destruct (Assigner.AllowExternalQueues acfg); [|apply Hserves].
    unfold ownedByProjectOrDepartment. rewrite list_elem_of_filter, Hserves. split; [tauto|]. intros Hs. split; [|done].
    destruct Hs as (key & spec & _ & _ & _ & Hw). destruct (writtenFor_labels _ _ _ Hw) as (_ & _ & owner & -> & Hk).
    simpl. by rewrite Hk. }
  destruct kept as [|queue rest]; destruct Hx as [-> ->].
  - destruct Hr as [-> ->]. intros queue Hs. apply Hkept in Hs. by apply elem_of_nil in Hs.
  - destruct Hr as [-> ->]. exists queue. split; [done|]. apply Hkept. left.
Qed.

End Queues.

(** ** What the operator promises to the services *)

Section Settings.
Context {FL : FlagLib} {KC : KaiCommon}.

(** A service without extra arguments, whose numbers are of machine width. *)
Definition plainService (extraArgs : list string) (ports : option ControllerServiceConfig) (service : option ServiceConfig) : Prop :=
  extraArgs = [] /\ (forall c p, ports = Some c -> portOf (csWebhook c) = Some p -> 0 < p <= 65535)%Z /\
  (forall s, service = Some s -> wordInt (svK8sClientConfig s ≫= QPS) /\ wordInt (svK8sClientConfig s ≫= Burst)).

Definition plain (krmConfig : KRMConfig) : Prop :=
  (forall c, krmNodePoolController (krmSpec krmConfig) = Some c ->
     plainService (ncExtraArgs c) (ncControllerService c) (ncService c)) /\
  (forall c, krmProjectController (krmSpec krmConfig) = Some c ->
     plainService (pcExtraArgs c) (pcControllerService c) (pcService c)) /\
  (forall c, krmPodGroupAssigner (krmSpec krmConfig) = Some c ->
     plainService (gaExtraArgs c) (gaControllerService c) (gaService c)).

(** A pointer that a builder follows is not nil when the builder succeeds. *)
Ltac followed H :=
  repeat match type of H with
  | (deref ?o ≫= _) = _ => let E := fresh "E" in destruct o eqn:E; cbn [deref mbind result_bind] in H; [|discriminate H]
  | (?m ≫= _) = _ => let E := fresh "E" in destruct m eqn:E; cbn [mbind result_bind] in H; [discriminate H|]
  end.

Lemma assigner_settings krmConfig args values rest :
  PodGroupAssigner.buildArgsList krmConfig = inr args -> plain krmConfig ->
  Parse podGroupAssignerFlags args = inr (values, rest) ->
  exists global, krmGlobal (krmSpec krmConfig) = Some global /\
    Assigner.NodePoolLabelKey (podGroupAssignerConfigOf values) = textOr (gNodePoolLabelKey global) kaiNodePoolLabelKey /\
    Assigner.ProjectLabelKey (podGroupAssignerConfigOf values) = textOr (gProjectLabelKey global) kaiProjectLabelKey /\
    Assigner.NamespaceProjectLabelKey (podGroupAssignerConfigOf values) =
      textOr (gNamespaceProjectLabelKey global) kaiNamespaceProjectLabelKey /\
    Assigner.AllowExternalQueues (podGroupAssignerConfigOf values) = default false (gAllowExternalQueues global) /\
    Assigner.DefaultNodepoolName (podGroupAssignerConfigOf values) = textOr (gDefaultNodePoolName global) kaiNodePoolName.
Proof.
  intros Hb (_ & _ & Hplain) Hparse. pose proof Hb as Hb'. unfold PodGroupAssigner.buildArgsList in Hb'. followed Hb'.
  match goal with Hg : krmGlobal _ = Some ?g |- _ => exists g end. split; [done|].
  destruct (Hplain _ eq_refl) as (Hextra & Hport & Hint). destruct (Hint _ ltac:(eassumption)) as [Hqps Hburst].
  edestruct pod_group_assigner_reads_its_config as (values' & Hparse' & Hcfg & _);
    [eassumption..|apply wordInt_port; intros ? ?; by eapply Hport|eassumption|eassumption|].
  rewrite Hparse in Hparse'. injection Hparse' as -> _. by rewrite Hcfg.
Qed.

Lemma nodepool_settings krmConfig args values rest :
  NodePoolController.buildArgsList krmConfig = inr args -> plain krmConfig ->
  Parse nodePoolControllerFlags args = inr (values, rest) ->
  exists global name, krmGlobal (krmSpec krmConfig) = Some global /\ gDefaultNodePoolName global = Some name /\
    NodePoolCommon.NodePoolNameLabel (nodePoolControllerConfigOf values) = textOr (gNodePoolLabelKey global) kaiNodePoolLabelKey /\
    NodePoolCommon.DefaultNodepoolName (nodePoolControllerConfigOf values) = name.
Proof.
  intros Hb (Hplain & _) Hparse. pose proof Hb as Hb'. unfold NodePoolController.buildArgsList in Hb'. followed Hb'.
  match goal with Hg : krmGlobal _ = Some ?g, Hn : gDefaultNodePoolName ?g = Some ?n |- _ => exists g, n end.
  split; [done|]. split; [done|].
  destruct (Hplain _ eq_refl) as (Hextra & Hport & Hint). destruct (Hint _ ltac:(eassumption)) as [Hqps Hburst].
  edestruct nodepool_controller_reads_its_config as (values' & Hparse' & Hcfg & _);
    [eassumption..|apply wordInt_port; intros ? ?; by eapply Hport|eassumption|eassumption|].
  rewrite Hparse in Hparse'. injection Hparse' as -> _. rewrite Hcfg. simpl.
  by match goal with Hn : gDefaultNodePoolName _ = Some _ |- _ => rewrite Hn end.
Qed.

Lemma project_settings krmConfig args values rest :
  ProjectController.buildArgsList krmConfig = inr args -> plain krmConfig ->
  Parse projectControllerFlags args = inr (values, rest) ->
  exists global name, krmGlobal (krmSpec krmConfig) = Some global /\ gDefaultNodePoolName global = Some name /\
    ProjectCommon.NodePoolLabelKey (projectReconcilerConfigOf values) = textOr (gNodePoolLabelKey global) kaiNodePoolLabelKey /\
    ProjectCommon.ProjectLabelKey (projectReconcilerConfigOf values) = textOr (gProjectLabelKey global) kaiProjectLabelKey /\
    ProjectCommon.NamespaceProjectLabelKey (projectReconcilerConfigOf values) =
      textOr (gNamespaceProjectLabelKey global) kaiNamespaceProjectLabelKey /\
    ProjectCommon.AllowExternalQueues (projectReconcilerConfigOf values) = default false (gAllowExternalQueues global) /\
    ProjectCommon.DefaultNodepoolName (projectReconcilerConfigOf values) = name.
Proof.
  intros Hb (_ & Hplain & _) Hparse. pose proof Hb as Hb'. unfold ProjectController.buildArgsList in Hb'. followed Hb'.
  match goal with Hg : krmGlobal _ = Some ?g, Hn : gDefaultNodePoolName ?g = Some ?n |- _ => exists g, n end.
  split; [done|]. split; [done|].
  destruct (Hplain _ eq_refl) as (Hextra & Hport & Hint). destruct (Hint _ ltac:(eassumption)) as [Hqps Hburst].
  edestruct projectController_parses as (metrics & profilerPort & defaultName & _ & _ & Hname & Hparse');
    [eassumption..|intros ?; by apply Hport|eassumption|eassumption|].
  rewrite Hparse in Hparse'. match type of Hparse' with _ = inr (readSlots ?l, _) => set (slots := l) in * end.
  assert (NoDup slots.*1) as Hnd by distinct_slots.
  injection Hparse' as -> _. assert (defaultName = s) as Hd by congruence. split_and!; [read_field Hnd..|].
  rewrite <- Hd. read_field Hnd.
Qed.

(** A name that the binary keeps its own default for when it is empty. *)
Lemma textOr_given name d : textOr (Some name) d = name <-> (name = "" -> d = "").
Proof. unfold textOr. simpl. destruct (decide (name = "")) as [->|Hn]; repeat case_bool_decide; naive_solver. Qed.

(** C14: One KRMConfig configures services that agree.  When the operator builds
    the command lines of the three services and each binary parses its own, they
    use the same label of node pools; the project controller and the pod group
    assigner use the same labels of projects and namespaces and the same answer
    on external queues; and the node pool and project controllers use the same
    default node pool.  The queues of the project controller then serve the pod
    group assigner exactly when the name of the default pool in the KRMConfig is
    not empty, or the binary's own default is: an empty name reaches the two
    controllers, while the assigner keeps its own. *)
Theorem services_agree krmConfig nodePoolArgs projectArgs assignerArgs nvalues pvalues avalues nrest prest arest :
  NodePoolController.buildArgsList krmConfig = inr nodePoolArgs ->
  ProjectController.buildArgsList krmConfig = inr projectArgs ->
  PodGroupAssigner.buildArgsList krmConfig = inr assignerArgs -> plain krmConfig ->
  Parse nodePoolControllerFlags nodePoolArgs = inr (nvalues, nrest) ->
  Parse projectControllerFlags projectArgs = inr (pvalues, prest) ->
  Parse podGroupAssignerFlags assignerArgs = inr (avalues, arest) ->
  let n := nodePoolControllerConfigOf nvalues in
  let p := projectReconcilerConfigOf pvalues in
  let a := podGroupAssignerConfigOf avalues in
  NodePoolCommon.NodePoolNameLabel n = ProjectCommon.NodePoolLabelKey p /\
  NodePoolCommon.DefaultNodepoolName n = ProjectCommon.DefaultNodepoolName p /\
  Assigner.NamespaceProjectLabelKey a = ProjectCommon.NamespaceProjectLabelKey p /\
  Assigner.AllowExternalQueues a = ProjectCommon.AllowExternalQueues p /\
  (SharedKeys p a <->
   (krmGlobal (krmSpec krmConfig) ≫= gDefaultNodePoolName = Some "" -> kaiNodePoolName = "")).
Proof.
  intros Hn Hp Ha Hplain Hpn Hpp Hpa. cbv zeta.
  destruct (nodepool_settings _ _ _ _ Hn Hplain Hpn) as (g1 & name1 & Hg1 & Hname1 & Hn1 & Hn2).
  destruct (project_settings _ _ _ _ Hp Hplain Hpp) as (g2 & name2 & Hg2 & Hname2 & Hp1 & Hp2 & Hp3 & Hp4 & Hp5).
  destruct (assigner_settings _ _ _ _ Ha Hplain Hpa) as (g3 & Hg3 & Ha1 & Ha2 & Ha3 & Ha4 & Ha5).
  assert (g1 = g2 /\ g3 = g2) as [-> ->] by (split; congruence). assert (name1 = name2) as -> by congruence.
  rewrite Hg2. cbn [mbind option_bind]. rewrite Hname2.
  split; [by rewrite Hp1|]. split; [by rewrite Hp5|]. split; [by rewrite Hp3|]. split; [by rewrite Hp4|].
  rewrite Hname2 in Ha5. transitivity (name2 = "" -> kaiNodePoolName = ""); [|split; [intros H [= ->]|intros H ->]; by apply H].
  rewrite <- textOr_given. split; [intros [_ _ Hd]; by rewrite <- Ha5, <- Hp5|].
  intros Hd. split; [by rewrite Ha2|by rewrite Ha1|by rewrite Hp5, <- Hd].
Qed.

End Settings.

(** ** Witnesses *)

Module CompositionDemo.

#[local] Existing Instances LineDemo.demoFlags LineDemo.demoCommon.

Definition demoArgs (args : result (list string)) : list string := LineDemo.answered [] args.
Definition demoParse (flags : flagSet) (args : result (list string)) : flagValues * list string :=
  LineDemo.answered (∅, []) (Parse flags (demoArgs args)).

(** An installation with this name of the default node pool. *)
Definition namedGlobal (name : string) : GlobalConfig :=
  {| gReplicaCount := None; gOpenshift := None; gFipsMode := None; gRequireDefaultPodAntiAffinityTerm := None;
     gSecurityContext := None; gLeaderElection := None; gDefaultNodePoolName := Some name; gVPA := None;
     gServiceMonitor := None; gNodeSelector := ∅; gTolerations := []; gPriorityClassName := None; gAffinity := None;
     gImagePullSecrets := []; gNodePoolLabelKey := None; gSchedulerName := None; gFinalizerDomain := None;
     gQueueLabelKey := None; gEnforceSchedulerAnnotationKey := None; gNamespaceProjectLabelKey := None;
     gProjectLabelKey := None; gAllowExternalQueues := Some true |}.
Definition installation (name : string) : KRMConfig :=
  {| krmMeta := named "kai";
     krmSpec := SetDefaultsWhereNeeded "kai"
       {| krmNamespace := ""; krmGlobal := Some (namedGlobal name);
          krmNodePoolController := None; krmProjectController := None; krmPodGroupAssigner := None |};
     krmConditions := [] |}.

Definition nodePoolLine (c : KRMConfig) := demoParse nodePoolControllerFlags (NodePoolController.buildArgsList c).
Definition projectLine (c : KRMConfig) := demoParse projectControllerFlags (ProjectController.buildArgsList c).
Definition assignerLine (c : KRMConfig) := demoParse podGroupAssignerFlags (PodGroupAssigner.buildArgsList c).
Definition projectSettings (c : KRMConfig) := projectReconcilerConfigOf (projectLine c).1.
Definition assignerSettings (c : KRMConfig) := podGroupAssignerConfigOf (assignerLine c).1.

Definition isAnswer {A} (r : result A) : bool := match r with inr _ => true | inl _ => false end.

Lemma answered_built (args : result (list string)) : isAnswer args = true -> args = inr (demoArgs args).
Proof. by destruct args. Qed.

Lemma answered_parsed flags args :
  isAnswer (Parse flags (demoArgs args)) = true ->
  Parse flags (demoArgs args) = inr ((demoParse flags args).1, (demoParse flags args).2).
Proof. unfold demoParse. by destruct (Parse flags (demoArgs args)) as [|[]]. Qed.

Lemma installation_plain name : plain (installation name).
Proof.
  split_and!; intros c Hc; vm_compute in Hc; injection Hc as <-; (split_and!;
    [reflexivity|intros ports p [= <-] Hp; vm_compute in Hp; try discriminate Hp; injection Hp as <-; lia
    |intros s [= <-]; split; vm_compute; done]).
Qed.

(** With a name the services share the keys of the queues; without one they do not. *)
Lemma services_agree_witness :
  SharedKeys (projectSettings (installation "main")) (assignerSettings (installation "main")) /\
  ~ SharedKeys (projectSettings (installation "")) (assignerSettings (installation "")).
Proof.
  unfold projectSettings, assignerSettings, projectLine, assignerLine. split.
  - edestruct (services_agree (installation "main")) as (_ & _ & _ & _ & Hsk);
      [by apply answered_built; vm_compute|by apply answered_built; vm_compute|by apply answered_built; vm_compute
      |apply installation_plain
      |by apply answered_parsed; vm_compute|by apply answered_parsed; vm_compute|by apply answered_parsed; vm_compute|].
    apply (proj2 Hsk). intros Hname. vm_compute in Hname. discriminate Hname.
  - edestruct (services_agree (installation "")) as (_ & _ & _ & _ & Hsk);
      [by apply answered_built; vm_compute|by apply answered_built; vm_compute|by apply answered_built; vm_compute
      |apply installation_plain
      |by apply answered_parsed; vm_compute|by apply answered_parsed; vm_compute|by apply answered_parsed; vm_compute|].
    intros Hkeys. apply (proj1 Hsk) in Hkeys; [discriminate Hkeys|]. by vm_compute.
Defined.

(** The settings of a project controller and a pod group assigner that agree. *)
Definition assignerConfig : PodGroupAssignerConfig :=
  {| Assigner.NodePoolLabelKey := "kai.scheduler/node-pool"; Assigner.QueueLabelKey := "kai.scheduler/queue";
     Assigner.NamespaceProjectLabelKey := "kai.scheduler/project"; Assigner.ProjectLabelKey := "kai.scheduler/project";
     Assigner.UnexistingNodepoolSentinel := "kai-unexisting-node-pool"; Assigner.DefaultNodepoolName := "default";
     Assigner.AnnotationNodepoolsKey := "kai.scheduler/node-pools"; Assigner.EnforceSchedulerAnnotationKey := "enforce";
     Assigner.SchedulerName := "kai-scheduler"; Assigner.AllowExternalQueues := true |}.

#[local] Instance demoShared : SharedKeys demoProjectConfig assignerConfig.
Proof. by split. Qed.
#[local] Instance demoDistinct : DistinctKeys demoProjectConfig.
Proof. split. apply (bool_decide_unpack _). vm_compute. exact I. Qed.

(** A project with a queue in two pools, reconciled. *)
Definition twoPools : Project :=
  {| prjMeta := named "p"; prjParent := ""; prjNamespace := ""; prjQueues := [demoSpecQueue "default"; demoSpecQueue "gpu"];
     DefaultNodePools := []; EnforceKaiScheduler := false; prjDeletionType := None;
     prjStatus := prjStatus (QueueFacts.demoProject "p" "uid" "") |}.
Definition reconciled : store := (run memServer (handleProjectQueues demoProjectConfig kaiVersion twoPools) emptyStore).2.

Definition checkWritten (queue : Queue) (spec : QueueConfig) : bool :=
  match (run memServer (buildProjectQueueFromSpec demoProjectConfig kaiVersion spec twoPools) emptyStore).1 with
  | inr built => bool_decide (Labels (qMeta queue) = Labels (qMeta built) /\ OwnerReferences (qMeta queue) = OwnerReferences (qMeta built))
  | inl _ => false
  end.

Lemma checkWritten_ok queue spec :
  checkWritten queue spec = true -> writtenFor demoProjectConfig kaiVersion twoPools spec queue.
Proof.
  unfold checkWritten. destruct (run memServer _ emptyStore).1 as [|built] eqn:Hrun; [done|]. intros Hmeta%bool_decide_eq_true.
  eexists _, built. split; [|done]. rewrite <- Hrun. apply run_exec.
Qed.

Lemma reconciled_written key queue : reconciled KQueue !! key = Some queue ->
  exists spec, spec ∈ prjQueues twoPools /\ writtenFor demoProjectConfig kaiVersion twoPools spec queue.
Proof.
  intros Hq%elem_of_map_to_list%list_elem_of_In.
  assert (forallb (fun kq => existsb (checkWritten kq.2) (prjQueues twoPools)) (map_to_list (reconciled KQueue)) = true) as Hall
    by by vm_compute.
  rewrite forallb_forall in Hall. apply Hall, existsb_exists in Hq as (spec & Hspec%list_elem_of_In & Hw).
  exists spec. split; [done|]. by apply checkWritten_ok.
Qed.

(** The answers of the test server to a selection by labels. *)
Lemma memServer_lists s K opts : loNamespace opts = "" -> loMatchingLabels opts = ∅ ->
  listsMatching s (Event (List K opts) (memServer _ (List K opts) s).1).
Proof.
  intros Hns Hml. eexists. split; [done|]. intros o. rewrite list_elem_of_filter, list_elem_of_fmap.
  unfold selected. rewrite Hns, Hml, map_to_list_empty. simpl. rewrite andb_true_r, forallb_forall, Forall_forall.
  setoid_rewrite list_elem_of_In. split.
  - intros (Hsel & [key o'] & -> & Hin%list_elem_of_In%elem_of_map_to_list). split; [by exists key|done].
  - intros [(key & Hkey) Hsel]. split; [done|]. exists (key, o). split; [done|]. by apply list_elem_of_In, elem_of_map_to_list.
Qed.

Definition assignment := GetQueueNameOfNodePool assignerConfig "p" "gpu".

Lemma project_queues_serve_the_assigner_witness :
  (run memServer assignment reconciled).1 = inr "p-gpu" /\
  exists queue, Name (qMeta queue) = "p-gpu" /\
    exists key spec, reconciled KQueue !! key = Some queue /\ spec ∈ prjQueues twoPools /\ qcNodepool spec = "gpu" /\
      writtenFor demoProjectConfig kaiVersion twoPools spec queue.
Proof.
  split; [by vm_compute|].
  destruct (project_queues_serve_the_assigner demoProjectConfig assignerConfig kaiVersion twoPools "gpu"
    (LineDemo.answered [] (Assigner.createRequirementsForQueuesList assignerConfig "p" "gpu")) reconciled
    (run_trace memServer assignment reconciled) (inr "p-gpu")) as [_ H].
  - by vm_compute.
  - intros key queue Hq _. by apply (reconciled_written key).
  - assert (inr "p-gpu" = (run memServer assignment reconciled).1) as -> by by vm_compute. apply run_exec.
  - apply Forall_cons. split; [by apply memServer_lists|]. apply Forall_nil. exact I.
  - exact H.
Defined.

End CompositionDemo.
